(* ===== verification/_CoqProject ===== *)
-Q . S2P
Prelude.v
Bitset.v
Iobuf.v
Pool.v
Lpmtree.v
Request.v
Codec.v
Stdio.v
Errors.v
Response.v
Modules.v
Builtin.v
Server.v
Semops.v
Config.v
Process.v
Socketops.v
Address.v
Asiobuf.v
Asiorw.v
Bufstream.v
Sockservice.v
Service.v
Redis.v
Opqueue.v
Timetraits.v
Binheap.v
Timerqueue.v
Timers.v
Ioservice.v
Epoll.v
Eventloop.v
Eventorder.v
Asyncops.v
Streambuf.v
Readuntil.v
Bufiter.v
Strand.v
Threads.v
Hashmap.v
Reactorqueue.v
Registry.v
