(* ===== verification/Prelude.v ===== *)
(** * cohttpd: a verification library for a coroutine HTTP server

    cohttpd (src/src) forks workers that share a listening socket.  A worker
    runs one coroutine per connection; a connection reads a request into chunks
    of a pool, feeds them to a callback parser, looks up a module by the path,
    lets it fill a response in chunks of the same pool, and writes that.

    ** Conventions

    A C++ function is a function on its state that returns an [outcome]: [Ok],
    [Throws] for an exception, [Crash] for undefined behaviour or a failed
    assertion.  Machine integers are [Z] with their wrap-around written out
    ([u64], [i32], ...); signed overflow is [Crash].  Object members keep their
    names ([wpos], [bits_], [header_]); an operation [C::f] is [f], or [C_f]
    where the name is taken.  Bytes are [Byte.byte].

    A loop that is not structural takes fuel and returns [None] when it runs
    out.  The fuel of each is chosen by its caller in the model, and a theorem
    says that it is enough: the number of fields for [lower_bound], the unread
    bytes plus one for [Codec.parse], the limit of the options for
    [Server.recv_loop], each of whose rounds reads a byte or more, the block length plus two for [append], ten rounds for
    error reports as in the source.  Only the number of requests of a
    connection, [conn_parse], has no bound: its theorem holds for any fuel.

    Code that is not in the repository is a class with its documented laws:
    http-parser ([HttpParser], [HttpExecute], [HttpParseUrl]), [std::sort]
    ([FieldSort]), growth of vectors ([VecGrow]), [errno] ([Errno]), yaml-cpp
    ([Yaml]), boost's tokenizer and lexical_cast ([Tokens]), libgo's channels
    ([Channel]), hiredis ([Hiredis]), epoll and timer descriptors
    ([EpollKernel]), address texts and interface names ([Inet]), the growth of a
    stream buffer ([VecResize]) and whether it has the memory ([Memory]), the results
    of [malloc] and [fork].  The server's sockets and acceptor are those of the
    installed Boost.Asio ([Trans], [Listener], [Acceptor]) and its timers those of
    libgo ([TimerLib]).  Each class has an instance, on which the witnesses compute;
    [Listener] has none, its theorem assumes only that its operations return or throw.  [Time_Traits] is a class of the
    program itself, what a timer queue needs of a clock; [Time_Range] says which
    times are near enough to be subtracted.

    The repository also holds asio itself (src/src/3rd/asio-1.10.8), which the
    build does not use: the server is compiled against Boost.Asio.  It is modelled
    as a library of its own, in the [io] monad over a [Kernel], with what POSIX
    promises of it as [KernelLaws]; no theorem on the server uses it.  Of each [#if] it
    is the branch for Linux.  The fuel of its loops is one more than the
    [patience] of the kernel (how often in a row it may say "again") or two more
    than the bytes to move; a search of [read_until] has as many reads as there is
    room in its buffer.

    ** Files

    - Prelude (this file): outcomes, arrays, machine words, bytes and C strings.
    - Bitset (bitset.hpp, bitset.cpp): a bit vector in 64-bit blocks.  The
      abstract view is [bit : bitset -> Z -> bool]; each operation is described
      by its bits and keeps [wf], including the unused bits of the last block.
    - Iobuf (iobufs.hpp): the buffer header with its positions, slices over a
      byte memory, and [BufAlloc], what a client needs of an allocator.
    - Pool (iobufs.cpp): the chunk pool as a state machine with its clients;
      chunks handed out are disjoint and inside the pool, for chunk counts that
      are multiples of 64; [pool_implements_alloc] discharges [BufAlloc], while [malloc]
      gives memory; [pool_safe] says what becomes of a null pointer, which is not
      tested for.
    - Lpmtree (lpmtree.hpp): refines a finite map with longest-prefix search.
    - Request (request.hpp, request.cpp): the request and header lookup by
      binary search.
    - Codec (codecs.hpp, codecs.cpp): the parser callbacks and the loop that
      drives the parser; termination and what a call returns, and independence
      of how the input is cut, for the URL, the header and the body.
    - Stdio, Errors (errors.hpp, errors.cpp): [snprintf] and error reports.
    - Response (response.hpp, response.cpp): header and body buffers in a shared
      store, proved against [BufAlloc]; what each call appends, and what happens
      at and beyond the end of a chunk.
    - Modules (handler.hpp, modules.hpp, modules.cpp): the module interface and
      the table of modules, a refinement of a map from case-folded paths.
    - Builtin (modules/hello, default, redis): the pages of the shipped modules.
    - Server (http_connection of server.hpp and server.cpp): a connection from its
      first read to its destruction, over a socket and a timer library given by
      [TransLaws] and [TimerLaws].  [process_request] is total and safe for every
      input, gives up only for a reason ([gave_up]) and writes what the module has put
      into the response ([served]); a site of the [hello] and the [default] module
      answers each request with its page ([site_answers], from the peer's bytes to
      the bytes sent); timers never outlive the connection, identifiers are unique.
      Modules keep the contract [handler_ok].
    - Semops (semops.cpp): the accept semaphore over the kernel's semaphores.
    - Config (load_config of cohttp.cpp): reading the options, with the exceptions
      that are caught and those that are not.
    - Process (main, do_fork, check_alive of cohttp.cpp): starting and
      restarting workers.
    - Socketops (asio/detail/impl/socket_ops.ipp): the system calls of a socket
      and the loops around them, over a kernel.
    - Address (asio/ip/impl/address*.ipp, ip/detail/impl/endpoint.ipp): addresses
      and endpoints, their classes, order ([addresses_ordered]) and texts
      ([address_text_roundtrip]).
    - Asiobuf (asio/buffer.hpp, detail/consuming_buffers.hpp and
      buffer_sequence_adapter.hpp, completion_condition.hpp): buffer sequences,
      refining lists of bytes.
    - Asiorw (asio/impl/write.hpp, impl/read.hpp): reading and writing until a
      condition is met, on any stream that keeps [write_stream_ok] and on a
      connected socket, which does.
    - Bufstream (asio/buffered_write_stream.hpp, buffered_read_stream.hpp and
      detail/buffered_stream_storage.hpp): streams that buffer what is written and
      read, over any next layer, refining queues of bytes
      ([buffered_write_refines], [buffered_read_refines]).
    - Sockservice (asio/detail/reactive_socket_service.hpp and its base,
      socket_holder.hpp): socket objects and the descriptors they own.  The
      reactor is the interface [Reactor]; [descriptors_owned] holds for every
      reactor that keeps [DescriptorLaws], whose [bad_closes] counts the closings of
      descriptors that are not open.
    - Service (main of cohttp.cpp, http_service of server.cpp): opening the
      listening socket; [service_start] with its accept loop, which constructs
      connections, refines [Server.service_loop] and ends when a constructor throws;
      and the semaphore.
    - Redis (modules/redis.cpp): the servers of the configuration, and the
      coroutine per server with the callbacks of the connections as a step
      relation [sys_step]; while no reply is late each page shows the replies to
      its own commands ([redis_replies_match]).  The iterator that a coroutine keeps
      into the table of reply channels is the number of rehashes when it was taken:
      it is used undefined after the entry is erased ([redis_late_replies]) or the
      table rehashed ([redis_rehash_dangles]).
    - Opqueue (asio/detail/op_queue.hpp): intrusive queues over a memory of links
      refine lists; the files below use lists.
    - Timetraits (asio/detail/chrono_time_traits.hpp): the clock of a timer.
    - Binheap: lemmas on binary heaps in a list, for any strict weak order.
    - Timerqueue, Timers (asio/detail/timer_queue.hpp): the operations of a timer
      queue, and that it refines a map from timers to their expiry and their
      waiting operations, with the fuel of its loops (the size of the heap, or
      the number of timers) proved enough.
    - Ioservice (asio/detail/impl/task_io_service.ipp), Epoll (epoll_reactor.ipp
      and .hpp, object_pool.hpp): the service and the reactor, operation by
      operation.
    - Eventloop: both together, with a client that calls them between the rounds
      of the loop and in its handlers, as sequences of [call]s.  Each operation
      that is started is completed once ([operations_complete_once]), and the
      service stops when none is left ([service_stops]).  Both hold for any
      kernel and any events it reports.
    - Eventorder: operations of one type on one descriptor finish in the order in
      which they were started ([operations_in_order]), for every kernel that is
      watched ([FinishLog]).
    - Asyncops (reactive_socket_service_base, reactive_socket_*_op.hpp): the sends,
      receives, accepts and connects that a client starts and the reactor tries;
      [async_world] is a kernel for the event loop made of a kernel for system calls.
      Each call is system calls and one call of the loop ([socket_call_runs]), so that
      the theorems on the loop hold of these operations ([async_complete_once]).
    - Streambuf (asio/basic_streambuf.hpp): a buffer with a put and a get position
      refines a queue of bytes.
    - Readuntil (asio/impl/read_until.hpp): reading until a character, a string or
      a condition is met; [Searcher] is what the loop needs of a search, and each
      search is one.  The chain of handlers gives what the loop gives on a stream that
      answers it the same.
    - Bufiter (asio/buffers_iterator.hpp): an iterator over a buffer sequence
      refines a position in its bytes.
    - Strand (asio/detail/impl/strand_service.ipp and .hpp): strands, for every
      interleaving of threads: the handlers run one at a time and in order
      ([strand_serial]), and all of them ([strand_drains]).
    - Threads (task_io_service.ipp again, posix_event.hpp): any number of threads in
      [run], [run_one], [poll] and [poll_one], with the event they wait for, as
      interleaved sections of the mutex.  No wake-up is lost in [run] and [poll]
      ([no_lost_wakeup]), one is in [run_one] ([run_one_loses_wakeup]), and the count of
      work is right ([work_counted]).
    - Hashmap (asio/detail/hash_map.hpp): a hash table whose entries are in one linked
      list, with nodes that are recycled, refines a map ([hash_map_refines]).
    - Reactorqueue (asio/detail/reactor_op_queue.hpp): the operations that wait for a
      descriptor, in such a table ([reactor_op_queue_refines]).
    - Registry (asio/detail/impl/service_registry.ipp): the services of an io_service,
      for any number of threads, with constructors and destructors that call it: one
      service of each kind ([services_unique]), destroyed before those it used
      ([teardown_order]); [loser_deadlocks] is a deadlock.

    The theorems with "error" in their subject state, for inputs at the limits,
    what the code does there; several of them are defects ([shr_out_of_bounds],
    [pool_overrun], [append_dangling], [content_type_overrun], [header_limits],
    [printf_limits], [query_misses_handler], [trailer_field_not_found],
    [semops_never_locks], [accept_mutex], [exit_follows_init_flag],
    [empty_key_not_found], [async_write_empty_head], [redis_late_replies],
    [redis_rehash_dangles],
    [prepare_throws], [sb_consume_wraps], [scope_overrun], [endpoint_roundtrip],
    [accept_arguments_swapped], [run_one_loses_wakeup], [loser_deadlocks],
    [flush_sends_twice], [write_some_error_and_count]).

    ** Not modelled

    Logging, resource limits, the coroutine scheduler, the rest of the vendored
    asio (other systems, SSL, resolvers, signals), doctest, and the unit tests.  Of the event loop: nested calls of
    [run], internal descriptors, several timer queues in one reactor, and what it does
    after a fork.  Coroutines are cooperative
    and the objects of a connection belong to one of them: its operations run
    in the order of the source.  The timers interleave with them: a request is
    followed without an expiry in it, and the expirations, in any order with what
    the connection and others do to timers, are [timer_step].  To the request an expiry
    is a socket that has been shut down, which any [Trans] may answer as.  The destruction of a shared pointer is the step [release]
    or [free] of Pool; in Response and Server the store keeps the buffer, which
    is sound because no operation there depends on a buffer being gone. *)
From stdpp Require Export base option list numbers decidable countable gmap.
From Stdlib Require Export ZArith Lia.
From Stdlib Require Strings.Byte Strings.String.
Export Stdlib.Strings.String.StringSyntax.

(** ** Scopes and notations *)
Declare Scope cpp_scope.
Delimit Scope cpp_scope with cpp.
#[global] Open Scope Z_scope.

(** ** Outcomes of a C++ operation

    [Ok a] is a normal return, [Throws e] an exception that leaves the
    function, and [Crash f] everything the language gives no meaning to
    (undefined behaviour) together with a failed [assert] and [std::terminate]. *)
Inductive fault :=
  | AssertFails
  | OutOfBounds
  | DanglingReference
  | NullDereference
  | SignedOverflow
  | Terminate.

Inductive exn :=
  | RuntimeError (what : list Byte.byte)
  | LogicError (what : list Byte.byte)
  | SystemError (code : Z)
  | BadCast
  | BadAlloc.

Inductive outcome (A : Type) :=
  | Ok (a : A)
  | Throws (e : exn)
  | Crash (f : fault).
Arguments Ok {A} a.
Arguments Throws {A} e.
Arguments Crash {A} f.

#[export] Instance fault_eq_dec : EqDecision fault.
Proof. solve_decision. Defined.

#[export] Instance outcome_ret : MRet outcome := fun A a => Ok a.
#[export] Instance outcome_bind : MBind outcome := fun A B f m =>
  match m with
  | Ok a => f a
  | Throws e => Throws e
  | Crash x => Crash x
  end.
#[export] Instance outcome_fmap : FMap outcome := fun A B f m =>
  match m with
  | Ok a => Ok (f a)
  | Throws e => Throws e
  | Crash x => Crash x
  end.

Definition is_ok {A} (m : outcome A) : bool :=
  match m with Ok _ => true | _ => false end.

(** [assert(cond)] of <cassert>, with assertions enabled. *)
Definition assert_ (c : bool) : outcome unit :=
  if c then Ok tt else Crash AssertFails.

Lemma bind_Ok {A B} (m : outcome A) (f : A -> outcome B) b :
  (m ≫= f) = Ok b <-> exists a, m = Ok a /\ f a = Ok b.
Proof.
  destruct m; cbn; split; try (intros H; discriminate);
    try (intros (? & ? & ?); congruence).
  eauto.
Qed.

Lemma bind_assoc {A B C} (m : outcome A) (f : A -> outcome B) (g : B -> outcome C) :
  ((m ≫= f) ≫= g) = (m ≫= fun a => f a ≫= g).
Proof. by destruct m. Qed.

Lemma bind_ret_r {A} (m : outcome A) : (m ≫= fun a => Ok a) = m.
Proof. by destruct m. Qed.

(** Steps a monadic definition whose head call is known. *)
Ltac run :=
  repeat first
    [ progress cbn [mbind outcome_bind mret outcome_ret fmap outcome_fmap assert_]
    | match goal with H : ?m = Ok _ |- context [?m ≫= _] => rewrite H end ].

(** ** Arrays: [v[i]] with an unsigned index *)
Definition vget {A} (l : list A) (i : Z) : outcome A :=
  if 0 <=? i
  then match l !! Z.to_nat i with Some x => Ok x | None => Crash OutOfBounds end
  else Crash OutOfBounds.

Definition vset {A} (l : list A) (i : Z) (x : A) : outcome (list A) :=
  if (0 <=? i) && (i <? Z.of_nat (length l))
  then Ok (<[Z.to_nat i := x]> l)
  else Crash OutOfBounds.

Definition vlen {A} (l : list A) : Z := Z.of_nat (length l).

Lemma vlen_nonneg {A} (l : list A) : 0 <= vlen l.
Proof. unfold vlen. lia. Qed.

Lemma vlen_zero {A} (l : list A) : vlen l = 0 -> l = [].
Proof. unfold vlen. intros H. apply nil_length_inv. lia. Qed.

Lemma vlen_app {A} (l k : list A) : vlen (l ++ k) = vlen l + vlen k.
Proof. unfold vlen. rewrite length_app. lia. Qed.

Lemma vlen_perm {A} (l l' : list A) : l ≡ₚ l' -> vlen l = vlen l'.
Proof. intros Hl. unfold vlen. by rewrite Hl. Qed.

Lemma vlen_insert {A} (l : list A) n x : vlen (<[n := x]> l) = vlen l.
Proof. unfold vlen. by rewrite length_insert. Qed.

Lemma list_bind_ext_in {A B} (f g : A -> list B) l : (forall x, x ∈ l -> f x = g x) -> l ≫= f = l ≫= g.
Proof.
  induction l as [|x l IH]; intros Hf; [done|]. rewrite !bind_cons, IH by (intros y Hy; apply Hf; by right).
  by rewrite Hf by left.
Qed.

Lemma total_insert {A} `{Inhabited A} (f : gmap Z A) k k' a :
  <[k := a]> f !!! k' = if decide (k = k') then a else f !!! k'.
Proof.
  destruct (decide (k = k')) as [-> |Hk]; [apply lookup_total_insert_eq|by apply lookup_total_insert_ne].
Qed.

(** ** Sums over a map *)
Definition msum {A} (f : A -> Z) (m : gmap Z A) : Z := map_fold (fun _ x n => f x + n) 0 m.

Section Sums.
Context {A : Type}.
Implicit Types (f g : A -> Z) (m : gmap Z A).

Lemma msum_empty f : msum f ∅ = 0.
Proof. apply map_fold_empty. Qed.

Lemma msum_new f m k x : m !! k = None -> msum f (<[k := x]> m) = f x + msum f m.
Proof. intros Hm. unfold msum. rewrite map_fold_insert_L; [done|intros; lia|done]. Qed.

Lemma msum_delete f m k x : m !! k = Some x -> msum f m = f x + msum f (delete k m).
Proof. intros Hm. unfold msum. rewrite (map_fold_delete_L _ _ k x m); [done|intros; lia|done]. Qed.

Lemma msum_le f g m : (forall x, f x <= g x) -> msum f m <= msum g m.
Proof.
  intros Hfg. induction m as [|k x m Hm IH] using map_ind; [by rewrite !msum_empty|].
  rewrite !msum_new by done. specialize (Hfg x). lia.
Qed.

Lemma msum_add f g m : msum (fun x => f x + g x) m = msum f m + msum g m.
Proof.
  induction m as [|k x m Hm IH] using map_ind; [by rewrite !msum_empty|]. rewrite !msum_new, IH by done. lia.
Qed.

Lemma msum_zero m : msum (fun _ => 0) m = 0.
Proof. induction m as [|k x m Hm IH] using map_ind; [by rewrite !msum_empty|]. by rewrite msum_new, IH. Qed.

Lemma msum_ext f g m : (forall x, f x = g x) -> msum f m = msum g m.
Proof.
  intros Hfg. apply Z.le_antisymm; apply msum_le; intros x; by rewrite Hfg.
Qed.

Lemma msum_nonneg f m : (forall x, 0 <= f x) -> 0 <= msum f m.
Proof. intros Hf. rewrite <- (msum_zero m). by apply msum_le. Qed.

Lemma msum_nonneg_in f m : (forall k x, m !! k = Some x -> 0 <= f x) ->
  0 <= msum f m /\ (msum f m = 0 -> forall k x, m !! k = Some x -> f x = 0).
Proof.
  induction m as [|k x m Hm IH] using map_ind; intros Hf.
  { rewrite msum_empty. split; [done|]. intros _ k x E. by rewrite lookup_empty in E. }
  rewrite msum_new by done. destruct IH as [H1 H2].
  { intros j y E. apply (Hf j). rewrite lookup_insert_ne; [done|]. by intros ->; rewrite Hm in E. }
  assert (0 <= f x) by (apply (Hf k); apply lookup_insert_eq). split; [lia|].
  intros H0 j y [[<- <-]|[_ E]]%lookup_insert_Some; [lia|]. eapply H2; [lia|done].
Qed.

Lemma msum_fmap f (g : A -> A) m : msum f (g <$> m) = msum (fun x => f (g x)) m.
Proof.
  induction m as [|k x m Hm IH] using map_ind; [by rewrite fmap_empty, !msum_empty|].
  rewrite fmap_insert, !msum_new, IH; [done|done|by rewrite lookup_fmap, Hm].
Qed.

Context `{Inhabited A}.

Lemma msum_insert f m k x : f inhabitant = 0 -> msum f (<[k := x]> m) = msum f m - f (m !!! k) + f x.
Proof.
  intros Hf. rewrite lookup_total_alt. destruct (m !! k) as [y|] eqn:E; cbn [default from_option id].
  - rewrite <- insert_delete_eq, msum_new by apply lookup_delete_eq. rewrite (msum_delete f m k y E). lia.
  - rewrite msum_new, Hf by done. lia.
Qed.

Lemma msum_ge f m k : (forall x, 0 <= f x) -> f inhabitant = 0 -> f (m !!! k) <= msum f m.
Proof.
  intros Hf H0. rewrite lookup_total_alt. destruct (m !! k) as [x|] eqn:E; cbn [default from_option id].
  - rewrite (msum_delete f m k x E). pose proof (msum_nonneg f (delete k m) Hf). lia.
  - rewrite H0. by apply msum_nonneg.
Qed.

Lemma msum_pos f m : 0 < msum f m -> exists k x, m !! k = Some x /\ 0 < f x.
Proof.
  induction m as [|k x m Hm IH] using map_ind; [by rewrite msum_empty|].
  rewrite msum_new by done. intros Hs. destruct (Z.lt_ge_cases 0 (f x)) as [Hx|Hx].
  - exists k, x. by rewrite lookup_insert_eq.
  - destruct IH as (k' & y & Hk' & Hy); [lia|]. exists k', y. rewrite lookup_insert_ne by congruence. done.
Qed.
End Sums.

(** The lists that the values of a map stand for, one after the other *)
Definition mcat {A B} (f : A -> list B) (m : gmap Z A) : list B := map_to_list m ≫= fun p => f p.2.

Lemma mcat_empty {A B} (f : A -> list B) : mcat f ∅ = [].
Proof. unfold mcat. by rewrite map_to_list_empty. Qed.

Lemma mcat_insert {A B} `{Inhabited A} (f : A -> list B) (m : gmap Z A) k x : f inhabitant = [] ->
  mcat f (<[k := x]> m) ++ f (m !!! k) ≡ₚ mcat f m ++ f x.
Proof.
  intros Hf. unfold mcat. rewrite lookup_total_alt. destruct (m !! k) as [y|] eqn:E; cbn [default from_option id].
  - rewrite <- insert_delete_eq, map_to_list_insert by apply lookup_delete_eq. rewrite bind_cons.
    rewrite <- (map_to_list_delete m k y E), bind_cons. cbn [snd]. solve_Permutation.
  - rewrite map_to_list_insert, bind_cons by done. cbn [snd]. rewrite Hf. solve_Permutation.
Qed.

Lemma mcat_fmap {A B} (f : A -> list B) (g : A -> A) (m : gmap Z A) : (forall x, f (g x) = f x) -> mcat f (g <$> m) = mcat f m.
Proof.
  intros Hfg. unfold mcat. rewrite map_to_list_fmap. induction (map_to_list m) as [|[k x] l IH]; [done|].
  rewrite fmap_cons, !bind_cons, IH. cbn [snd prod_map]. by rewrite Hfg.
Qed.

Lemma mcat_nil {A B} (f : A -> list B) (m : gmap Z A) : (forall k x, m !! k = Some x -> f x = []) -> mcat f m = [].
Proof.
  intros Hf. unfold mcat. apply elem_of_nil_inv. intros y Hin. apply list_elem_of_bind in Hin as ([k x] & Hin & Hm).
  apply elem_of_map_to_list in Hm. cbn [snd] in Hin. rewrite (Hf k x Hm) in Hin. by apply elem_of_nil in Hin.
Qed.

Lemma vget_Ok {A} (l : list A) i x :
  vget l i = Ok x <-> 0 <= i /\ l !! Z.to_nat i = Some x.
Proof.
  unfold vget. destruct (Z.leb_spec 0 i).
  - destruct (l !! Z.to_nat i); split; intros E; [by simplify_eq|..];
      destruct_and?; by simplify_eq.
  - split; [done|lia].
Qed.

Lemma vget_nat {A} (l : list A) (n : nat) x :
  l !! n = Some x -> vget l (Z.of_nat n) = Ok x.
Proof. intros H. apply vget_Ok. rewrite Nat2Z.id. auto with lia. Qed.

Lemma vget_in_range {A} (l : list A) i :
  0 <= i < vlen l -> exists x, vget l i = Ok x.
Proof.
  intros H. destruct (lookup_lt_is_Some_2 l (Z.to_nat i)) as [x Hx].
  - unfold vlen in H. lia.
  - exists x. apply vget_Ok. auto with lia.
Qed.

Lemma vget_out_of_range {A} (l : list A) i :
  ~ (0 <= i < vlen l) -> vget l i = Crash OutOfBounds.
Proof.
  intros H. unfold vget, vlen in *. destruct (Z.leb_spec 0 i); [|done].
  rewrite lookup_ge_None_2; [done|lia].
Qed.

Lemma vset_in_range {A} (l : list A) i x :
  0 <= i < vlen l -> vset l i x = Ok (<[Z.to_nat i := x]> l).
Proof.
  intros H. unfold vset, vlen in *.
  by rewrite (proj2 (Z.leb_le 0 i)), (proj2 (Z.ltb_lt i _)) by lia.
Qed.

Lemma vset_out_of_range {A} (l : list A) i x :
  ~ (0 <= i < vlen l) -> vset l i x = Crash OutOfBounds.
Proof.
  intros H. unfold vset, vlen in *.
  destruct (Z.leb_spec 0 i), (Z.ltb_spec i (Z.of_nat (length l))); cbn; lia || done.
Qed.

(** ** Machine integers *)
Definition u64 (z : Z) : Z := z mod 2 ^ 64.
Definition u32 (z : Z) : Z := z mod 2 ^ 32.
Definition u16 (z : Z) : Z := z mod 2 ^ 16.
Definition i32 (z : Z) : Z := (z + 2 ^ 31) mod 2 ^ 32 - 2 ^ 31.
Definition i64 (z : Z) : Z := (z + 2 ^ 63) mod 2 ^ 64 - 2 ^ 63.

(** [static_cast<size_t>(-1)] *)
Definition SIZE_MAX : Z := 2 ^ 64 - 1.

Definition in_u64 (z : Z) : Prop := 0 <= z < 2 ^ 64.
Definition in_i32 (z : Z) : Prop := - 2 ^ 31 <= z < 2 ^ 31.

Ltac ulia := unfold in_u64, in_i32 in *; lia.

Lemma u64_range z : in_u64 (u64 z).
Proof. apply Z.mod_pos_bound. lia. Qed.
Lemma u64_id z : in_u64 z -> u64 z = z.
Proof. apply Z.mod_small. Qed.
Lemma u64_nonneg z : 0 <= u64 z.
Proof. apply u64_range. Qed.
Lemma u32_range z : 0 <= u32 z < 2 ^ 32.
Proof. apply Z.mod_pos_bound. lia. Qed.
Lemma u32_id z : 0 <= z < 2 ^ 32 -> u32 z = z.
Proof. apply Z.mod_small. Qed.
Lemma i32_range z : in_i32 (i32 z).
Proof. unfold i32, in_i32. pose proof (Z.mod_pos_bound (z + 2 ^ 31) (2 ^ 32)). lia. Qed.
Lemma i32_id z : in_i32 z -> i32 z = z.
Proof. unfold i32, in_i32. intros. rewrite Z.mod_small; lia. Qed.
Lemma i64_id z : - 2 ^ 63 <= z < 2 ^ 63 -> i64 z = z.
Proof. intros. unfold i64. rewrite Z.mod_small; lia. Qed.

(** Signed [int] addition: overflow is undefined behaviour. *)
Definition add_int (x y : Z) : outcome Z :=
  if (- 2 ^ 31 <=? x + y) && (x + y <? 2 ^ 31) then Ok (x + y) else Crash SignedOverflow.
Definition mul_int (x y : Z) : outcome Z :=
  if (- 2 ^ 31 <=? x * y) && (x * y <? 2 ^ 31) then Ok (x * y) else Crash SignedOverflow.

Lemma add_int_Ok x y : in_i32 (x + y) -> add_int x y = Ok (x + y).
Proof.
  unfold add_int, in_i32. intros H.
  by rewrite (proj2 (Z.leb_le _ _)), (proj2 (Z.ltb_lt _ _)) by lia.
Qed.

(** Bitwise operators on [size_t]; the shift counts of the program are below
    64, where the C++ operators are these. *)
Definition shl64 (x n : Z) : Z := u64 (Z.shiftl x n).
Definition shr64 (x n : Z) : Z := Z.shiftr x n.
Definition not64 (x : Z) : Z := u64 (Z.lnot x).

Create HintDb word.
Create Rewrite HintDb bits.

Lemma testbit_u64 z i : 0 <= i -> Z.testbit (u64 z) i = (i <? 64) && Z.testbit z i.
Proof.
  intros Hi. unfold u64. destruct (Z.ltb_spec i 64); cbn [andb].
  - by rewrite Z.mod_pow2_bits_low by lia.
  - by rewrite Z.mod_pow2_bits_high by lia.
Qed.

Lemma testbit_shl64 x n i :
  0 <= i -> 0 <= n -> Z.testbit (shl64 x n) i = (i <? 64) && Z.testbit x (i - n).
Proof. intros. unfold shl64. rewrite testbit_u64 by lia. by rewrite Z.shiftl_spec by lia. Qed.

Lemma testbit_shr64 x n i : 0 <= i -> Z.testbit (shr64 x n) i = Z.testbit x (i + n).
Proof. intros. by apply Z.shiftr_spec. Qed.

Lemma testbit_not64 x i : 0 <= i -> Z.testbit (not64 x) i = (i <? 64) && negb (Z.testbit x i).
Proof. intros. unfold not64. by rewrite testbit_u64, Z.lnot_spec by lia. Qed.

Lemma testbit_ones64 i : 0 <= i -> Z.testbit (not64 0) i = (i <? 64).
Proof. intros. by rewrite testbit_not64, Z.bits_0, andb_true_r by lia. Qed.

(** [~block_type(0) << n] *)
Lemma testbit_ones_from n i :
  0 <= i -> 0 <= n -> Z.testbit (shl64 (not64 0) n) i = (n <=? i) && (i <? 64).
Proof.
  intros. rewrite testbit_shl64 by lia. destruct (Z.leb_spec n i); cbn [andb].
  - rewrite testbit_ones64 by lia.
    destruct (Z.ltb_spec i 64), (Z.ltb_spec (i - n) 64); done || lia.
  - rewrite Z.testbit_neg_r by lia. by rewrite andb_false_r.
Qed.

Lemma testbit_one_bit n i : 0 <= n -> 0 <= i -> Z.testbit (Z.shiftl 1 n) i = (i =? n).
Proof.
  intros. rewrite Z.shiftl_1_l, Z.pow2_bits_eqb by lia.
  by rewrite Z.eqb_sym.
Qed.

(** A word is determined by its low 64 bits. *)
Lemma in_u64_bits x : in_u64 x <-> 0 <= x /\ forall i, 64 <= i -> Z.testbit x i = false.
Proof.
  split.
  - intros [H0 H1]. split; [done|]. intros i Hi.
    rewrite <- (Z.mod_small x (2 ^ 64)) by lia. apply Z.mod_pow2_bits_high. lia.
  - intros [H0 H1]. split; [done|].
    destruct (Z.eq_dec x 0) as [->|Hx]; [lia|].
    apply Z.log2_lt_pow2; [lia|].
    destruct (Z.lt_ge_cases (Z.log2 x) 64) as [|Hge]; [done|].
    pose proof (Z.bit_log2 x ltac:(lia)) as Hb. by rewrite H1 in Hb.
Qed.

Lemma word_bit_high x i : in_u64 x -> 64 <= i -> Z.testbit x i = false.
Proof. intros [_ H]%in_u64_bits. apply H. Qed.

Lemma word_eq x y :
  in_u64 x -> in_u64 y -> (forall i, 0 <= i < 64 -> Z.testbit x i = Z.testbit y i) -> x = y.
Proof.
  intros Hx Hy H. apply Z.bits_inj'. intros i Hi.
  destruct (Z.lt_ge_cases i 64); [apply H; lia|].
  by rewrite !word_bit_high by done.
Qed.

Lemma in_u64_lor x y : in_u64 x -> in_u64 y -> in_u64 (Z.lor x y).
Proof.
  rewrite !in_u64_bits. intros [? H] [? K]. split.
  - by apply Z.lor_nonneg.
  - intros i Hi. by rewrite Z.lor_spec, H, K.
Qed.
Lemma in_u64_land x y : in_u64 x -> in_u64 y -> in_u64 (Z.land x y).
Proof.
  rewrite !in_u64_bits. intros [? H] [? K]. split.
  - apply Z.land_nonneg. auto.
  - intros i Hi. by rewrite Z.land_spec, H.
Qed.
Lemma in_u64_lxor x y : in_u64 x -> in_u64 y -> in_u64 (Z.lxor x y).
Proof.
  rewrite !in_u64_bits. intros [? H] [? K]. split.
  - apply Z.lxor_nonneg. lia.
  - intros i Hi. by rewrite Z.lxor_spec, H, K.
Qed.
Lemma in_u64_shl64 x n : in_u64 (shl64 x n).
Proof. apply u64_range. Qed.
Lemma in_u64_not64 x : in_u64 (not64 x).
Proof. apply u64_range. Qed.
Lemma in_u64_shr64 x n : 0 <= n -> in_u64 x -> in_u64 (shr64 x n).
Proof.
  rewrite !in_u64_bits. intros Hn [? H]. split.
  - by apply Z.shiftr_nonneg.
  - intros i Hi. rewrite testbit_shr64 by lia. apply H. lia.
Qed.
Lemma in_u64_0 : in_u64 0.
Proof. unfold in_u64. lia. Qed.

#[export] Hint Resolve u64_range in_u64_lor in_u64_land in_u64_lxor in_u64_shl64
  in_u64_not64 in_u64_shr64 in_u64_0 : word.
#[export] Hint Rewrite Z.lor_spec Z.land_spec Z.lxor_spec Z.bits_0 : bits.
#[export] Hint Rewrite testbit_shl64 testbit_shr64 testbit_not64 testbit_one_bit
  using lia : bits.

(** Splits on the integer comparisons that occur in the goal. *)
Ltac zcases :=
  repeat match goal with
  | |- context [?x <? ?y] => destruct (Z.ltb_spec x y)
  | |- context [?x <=? ?y] => destruct (Z.leb_spec x y)
  | |- context [?x =? ?y] => destruct (Z.eqb_spec x y)
  end; cbn [andb orb negb]; try lia; try done.

(** ** Bytes and C strings *)
Abbreviation byte := Byte.byte.

#[export] Instance byte_eq_dec : EqDecision byte := Byte.byte_eq_dec.
#[export] Instance byte_inhabited : Inhabited byte := populate Byte.x00.
#[export] Program Instance byte_countable : Countable byte :=
  inj_countable Byte.to_N Byte.of_N _.
Next Obligation. apply Byte.of_to_N. Qed.

(** [unsigned char] and (signed) [char] values of a byte. *)
Definition uchar (b : byte) : Z := Z.of_N (Byte.to_N b).
Definition schar (b : byte) : Z := if uchar b <? 128 then uchar b else uchar b - 256.
Definition of_uchar (z : Z) : byte := default Byte.x00 (Byte.of_N (Z.to_N (z mod 256))).

Lemma uchar_range b : 0 <= uchar b < 256.
Proof. unfold uchar. pose proof (Byte.to_N_bounded b). lia. Qed.

Lemma uchar_inj b c : uchar b = uchar c -> b = c.
Proof.
  unfold uchar. intros H%N2Z.inj.
  pose proof (Byte.of_to_N b) as Eb. rewrite H, Byte.of_to_N in Eb. congruence.
Qed.

Lemma of_uchar_uchar b : of_uchar (uchar b) = b.
Proof. by destruct b. Qed.

Lemma uchar_of_uchar z : 0 <= z < 256 -> uchar (of_uchar z) = z.
Proof.
  intros H. unfold of_uchar. rewrite Z.mod_small by lia.
  destruct (Byte.of_N (Z.to_N z)) as [b|] eqn:E; cbn.
  - apply Byte.to_of_N in E. unfold uchar. rewrite E. lia.
  - apply Byte.of_N_None_iff in E. lia.
Qed.

#[export] Hint Resolve uchar_range : word.

(** A string literal of the source, and the bytes of a C string up to its NUL. *)
Definition lit (s : String.string) : list byte := String.list_byte_of_string s.
Arguments lit s%_string_scope.
Definition CRLF : list byte := [Byte.x0d; Byte.x0a].

Fixpoint c_str (s : list byte) : list byte :=
  match s with
  | [] => []
  | b :: s' => if decide (b = Byte.x00) then [] else b :: c_str s'
  end.

Definition no_nul (s : list byte) : Prop := Byte.x00 ∉ s.
#[export] Instance no_nul_dec s : Decision (no_nul s).
Proof. unfold no_nul. apply _. Defined.

Lemma c_str_no_nul s : no_nul s -> c_str s = s.
Proof.
  unfold no_nul. induction s as [|b s IH]; [done|]. intros H. cbn.
  rewrite decide_False by set_solver. f_equal. apply IH. set_solver.
Qed.

Lemma no_nul_c_str s : no_nul (c_str s).
Proof.
  unfold no_nul. induction s as [|b s IH]; cbn; [set_solver|].
  case_decide; set_solver.
Qed.

Lemma no_nul_app s t : no_nul (s ++ t) <-> no_nul s /\ no_nul t.
Proof. unfold no_nul. set_solver. Qed.
