(* ===== verification/Bitset.v ===== *)
(** * The dynamic bitset (src/src/bitset.hpp, src/src/bitset.cpp)

    A [bitset] is a vector of 64-bit blocks and a bit count.  Every operation
    of the class is a definition below, over [list Z] blocks with the wrap of
    [size_t] written out; an index outside the block vector is
    [Crash OutOfBounds], a failed [assert] is [Crash AssertFails].
    The abstract view of a set is the function [bit b : Z -> bool]; [wf] is the
    representation invariant. *)
From S2P Require Import Prelude.

(** ** State *)
Record bitset := Bitset { bits_ : list Z; nums_ : Z }.
Add Printing Constructor bitset.

#[export] Instance bitset_eq_dec : EqDecision bitset.
Proof. solve_decision. Defined.

Definition npos : Z := SIZE_MAX.
Definition bits_per_block : Z := 64.

Definition block_index (i : Z) : Z := i / bits_per_block.
Definition bit_index (i : Z) : Z := i mod bits_per_block.
Definition bit_mask (i : Z) : Z := shl64 1 (bit_index i).
Definition bits_to_block (bits : Z) : Z :=
  bits / bits_per_block + (if bits mod bits_per_block =? 0 then 0 else 1).

Definition set_bits (b : bitset) (l : list Z) : bitset := Bitset l (nums_ b).

Definition bitset_block (b : bitset) : Z := vlen (bits_ b).
Definition bitset_size (b : bitset) : Z := nums_ b.
Definition bitset_empty (b : bitset) : bool := bitset_block b =? 0.
Definition extra_bits (b : bitset) : Z := bit_index (bitset_size b).

(** [bits_.back() &= ~(~block_type(0) << extra_bits())] *)
Definition zero_unused_bits (b : bitset) : outcome bitset :=
  if extra_bits b =? 0 then Ok b
  else
    x ← vget (bits_ b) (bitset_block b - 1);
    l ← vset (bits_ b) (bitset_block b - 1)
             (Z.land x (not64 (shl64 (not64 0) (extra_bits b))));
    Ok (set_bits b l).

(** ** Construction *)
Definition bitset_new : bitset := Bitset [] 0.

Definition bitset_fill (size : Z) (value : bool) : bitset :=
  Bitset (replicate (Z.to_nat (bits_to_block size)) (if value then not64 0 else 0)) size.

Definition bitset_of_blocks (l : list Z) : bitset :=
  Bitset l (u64 (vlen l * bits_per_block)).

Definition bitset_swap (x y : bitset) : bitset * bitset :=
  (Bitset (bits_ y) (nums_ y), Bitset (bits_ x) (nums_ x)).

Definition bitset_clear (b : bitset) : bitset := Bitset [] 0.

(** ** Access to one bit *)
Definition bitset_get (b : bitset) (i : Z) : outcome bool :=
  assert_ (i <? nums_ b) ;;
  x ← vget (bits_ b) (block_index i);
  Ok (negb (Z.land x (bit_mask i) =? 0)).

(** [bits_[block_index(i)] op= ...], shared by set, reset and flip. *)
Definition update_block (b : bitset) (i : Z) (f : Z -> Z) : outcome bitset :=
  assert_ (i <? nums_ b) ;;
  x ← vget (bits_ b) (block_index i);
  l ← vset (bits_ b) (block_index i) (f x);
  Ok (set_bits b l).

Definition bitset_reset_bit (b : bitset) (i : Z) : outcome bitset :=
  update_block b i (fun x => Z.land x (not64 (bit_mask i))).

Definition bitset_set_bit (b : bitset) (i : Z) (v : bool) : outcome bitset :=
  if v then update_block b i (fun x => Z.lor x (bit_mask i))
  else assert_ (i <? nums_ b) ;; bitset_reset_bit b i.

Definition bitset_flip_bit (b : bitset) (i : Z) : outcome bitset :=
  update_block b i (fun x => Z.lxor x (bit_mask i)).

(** ** The proxy [bitset::reference]: a block of the vector and a mask *)
Record reference := Reference { block_ : Z; masks_ : Z }.

Definition reference_new (block i : Z) : outcome reference :=
  assert_ (i <? bits_per_block) ;; Ok (Reference block (shl64 1 i)).

Definition bitset_at (b : bitset) (i : Z) : outcome reference :=
  assert_ (i <? nums_ b) ;;
  _ ← vget (bits_ b) (block_index i);
  reference_new (block_index i) (bit_index i).

Definition reference_apply (r : reference) (f : Z -> Z -> Z) (b : bitset) : outcome bitset :=
  x ← vget (bits_ b) (block_ r);
  l ← vset (bits_ b) (block_ r) (f x (masks_ r));
  Ok (set_bits b l).

Definition reference_flip (r : reference) (b : bitset) : outcome bitset :=
  reference_apply r Z.lxor b.
Definition reference_read (r : reference) (b : bitset) : outcome bool :=
  x ← vget (bits_ b) (block_ r); Ok (negb (Z.land x (masks_ r) =? 0)).
Definition reference_not (r : reference) (b : bitset) : outcome bool :=
  x ← vget (bits_ b) (block_ r); Ok (Z.land x (masks_ r) =? 0).
Definition and_not (x m : Z) : Z := Z.land x (not64 m).
Definition reference_assign (r : reference) (x : bool) (b : bitset) : outcome bitset :=
  if x then reference_apply r Z.lor b else reference_apply r and_not b.
Definition reference_assign_ref (r rhs : reference) (b : bitset) : outcome bitset :=
  x ← reference_read rhs b; reference_assign r x b.
Definition reference_or (r : reference) (x : bool) (b : bitset) : outcome bitset :=
  if x then reference_apply r Z.lor b else Ok b.
Definition reference_and (r : reference) (x : bool) (b : bitset) : outcome bitset :=
  if negb x then reference_apply r and_not b else Ok b.
Definition reference_xor (r : reference) (x : bool) (b : bitset) : outcome bitset :=
  if x then reference_apply r Z.lxor b else Ok b.
Definition reference_sub (r : reference) (x : bool) (b : bitset) : outcome bitset :=
  if x then reference_apply r and_not b else Ok b.

(** ** Whole-set operations *)
Definition bitset_set_all (b : bitset) : outcome bitset :=
  zero_unused_bits (set_bits b (replicate (length (bits_ b)) (not64 0))).

Definition bitset_reset_all (b : bitset) : bitset :=
  set_bits b (replicate (length (bits_ b)) 0).

Definition bitset_flip_all (b : bitset) : outcome bitset :=
  zero_unused_bits (set_bits b (not64 <$> bits_ b)).

Definition bitset_not (b : bitset) : outcome bitset := bitset_flip_all b.

(** [std::vector::resize(n, v)] *)
Definition vresize {A} (n : nat) (v : A) (l : list A) : list A := resize n v l.

Definition bitset_resize (b : bitset) (n : Z) (value : bool) : outcome bitset :=
  let old := bitset_block b in
  let required := bits_to_block n in
  let block_value := if value then not64 0 else 0 in
  let l := if negb (required =? old)
           then vresize (Z.to_nat required) block_value (bits_ b) else bits_ b in
  l ← (if value && (nums_ b <? n) && negb (extra_bits b =? 0)
       then x ← vget l (old - 1);
            vset l (old - 1) (Z.lor x (shl64 block_value (extra_bits b)))
       else Ok l);
  zero_unused_bits (Bitset l n).

Definition bitset_push_back (b : bitset) (bit : bool) : outcome bitset :=
  let s := bitset_size b in
  b ← bitset_resize b (u64 (s + 1)) false;
  bitset_set_bit b s bit.

Definition bitset_append (b : bitset) (x : Z) : outcome bitset :=
  let excess := extra_bits b in
  l ← (if negb (excess =? 0)
       then assert_ (negb (bitset_empty b)) ;;
            let l := bits_ b ++ [shr64 x (bits_per_block - excess)] in
            y ← vget l (vlen l - 2);
            vset l (vlen l - 2) (Z.lor y (shl64 x excess))
       else Ok (bits_ b ++ [x]));
  Ok (Bitset l (u64 (nums_ b + bits_per_block))).

(** ** Shifts *)
(** [for(size_t i = k; i > 0; --i) b[i + off] = e(b, i);] *)
Fixpoint down_loop (e : list Z -> Z -> outcome Z) (off : Z) (k : nat) (l : list Z)
    : outcome (list Z) :=
  match k with
  | O => Ok l
  | S k' =>
    x ← e l (Z.of_nat k);
    l ← vset l (u64 (Z.of_nat k + off)) x;
    down_loop e off k' l
  end.

(** The right-hand sides of the three loops that count down. *)
Definition shl_expr (r : Z) (l : list Z) (i : Z) : outcome Z :=
  x ← vget l i;
  y ← vget l (i - 1);
  Ok (Z.lor (shl64 x r) (shr64 y (bits_per_block - r))).
Definition move_expr (l : list Z) (i : Z) : outcome Z := vget l i.
Definition shr_expr (r : Z) (l : list Z) (i : Z) : outcome Z :=
  x ← vget l i;
  y ← vget l (i + 1);
  Ok (Z.lor (shr64 x r) (shl64 y (bits_per_block - r))).

(** [std::fill_n(&l[first], n, v)] *)
Fixpoint fill_n (first : Z) (n : nat) (v : Z) (l : list Z) : outcome (list Z) :=
  match n with
  | O => Ok l
  | S n' => l ← vset l first v; fill_n (first + 1) n' v l
  end.

Definition bitset_shl_assign (b : bitset) (n : Z) : outcome bitset :=
  if nums_ b <=? n then Ok (bitset_reset_all b)
  else if n =? 0 then Ok b
  else
    let last := bitset_block b - 1 in
    let div := n / bits_per_block in
    let r := bit_index n in
    assert_ (1 <=? bitset_block b) ;;
    assert_ (div <=? last) ;;
    l ← (if negb (r =? 0)
         then l ← down_loop (shl_expr r) div (Z.to_nat (last - div)) (bits_ b);
              x ← vget l 0;
              vset l div (shl64 x r)
         else l ← down_loop move_expr div (Z.to_nat (last - div)) (bits_ b);
              x ← vget l 0;
              vset l div x);
    l ← fill_n 0 (Z.to_nat div) 0 l;
    zero_unused_bits (set_bits b l).

(** [for(i = div; i <= last; ++i) b[i - div] = b[i]], [k] iterations from [i]. *)
Fixpoint shr_move_loop (k : nat) (i div : Z) (l : list Z) : outcome (list Z) :=
  match k with
  | O => Ok l
  | S k' =>
    x ← vget l i;
    l ← vset l (i - div) x;
    shr_move_loop k' (i + 1) div l
  end.

Definition bitset_shr_assign (b : bitset) (n : Z) : outcome bitset :=
  if nums_ b <=? n then Ok (bitset_reset_all b)
  else if n =? 0 then Ok b
  else
    let last := bitset_block b - 1 in
    let div := n / bits_per_block in
    let r := bit_index n in
    assert_ (1 <=? bitset_block b) ;;
    assert_ (div <=? last) ;;
    l ← (if negb (r =? 0)
         then l ← down_loop (shr_expr r) (- div) (Z.to_nat (last - div)) (bits_ b);
              x ← vget l last;
              vset l (last - div) (shr64 x r)
         else shr_move_loop (Z.to_nat (last - div + 1)) div div (bits_ b));
    l ← fill_n (bitset_block b - div) (Z.to_nat div) 0 l;
    Ok (set_bits b l).

Definition bitset_shl (b : bitset) (n : Z) : outcome bitset := bitset_shl_assign b n.
Definition bitset_shr (b : bitset) (n : Z) : outcome bitset := bitset_shr_assign b n.

(** ** Bitwise operators: [for(i = 0; i < b; ++i) bits_[i] op= rhs.bits_[i]] *)
Fixpoint assign_loop (op : Z -> Z -> Z) (k : nat) (i : Z) (l rhs : list Z) : outcome (list Z) :=
  match k with
  | O => Ok l
  | S k' =>
    x ← vget l i;
    y ← vget rhs i;
    l ← vset l i (op x y);
    assign_loop op k' (i + 1) l rhs
  end.

Definition assign_op (op : Z -> Z -> Z) (b rhs : bitset) : outcome bitset :=
  let n := if bitset_block b <? bitset_block rhs then bitset_block b else bitset_block rhs in
  l ← assign_loop op (Z.to_nat n) 0 (bits_ b) (bits_ rhs);
  Ok (set_bits b l).

Definition bitset_and_assign (b rhs : bitset) : outcome bitset := assign_op Z.land b rhs.
Definition bitset_or_assign (b rhs : bitset) : outcome bitset := assign_op Z.lor b rhs.
Definition bitset_xor_assign (b rhs : bitset) : outcome bitset := assign_op Z.lxor b rhs.
Definition bitset_sub_assign (b rhs : bitset) : outcome bitset := assign_op and_not b rhs.

Definition bitset_and (x y : bitset) : outcome bitset := bitset_and_assign x y.
Definition bitset_or (x y : bitset) : outcome bitset := bitset_or_assign x y.
Definition bitset_xor (x y : bitset) : outcome bitset := bitset_xor_assign x y.
Definition bitset_sub (x y : bitset) : outcome bitset := bitset_sub_assign x y.

(** ** Comparison *)
Definition bitset_eq (x y : bitset) : bool :=
  (nums_ x =? nums_ y) && bool_decide (bits_ x = bits_ y).
Definition bitset_ne (x y : bitset) : bool := negb (bitset_eq x y).

(** The loop of [operator<] over the blocks both sides have; [None] when it
    ends without returning. *)
Fixpoint less_loop (xs ys : list Z) : option bool :=
  match xs, ys with
  | x :: xs', y :: ys' =>
    if x <? y then Some true
    else if y <? x then Some false
    else less_loop xs' ys'
  | _, _ => None
  end.

Definition bitset_lt (x y : bitset) : bool :=
  match less_loop (bits_ x) (bits_ y) with
  | Some r => r
  | None => if bitset_size x <? bitset_size y then true else false
  end.

(** ** Counting *)
Definition count_table : list Z := [
  0; 1; 1; 2; 1; 2; 2; 3; 1; 2; 2; 3; 2; 3; 3; 4; 1; 2; 2; 3; 2; 3; 3; 4; 2;
  3; 3; 4; 3; 4; 4; 5; 1; 2; 2; 3; 2; 3; 3; 4; 2; 3; 3; 4; 3; 4; 4; 5; 2; 3;
  3; 4; 3; 4; 4; 5; 3; 4; 4; 5; 4; 5; 5; 6; 1; 2; 2; 3; 2; 3; 3; 4; 2; 3; 3;
  4; 3; 4; 4; 5; 2; 3; 3; 4; 3; 4; 4; 5; 3; 4; 4; 5; 4; 5; 5; 6; 2; 3; 3; 4;
  3; 4; 4; 5; 3; 4; 4; 5; 4; 5; 5; 6; 3; 4; 4; 5; 4; 5; 5; 6; 4; 5; 5; 6; 5;
  6; 6; 7; 1; 2; 2; 3; 2; 3; 3; 4; 2; 3; 3; 4; 3; 4; 4; 5; 2; 3; 3; 4; 3; 4;
  4; 5; 3; 4; 4; 5; 4; 5; 5; 6; 2; 3; 3; 4; 3; 4; 4; 5; 3; 4; 4; 5; 4; 5; 5;
  6; 3; 4; 4; 5; 4; 5; 5; 6; 4; 5; 5; 6; 5; 6; 6; 7; 2; 3; 3; 4; 3; 4; 4; 5;
  3; 4; 4; 5; 4; 5; 5; 6; 3; 4; 4; 5; 4; 5; 5; 6; 4; 5; 5; 6; 5; 6; 6; 7; 3;
  4; 4; 5; 4; 5; 5; 6; 4; 5; 5; 6; 5; 6; 6; 7; 4; 5; 5; 6; 5; 6; 6; 7; 5; 6;
  6; 7; 6; 7; 7; 8].

(** [while(b) { n += count_table[b & 255]; b >>= 8; }]: at most [fuel] rounds. *)
Fixpoint count_block (fuel : nat) (b n : Z) : option Z :=
  if b =? 0 then Some n
  else match fuel with
       | O => None
       | S fuel' =>
         c ← count_table !! Z.to_nat (Z.land b (2 ^ 8 - 1));
         count_block fuel' (shr64 b 8) (n + c)
       end.

(** A block has 64 bits: 8 rounds of the inner loop empty it. *)
Fixpoint count_blocks (l : list Z) (n : Z) : option Z :=
  match l with
  | [] => Some n
  | b :: l' => n ← count_block 8 b n; count_blocks l' n
  end.

Definition bitset_count (b : bitset) : option Z := count_blocks (bits_ b) 0.

(** ** Searching *)
(** [while(x >>= 1) ++log;] on a non-zero [x]: one round per binary digit. *)
Fixpoint log_loop (x : positive) (log : Z) : Z :=
  match x with
  | xH => log
  | xO x' | xI x' => log_loop x' (log + 1)
  end.

Definition lowest_bit (b : Z) : Z :=
  match u64 (b - Z.land b (u64 (b - 1))) with
  | Zpos x => log_loop x 0
  | _ => 0
  end.

(** [while(i < block() && bits_[i] == 0) ++i;] over the blocks from [i] on *)
Fixpoint skip_zero_blocks (l : list Z) (i : Z) : Z :=
  match l with
  | [] => i
  | x :: l' => if x =? 0 then skip_zero_blocks l' (i + 1) else i
  end.

Definition find_from (b : bitset) (i : Z) : outcome Z :=
  let i := skip_zero_blocks (drop (Z.to_nat i) (bits_ b)) i in
  if bitset_block b <=? i then Ok npos
  else x ← vget (bits_ b) i; Ok (i * bits_per_block + lowest_bit x).

Definition find_first (b : bitset) : outcome Z := find_from b 0.

Definition find_next (b : bitset) (i : Z) : outcome Z :=
  if (u64 (bitset_size b - 1) <=? i) || (bitset_size b =? 0) then Ok npos
  else
    let i := i + 1 in
    let bi := block_index i in
    x ← vget (bits_ b) bi;
    let x := Z.land x (shl64 (not64 0) (bit_index i)) in
    if negb (x =? 0) then Ok (bi * bits_per_block + lowest_bit x)
    else find_from b (bi + 1).

(** ** Printing *)
Fixpoint to_string_loop (k : nat) (i : Z) (b : bitset) (msb_to_lsb : bool)
    (str_size : Z) (str : list byte) : outcome (list byte) :=
  match k with
  | O => Ok str
  | S k' =>
    t ← bitset_get b i;
    str ← (if (t : bool)
           then vset str (if msb_to_lsb then str_size - i - 1 else i) Byte.x31
           else Ok str);
    to_string_loop k' (i + 1) b msb_to_lsb str_size str
  end.

Definition bitset_to_string (b : bitset) (msb_to_lsb all : bool) (cutoff : Z)
    : outcome (list byte) :=
  let str_size := if all then bits_per_block * bitset_block b else bitset_size b in
  if (cutoff =? 0) || (str_size <=? cutoff) then
    to_string_loop (Z.to_nat (Z.min str_size (bitset_size b))) 0 b msb_to_lsb str_size
      (replicate (Z.to_nat str_size) Byte.x30)
  else
    let str := replicate (Z.to_nat (cutoff + 2)) Byte.x30 in
    str ← vset str cutoff Byte.x2e;
    str ← vset str (cutoff + 1) Byte.x2e;
    to_string_loop (Z.to_nat (Z.min cutoff (bitset_size b))) 0 b msb_to_lsb cutoff str.

(** ** The abstract view and the representation invariant *)

Definition blk (l : list Z) (k : Z) : Z := default 0 (l !! Z.to_nat k).
Definition bitat (l : list Z) (i : Z) : bool := Z.testbit (blk l (block_index i)) (bit_index i).
Definition bit (b : bitset) (i : Z) : bool := bitat (bits_ b) i.

(** What every constructor establishes; [wf] adds that the bits of the last
    block beyond [nums_] are zero. *)
Record wf0 (b : bitset) : Prop := {
  wf_words : Forall in_u64 (bits_ b);
  wf_nums : in_u64 (nums_ b);
  wf_len : bitset_block b = bits_to_block (nums_ b)
}.
Record wf (b : bitset) : Prop := {
  wf_wf0 : wf0 b;
  wf_unused : forall i, nums_ b <= i -> bit b i = false
}.

(** Arithmetic on bit positions. *)
Ltac pos_unfold :=
  unfold extra_bits, bitset_size, bits_to_block, in_u64, bitset_block in *;
  unfold block_index, bit_index, npos, SIZE_MAX in *;
  unfold bits_per_block in *.
Ltac poslia := pos_unfold; cbn [bits_ nums_ set_bits] in *;
  Z.to_euclidean_division_equations; lia.

Lemma bit_index_range i : 0 <= bit_index i < 64.
Proof. poslia. Qed.

Lemma in_u64_blk l k : Forall in_u64 l -> in_u64 (blk l k).
Proof.
  intros H. unfold blk. destruct (l !! Z.to_nat k) eqn:E; cbn; auto with word.
  by eapply Forall_lookup_1.
Qed.
#[export] Hint Resolve in_u64_blk : word.

Lemma vget_blk l k : 0 <= k < vlen l -> vget l k = Ok (blk l k).
Proof.
  intros H. destruct (vget_in_range l k H) as [x Hx]. rewrite Hx.
  apply vget_Ok in Hx as [_ Hx]. unfold blk. by rewrite Hx.
Qed.

Lemma blk_beyond l k : vlen l <= k -> blk l k = 0.
Proof. intros H. unfold blk, vlen in *. by rewrite lookup_ge_None_2 by lia. Qed.

Lemma bitat_beyond l i : vlen l * 64 <= i -> bitat l i = false.
Proof.
  intros H. unfold bitat. rewrite blk_beyond by poslia. apply Z.bits_0.
Qed.

Lemma blk_insert l k j x :
  0 <= k < vlen l -> 0 <= j -> blk (<[Z.to_nat k := x]> l) j = if j =? k then x else blk l j.
Proof.
  unfold blk, vlen. intros Hk Hj. destruct (Z.eqb_spec j k) as [->|].
  - by rewrite list_lookup_insert_eq by lia.
  - by rewrite list_lookup_insert_ne by lia.
Qed.

Lemma blk_eq l l' :
  vlen l = vlen l' -> (forall k, 0 <= k < vlen l -> blk l k = blk l' k) -> l = l'.
Proof.
  unfold vlen, blk. intros Hlen H. apply list_eq. intros n.
  destruct (decide (n < length l)%nat) as [Hn|Hn].
  - specialize (H (Z.of_nat n) ltac:(lia)). rewrite Nat2Z.id in H.
    destruct (lookup_lt_is_Some_2 l n) as [x Hx]; [done|].
    destruct (lookup_lt_is_Some_2 l' n) as [y Hy]; [lia|].
    rewrite Hx, Hy in *. naive_solver.
  - by rewrite !lookup_ge_None_2 by lia.
Qed.

Lemma bitat_block l k j : 0 <= k -> 0 <= j < 64 -> bitat l (k * 64 + j) = Z.testbit (blk l k) j.
Proof.
  intros. unfold bitat.
  replace (block_index (k * 64 + j)) with k by poslia.
  by replace (bit_index (k * 64 + j)) with j by poslia.
Qed.

Lemma bitat_eq l l' :
  Forall in_u64 l -> Forall in_u64 l' -> vlen l = vlen l' ->
  (forall i, 0 <= i < vlen l * 64 -> bitat l i = bitat l' i) -> l = l'.
Proof.
  intros Hl Hl' Hlen H. apply blk_eq; [done|]. intros k Hk.
  apply word_eq; [auto with word..|]. intros j Hj.
  rewrite <- !bitat_block by lia. apply H. lia.
Qed.

(** Two well-formed sets of one size with the same bits are the same. *)
Lemma wf_ext b c :
  wf b -> wf c -> nums_ b = nums_ c ->
  (forall i, 0 <= i < nums_ b -> bit b i = bit c i) -> b = c.
Proof.
  intros [[Hw Hn Hl] Hu] [[Hw' Hn' Hl'] Hu'] Hs H.
  destruct b as [l n], c as [l' n']. cbn in *. subst n'. f_equal.
  apply bitat_eq; [done..| |].
  - unfold bitset_block in *. cbn in *. congruence.
  - intros i Hi. destruct (Z.lt_ge_cases i n); [by apply H; lia|].
    specialize (Hu i ltac:(lia)). specialize (Hu' i ltac:(lia)).
    unfold bit in *. cbn in *. congruence.
Qed.

Lemma testbit_bit_mask i k : 0 <= k < 64 -> Z.testbit (bit_mask i) k = (k =? bit_index i).
Proof.
  intros Hk. pose proof (bit_index_range i). unfold bit_mask, shl64.
  rewrite testbit_u64, testbit_one_bit by lia. zcases.
Qed.

Lemma in_u64_bit_mask i : in_u64 (bit_mask i).
Proof. apply u64_range. Qed.
Lemma in_u64_and_not x m : in_u64 x -> in_u64 (and_not x m).
Proof. unfold and_not. auto with word. Qed.
#[export] Hint Resolve in_u64_bit_mask in_u64_and_not : word.

Lemma bits_to_block_spec n k : 0 <= n -> k = bits_to_block n <-> n <= k * 64 < n + 64.
Proof. intros. pos_unfold. zcases; Z.to_euclidean_division_equations; lia. Qed.

Lemma wf0_block_range b i : wf0 b -> 0 <= i < nums_ b -> 0 <= block_index i < vlen (bits_ b).
Proof.
  intros [Hw Hn Hl] Hi. pose proof (proj1 (bits_to_block_spec _ _ (proj1 Hn)) Hl). poslia.
Qed.

(** An update that acts on one bit of the block of [i]. *)
Lemma update_block_spec b i f g :
  wf0 b -> 0 <= i < nums_ b ->
  (forall x, in_u64 x -> in_u64 (f x)) ->
  (forall x k, 0 <= k < 64 ->
     Z.testbit (f x) k = if k =? bit_index i then g (Z.testbit x k) else Z.testbit x k) ->
  exists b', update_block b i f = Ok b' /\ wf0 b' /\ nums_ b' = nums_ b /\
    forall j, 0 <= j -> bit b' j = if j =? i then g (bit b i) else bit b j.
Proof.
  intros Hwf Hi Hf Hg. pose proof (wf0_block_range b i Hwf Hi) as Hb.
  destruct Hwf as [Hw Hn Hl]. unfold update_block.
  rewrite (proj2 (Z.ltb_lt _ _)) by lia. run.
  rewrite vget_blk by done. run. rewrite vset_in_range by done. run.
  eexists. split; [done|]. split.
  { split; cbn; [|done|by unfold bitset_block in *; cbn; rewrite vlen_insert].
    apply Forall_insert; auto with word. }
  split; [done|]. intros j Hj. unfold bit, bitat. cbn [bits_ set_bits].
  rewrite blk_insert by poslia.
  destruct (Z.eqb_spec (block_index j) (block_index i)) as [Heq|Hne].
  - rewrite Hg by apply bit_index_range. rewrite <- Heq.
    destruct (Z.eqb_spec j i) as [->|]; [by rewrite Z.eqb_refl|].
    destruct (Z.eqb_spec (bit_index j) (bit_index i)); [poslia|done].
  - by destruct (Z.eqb_spec j i) as [->|].
Qed.

Lemma update_block_oob b i f : nums_ b <= i -> update_block b i f = Crash AssertFails.
Proof. intros H. unfold update_block. by rewrite (proj2 (Z.ltb_ge _ _)) by lia. Qed.

(** One-bit updates keep the unused bits, hence the invariant. *)
Lemma wf_after_update b b' i g :
  wf b -> wf0 b' -> nums_ b' = nums_ b -> 0 <= i < nums_ b ->
  (forall j, 0 <= j -> bit b' j = if j =? i then g (bit b i) else bit b j) -> wf b'.
Proof.
  intros [_ Hu] Hwf' Hs Hi H. split; [done|]. intros j Hj.
  rewrite H by lia. destruct (Z.eqb_spec j i); [lia|]. apply Hu. lia.
Qed.

(** ** One-bit operations *)

(** [sets_bit b i g m]: [m] returns [b] with bit [i] replaced by [g] of it. *)
Definition sets_bit (b : bitset) (i : Z) (g : bool -> bool) (m : outcome bitset) : Prop :=
  exists b', m = Ok b' /\ wf b' /\ nums_ b' = nums_ b /\
    forall j, 0 <= j -> bit b' j = if j =? i then g (bit b i) else bit b j.

Lemma update_block_sets b i f g :
  wf b -> 0 <= i < nums_ b ->
  (forall x, in_u64 x -> in_u64 (f x)) ->
  (forall x k, 0 <= k < 64 ->
     Z.testbit (f x) k = if k =? bit_index i then g (Z.testbit x k) else Z.testbit x k) ->
  sets_bit b i g (update_block b i f).
Proof.
  intros Hwf Hi Hf Hg.
  destruct (update_block_spec b i f g (wf_wf0 _ Hwf) Hi Hf Hg) as (b' & E & Hb' & Hs & H).
  exists b'. eauto 6 using wf_after_update.
Qed.

Ltac bitstep := intros; autorewrite with bits; rewrite ?testbit_bit_mask by lia; zcases;
  rewrite ?orb_true_r, ?orb_false_r, ?andb_true_r, ?andb_false_r, ?xorb_true_r, ?xorb_false_r;
  try done.

Lemma reset_sets b i :
  wf b -> 0 <= i < nums_ b -> sets_bit b i (fun _ => false) (bitset_reset_bit b i).
Proof. intros. apply update_block_sets; auto 6 with word. bitstep. Qed.

Lemma set_sets b i v :
  wf b -> 0 <= i < nums_ b -> sets_bit b i (fun _ => v) (bitset_set_bit b i v).
Proof.
  intros Hwf Hi. destruct v; cbn [bitset_set_bit].
  - apply update_block_sets; auto with word. bitstep.
  - rewrite (proj2 (Z.ltb_lt _ _)) by lia. run. by apply reset_sets.
Qed.

Lemma flip_sets b i :
  wf b -> 0 <= i < nums_ b -> sets_bit b i negb (bitset_flip_bit b i).
Proof. intros. apply update_block_sets; auto with word. bitstep. Qed.

(** [(x & (1 << k)) != 0] tests a bit. *)
Lemma land_mask_testbit x i :
  0 <= x -> negb (Z.land x (bit_mask i) =? 0) = Z.testbit x (bit_index i).
Proof.
  intros Hx. pose proof (bit_index_range i).
  assert (Z.land x (bit_mask i) = if Z.testbit x (bit_index i) then bit_mask i else 0) as ->.
  { apply Z.bits_inj'. intros k Hk. rewrite Z.land_spec.
    destruct (Z.lt_ge_cases k 64).
    - rewrite testbit_bit_mask by lia. destruct (Z.eqb_spec k (bit_index i)) as [->|].
      + rewrite andb_true_r. destruct (Z.testbit x (bit_index i)) eqn:E.
        * rewrite testbit_bit_mask, Z.eqb_refl by lia. done.
        * by rewrite Z.bits_0.
      + rewrite andb_false_r. destruct (Z.testbit x (bit_index i)); [|by rewrite Z.bits_0].
        rewrite testbit_bit_mask by lia. symmetry. by apply Z.eqb_neq.
    - rewrite (word_bit_high (bit_mask i)) by auto with word. rewrite andb_false_r.
      destruct (Z.testbit x (bit_index i)); [|by rewrite Z.bits_0].
      by rewrite word_bit_high by auto with word. }
  destruct (Z.testbit x (bit_index i)); [|done].
  destruct (Z.eqb_spec (bit_mask i) 0) as [E|]; [|done].
  pose proof (testbit_bit_mask i (bit_index i)) as T. rewrite E, Z.bits_0, Z.eqb_refl in T.
  discriminate T. lia.
Qed.

Lemma get_bit b i : wf0 b -> 0 <= i < nums_ b -> bitset_get b i = Ok (bit b i).
Proof.
  intros Hwf Hi. pose proof (wf0_block_range b i Hwf Hi). unfold bitset_get.
  rewrite (proj2 (Z.ltb_lt _ _)) by lia. run. rewrite vget_blk by done. run.
  f_equal. apply land_mask_testbit. apply in_u64_blk, wf_words. done.
Qed.

Lemma get_out_of_range b i : nums_ b <= i -> bitset_get b i = Crash AssertFails.
Proof. intros H. unfold bitset_get. by rewrite (proj2 (Z.ltb_ge _ _)) by lia. Qed.

(** ** Masking the last block, and the constructors *)
Lemma zero_unused_spec b :
  wf0 b -> exists b', zero_unused_bits b = Ok b' /\ wf b' /\ nums_ b' = nums_ b /\
    forall j, 0 <= j -> bit b' j = (j <? nums_ b) && bit b j.
Proof.
  intros [Hw Hn Hl]. unfold zero_unused_bits.
  pose proof (proj1 (bits_to_block_spec _ _ (proj1 Hn)) Hl) as Hr.
  destruct (Z.eqb_spec (extra_bits b) 0) as [He|He].
  - exists b. split; [done|].
    assert (forall j, 0 <= j -> bit b j = (j <? nums_ b) && bit b j) as Hj.
    { intros j Hj. destruct (Z.ltb_spec j (nums_ b)); [done|].
      apply bitat_beyond. poslia. }
    split_and!; [|done..]. split; [done|]. intros i Hi.
    rewrite Hj by ulia. by rewrite (proj2 (Z.ltb_ge _ _)) by lia.
  - assert (0 <= bitset_block b - 1 < vlen (bits_ b)) as Hk.
    { pose proof (vlen_nonneg (bits_ b)). poslia. }
    rewrite vget_blk by done. run. rewrite vset_in_range by done. run.
    assert (forall j, 0 <= j ->
      bit (set_bits b (<[Z.to_nat (bitset_block b - 1) :=
        Z.land (blk (bits_ b) (bitset_block b - 1)) (not64 (shl64 (not64 0) (extra_bits b)))]>
          (bits_ b))) j = (j <? nums_ b) && bit b j) as Hj.
    { intros j Hj. unfold bit, bitat. cbn [bits_ set_bits].
      pose proof (bit_index_range j). pose proof (bit_index_range (nums_ b)).
      rewrite blk_insert by poslia.
      destruct (Z.eqb_spec (block_index j) (bitset_block b - 1)) as [E|E].
      - unfold extra_bits, bitset_size in *.
        rewrite Z.land_spec, testbit_not64, testbit_ones_from by lia. rewrite <- E.
        zcases; rewrite ?andb_true_r, ?andb_false_r; try done; poslia.
      - destruct (Z.ltb_spec j (nums_ b)); [done|]. cbn [andb].
        rewrite blk_beyond by poslia. apply Z.bits_0. }
    eexists. split; [done|]. split_and!; [|done..]. split; [split; cbn; [|done|]|].
    + apply Forall_insert; auto with word.
    + unfold bitset_block in *. cbn. by rewrite vlen_insert.
    + cbn. intros i Hi. rewrite Hj by ulia.
      by rewrite (proj2 (Z.ltb_ge _ _)) by lia.
Qed.

Lemma vlen_replicate {A} n (x : A) : vlen (replicate n x) = Z.of_nat n.
Proof. unfold vlen. by rewrite length_replicate. Qed.

Lemma blk_replicate n x k : 0 <= k -> blk (replicate n x) k = if k <? Z.of_nat n then x else 0.
Proof.
  intros Hk. unfold blk. destruct (Z.ltb_spec k (Z.of_nat n)).
  - by rewrite lookup_replicate_2 by lia.
  - by rewrite lookup_ge_None_2 by (rewrite length_replicate; lia).
Qed.

Lemma bits_to_block_nonneg n : 0 <= n -> 0 <= bits_to_block n.
Proof. intros. pos_unfold. zcases; Z.to_euclidean_division_equations; lia. Qed.

Lemma fill_wf0 n v : in_u64 n -> wf0 (bitset_fill n v).
Proof.
  intros Hn. split; [|done|].
  - cbn. apply Forall_replicate. destruct v; auto with word.
  - unfold bitset_block. cbn. rewrite vlen_replicate.
    pose proof (bits_to_block_nonneg n (proj1 Hn)). lia.
Qed.

(** The constructor fills whole blocks: with [value] true the bits of the last
    block beyond [size] are set as well. *)
Lemma fill_bit n v j :
  in_u64 n -> 0 <= j -> bit (bitset_fill n v) j = v && (j <? bits_to_block n * 64).
Proof.
  intros Hn Hj. pose proof (bit_index_range j). unfold bit, bitat. cbn.
  pose proof (bits_to_block_nonneg n (proj1 Hn)).
  rewrite blk_replicate, Z2Nat.id by poslia.
  destruct (Z.ltb_spec (block_index j) (bits_to_block n)) as [Hb|Hb].
  - rewrite (proj2 (Z.ltb_lt j _)) by (pos_unfold; Z.to_euclidean_division_equations; lia).
    destruct v; [|apply Z.bits_0]. rewrite testbit_ones64 by lia. zcases.
  - rewrite (proj2 (Z.ltb_ge j _)) by (pos_unfold; Z.to_euclidean_division_equations; lia).
    rewrite Z.bits_0. by destruct v.
Qed.

Lemma fill_wf n v : in_u64 n -> v = false \/ n mod 64 = 0 -> wf (bitset_fill n v).
Proof.
  intros Hn Hv. split; [by apply fill_wf0|]. cbn. intros i Hi.
  rewrite fill_bit by ulia. destruct v; [|done].
  destruct Hv as [|Hv]; [done|]. cbn. apply Z.ltb_ge. pos_unfold. rewrite Hv. cbn.
  Z.to_euclidean_division_equations. lia.
Qed.

(** ** Resizing *)
Lemma vlen_vresize {A} n (v : A) l : vlen (vresize n v l) = Z.of_nat n.
Proof. unfold vlen, vresize. by rewrite length_resize. Qed.

Lemma blk_vresize n v l k :
  0 <= k ->
  blk (vresize n v l) k = if k <? Z.of_nat n then (if k <? vlen l then blk l k else v) else 0.
Proof.
  intros Hk. unfold blk, vresize, vlen. destruct (Z.ltb_spec k (Z.of_nat n)).
  - destruct (Z.ltb_spec k (Z.of_nat (length l))).
    + by rewrite lookup_resize by lia.
    + by rewrite lookup_resize_new by lia.
  - by rewrite lookup_resize_old by lia.
Qed.

Lemma Forall_vresize {A} (P : A -> Prop) n v l :
  P v -> Forall P l -> Forall P (vresize n v l).
Proof.
  intros Hv Hl. unfold vresize. apply Forall_resize; done.
Qed.

(** Appending whole blocks of [value]: a bit below the new block count is the
    old bit or [value]. *)
Lemma bitat_vresize n (value : bool) l j :
  0 <= j ->
  bitat (vresize n (if value then not64 0 else 0) l) j =
    (j <? Z.of_nat n * 64) && (if j <? vlen l * 64 then bitat l j else value).
Proof.
  intros Hj. pose proof (bit_index_range j). unfold bitat.
  rewrite blk_vresize by poslia.
  assert (forall m, (block_index j <? m) = (j <? m * 64)) as Hm.
  { intros m. apply eq_bool_prop_intro. rewrite !Is_true_true, !Z.ltb_lt. poslia. }
  rewrite !Hm. destruct (j <? Z.of_nat n * 64); [|apply Z.bits_0].
  destruct (j <? vlen l * 64); [done|]. destruct value; [|apply Z.bits_0].
  rewrite testbit_ones64 by lia. cbn. zcases.
Qed.

(** The part of [resize] before the final masking. *)
Definition resize_fill (b : bitset) (n : Z) (value : bool) : outcome (list Z) :=
  let old := bitset_block b in
  let block_value := if value then not64 0 else 0 in
  let l := vresize (Z.to_nat (bits_to_block n)) block_value (bits_ b) in
  if value && (nums_ b <? n) && negb (extra_bits b =? 0)
  then x ← vget l (old - 1); vset l (old - 1) (Z.lor x (shl64 block_value (extra_bits b)))
  else Ok l.

Lemma resize_unfold b n value :
  bitset_resize b n value = (l ← resize_fill b n value; zero_unused_bits (Bitset l n)).
Proof.
  unfold bitset_resize, resize_fill.
  destruct (Z.eqb_spec (bits_to_block n) (bitset_block b)) as [->|]; [|done]. cbn [negb].
  unfold vresize, bitset_block, vlen. by rewrite Nat2Z.id, resize_all.
Qed.

Lemma resize_fill_spec b n value :
  wf b -> in_u64 n ->
  exists l, resize_fill b n value = Ok l /\ wf0 (Bitset l n) /\
    forall j, 0 <= j < n -> bitat l j = if j <? nums_ b then bit b j else value.
Proof.
  intros [[Hw Hs Hl] Hu] Hn. unfold resize_fill.
  set (v := if value then not64 0 else 0).
  set (l1 := vresize (Z.to_nat (bits_to_block n)) v (bits_ b)).
  pose proof (bits_to_block_nonneg n (proj1 Hn)) as Hbn.
  pose proof (proj1 (bits_to_block_spec _ _ (proj1 Hs)) Hl) as Hr.
  pose proof (proj1 (bits_to_block_spec n _ (proj1 Hn)) eq_refl) as Hrn.
  assert (in_u64 v) as Hv by (subst v; destruct value; auto with word).
  assert (Forall in_u64 l1) as Hw1 by (by apply Forall_vresize).
  assert (vlen l1 = bits_to_block n) as Hl1.
  { subst l1. rewrite vlen_vresize. lia. }
  assert (forall j, 0 <= j < n ->
    bitat l1 j = if j <? bitset_block b * 64 then bit b j else value) as Hb1.
  { intros j Hj. subst l1 v. rewrite bitat_vresize, Z2Nat.id by lia.
    by rewrite (proj2 (Z.ltb_lt j _)) by lia. }
  destruct (value && (nums_ b <? n) && negb (extra_bits b =? 0)) eqn:Hc.
  - apply andb_true_iff in Hc as [[-> Hlt%Z.ltb_lt]%andb_true_iff He%negb_true_iff%Z.eqb_neq].
    assert (0 <= bitset_block b - 1 < vlen l1) as Hk.
    { rewrite Hl1. pose proof (vlen_nonneg (bits_ b)). poslia. }
    rewrite vget_blk by done. run. rewrite vset_in_range by done. eexists. split; [done|].
    split; [split; cbn; [|done|]|].
    + apply Forall_insert; auto with word.
    + unfold bitset_block. cbn. by rewrite vlen_insert.
    + intros j Hj. pose proof (bit_index_range j). pose proof (bit_index_range (nums_ b)).
      specialize (Hb1 j Hj). unfold bitat in *. rewrite blk_insert by poslia.
      destruct (Z.eqb_spec (block_index j) (bitset_block b - 1)) as [E|E].
      * unfold extra_bits, bitset_size in *. subst v. cbn [andb].
        rewrite Z.lor_spec, testbit_ones_from by lia. rewrite <- E, Hb1.
        zcases; rewrite ?orb_true_r, ?orb_false_r; try done; poslia.
      * rewrite Hb1. zcases; poslia.
  - exists l1. split; [done|]. split.
    { split; [done|done|]. unfold bitset_block. done. }
    intros j Hj. rewrite Hb1 by done.
    destruct (Z.ltb_spec j (bitset_block b * 64)), (Z.ltb_spec j (nums_ b)); try done; [|lia].
    rewrite Hu by lia. destruct value; [|done]. cbn [andb] in Hc.
    rewrite (proj2 (Z.ltb_lt _ _)) in Hc by lia. cbn [andb] in Hc.
    apply negb_false_iff, Z.eqb_eq in Hc. poslia.
Qed.

Lemma resize_bits b n value :
  wf b -> in_u64 n ->
  exists b', bitset_resize b n value = Ok b' /\ wf b' /\ nums_ b' = n /\
    forall j, 0 <= j ->
      bit b' j = (j <? n) && (if j <? nums_ b then bit b j else value).
Proof.
  intros Hwf Hn. rewrite resize_unfold.
  destruct (resize_fill_spec b n value Hwf Hn) as (l & -> & Hl & Hb). run.
  destruct (zero_unused_spec _ Hl) as (b' & E & Hwf' & Hs & Hb').
  exists b'. split_and!; [done..|]. intros j Hj. rewrite Hb' by done. cbn.
  destruct (Z.ltb_spec j n); [|done]. cbn. by apply Hb.
Qed.

Lemma push_back_bits b v :
  wf b -> nums_ b < SIZE_MAX ->
  exists b', bitset_push_back b v = Ok b' /\ wf b' /\ nums_ b' = nums_ b + 1 /\
    forall j, 0 <= j -> bit b' j = if j =? nums_ b then v else bit b j.
Proof.
  intros Hwf Hs. pose proof (wf_nums _ (wf_wf0 _ Hwf)) as Hn.
  unfold bitset_push_back, bitset_size, SIZE_MAX in *. rewrite u64_id by ulia.
  destruct (resize_bits b (nums_ b + 1) false Hwf) as (b1 & -> & Hwf1 & Hs1 & Hb1); [ulia|].
  run. destruct (set_sets b1 (nums_ b) v Hwf1) as (b' & -> & Hwf' & Hs' & Hb'); [ulia|].
  exists b'. split_and!; [done..|lia|]. intros j Hj. rewrite Hb', Hb1 by done.
  destruct (Z.eqb_spec j (nums_ b)); [done|].
  destruct (Z.ltb_spec j (nums_ b)); [by rewrite (proj2 (Z.ltb_lt _ _)) by lia|].
  rewrite andb_false_r. symmetry. apply (wf_unused _ Hwf). lia.
Qed.

Lemma blk_app l x k : 0 <= k -> blk (l ++ [x]) k = if k =? vlen l then x else blk l k.
Proof.
  intros Hk. unfold blk, vlen. destruct (Z.eqb_spec k (Z.of_nat (length l))) as [->|].
  - rewrite Nat2Z.id, lookup_app_r, Nat.sub_diag by lia. done.
  - destruct (decide (Z.to_nat k < length l)%nat).
    + by rewrite lookup_app_l by done.
    + rewrite !lookup_ge_None_2; [done|lia|rewrite length_app; cbn; lia].
Qed.

(** [append] adds the 64 bits of a block after the last bit. *)
Lemma append_bits b x :
  wf b -> in_u64 x -> nums_ b + 64 < 2 ^ 64 ->
  exists b', bitset_append b x = Ok b' /\ wf b' /\ nums_ b' = nums_ b + 64 /\
    forall j, 0 <= j ->
      bit b' j = if j <? nums_ b then bit b j else Z.testbit x (j - nums_ b).
Proof.
  intros [[Hw Hs Hl] Hu] Hx Hn. unfold bitset_append, bitset_empty.
  pose proof (proj1 (bits_to_block_spec _ _ (proj1 Hs)) Hl) as Hr.
  pose proof (vlen_nonneg (bits_ b)) as Hv.
  change bits_per_block with 64. rewrite u64_id by ulia.
  assert (forall l, Forall in_u64 l -> vlen l = vlen (bits_ b) + 1 ->
    (forall j, 0 <= j -> bitat l j =
       if j <? nums_ b then bit b j else Z.testbit x (j - nums_ b)) ->
    wf (Bitset l (nums_ b + 64))) as Hmk.
  { intros l Hl1 Hl2 Hl3. split; [split; cbn; [done|ulia|]|].
    - apply bits_to_block_spec; poslia.
    - cbn. intros i Hi. unfold bit. cbn. rewrite Hl3 by ulia.
      rewrite (proj2 (Z.ltb_ge _ _)) by lia. apply word_bit_high; [done|lia]. }
  destruct (Z.eqb_spec (extra_bits b) 0) as [He|He]; cbn [negb].
  - run. eexists. split; [done|].
    assert (nums_ b = vlen (bits_ b) * 64) as Hnb by poslia.
    assert (forall j, 0 <= j -> bitat (bits_ b ++ [x]) j =
       if j <? nums_ b then bit b j else Z.testbit x (j - nums_ b)) as Hb.
    { intros j Hj. unfold bit, bitat. rewrite blk_app by poslia.
      destruct (Z.eqb_spec (block_index j) (vlen (bits_ b))), (Z.ltb_spec j (nums_ b));
        try poslia; try done.
      - f_equal. poslia.
      - rewrite blk_beyond, Z.bits_0 by poslia. symmetry. apply word_bit_high; [done|poslia]. }
    split_and!; [|done|done]. apply Hmk; [|by rewrite vlen_app|done].
    apply Forall_app; auto.
  - assert (0 < vlen (bits_ b)) as Hpos by poslia.
    rewrite (proj2 (Z.eqb_neq _ _)) by (unfold bitset_block; lia). run.
    set (l := bits_ b ++ [shr64 x (64 - extra_bits b)]).
    assert (vlen l = vlen (bits_ b) + 1) as Hl' by apply vlen_app.
    rewrite vget_blk by lia. run. rewrite vset_in_range by lia. run.
    eexists. split; [done|].
    pose proof (bit_index_range (nums_ b)) as Hrg.
    assert (Forall in_u64 l) as Hwl.
    { apply Forall_app. split; [done|]. constructor; [|done].
      unfold extra_bits, bitset_size in *. apply in_u64_shr64; [lia|done]. }
    assert (forall j, 0 <= j ->
      bitat (<[Z.to_nat (vlen l - 2) := Z.lor (blk l (vlen l - 2)) (shl64 x (extra_bits b))]> l) j =
       if j <? nums_ b then bit b j else Z.testbit x (j - nums_ b)) as Hb.
    { intros j Hj. pose proof (bit_index_range j). specialize (Hu j).
      unfold bit, bitat in *. rewrite blk_insert by poslia.
      unfold extra_bits, bitset_size in *. subst l.
      rewrite !blk_app by poslia.
      destruct (Z.eqb_spec (block_index j) (vlen (bits_ b ++ [shr64 x (64 - bit_index (nums_ b))]) - 2)).
      - rewrite (proj2 (Z.eqb_neq _ _)) by poslia. rewrite Z.lor_spec, testbit_shl64 by lia.
        replace (vlen (bits_ b ++ _) - 2) with (block_index j).
        destruct (Z.ltb_spec j (nums_ b)).
        + rewrite (Z.testbit_neg_r x) by poslia. by rewrite andb_false_r, orb_false_r.
        + rewrite Hu by lia. cbn [orb]. rewrite (proj2 (Z.ltb_lt _ _)) by lia. cbn [andb].
          f_equal. poslia.
      - destruct (Z.eqb_spec (block_index j) (vlen (bits_ b))).
        + rewrite testbit_shr64 by lia. rewrite (proj2 (Z.ltb_ge _ _)) by poslia. f_equal. poslia.
        + destruct (Z.ltb_spec j (nums_ b)); [done|]. rewrite Hu by lia.
          symmetry. apply word_bit_high; [done|poslia]. }
    split_and!; [|done|done]. apply Hmk; [|by rewrite vlen_insert|done].
    apply Forall_insert; [done|].
    apply in_u64_lor; [|apply in_u64_shl64]. by apply in_u64_blk.
Qed.

(** ** Left shift *)
Lemma down_loop_spec e F off k l :
  (forall l i, 0 < i < vlen l -> e l i = Ok (F (blk l i) (blk l (i - 1)))) ->
  (forall x y, in_u64 x -> in_u64 y -> in_u64 (F x y)) ->
  0 <= off -> Z.of_nat k + off < vlen l -> vlen l < 2 ^ 64 -> Forall in_u64 l ->
  exists l', down_loop e off k l = Ok l' /\ vlen l' = vlen l /\ Forall in_u64 l' /\
    forall j, 0 <= j -> blk l' j =
      if (off <? j) && (j <=? Z.of_nat k + off)
      then F (blk l (j - off)) (blk l (j - off - 1)) else blk l j.
Proof.
  intros He HF Hoff. revert l. induction k as [|k IH]; intros l Hk Hlen Hl; cbn [down_loop].
  - exists l. split_and!; [done..|]. intros j Hj. zcases.
  - rewrite He by lia. run. rewrite u64_id by ulia. rewrite vset_in_range by lia. run.
    set (x := F (blk l (Z.of_nat (S k))) (blk l (Z.of_nat (S k) - 1))).
    destruct (IH (<[Z.to_nat (Z.of_nat (S k) + off) := x]> l)) as (l' & -> & Hv & Hw & Hb).
    + rewrite vlen_insert. lia.
    + by rewrite vlen_insert.
    + apply Forall_insert; [done|]. apply HF; auto with word.
    + exists l'. split_and!; [done|by rewrite Hv, vlen_insert|done|].
      intros j Hj. rewrite Hb by done.
      destruct (Z.ltb_spec off j); cbn [andb]; [|rewrite blk_insert by lia; zcases].
      destruct (Z.leb_spec j (Z.of_nat k + off)).
      * rewrite !blk_insert, (proj2 (Z.leb_le j _)) by lia.
        by rewrite !(proj2 (Z.eqb_neq _ _)) by lia.
      * rewrite blk_insert by lia.
        destruct (Z.eqb_spec j (Z.of_nat (S k) + off)) as [->|]; [|zcases].
        rewrite Z.leb_refl. subst x. f_equal; f_equal; lia.
Qed.

Lemma fill_n_spec first n v l :
  0 <= first -> first + Z.of_nat n <= vlen l ->
  exists l', fill_n first n v l = Ok l' /\ vlen l' = vlen l /\
    (in_u64 v -> Forall in_u64 l -> Forall in_u64 l') /\
    forall j, 0 <= j -> blk l' j =
      if (first <=? j) && (j <? first + Z.of_nat n) then v else blk l j.
Proof.
  revert first l. induction n as [|n IH]; intros first l Hf Hn; cbn [fill_n].
  - exists l. split_and!; [done..|]. intros j Hj. zcases.
  - rewrite vset_in_range by lia. run.
    destruct (IH (first + 1) (<[Z.to_nat first := v]> l)) as (l' & -> & Hv & Hw & Hb);
      [lia|rewrite vlen_insert; lia|].
    exists l'. split_and!; [done|by rewrite Hv, vlen_insert| |].
    + intros. apply Hw; [done|]. by apply Forall_insert.
    + intros j Hj. rewrite Hb, blk_insert by lia. zcases.
Qed.

(** The two block expressions of a left shift agree with the bit positions. *)
Definition shl_block (r x y : Z) : Z :=
  if negb (r =? 0) then Z.lor (shl64 x r) (shr64 y (bits_per_block - r)) else x.

Lemma shl_block_word r x y : 0 <= r < 64 -> in_u64 x -> in_u64 y -> in_u64 (shl_block r x y).
Proof.
  intros Hr Hx Hy. unfold shl_block. change bits_per_block with 64.
  destruct (negb (r =? 0)); [|done].
  apply in_u64_lor; [apply in_u64_shl64|]. apply in_u64_shr64; [lia|done].
Qed.

Lemma shl_block_bit r x y k :
  0 <= r < 64 -> 0 <= k < 64 -> in_u64 y ->
  Z.testbit (shl_block r x y) k =
    if r <=? k then Z.testbit x (k - r) else Z.testbit y (k - r + 64).
Proof.
  intros Hr Hk Hy. unfold shl_block. change bits_per_block with 64.
  destruct (Z.eqb_spec r 0) as [->|]; cbn [negb].
  - rewrite Z.sub_0_r. zcases.
  - rewrite Z.lor_spec, testbit_shl64, testbit_shr64 by lia.
    rewrite (proj2 (Z.ltb_lt k 64)) by lia. cbn [andb]. destruct (Z.leb_spec r k).
    + rewrite (word_bit_high y) by (done || lia). apply orb_false_r.
    + rewrite Z.testbit_neg_r by lia. cbn. f_equal. lia.
Qed.

(** The block vector after the loops of [operator<<=], before the masking. *)
Definition shl_blocks (n : Z) (l : list Z) : outcome (list Z) :=
  let last := vlen l - 1 in
  let div := n / bits_per_block in
  let r := bit_index n in
  l ← (if negb (r =? 0)
       then l ← down_loop (shl_expr r) div (Z.to_nat (last - div)) l;
            x ← vget l 0; vset l div (shl64 x r)
       else l ← down_loop move_expr div (Z.to_nat (last - div)) l;
            x ← vget l 0; vset l div x);
  fill_n 0 (Z.to_nat div) 0 l.

Lemma shl_blocks_spec n l :
  Forall in_u64 l -> 0 <= n < vlen l * 64 -> vlen l < 2 ^ 64 ->
  exists l', shl_blocks n l = Ok l' /\ vlen l' = vlen l /\ Forall in_u64 l' /\
    forall j, 0 <= j < vlen l * 64 -> bitat l' j = (n <=? j) && bitat l (j - n).
Proof.
  intros Hl Hn Hlen. unfold shl_blocks.
  change (n / bits_per_block) with (block_index n).
  pose proof (bit_index_range n) as Hr. set (r := bit_index n) in *.
  set (div := block_index n). assert (0 <= div < vlen l) as Hdiv by (subst div; poslia).
  assert (exists l1, (if negb (r =? 0)
     then l ← down_loop (shl_expr r) div (Z.to_nat (vlen l - 1 - div)) l;
          x ← vget l 0; vset l div (shl64 x r)
     else l ← down_loop move_expr div (Z.to_nat (vlen l - 1 - div)) l;
          x ← vget l 0; vset l div x) = Ok l1 /\ vlen l1 = vlen l /\ Forall in_u64 l1 /\
    forall j, div <= j < vlen l -> blk l1 j =
      shl_block r (blk l (j - div)) (if j =? div then 0 else blk l (j - div - 1)))
    as (l1 & -> & Hv1 & Hw1 & Hb1).
  { unfold shl_block. destruct (Z.eqb_spec r 0) as [Hr0|Hr0]; cbn [negb].
    - destruct (down_loop_spec move_expr (fun x _ => x) div (Z.to_nat (vlen l - 1 - div)) l)
        as (l1 & -> & Hv & Hw & Hb); [|done|lia..|done|].
      { intros. apply vget_blk. lia. }
      run. rewrite vget_blk by lia. run. rewrite vset_in_range by lia. eexists.
      split; [done|]. split_and!; [by rewrite vlen_insert|apply Forall_insert; auto with word|].
      intros j Hj. rewrite blk_insert, !Hb by lia. zcases; f_equal; lia.
    - destruct (down_loop_spec (shl_expr r) (fun x y => Z.lor (shl64 x r) (shr64 y (64 - r)))
        div (Z.to_nat (vlen l - 1 - div)) l) as (l1 & -> & Hv & Hw & Hb); [| |lia..|done|].
      { intros l0 i Hi. unfold shl_expr. rewrite vget_blk by lia. run.
        rewrite vget_blk by lia. by run. }
      { intros. apply in_u64_lor; [apply in_u64_shl64|]. apply in_u64_shr64; [lia|done]. }
      run. rewrite vget_blk by lia. run. rewrite vset_in_range by lia. eexists.
      split; [done|]. split_and!; [by rewrite vlen_insert|apply Forall_insert; auto with word|].
      intros j Hj. rewrite blk_insert, !Hb by lia. change bits_per_block with 64.
      zcases. unfold shr64 at 1. rewrite Z.shiftr_0_l, Z.lor_0_r. do 2 f_equal. lia. }
  run. destruct (fill_n_spec 0 (Z.to_nat div) 0 l1) as (l2 & -> & Hv2 & Hw2 & Hb2); [lia..|].
  exists l2. split_and!; [done|by rewrite Hv2|auto with word|].
  intros j Hj. pose proof (bit_index_range j). unfold bitat.
  rewrite Hb2 by poslia. rewrite Z2Nat.id, (proj2 (Z.leb_le 0 (block_index j))) by poslia.
  cbn [andb]. rewrite Z.add_0_l. destruct (Z.ltb_spec (block_index j) div) as [Hlt|Hge].
  { rewrite Z.bits_0, (proj2 (Z.leb_gt _ _)) by (subst div; poslia). done. }
  rewrite Hb1, shl_block_bit by first [poslia | by destruct (_ =? _); auto with word].
  destruct (Z.leb_spec r (bit_index j)) as [Hle|Hgt].
  - rewrite (proj2 (Z.leb_le n j)) by (subst div r; poslia).
    cbn [andb]. f_equal; [f_equal|]; subst div r; poslia.
  - destruct (Z.eqb_spec (block_index j) div).
    + rewrite Z.bits_0, (proj2 (Z.leb_gt n j)) by (subst div r; poslia). done.
    + rewrite (proj2 (Z.leb_le n j)) by (subst div r; poslia).
      cbn [andb]. f_equal; [f_equal|]; subst div r; poslia.
Qed.

Lemma reset_all_bits b :
  wf0 b -> wf (bitset_reset_all b) /\ nums_ (bitset_reset_all b) = nums_ b /\
    forall j, bit (bitset_reset_all b) j = false.
Proof.
  intros [Hw Hn Hl].
  assert (forall j, bit (bitset_reset_all b) j = false) as Hb.
  { intros j. unfold bit, bitat, blk. cbn.
    destruct (replicate (length (bits_ b)) 0 !! Z.to_nat (block_index j)) eqn:E; cbn.
    - apply lookup_replicate in E as [-> _]. apply Z.bits_0.
    - apply Z.bits_0. }
  split_and!; [|done|done]. split; [split; cbn; [|done|]|by intros].
  - apply Forall_replicate. auto with word.
  - unfold bitset_block. cbn. rewrite vlen_replicate. done.
Qed.

Lemma shl_assign_bits b n :
  wf b -> 0 <= n -> vlen (bits_ b) < 2 ^ 64 ->
  exists b', bitset_shl_assign b n = Ok b' /\ wf b' /\ nums_ b' = nums_ b /\
    forall j, 0 <= j -> bit b' j = (j <? nums_ b) && (n <=? j) && bit b (j - n).
Proof.
  intros Hwf Hn Hlen. pose proof Hwf as [[Hw Hs Hl] Hu]. unfold bitset_shl_assign.
  pose proof (proj1 (bits_to_block_spec _ _ (proj1 Hs)) Hl) as Hr.
  destruct (Z.leb_spec (nums_ b) n) as [Hle|Hgt].
  { destruct (reset_all_bits b (wf_wf0 _ Hwf)) as (H1 & H2 & H3).
    eexists. split_and!; [done..|]. intros j Hj. rewrite H3. zcases. }
  destruct (Z.eqb_spec n 0) as [->|Hn0].
  { exists b. split_and!; [done..|]. intros j Hj. rewrite Z.sub_0_r.
    zcases. apply Hu. lia. }
  unfold bitset_block in *.
  rewrite (proj2 (Z.leb_le 1 _)) by poslia. run.
  rewrite (proj2 (Z.leb_le (n / _) _)) by poslia. run.
  destruct (shl_blocks_spec n (bits_ b) Hw) as (l & El & Hv & Hwl & Hb); [lia..|].
  unfold shl_blocks in El.
  apply bind_Ok in El as (l1 & -> & El). run.
  destruct (zero_unused_spec (set_bits b l)) as (b' & -> & Hwf' & Hs' & Hb').
  { split; [done|done|]. unfold bitset_block. cbn. by rewrite Hv. }
  exists b'. split_and!; [done..|]. intros j Hj. rewrite Hb' by done. cbn.
  destruct (Z.ltb_spec j (nums_ b)); [|done]. unfold bit at 1. cbn. apply Hb. lia.
Qed.

(** ** Right shift *)
Lemma shr_move_loop_spec k i div l :
  0 <= div <= i -> i + Z.of_nat k <= vlen l ->
  exists l', shr_move_loop k i div l = Ok l' /\ vlen l' = vlen l /\
    (Forall in_u64 l -> Forall in_u64 l') /\
    forall j, 0 <= j -> blk l' j =
      if (i - div <=? j) && (j <? i - div + Z.of_nat k) then blk l (j + div) else blk l j.
Proof.
  revert i l. induction k as [|k IH]; intros i l Hi Hk; cbn [shr_move_loop].
  - exists l. split_and!; [done..|]. intros j Hj. zcases.
  - rewrite vget_blk by lia. run. rewrite vset_in_range by lia. run.
    destruct (IH (i + 1) (<[Z.to_nat (i - div) := blk l i]> l)) as (l' & -> & Hv & Hw & Hb);
      [lia|rewrite vlen_insert; lia|].
    exists l'. split_and!; [done|by rewrite Hv, vlen_insert| |].
    + intros H. apply Hw, Forall_insert; auto with word.
    + intros j Hj. rewrite Hb, !blk_insert by lia. zcases; f_equal; lia.
Qed.

(** The block vector after the loops of [operator>>=]. *)
Definition shr_blocks (n : Z) (l : list Z) : outcome (list Z) :=
  let last := vlen l - 1 in
  let div := n / bits_per_block in
  let r := bit_index n in
  l' ← (if negb (r =? 0)
        then l' ← down_loop (shr_expr r) (- div) (Z.to_nat (last - div)) l;
             x ← vget l' last; vset l' (last - div) (shr64 x r)
        else shr_move_loop (Z.to_nat (last - div + 1)) div div l);
  fill_n (vlen l - div) (Z.to_nat div) 0 l'.

(** The shifts the loop gets right: by whole blocks, or within the last block. *)
Definition shr_supported (n len : Z) : Prop := bit_index n = 0 \/ block_index n = len - 1.

Lemma shr_blocks_spec n l :
  Forall in_u64 l -> 0 <= n < vlen l * 64 -> shr_supported n (vlen l) ->
  exists l', shr_blocks n l = Ok l' /\ vlen l' = vlen l /\ Forall in_u64 l' /\
    forall j, 0 <= j -> bitat l' j = bitat l (j + n).
Proof.
  intros Hl Hn Hsup. unfold shr_blocks, shr_supported in *.
  change (n / bits_per_block) with (block_index n).
  pose proof (bit_index_range n) as Hr. set (r := bit_index n) in *.
  set (div := block_index n) in *. assert (0 <= div < vlen l) as Hdiv by (subst div; poslia).
  assert (exists l1, (if negb (r =? 0)
      then l' ← down_loop (shr_expr r) (- div) (Z.to_nat (vlen l - 1 - div)) l;
           x ← vget l' (vlen l - 1); vset l' (vlen l - 1 - div) (shr64 x r)
      else shr_move_loop (Z.to_nat (vlen l - 1 - div + 1)) div div l) = Ok l1 /\
      vlen l1 = vlen l /\ Forall in_u64 l1 /\
      forall j, 0 <= j < vlen l - div -> blk l1 j = shr64 (blk l (j + div)) r)
    as (l1 & -> & Hv1 & Hw1 & Hb1).
  { destruct (Z.eqb_spec r 0) as [Hr0|Hr0]; cbn [negb].
    - destruct (shr_move_loop_spec (Z.to_nat (vlen l - 1 - div + 1)) div div l)
        as (l1 & -> & Hv & Hw & Hb); [lia..|].
      exists l1. split_and!; [done..|auto|]. intros j Hj. rewrite Hb, Hr0 by lia.
      unfold shr64. rewrite Z.shiftr_0_r. zcases.
    - destruct Hsup as [|Hd]; [done|]. rewrite Hd, Z.sub_diag. change (Z.to_nat 0) with O. cbn [down_loop]. run.
      rewrite vget_blk by lia. run. rewrite vset_in_range by lia. eexists. split; [done|].
      split_and!; [by rewrite vlen_insert| |].
      + apply Forall_insert; [done|]. apply in_u64_shr64; [lia|auto with word].
      + intros j Hj. rewrite blk_insert by lia. zcases. do 2 f_equal. lia. }
  run. destruct (fill_n_spec (vlen l - div) (Z.to_nat div) 0 l1)
    as (l2 & -> & Hv2 & Hw2 & Hb2); [lia..|].
  exists l2. split_and!; [done|by rewrite Hv2|auto with word|].
  intros j Hj. pose proof (bit_index_range j). pose proof (bit_index_range (j + n)).
  unfold bitat. rewrite Hb2 by poslia. rewrite Z2Nat.id by lia.
  assert (forall k, vlen l <= k -> Z.testbit (blk l k) (bit_index (j + n)) = false) as Hz.
  { intros k Hk. rewrite blk_beyond by done. apply Z.bits_0. }
  destruct (Z.leb_spec (vlen l - div) (block_index j)) as [Hge|Hlt]; cbn [andb].
  - rewrite (Hz (block_index (j + n))) by (subst div; poslia).
    destruct (Z.ltb_spec (block_index j) (vlen l - div + div)); [apply Z.bits_0|].
    rewrite blk_beyond by lia. apply Z.bits_0.
  - rewrite Hb1, testbit_shr64 by poslia.
    destruct Hsup as [Hr0|Hd].
    + f_equal; [f_equal|]; subst r div; poslia.
    + assert (block_index j = 0) as -> by poslia. rewrite Z.add_0_l.
      destruct (Z.lt_ge_cases (bit_index j + r) 64).
      * f_equal; [f_equal|]; subst r div; poslia.
      * rewrite word_bit_high by auto with word. symmetry. apply Hz. subst r div. poslia.
Qed.

Lemma shr_assign_unfold b n :
  0 < n < nums_ b -> wf0 b ->
  bitset_shr_assign b n = (l ← shr_blocks n (bits_ b); Ok (set_bits b l)).
Proof.
  intros Hn [Hw Hs Hl]. unfold bitset_shr_assign, shr_blocks, bitset_block in *.
  pose proof (proj1 (bits_to_block_spec _ _ (proj1 Hs)) Hl) as Hr.
  rewrite (proj2 (Z.leb_gt _ _)), (proj2 (Z.eqb_neq n 0)) by lia.
  rewrite (proj2 (Z.leb_le 1 _)) by poslia. run.
  rewrite (proj2 (Z.leb_le (n / _) _)) by poslia. run.
  by rewrite bind_assoc.
Qed.

Lemma shr_assign_bits b n :
  wf b -> 0 <= n -> shr_supported n (bitset_block b) ->
  exists b', bitset_shr_assign b n = Ok b' /\ wf b' /\ nums_ b' = nums_ b /\
    forall j, 0 <= j -> bit b' j = bit b (j + n).
Proof.
  intros Hwf Hn Hsup. pose proof Hwf as [[Hw Hs Hl] Hu].
  pose proof (proj1 (bits_to_block_spec _ _ (proj1 Hs)) Hl) as Hr.
  destruct (Z.le_gt_cases (nums_ b) n) as [Hle|Hgt].
  { unfold bitset_shr_assign. rewrite (proj2 (Z.leb_le _ _)) by lia.
    destruct (reset_all_bits b (wf_wf0 _ Hwf)) as (H1 & H2 & H3).
    eexists. split_and!; [done..|]. intros j Hj. rewrite H3. symmetry. apply Hu. lia. }
  destruct (Z.eq_dec n 0) as [->|Hn0].
  { unfold bitset_shr_assign. rewrite (proj2 (Z.leb_gt _ _)) by lia. exists b.
    split_and!; [done..|]. intros j Hj. by rewrite Z.add_0_r. }
  rewrite shr_assign_unfold by (done || lia). unfold bitset_block in *.
  destruct (shr_blocks_spec n (bits_ b) Hw) as (l & -> & Hv & Hwl & Hb); [lia|done|]. run.
  eexists. split; [done|]. split_and!; [|done|done].
  split; [split; [done|done|]|].
  - unfold bitset_block. cbn. by rewrite Hv.
  - cbn. intros i Hi. unfold bit. cbn. rewrite Hb by ulia. apply Hu. lia.
Qed.

(** Outside [shr_supported] the loop leaves the vector: it reads [b[last + 1]]
    when [div = 0], and writes [b[i - div]] with [i < div] when [div >= 2]. *)
Lemma shr_expr_Ok r l i :
  0 <= i -> i + 1 < vlen l ->
  shr_expr r l i = Ok (Z.lor (shr64 (blk l i) r) (shl64 (blk l (i + 1)) (64 - r))).
Proof.
  intros. unfold shr_expr. rewrite vget_blk by lia. run. by rewrite vget_blk by lia.
Qed.

Lemma shr_expr_last r l : 0 < vlen l -> shr_expr r l (vlen l - 1) = Crash OutOfBounds.
Proof.
  intros. unfold shr_expr. rewrite (vget_blk _ (vlen l - 1)) by lia. run.
  by rewrite vget_out_of_range by lia.
Qed.

Lemma down_loop_underflow r div k l :
  (1 <= k)%nat -> Z.of_nat k + 1 < vlen l -> 2 <= div < 2 ^ 63 -> vlen l < 2 ^ 63 ->
  down_loop (shr_expr r) (- div) k l = Crash OutOfBounds.
Proof.
  intros H1. revert l. induction k as [|k IH]; intros l Hk Hdiv Hlen; [lia|].
  cbn [down_loop]. rewrite shr_expr_Ok by lia. run.
  destruct (Z.lt_ge_cases (Z.of_nat (S k) - div) 0) as [Hneg|Hpos].
  - rewrite vset_out_of_range; [done|].
    replace (u64 (Z.of_nat (S k) + - div)) with (2 ^ 64 + (Z.of_nat (S k) - div)); [lia|].
    unfold u64. apply Z.mod_unique with (-1); lia.
  - rewrite u64_id by ulia. rewrite vset_in_range by lia. run.
    destruct k as [|k]; [lia|]. apply IH; rewrite ?vlen_insert; lia.
Qed.

Lemma shr_assign_faults b n :
  wf0 b -> 0 < n < nums_ b -> vlen (bits_ b) < 2 ^ 63 ->
  bit_index n <> 0 -> block_index n < bitset_block b - 1 -> block_index n <> 1 ->
  bitset_shr_assign b n = Crash OutOfBounds.
Proof.
  intros Hwf Hn Hlen Hr Hd Hd1. rewrite shr_assign_unfold by done. unfold shr_blocks.
  change (n / bits_per_block) with (block_index n). unfold bitset_block in *.
  rewrite (proj2 (Z.eqb_neq _ _)) by done. cbn [negb].
  assert (down_loop (shr_expr (bit_index n)) (- block_index n)
    (Z.to_nat (vlen (bits_ b) - 1 - block_index n)) (bits_ b) = Crash OutOfBounds) as ->; [|done].
  destruct (Z.eq_dec (block_index n) 0) as [E|E].
  - rewrite E, Z.sub_0_r.
    destruct (Z.to_nat (vlen (bits_ b) - 1)) as [|k] eqn:Ek; [lia|].
    cbn [down_loop]. replace (Z.of_nat (S k)) with (vlen (bits_ b) - 1) by lia.
    by rewrite shr_expr_last by lia.
  - apply down_loop_underflow; poslia.
Qed.

(** ** Bitwise assignment *)
Lemma assign_loop_spec op k i l rhs :
  0 <= i -> i + Z.of_nat k <= vlen l -> i + Z.of_nat k <= vlen rhs ->
  (forall x y, in_u64 x -> in_u64 y -> in_u64 (op x y)) ->
  Forall in_u64 l -> Forall in_u64 rhs ->
  exists l', assign_loop op k i l rhs = Ok l' /\ vlen l' = vlen l /\ Forall in_u64 l' /\
    forall j, 0 <= j -> blk l' j =
      if (i <=? j) && (j <? i + Z.of_nat k) then op (blk l j) (blk rhs j) else blk l j.
Proof.
  intros Hi Hk Hr Hop Hl Hrhs. revert i l Hi Hk Hr Hl.
  induction k as [|k IH]; intros i l Hi Hk Hr Hl; cbn [assign_loop].
  - exists l. split_and!; [done..|]. intros j Hj. zcases.
  - rewrite vget_blk by lia. run. rewrite vget_blk by lia. run.
    rewrite vset_in_range by lia. run.
    destruct (IH (i + 1) (<[Z.to_nat i := op (blk l i) (blk rhs i)]> l))
      as (l' & -> & Hv & Hw & Hb); [lia|rewrite vlen_insert; lia|lia| |].
    { apply Forall_insert; [done|]. auto with word. }
    exists l'. split_and!; [done|by rewrite Hv, vlen_insert|done|].
    intros j Hj. rewrite Hb, blk_insert by lia. zcases. by subst.
Qed.

(** [op] is the pointwise boolean operation [f]. *)
Definition pointwise (op : Z -> Z -> Z) (f : bool -> bool -> bool) : Prop :=
  (forall x y, in_u64 x -> in_u64 y -> in_u64 (op x y)) /\
  (forall x y k, 0 <= k < 64 -> Z.testbit (op x y) k = f (Z.testbit x k) (Z.testbit y k)).

Lemma pointwise_land : pointwise Z.land andb.
Proof. split; intros; [auto with word|by autorewrite with bits]. Qed.
Lemma pointwise_lor : pointwise Z.lor orb.
Proof. split; intros; [auto with word|by autorewrite with bits]. Qed.
Lemma pointwise_lxor : pointwise Z.lxor xorb.
Proof. split; intros; [auto with word|by autorewrite with bits]. Qed.
Lemma pointwise_and_not : pointwise and_not (fun a b => a && negb b).
Proof.
  split; intros; [auto with word|]. unfold and_not. autorewrite with bits.
  by rewrite (proj2 (Z.ltb_lt k 64)) by lia.
Qed.

(** On sets of the same size, [op=] acts bit by bit. *)
Lemma assign_op_bits op f b c :
  pointwise op f -> f false false = false -> wf b -> wf c -> nums_ b = nums_ c ->
  exists b', assign_op op b c = Ok b' /\ wf b' /\ nums_ b' = nums_ b /\
    forall j, 0 <= j -> bit b' j = f (bit b j) (bit c j).
Proof.
  intros [Hop1 Hop2] Hff Hb Hc Hs.
  pose proof Hb as [[Hw Hn Hl] Hu]. pose proof Hc as [[Hw' Hn' Hl'] Hu'].
  unfold assign_op. assert (bitset_block b = bitset_block c) as Hbl by congruence.
  rewrite <- Hbl, Z.ltb_irrefl. unfold bitset_block in *.
  destruct (assign_loop_spec op (Z.to_nat (vlen (bits_ b))) 0 (bits_ b) (bits_ c))
    as (l' & -> & Hv & Hwl & Hbk); [pose proof (vlen_nonneg (bits_ b)); lia..|done|done|done|].
  run. eexists. split; [done|].
  assert (forall j, 0 <= j -> bit (set_bits b l') j = f (bit b j) (bit c j)) as Hbit.
  { intros j Hj. pose proof (bit_index_range j). unfold bit, bitat. cbn.
    rewrite Hbk by poslia. destruct (Z.ltb_spec (block_index j) (0 + Z.of_nat (Z.to_nat (vlen (bits_ b))))).
    - rewrite (proj2 (Z.leb_le 0 _)) by poslia. cbn [andb]. by apply Hop2.
    - rewrite andb_false_r. by rewrite !blk_beyond, !Z.bits_0 by lia. }
  split_and!; [|done|done]. split; [split; cbn; [done|done|]|].
  - unfold bitset_block. cbn. by rewrite Hv.
  - cbn. intros i Hi. rewrite Hbit, Hu, Hu' by ulia. done.
Qed.

Lemma set_all_bits b :
  wf0 b -> exists b', bitset_set_all b = Ok b' /\ wf b' /\ nums_ b' = nums_ b /\
    forall j, 0 <= j -> bit b' j = (j <? nums_ b).
Proof.
  intros Hwf. pose proof Hwf as [Hw Hn Hl].
  pose proof (proj1 (bits_to_block_spec _ _ (proj1 Hn)) Hl) as Hr.
  assert (bitset_set_all b = zero_unused_bits (bitset_fill (nums_ b) true)) as ->.
  { unfold bitset_set_all, set_bits, bitset_fill. rewrite <- Hl.
    unfold bitset_block, vlen. by rewrite Nat2Z.id. }
  destruct (zero_unused_spec _ (fill_wf0 (nums_ b) true Hn)) as (b' & -> & Hwf' & Hs & Hb).
  exists b'. split_and!; [done..|]. intros j Hj. rewrite Hb, fill_bit by done. cbn.
  rewrite <- Hl. zcases.
Qed.

Lemma flip_all_bits b :
  wf b -> exists b', bitset_flip_all b = Ok b' /\ wf b' /\ nums_ b' = nums_ b /\
    forall j, 0 <= j -> bit b' j = (j <? nums_ b) && negb (bit b j).
Proof.
  intros [[Hw Hn Hl] Hu]. pose proof (proj1 (bits_to_block_spec _ _ (proj1 Hn)) Hl) as Hr.
  assert (wf0 (set_bits b (not64 <$> bits_ b))) as Hwf.
  { split; cbn; [|done|].
    - apply Forall_fmap, Forall_true. intros x. apply in_u64_not64.
    - unfold bitset_block, vlen in *. cbn. by rewrite length_fmap. }
  unfold bitset_flip_all.
  destruct (zero_unused_spec _ Hwf) as (b' & -> & Hwf' & Hs & Hb).
  exists b'. split_and!; [done..|]. intros j Hj. rewrite Hb by done. cbn.
  destruct (Z.ltb_spec j (nums_ b)); [|done]. cbn. pose proof (bit_index_range j).
  assert (0 <= block_index j < vlen (bits_ b)) as Hk by poslia.
  unfold bit, bitat. cbn. unfold blk. rewrite list_lookup_fmap.
  destruct (lookup_lt_is_Some_2 (bits_ b) (Z.to_nat (block_index j))) as [x ->];
    [unfold vlen in Hk; lia|]. cbn. rewrite testbit_not64 by lia.
  by rewrite (proj2 (Z.ltb_lt _ _)) by lia.
Qed.

(** ** Counting *)
Fixpoint count_true (f : Z -> bool) (i : Z) (n : nat) : Z :=
  match n with
  | O => 0
  | S n' => (if f i then 1 else 0) + count_true f (i + 1) n'
  end.

Lemma count_true_ext f g i n :
  (forall j, i <= j < i + Z.of_nat n -> f j = g j) -> count_true f i n = count_true g i n.
Proof.
  revert i. induction n as [|n IH]; intros i H; [done|]. cbn [count_true].
  rewrite H, IH by lia || (intros; apply H; lia). done.
Qed.

Lemma count_true_app f i n m :
  count_true f i (n + m) = count_true f i n + count_true f (i + Z.of_nat n) m.
Proof.
  revert i. induction n as [|n IH]; intros i; cbn [count_true Nat.add].
  - by rewrite Z.add_0_r.
  - rewrite IH. replace (i + 1 + Z.of_nat n) with (i + Z.of_nat (S n)) by lia. lia.
Qed.

Lemma count_true_shift f g i d n :
  (forall j, i <= j < i + Z.of_nat n -> f j = g (j + d)) ->
  count_true f i n = count_true g (i + d) n.
Proof.
  revert i. induction n as [|n IH]; intros i H; [done|]. cbn [count_true].
  rewrite H, IH by lia || (intros; apply H; lia).
  by replace (i + 1 + d) with (i + d + 1) by lia.
Qed.

Lemma count_true_false f i n :
  (forall j, i <= j < i + Z.of_nat n -> f j = false) -> count_true f i n = 0.
Proof.
  revert i. induction n as [|n IH]; intros i H; [done|]. cbn [count_true].
  rewrite H, IH by lia || (intros; apply H; lia). done.
Qed.

Lemma count_table_correct :
  forallb (fun c => bool_decide (count_table !! c = Some (count_true (Z.testbit (Z.of_nat c)) 0 8)))
    (seq 0 256) = true.
Proof. vm_compute. reflexivity. Qed.

Lemma count_table_lookup c :
  0 <= c < 256 -> count_table !! Z.to_nat c = Some (count_true (Z.testbit c) 0 8).
Proof.
  intros Hc. pose proof count_table_correct as H. rewrite forallb_forall in H.
  specialize (H (Z.to_nat c)). rewrite bool_decide_eq_true, Z2Nat.id in H by lia.
  apply H, in_seq. lia.
Qed.

Lemma count_block_spec fuel x n :
  0 <= x < 2 ^ (8 * Z.of_nat fuel) ->
  count_block fuel x n = Some (n + count_true (Z.testbit x) 0 (8 * fuel)).
Proof.
  revert x n. induction fuel as [|fuel IH]; intros x n Hx; unfold count_block; fold count_block.
  - cbn in Hx. assert (x = 0) as -> by lia. cbn. f_equal. lia.
  - destruct (Z.eqb_spec x 0) as [->|Hx0].
    { rewrite count_true_false; [f_equal; lia|]. intros. apply Z.bits_0. }
    assert (0 <= Z.land x (2 ^ 8 - 1) < 256) as Hm.
    { change (2 ^ 8 - 1) with (Z.ones 8). rewrite Z.land_ones by lia. apply Z.mod_pos_bound. lia. }
    rewrite count_table_lookup by done. cbn [mbind option_bind].
    rewrite IH.
    + replace (8 * S fuel)%nat with (8 + 8 * fuel)%nat by lia. rewrite count_true_app. f_equal.
      rewrite (count_true_ext (Z.testbit (Z.land x (2 ^ 8 - 1))) (Z.testbit x)).
      2: { intros j Hj. change (2 ^ 8 - 1) with (Z.ones 8).
           rewrite Z.land_spec, Z.ones_spec_low, andb_true_r by lia. done. }
      rewrite (count_true_shift (Z.testbit (shr64 x 8)) (Z.testbit x) 0 8).
      { rewrite !Z.add_0_l. change (Z.of_nat 8) with 8. lia. }
      intros j Hj. apply testbit_shr64. lia.
    + unfold shr64. rewrite Z.shiftr_div_pow2 by lia.
      replace (8 * Z.of_nat (S fuel)) with (8 * Z.of_nat fuel + 8) in Hx by lia.
      rewrite Z.pow_add_r in Hx by lia. split; [apply Z.div_pos; lia|].
      apply Z.div_lt_upper_bound; lia.
Qed.

Lemma bitat_cons x l j :
  0 <= j -> bitat (x :: l) j = if j <? 64 then Z.testbit x j else bitat l (j - 64).
Proof.
  intros Hj. unfold bitat, blk. destruct (Z.ltb_spec j 64).
  - replace (block_index j) with 0 by poslia. cbn. f_equal. poslia.
  - replace (Z.to_nat (block_index j)) with (S (Z.to_nat (block_index (j - 64)))) by poslia.
    cbn. f_equal. poslia.
Qed.

Lemma count_blocks_spec l n :
  Forall in_u64 l ->
  count_blocks l n = Some (n + count_true (bitat l) 0 (64 * length l)).
Proof.
  revert n. induction l as [|x l IH]; intros n Hl; cbn [count_blocks].
  { cbn. f_equal. lia. }
  apply Forall_cons in Hl as [Hx Hl].
  rewrite count_block_spec by (cbn; ulia). cbn [mbind option_bind].
  rewrite IH by done. f_equal. rewrite length_cons.
  replace (64 * S (length l))%nat with (64 + 64 * length l)%nat by lia.
  rewrite count_true_app. change (8 * 8)%nat with 64%nat.
  rewrite (count_true_ext (bitat (x :: l)) (Z.testbit x) 0 64).
  2: { intros j Hj. rewrite bitat_cons by lia. by rewrite (proj2 (Z.ltb_lt j 64)) by lia. }
  rewrite (count_true_shift (bitat l) (bitat (x :: l)) 0 64).
  { rewrite !Z.add_0_l. change (Z.of_nat 64) with 64. lia. }
  intros j Hj. rewrite bitat_cons by lia. rewrite (proj2 (Z.ltb_ge (j + 64) 64)) by lia.
  f_equal. lia.
Qed.

Lemma count_bits b :
  wf b -> bitset_count b = Some (count_true (bit b) 0 (Z.to_nat (nums_ b))).
Proof.
  intros [[Hw Hn Hl] Hu]. unfold bitset_count. rewrite count_blocks_spec by done.
  rewrite Z.add_0_l. f_equal.
  pose proof (proj1 (bits_to_block_spec _ _ (proj1 Hn)) Hl) as Hr.
  unfold bitset_block, vlen in *.
  replace (64 * length (bits_ b))%nat
    with (Z.to_nat (nums_ b) + (64 * length (bits_ b) - Z.to_nat (nums_ b)))%nat by lia.
  rewrite count_true_app, Z.add_comm, count_true_false; [done|].
  intros j Hj. apply Hu. lia.
Qed.

(** ** Searching *)
Fixpoint trailing (p : positive) : Z :=
  match p with xO p' => 1 + trailing p' | _ => 0 end.

Lemma trailing_nonneg p : 0 <= trailing p.
Proof. induction p; cbn [trailing]; lia. Qed.

Lemma isolate_lowest p :
  Zpos p - Z.land (Zpos p) (Zpos p - 1) = 2 ^ trailing p.
Proof.
  induction p as [p _|p IH|]; cbn [trailing]; [|..|done].
  - assert (Z.land (Zpos (xI p)) (Zpos (xI p) - 1) = 2 * Zpos p) as ->; [|lia].
    replace (Zpos (xI p) - 1) with (2 * Zpos p) by lia.
    rewrite (Pos2Z.inj_xI p). apply Z.bits_inj'. intros n Hn. rewrite Z.land_spec.
    destruct (Z.eq_dec n 0) as [->|]; [by rewrite Z.testbit_even_0, andb_false_r|].
    replace n with (Z.succ (n - 1)) by lia.
    rewrite Z.testbit_odd_succ, Z.testbit_even_succ by lia. apply andb_diag.
  - assert (Z.land (Zpos (xO p)) (Zpos (xO p) - 1) = 2 * Z.land (Zpos p) (Zpos p - 1)) as ->.
    { replace (Zpos (xO p) - 1) with (2 * (Zpos p - 1) + 1) by lia.
      rewrite (Pos2Z.inj_xO p). apply Z.bits_inj'. intros n Hn. rewrite Z.land_spec.
      destruct (Z.eq_dec n 0) as [->|]; [by rewrite !Z.testbit_even_0|].
      replace n with (Z.succ (n - 1)) by lia.
      by rewrite Z.testbit_odd_succ, !Z.testbit_even_succ, Z.land_spec by lia. }
    rewrite Z.pow_add_r by (pose proof (trailing_nonneg p); lia). lia.
Qed.

Lemma log_loop_log2 p acc : log_loop p acc = acc + Z.log2 (Zpos p).
Proof.
  revert acc. induction p as [p IH|p IH|]; intros acc; cbn [log_loop].
  - rewrite IH, (Pos2Z.inj_xI p), Z.log2_succ_double by lia. lia.
  - rewrite IH, (Pos2Z.inj_xO p), Z.log2_double by lia. lia.
  - cbn. lia.
Qed.

Lemma trailing_bit p : Z.testbit (Zpos p) (trailing p) = true.
Proof.
  induction p as [p _|p IH|]; cbn [trailing]; [done| |done].
  pose proof (trailing_nonneg p). rewrite (Pos2Z.inj_xO p), Z.add_comm.
  by rewrite Z.add_1_r, Z.testbit_even_succ by lia.
Qed.

Lemma trailing_below p j : 0 <= j < trailing p -> Z.testbit (Zpos p) j = false.
Proof.
  revert j. induction p as [p _|p IH|]; intros j Hj; cbn [trailing] in *; try lia.
  rewrite (Pos2Z.inj_xO p). destruct (Z.eq_dec j 0) as [->|]; [apply Z.testbit_even_0|].
  replace j with (Z.succ (j - 1)) by lia. rewrite Z.testbit_even_succ by lia. apply IH. lia.
Qed.

(** [lowest_bit] is the position of the lowest 1 of a non-zero block. *)
Lemma lowest_bit_spec x :
  in_u64 x -> x <> 0 ->
  0 <= lowest_bit x < 64 /\ Z.testbit x (lowest_bit x) = true /\
  forall j, 0 <= j < lowest_bit x -> Z.testbit x j = false.
Proof.
  intros Hx Hx0. destruct x as [|p|p]; [done| |ulia].
  assert (lowest_bit (Zpos p) = trailing p) as E.
  { unfold lowest_bit. rewrite (u64_id (Zpos p - 1)) by ulia.
    rewrite isolate_lowest. pose proof (trailing_nonneg p).
    assert (2 ^ trailing p <= Zpos p).
    { rewrite <- isolate_lowest. pose proof (Z.land_nonneg (Zpos p) (Zpos p - 1)). lia. }
    assert (0 < 2 ^ trailing p) by (apply Z.pow_pos_nonneg; lia).
    rewrite u64_id by ulia. destruct (2 ^ trailing p) as [|q|q] eqn:Eq; try lia.
    rewrite log_loop_log2, <- Eq, Z.log2_pow2 by lia. lia. }
  rewrite E. split_and!; [apply trailing_nonneg| |apply trailing_bit|apply trailing_below].
  destruct (Z.lt_ge_cases (trailing p) 64); [done|].
  pose proof (trailing_bit p) as T. by rewrite word_bit_high in T.
Qed.

Lemma skip_zero_blocks_spec l pre i :
  i = vlen pre ->
  let r := skip_zero_blocks l i in
  i <= r <= i + vlen l /\ (forall k, i <= k < r -> blk (pre ++ l) k = 0) /\
  (r < i + vlen l -> blk (pre ++ l) r <> 0).
Proof.
  revert pre i. induction l as [|x l IH]; intros pre i Hi; cbn [skip_zero_blocks].
  - unfold vlen. cbn. split_and!; lia.
  - assert (blk (pre ++ x :: l) i = x) as Hx.
    { unfold blk, vlen in *. rewrite lookup_app_r by lia.
      by replace (Z.to_nat i - length pre)%nat with 0%nat by lia. }
    assert (vlen (x :: l) = vlen l + 1) as Hv by (unfold vlen; cbn; lia).
    pose proof (vlen_nonneg l).
    destruct (Z.eqb_spec x 0) as [E|E].
    + destruct (IH (pre ++ [x]) (i + 1)) as (H1 & H2 & H3).
      { rewrite vlen_app. unfold vlen. cbn. unfold vlen in *. lia. }
      rewrite <- app_assoc in H2, H3. cbn in *. split_and!; [lia|lia| |].
      * intros k Hk. destruct (Z.eq_dec k i) as [->|]; [congruence|]. apply H2. lia.
      * intros Hk. apply H3. lia.
    + split_and!; [lia..|]. intros _. congruence.
Qed.

(** [r] is the first set position from [start] on, or [npos]. *)
Definition first_from (b : bitset) (start r : Z) : Prop :=
  (r = npos /\ forall j, start <= j -> bit b j = false) \/
  (start <= r < nums_ b /\ bit b r = true /\ forall j, start <= j < r -> bit b j = false).

Lemma bit_blk_zero b j : 0 <= j -> blk (bits_ b) (block_index j) = 0 -> bit b j = false.
Proof. intros Hj H. unfold bit, bitat. rewrite H. apply Z.bits_0. Qed.

(** The search by blocks, on any set a constructor can build: a position is
    found inside the block vector (not necessarily below [nums_]). *)
Lemma find_from_blocks b i :
  wf0 b -> 0 <= i ->
  exists r, find_from b i = Ok r /\
    ((r = npos /\ forall j, i * 64 <= j -> bit b j = false) \/
     (i * 64 <= r < bitset_block b * 64 /\ bit b r = true /\
      forall j, i * 64 <= j < r -> bit b j = false)).
Proof.
  intros [Hw Hn Hl] Hi. unfold find_from, bitset_block in *.
  destruct (Z.le_gt_cases (vlen (bits_ b)) i) as [Hge|Hlt].
  { rewrite drop_ge by (unfold vlen in *; lia). cbn [skip_zero_blocks].
    rewrite (proj2 (Z.leb_le _ _)) by done. eexists. split; [done|]. left. split; [done|].
    intros j Hj. apply bitat_beyond. lia. }
  destruct (skip_zero_blocks_spec (drop (Z.to_nat i) (bits_ b)) (take (Z.to_nat i) (bits_ b)) i)
    as (H1 & H2 & H3).
  { unfold vlen in *. rewrite length_take. lia. }
  rewrite take_drop in H2, H3.
  assert (i + vlen (drop (Z.to_nat i) (bits_ b)) = vlen (bits_ b)) as Hv.
  { unfold vlen in *. rewrite length_drop. lia. }
  rewrite Hv in *. set (r := skip_zero_blocks _ i) in *.
  assert (forall j, i * 64 <= j -> j < r * 64 -> bit b j = false) as Hz.
  { intros j Hj Hr. apply bit_blk_zero; [lia|]. apply H2. poslia. }
  destruct (Z.leb_spec (vlen (bits_ b)) r) as [Hr|Hr].
  - eexists. split; [done|]. left. split; [done|]. intros j Hj.
    destruct (Z.lt_ge_cases j (r * 64)); [by apply Hz|]. apply bitat_beyond. lia.
  - rewrite vget_blk by lia. run. eexists. split; [done|]. right.
    change bits_per_block with 64.
    destruct (lowest_bit_spec (blk (bits_ b) r)) as (L1 & L2 & L3); [auto with word|by apply H3|].
    split_and!; [lia|lia|unfold bit; by rewrite bitat_block by lia|].
    intros j Hj. destruct (Z.lt_ge_cases j (r * 64)); [apply Hz; lia|].
    replace j with (r * 64 + (j - r * 64)) by lia. unfold bit. rewrite bitat_block by lia.
    apply L3. lia.
Qed.

Lemma find_from_spec b i :
  wf b -> 0 <= i -> exists r, find_from b i = Ok r /\ first_from b (i * 64) r.
Proof.
  intros [Hwf Hu] Hi. destruct (find_from_blocks b i Hwf Hi) as (r & -> & Hr).
  exists r. split; [done|]. destruct Hr as [Hr|(Hr & Hb & Hbelow)]; [by left|].
  right. split_and!; [lia| |done..].
  destruct (Z.lt_ge_cases r (nums_ b)) as [|Hge]; [done|]. by rewrite Hu in Hb.
Qed.

Lemma find_next_spec b i :
  wf b -> 0 <= i -> exists r, find_next b i = Ok r /\ first_from b (i + 1) r.
Proof.
  intros Hwf Hi. pose proof Hwf as [[Hw Hn Hl] Hu]. unfold find_next, bitset_size.
  assert (nums_ b <= i + 1 -> first_from b (i + 1) npos) as Hnone.
  { intros H. left. split; [done|]. intros j Hj. apply Hu. lia. }
  destruct (Z.eqb_spec (nums_ b) 0) as [Hz|Hz].
  { rewrite orb_true_r. eexists. split; [done|]. apply Hnone. lia. }
  rewrite orb_false_r, u64_id by ulia. destruct (Z.leb_spec (nums_ b - 1) i).
  { eexists. split; [done|]. apply Hnone. lia. }
  pose proof (wf0_block_range b (i + 1) (wf_wf0 _ Hwf) ltac:(lia)) as Hb.
  pose proof (bit_index_range (i + 1)) as Hbi.
  rewrite vget_blk by done. run. change bits_per_block with 64.
  set (k := block_index (i + 1)) in *.
  set (x := Z.land (blk (bits_ b) k) (shl64 (not64 0) (bit_index (i + 1)))).
  assert (in_u64 x) as Hx by (subst x; auto with word).
  assert (i + 1 = k * 64 + bit_index (i + 1)) as Ek by (subst k; poslia).
  assert (forall j, 0 <= j < 64 ->
    Z.testbit x j = (bit_index (i + 1) <=? j) && bit b (k * 64 + j)) as Hxb.
  { intros j Hj. subst x. rewrite Z.land_spec, testbit_ones_from by lia.
    unfold bit. rewrite bitat_block by lia. rewrite (proj2 (Z.ltb_lt j 64)) by lia.
    by rewrite andb_true_r, andb_comm. }
  destruct (Z.eqb_spec x 0) as [E|E]; cbn [negb].
  - destruct (find_from_spec b (k + 1) Hwf ltac:(lia)) as (r & -> & Hr).
    exists r. split; [done|].
    assert (forall j, i + 1 <= j < (k + 1) * 64 -> bit b j = false) as Hgap.
    { intros j Hj. specialize (Hxb (j - k * 64)). rewrite E, Z.bits_0 in Hxb.
      replace (k * 64 + (j - k * 64)) with j in Hxb by lia.
      rewrite (proj2 (Z.leb_le _ _)) in Hxb by lia. symmetry. apply Hxb. lia. }
    destruct Hr as [[-> Hr]|(Hr & Hrb & Hrn)]; [left|right].
    + split; [done|]. intros j Hj. destruct (Z.lt_ge_cases j ((k + 1) * 64)); auto with lia.
    + split_and!; [lia..|done|]. intros j Hj.
      destruct (Z.lt_ge_cases j ((k + 1) * 64)); [apply Hgap; lia|apply Hrn; lia].
  - eexists. split; [done|]. destruct (lowest_bit_spec x Hx E) as (L1 & L2 & L3).
    rewrite Hxb in L2 by done. apply andb_true_iff in L2 as [Hle%Z.leb_le L2].
    right. split_and!; [lia| |done|].
    + destruct (Z.lt_ge_cases (k * 64 + lowest_bit x) (nums_ b)) as [|Hge]; [done|].
      by rewrite Hu in L2.
    + intros j Hj. specialize (L3 (j - k * 64) ltac:(lia)). rewrite Hxb in L3 by lia.
      replace (k * 64 + (j - k * 64)) with j in L3 by lia.
      by rewrite (proj2 (Z.leb_le _ _)) in L3 by lia.
Qed.

(** ** The order *)
Definition less_or (xs ys : list Z) (sx sy : Z) : bool :=
  match less_loop xs ys with Some r => r | None => if sx <? sy then true else false end.

Lemma less_loop_refl xs : less_loop xs xs = None.
Proof. induction xs as [|x xs IH]; [done|]. cbn. by rewrite Z.ltb_irrefl. Qed.

Lemma less_loop_None xs ys : length xs = length ys -> less_loop xs ys = None -> xs = ys.
Proof.
  revert ys. induction xs as [|x xs IH]; intros [|y ys] Hl; cbn; try done; try lia.
  destruct (Z.ltb_spec x y); [done|]. destruct (Z.ltb_spec y x); [done|].
  intros E. assert (x = y) by lia. subst. f_equal. apply IH; [|done]. by injection Hl.
Qed.

Lemma less_or_cons x xs y ys sx sy :
  less_or (x :: xs) (y :: ys) sx sy = true <->
    x < y \/ (x = y /\ less_or xs ys sx sy = true).
Proof.
  unfold less_or. cbn. destruct (Z.ltb_spec x y); [naive_solver|].
  destruct (Z.ltb_spec y x).
  - split; [done|lia].
  - split; [intros; right; split; [lia|done]|intros [|[_ E]]; [lia|done]].
Qed.

Lemma less_or_nil ys sx sy : less_or [] ys sx sy = true <-> sx < sy.
Proof. unfold less_or. cbn. destruct (Z.ltb_spec sx sy); split; done || lia. Qed.
Lemma less_or_nil_r xs sx sy : less_or xs [] sx sy = true <-> sx < sy.
Proof.
  unfold less_or. destruct xs; cbn; destruct (Z.ltb_spec sx sy); split; done || lia.
Qed.

Lemma less_or_trans xs ys zs sx sy sz :
  ((length xs < length zs)%nat -> sx < sz) ->
  ((length ys < length xs)%nat -> sy < sx) ->
  ((length zs < length ys)%nat -> sz < sy) ->
  less_or xs ys sx sy = true -> less_or ys zs sy sz = true -> less_or xs zs sx sz = true.
Proof.
  revert ys zs. induction xs as [|x xs IH]; intros ys zs H1 H2 H3.
  - rewrite !less_or_nil. destruct ys as [|y ys].
    + rewrite less_or_nil. lia.
    + destruct zs as [|z zs]; [rewrite less_or_nil_r; lia|].
      intros _ _. apply H1. cbn. lia.
  - destruct ys as [|y ys].
    { rewrite less_or_nil_r, less_or_nil. intros. specialize (H2 ltac:(cbn; lia)). lia. }
    destruct zs as [|z zs].
    { rewrite !less_or_nil_r. intros _ Hyz. specialize (H3 ltac:(cbn; lia)). lia. }
    rewrite !less_or_cons. intros [|[-> Hxy]] [|[-> Hyz]]; [left; lia|auto..|].
    right. split; [done|]. apply (IH ys zs); cbn in *; auto with lia.
Qed.

Lemma wf_length b c : wf0 b -> wf0 c ->
  (length (bits_ b) < length (bits_ c))%nat -> nums_ b < nums_ c.
Proof.
  intros [_ Hn Hl] [_ Hn' Hl'] Hlt.
  pose proof (proj1 (bits_to_block_spec _ _ (proj1 Hn)) Hl).
  pose proof (proj1 (bits_to_block_spec _ _ (proj1 Hn')) Hl').
  unfold bitset_block, vlen in *. lia.
Qed.

Lemma lt_unfold x y : bitset_lt x y = less_or (bits_ x) (bits_ y) (nums_ x) (nums_ y).
Proof. done. Qed.

Lemma less_or_total xs ys sx sy :
  less_or xs ys sx sy = false -> less_or ys xs sy sx = false ->
  less_loop xs ys = None /\ sx = sy.
Proof.
  revert ys. induction xs as [|x xs IH]; intros [|y ys]; unfold less_or in *; cbn;
    try (destruct (Z.ltb_spec sx sy), (Z.ltb_spec sy sx); try done; intros; split; done || lia).
  destruct (Z.ltb_spec x y), (Z.ltb_spec y x); try done. apply IH.
Qed.

(** ** Proxies *)
Lemma reference_mask i : shl64 1 (bit_index i) = bit_mask i.
Proof. done. Qed.

Lemma at_Ok b i :
  wf0 b -> 0 <= i < nums_ b ->
  bitset_at b i = Ok (Reference (block_index i) (bit_mask i)).
Proof.
  intros Hwf Hi. pose proof (wf0_block_range b i Hwf Hi). unfold bitset_at.
  rewrite (proj2 (Z.ltb_lt _ _)) by lia. run. rewrite vget_blk by done. run.
  unfold reference_new. pose proof (bit_index_range i). change bits_per_block with 64.
  by rewrite (proj2 (Z.ltb_lt _ _)) by lia.
Qed.

Lemma reference_apply_update b i f :
  0 <= i < nums_ b ->
  reference_apply (Reference (block_index i) (bit_mask i)) f b =
    update_block b i (fun x => f x (bit_mask i)).
Proof.
  intros Hi. unfold reference_apply, update_block. cbn.
  by rewrite (proj2 (Z.ltb_lt _ _)) by lia.
Qed.

(** A decision procedure for the invariant, used on concrete sets. *)
Definition wf_check (b : bitset) : bool :=
  forallb (fun x => (0 <=? x) && (x <? 2 ^ 64)) (bits_ b) &&
  ((0 <=? nums_ b) && (nums_ b <? 2 ^ 64)) &&
  (bitset_block b =? bits_to_block (nums_ b)) &&
  match zero_unused_bits b with Ok b' => bool_decide (b' = b) | _ => false end.

Lemma wf_check_wf b : wf_check b = true -> wf b.
Proof.
  unfold wf_check. rewrite !andb_true_iff, Z.leb_le, Z.ltb_lt, Z.eqb_eq.
  intros [[[Hw Hn] Hl] Hz].
  assert (wf0 b) as Hwf.
  { split; [|done|done]. rewrite forallb_forall in Hw. apply Forall_forall.
    intros x Hx%list_elem_of_In. specialize (Hw x Hx). unfold in_u64. lia. }
  destruct (zero_unused_spec b Hwf) as (b' & E & Hwf' & _). rewrite E in Hz.
  apply bool_decide_eq_true in Hz. by subst.
Qed.

(** ** Printing *)
Lemma to_string_loop_spec k i b msb size str :
  wf0 b -> 0 <= i -> i + Z.of_nat k <= Z.min size (nums_ b) -> size <= vlen str ->
  exists str', to_string_loop k i b msb size str = Ok str' /\ vlen str' = vlen str /\
    forall p, 0 <= p < vlen str -> str' !! Z.to_nat p =
      let j := if (msb : bool) then size - p - 1 else p in
      if (i <=? j) && (j <? i + Z.of_nat k) && bit b j then Some Byte.x31
      else str !! Z.to_nat p.
Proof.
  intros Hwf. revert i str. induction k as [|k IH]; intros i str Hi Hk Hs; cbn [to_string_loop].
  - exists str. split_and!; [done..|]. intros p Hp. destruct msb; cbn zeta; zcases.
  - rewrite get_bit by (done || lia). run.
    set (q := if msb then size - i - 1 else i).
    assert (0 <= q < vlen str) as Hq by (subst q; destruct msb; lia).
    assert ((if bit b i then vset str q Byte.x31 else Ok str) =
      Ok (if bit b i then <[Z.to_nat q := Byte.x31]> str else str)) as ->.
    { destruct (bit b i); [by rewrite vset_in_range|done]. }
    run. set (str1 := if bit b i then _ else _).
    assert (vlen str1 = vlen str) as Hv by (subst str1; destruct (bit b i); [apply vlen_insert|done]).
    destruct (IH (i + 1) str1) as (str' & -> & Hv' & Hp'); [lia..|].
    exists str'. split_and!; [done|lia|]. intros p Hp. rewrite Hp' by lia. clear Hp' IH.
    cbn zeta. set (j := if msb then size - p - 1 else p).
    assert (p = q <-> j = i) as Hpq by (subst j q; destruct msb; lia).
    subst str1. unfold vlen in *. destruct (Z.eq_dec j i) as [->|Hne].
    + rewrite (proj2 (Z.leb_gt (i + 1) i)), Z.leb_refl,
        (proj2 (Z.ltb_lt i (i + Z.of_nat (S k)))) by lia.
      cbn [andb]. destruct (bit b i) eqn:E; [|done].
      assert (p = q) as -> by by apply Hpq. by rewrite list_lookup_insert_eq by lia.
    + replace ((i + 1 <=? j) && (j <? i + 1 + Z.of_nat k))
        with ((i <=? j) && (j <? i + Z.of_nat (S k))) by (zcases).
      destruct ((i <=? j) && (j <? i + Z.of_nat (S k)) && bit b j); [done|].
      destruct (bit b i); [|done].
      assert (Z.to_nat q <> Z.to_nat p) by lia. by rewrite list_lookup_insert_ne.
Qed.

(** ** Properties *)

(** The set {0, 2} of size 3, and one of 130 bits over three blocks. *)
Definition set_5_3 : bitset := Bitset [5] 3.
Definition set_130 : bitset := Bitset [2 ^ 63; 1; 2] 130.

Lemma set_5_3_wf : wf set_5_3.
Proof. apply wf_check_wf. vm_compute. reflexivity. Qed.
Lemma set_130_wf : wf set_130.
Proof. apply wf_check_wf. vm_compute. reflexivity. Qed.

(** [set], [reset] and [flip] of one bit change that bit only and keep the
    representation invariant; [operator[]] reads it; each of them stops at its
    [assert] when the index is not below [size()]. *)
Theorem bit_update_correct b i v :
  wf b -> 0 <= i ->
  (i < nums_ b ->
     sets_bit b i (fun _ => v) (bitset_set_bit b i v) /\
     sets_bit b i (fun _ => false) (bitset_reset_bit b i) /\
     sets_bit b i negb (bitset_flip_bit b i) /\
     bitset_get b i = Ok (bit b i)) /\
  (nums_ b <= i ->
     bitset_set_bit b i v = Crash AssertFails /\
     bitset_reset_bit b i = Crash AssertFails /\
     bitset_flip_bit b i = Crash AssertFails /\
     bitset_get b i = Crash AssertFails).
Proof.
  intros Hwf Hi. split; intros H.
  - split_and!; [by apply set_sets|by apply reset_sets|by apply flip_sets|].
    apply get_bit; [apply Hwf|done].
  - split_and!; try (by apply update_block_oob); [|by apply get_out_of_range].
    destruct v; cbn [bitset_set_bit]; [by apply update_block_oob|].
    by rewrite (proj2 (Z.ltb_ge _ _)).
Qed.

Lemma bit_update_correct_witness :
  sets_bit set_5_3 1 (fun _ => true) (bitset_set_bit set_5_3 1 true).
Proof.
  destruct (bit_update_correct set_5_3 1 true set_5_3_wf ltac:(lia)) as [H _].
  apply H. cbn. lia.
Defined.

(** [resize] keeps the bits below both sizes, fills the new positions with
    [value], drops the others, and keeps the invariant; [push_back] is [resize]
    by one followed by a [set] of the new bit. *)
Theorem resize_push_back_correct b n value :
  wf b -> in_u64 n ->
  (exists b', bitset_resize b n value = Ok b' /\ wf b' /\ nums_ b' = n /\
     forall j, 0 <= j -> bit b' j = (j <? n) && (if j <? nums_ b then bit b j else value)) /\
  (nums_ b < SIZE_MAX ->
   exists b', bitset_push_back b value = Ok b' /\ wf b' /\ nums_ b' = nums_ b + 1 /\
     forall j, 0 <= j -> bit b' j = if j =? nums_ b then value else bit b j).
Proof. intros Hwf Hn. split; [by apply resize_bits|by apply push_back_bits]. Qed.

Lemma resize_push_back_correct_witness :
  exists b', bitset_push_back set_5_3 true = Ok b' /\ wf b' /\ nums_ b' = nums_ set_5_3 + 1 /\
     forall j, 0 <= j -> bit b' j = if j =? nums_ set_5_3 then true else bit set_5_3 j.
Proof.
  apply (resize_push_back_correct set_5_3 200 true set_5_3_wf); vm_compute; intuition congruence.
Defined.

(** Appending the blocks of a vector one by one. *)
Fixpoint append_all (b : bitset) (l : list Z) : outcome bitset :=
  match l with [] => Ok b | x :: l' => b ← bitset_append b x; append_all b l' end.

Lemma append_aligned l x :
  (vlen l + 1) * 64 < 2 ^ 64 ->
  bitset_append (bitset_of_blocks l) x = Ok (bitset_of_blocks (l ++ [x])).
Proof.
  intros H. pose proof (vlen_nonneg l).
  unfold bitset_append, bitset_of_blocks, extra_bits, bitset_size, bit_index. cbn [nums_ bits_].
  change bits_per_block with 64. rewrite (u64_id (vlen l * 64)) by ulia.
  rewrite Z.mod_mul by lia. cbn [Z.eqb negb]. run.
  rewrite vlen_app. change (vlen [x]) with 1. do 2 f_equal. f_equal. lia.
Qed.

Lemma append_all_blocks l l' :
  vlen (l ++ l') * 64 < 2 ^ 64 ->
  append_all (bitset_of_blocks l) l' = Ok (bitset_of_blocks (l ++ l')).
Proof.
  revert l. induction l' as [|x l' IH]; intros l H; cbn [append_all].
  - by rewrite app_nil_r.
  - rewrite append_aligned. 
    + run. rewrite IH; rewrite <- app_assoc; done.
    + rewrite vlen_app in H. unfold vlen in *. cbn in H. lia.
Qed.

(** [append] adds the 64 bits of a block after the last bit, whatever the
    alignment, and keeps the invariant; appending the blocks of a vector one by
    one to the empty set gives the set the constructor from a sequence of
    blocks builds. *)
Theorem bitset_append_correct b x l :
  wf b -> in_u64 x -> nums_ b + 64 < 2 ^ 64 -> vlen l * 64 < 2 ^ 64 ->
  (exists b', bitset_append b x = Ok b' /\ wf b' /\ nums_ b' = nums_ b + 64 /\
     forall j, 0 <= j -> bit b' j = if j <? nums_ b then bit b j else Z.testbit x (j - nums_ b)) /\
  append_all bitset_new l = Ok (bitset_of_blocks l).
Proof. intros. split; [by apply append_bits|]. apply (append_all_blocks [] l). done. Qed.

Lemma bitset_append_correct_witness :
  exists b', bitset_append set_5_3 255 = Ok b' /\ wf b' /\ nums_ b' = 67 /\
     forall j, 0 <= j -> bit b' j = if j <? 3 then bit set_5_3 j else Z.testbit 255 (j - 3).
Proof. apply (bitset_append_correct set_5_3 255 [1; 2] set_5_3_wf); vm_compute; intuition congruence. Defined.

(** [<<=] moves every bit up by [n], drops the bits that leave the set and
    clears the low positions, for every shift count (whole blocks or not). *)
Theorem shl_correct b n :
  wf b -> 0 <= n -> vlen (bits_ b) < 2 ^ 64 ->
  exists b', bitset_shl b n = Ok b' /\ wf b' /\ nums_ b' = nums_ b /\
    forall j, 0 <= j -> bit b' j = (j <? nums_ b) && (n <=? j) && bit b (j - n).
Proof. apply shl_assign_bits. Qed.

Lemma shl_correct_witness :
  exists b', bitset_shl set_130 65 = Ok b' /\ wf b' /\ nums_ b' = 130 /\
    forall j, 0 <= j -> bit b' j = (j <? 130) && (65 <=? j) && bit set_130 (j - 65).
Proof. apply (shl_correct set_130 65 set_130_wf); vm_compute; intuition congruence. Defined.

(** [>>=] moves every bit down by [n] when the shift is by whole blocks or
    reaches the last block. *)
Theorem shr_correct b n :
  wf b -> 0 <= n -> shr_supported n (bitset_block b) ->
  exists b', bitset_shr b n = Ok b' /\ wf b' /\ nums_ b' = nums_ b /\
    forall j, 0 <= j -> bit b' j = bit b (j + n).
Proof. apply shr_assign_bits. Qed.

Lemma shr_correct_witness :
  exists b', bitset_shr set_130 64 = Ok b' /\ wf b' /\ nums_ b' = 130 /\
    forall j, 0 <= j -> bit b' j = bit set_130 (j + 64).
Proof. apply (shr_correct set_130 64 set_130_wf); [lia|left; reflexivity]. Defined.

(** On a set of several blocks, [>>=] by a count that is not a multiple of
    64 and stays below the last block leaves the block vector, except when the
    count is between 64 and 128: its loop starts at [last - div] and counts
    down to 1, so it reads [b[last + 1]] when [div = 0] and writes [b[i - div]]
    with [i < div] when [div >= 2]. *)
Theorem shr_out_of_bounds b n :
  wf0 b -> 0 < n < nums_ b -> vlen (bits_ b) < 2 ^ 63 ->
  bit_index n <> 0 -> block_index n < bitset_block b - 1 -> block_index n <> 1 ->
  bitset_shr b n = Crash OutOfBounds.
Proof. apply shr_assign_faults. Qed.

Lemma shr_out_of_bounds_witness : bitset_shr set_130 1 = Crash OutOfBounds.
Proof. apply shr_out_of_bounds; [apply set_130_wf|vm_compute; intuition congruence..]. Defined.

(** [&=], [|=], [^=] and [-=] of two sets of one size are the pointwise
    boolean operations, and keep the invariant. *)
Theorem bitwise_correct b c :
  wf b -> wf c -> nums_ b = nums_ c ->
  let bitwise m f := exists b', m = Ok b' /\ wf b' /\ nums_ b' = nums_ b /\
    forall j, 0 <= j -> bit b' j = f (bit b j) (bit c j) in
  bitwise (bitset_and b c) andb /\ bitwise (bitset_or b c) orb /\
  bitwise (bitset_xor b c) xorb /\ bitwise (bitset_sub b c) (fun x y => x && negb y).
Proof.
  intros Hb Hc Hs bitwise.
  split_and!; apply assign_op_bits; auto using pointwise_land, pointwise_lor,
    pointwise_lxor, pointwise_and_not.
Qed.

Lemma bitwise_correct_witness :
  exists b', bitset_and set_5_3 set_5_3 = Ok b' /\ wf b' /\ nums_ b' = 3 /\
    forall j, 0 <= j -> bit b' j = andb (bit set_5_3 j) (bit set_5_3 j).
Proof. apply (bitwise_correct set_5_3 set_5_3 set_5_3_wf set_5_3_wf eq_refl). Defined.

(** [count] is the number of positions below [size()] that hold a 1: the
    table covers every byte and eight rounds empty a block. *)
Theorem count_correct b :
  wf b -> bitset_count b = Some (count_true (bit b) 0 (Z.to_nat (nums_ b))).
Proof. apply count_bits. Qed.

Lemma count_correct_witness : bitset_count set_130 = Some 3.
Proof. rewrite (count_correct set_130 set_130_wf). vm_compute. reflexivity. Defined.

(** [find_first] and [find_next(i)] return the least position from 0, from
    [i + 1] on, that holds a 1, and [npos] when there is none. *)
Theorem find_correct b i :
  wf b -> 0 <= i ->
  (exists r, find_first b = Ok r /\ first_from b 0 r) /\
  (exists r, find_next b i = Ok r /\ first_from b (i + 1) r).
Proof.
  intros Hwf Hi. split; [|by apply find_next_spec].
  apply (find_from_spec b 0 Hwf). lia.
Qed.

Lemma find_correct_witness :
  (exists r, find_first set_130 = Ok r /\ first_from set_130 0 r) /\
  (exists r, find_next set_130 64 = Ok r /\ first_from set_130 65 r).
Proof. apply (find_correct set_130 64 set_130_wf). lia. Defined.

(** [operator<] is a strict total order on well-formed sets, compatible
    with [operator==]. *)
Theorem lt_strict_total x y z :
  wf x -> wf y -> wf z ->
  bitset_lt x x = false /\
  (bitset_lt x y = true -> bitset_lt y z = true -> bitset_lt x z = true) /\
  (bitset_lt x y = true \/ bitset_eq x y = true \/ bitset_lt y x = true) /\
  (bitset_eq x y = true <-> x = y).
Proof.
  intros [Hx _] [Hy _] [Hz _].
  assert (bitset_eq x y = true <-> x = y) as Heq.
  { unfold bitset_eq. rewrite andb_true_iff, Z.eqb_eq, bool_decide_eq_true.
    destruct x, y; cbn. split; [intros [-> ->]; done|by intros [= -> ->]]. }
  rewrite !lt_unfold. split_and!; [| |rewrite Heq|done].
  - unfold less_or. by rewrite less_loop_refl, Z.ltb_irrefl.
  - apply less_or_trans; by apply wf_length.
  - destruct (less_or (bits_ x) (bits_ y) _ _) eqn:E1; [by left|].
    destruct (less_or (bits_ y) (bits_ x) _ _) eqn:E2; [by right; right|].
    right; left. destruct (less_or_total _ _ _ _ E1 E2) as [Hn Hs].
    destruct x as [l n], y as [l' n']. cbn in *. subst n'. f_equal.
    apply less_loop_None; [|done].
    pose proof (wf_len _ Hx). pose proof (wf_len _ Hy).
    unfold bitset_block, vlen in *. cbn in *. lia.
Qed.

Lemma lt_strict_total_witness : bitset_lt set_5_3 set_5_3 = false.
Proof. apply (lt_strict_total set_5_3 set_5_3 set_5_3 set_5_3_wf set_5_3_wf set_5_3_wf). Defined.

(** The proxy [operator[]] returns acts on its bit of the set: assignment
    is [set], [flip] is [flip], conversion to [bool] reads the bit and the
    compound assignments are the boolean operations. *)
Theorem reference_correct b i x :
  wf b -> 0 <= i < nums_ b ->
  exists r, bitset_at b i = Ok r /\
    reference_read r b = Ok (bit b i) /\ reference_not r b = Ok (negb (bit b i)) /\
    reference_assign r x b = bitset_set_bit b i x /\
    reference_flip r b = bitset_flip_bit b i /\
    sets_bit b i (fun c => c || x) (reference_or r x b) /\
    sets_bit b i (fun c => c && x) (reference_and r x b) /\
    sets_bit b i (fun c => xorb c x) (reference_xor r x b) /\
    sets_bit b i (fun c => c && negb x) (reference_sub r x b).
Proof.
  intros Hwf Hi. exists (Reference (block_index i) (bit_mask i)).
  pose proof (wf0_block_range b i (wf_wf0 _ Hwf) Hi) as Hb.
  assert (0 <= blk (bits_ b) (block_index i)) as Hx.
  { apply in_u64_blk, wf_words, Hwf. }
  assert (forall g, (forall c, g c = c) -> sets_bit b i g (Ok b)) as Hid.
  { intros g Hg. exists b. split_and!; [done..|]. intros j Hj. rewrite Hg. zcases. by subst. }
  split; [apply at_Ok; [apply Hwf|done]|].
  unfold reference_read, reference_not, reference_assign, reference_flip,
    reference_or, reference_and, reference_xor, reference_sub.
  rewrite !reference_apply_update by done. cbn [block_ masks_].
  rewrite vget_blk by done. run.
  assert ((Z.land (blk (bits_ b) (block_index i)) (bit_mask i) =? 0) = negb (bit b i)) as ->.
  { rewrite <- (negb_involutive (_ =? 0)). f_equal. by apply land_mask_testbit. }
  rewrite negb_involutive. split_and!; try done.
  - destruct x; [done|]. cbn [bitset_set_bit]. rewrite (proj2 (Z.ltb_lt _ _)) by lia. by run.
  - destruct x; [|apply Hid; apply orb_false_r].
    apply update_block_sets; auto with word. bitstep.
  - destruct x; cbn [negb]; [apply Hid; apply andb_true_r|].
    apply update_block_sets; auto with word. unfold and_not. bitstep.
  - destruct x; [|apply Hid; apply xorb_false_r].
    apply update_block_sets; auto with word. bitstep.
  - destruct x; cbn [negb]; [|apply Hid; apply andb_true_r].
    apply update_block_sets; auto with word. unfold and_not. bitstep.
Qed.

Lemma reference_correct_witness :
  exists r, bitset_at set_130 63 = Ok r /\ reference_read r set_130 = Ok (bit set_130 63).
Proof.
  destruct (reference_correct set_130 63 true set_130_wf) as (r & H1 & H2 & _);
    [cbn; lia|]. exists r. split; assumption.
Defined.

(** [to_string] without truncation writes one character per bit, ['1'] for
    the bits of the set, most significant first or last as asked. *)
Theorem to_string_correct b msb cutoff :
  wf b -> cutoff = 0 \/ nums_ b <= cutoff ->
  exists str, bitset_to_string b msb false cutoff = Ok str /\ vlen str = nums_ b /\
    forall p, 0 <= p < nums_ b -> str !! Z.to_nat p =
      Some (if bit b (if msb then nums_ b - p - 1 else p) then Byte.x31 else Byte.x30).
Proof.
  intros [Hwf _] Hc. pose proof (wf_nums _ Hwf) as Hn. unfold bitset_to_string, bitset_size.
  assert ((cutoff =? 0) || (nums_ b <=? cutoff) = true) as ->.
  { rewrite orb_true_iff, Z.eqb_eq, Z.leb_le. done. }
  rewrite Z.min_id.
  assert (vlen (replicate (Z.to_nat (nums_ b)) Byte.x30) = nums_ b) as Hv.
  { rewrite vlen_replicate. ulia. }
  destruct (to_string_loop_spec (Z.to_nat (nums_ b)) 0 b msb (nums_ b)
    (replicate (Z.to_nat (nums_ b)) Byte.x30) Hwf) as (str & -> & Hl & Hp); [ulia..|].
  exists str. split_and!; [done|lia|]. intros p Hpr. rewrite Hp by lia. cbn zeta.
  set (j := if msb then _ else p). assert (0 <= j < nums_ b) by (subst j; destruct msb; lia).
  rewrite (proj2 (Z.leb_le 0 j)), (proj2 (Z.ltb_lt j _)) by ulia. cbn [andb].
  destruct (bit b j); [done|]. apply lookup_replicate_2. lia.
Qed.

Lemma to_string_correct_witness :
  exists str, bitset_to_string set_5_3 true false 0 = Ok str /\ vlen str = 3.
Proof.
  destruct (to_string_correct set_5_3 true 0 set_5_3_wf) as (str & H1 & H2 & _);
    [left; reflexivity|]. exists str. split; assumption.
Defined.
