(* ===== verification/Iobuf.v ===== *)
(** * I/O buffers and slices (src/src/iobufs.hpp)

    [iobuf] is the header of a chunk with its flexible array [buff]; the
    inline functions below move its read and write positions.  A [slice] is a
    pointer with a length: its bytes live in a memory, a finite map from
    addresses to bytes, and reading an unmapped address is out of bounds. *)
From S2P Require Import Prelude.

(** ** struct iobuf *)
Record iobuf := Iobuf { size : Z; wpos : Z; rpos : Z; buff : list byte }.
Add Printing Constructor iobuf.

#[export] Instance iobuf_eq_dec : EqDecision iobuf.
Proof. solve_decision. Defined.

(** [sizeof(iobuf)]: three [int]s; [buff] has no size of its own. *)
Definition sizeof_iobuf : Z := 12.

Definition iobuf_init (io : iobuf) (sz : Z) : iobuf := Iobuf sz 0 0 (buff io).
Definition iobuf_get_w_buf (io : iobuf) : Z := wpos io.
Definition iobuf_get_w_len (io : iobuf) : Z := wpos io.
Definition iobuf_get_w_available (io : iobuf) : Z := size io - wpos io.
Definition iobuf_get_r_buf (io : iobuf) : Z := rpos io.
Definition iobuf_get_r_len (io : iobuf) : Z := wpos io - rpos io.

Definition iobuf_set_w_len (io : iobuf) (n : Z) : outcome (bool * iobuf) :=
  w ← add_int (wpos io) n;
  if size io <? w then Ok (false, io)
  else Ok (true, Iobuf (size io) w (rpos io) (buff io)).

Definition iobuf_set_r_len (io : iobuf) (n : Z) : outcome (bool * iobuf) :=
  r ← add_int (rpos io) n;
  if wpos io <? r then Ok (false, io)
  else Ok (true, Iobuf (size io) (wpos io) r (buff io)).

(** Stores bytes at an offset of [buff]; leaving the chunk is out of bounds. *)
Definition iobuf_store (io : iobuf) (off : Z) (l : list byte) : outcome iobuf :=
  if (0 <=? off) && (off + vlen l <=? vlen (buff io)) then
    Ok (Iobuf (size io) (wpos io) (rpos io)
          (take (Z.to_nat off) (buff io) ++ l ++ drop (Z.to_nat off + length l) (buff io)))
  else Crash OutOfBounds.

(** The bytes between the two positions: what a writer handed over and no
    reader has consumed. *)
Definition iobuf_data (io : iobuf) : list byte :=
  take (Z.to_nat (wpos io - rpos io)) (drop (Z.to_nat (rpos io)) (buff io)).

Record iobuf_wf (io : iobuf) : Prop := {
  wf_pos : 0 <= rpos io <= wpos io;
  wf_cap : wpos io <= size io < 2 ^ 31;
  wf_buff : vlen (buff io) = size io
}.

(** ** class slice *)
Record slice := Slice { buf_ : option Z; len_ : Z }.
Add Printing Constructor slice.

#[export] Instance slice_eq_dec : EqDecision slice.
Proof. solve_decision. Defined.

Definition slice_null : slice := Slice None 0.
Definition slice_new (p : Z) (len : Z) : slice := Slice (Some p) (i32 len).
Definition slice_reset (s : slice) : slice := Slice None 0.
Definition slice_data (s : slice) : option Z := buf_ s.
(** [size_t size() const]: the [int] length converted to [size_t]. *)
Definition slice_size (s : slice) : Z := u64 (len_ s).

Section Memory.
Context (mem : gmap Z byte).

Fixpoint read_bytes (p : Z) (n : nat) : outcome (list byte) :=
  match n with
  | O => Ok []
  | S n' =>
    match mem !! p with
    | Some b => l ← read_bytes (p + 1) n'; Ok (b :: l)
    | None => Crash OutOfBounds
    end
  end.

(** The bytes a slice designates, [len_] of them from [buf_]. *)
Definition slice_bytes (s : slice) : outcome (list byte) :=
  match buf_ s with
  | Some p => read_bytes p (Z.to_nat (len_ s))
  | None => if len_ s <=? 0 then Ok [] else Crash NullDereference
  end.

(** FNV-1a: [r ^= *pv++; r *= prime;] *)
Definition fnv_seed : Z := 14695981039346656037.
Definition fnv_prime : Z := 1099511628211.
Definition fnv_step (r x : Z) : Z := u64 (Z.lxor r x * fnv_prime).

Definition slice_hash (s : slice) : outcome Z :=
  l ← slice_bytes s; Ok (fold_left (fun r b => fnv_step r (uchar b)) l fnv_seed).

(** [memcmp] on equal lengths: the first difference decides. *)
Fixpoint memcmp (xs ys : list byte) : Z :=
  match xs, ys with
  | x :: xs', y :: ys' => if uchar x =? uchar y then memcmp xs' ys' else uchar x - uchar y
  | _, _ => 0
  end.

Definition slice_compare (a b : slice) : outcome Z :=
  let al := i32 (slice_size a) in
  let bl := i32 (slice_size b) in
  if al =? bl
  then xs ← slice_bytes a; ys ← slice_bytes b; Ok (memcmp xs ys)
  else Ok (al - bl).

Definition slice_lt (a b : slice) : outcome bool := c ← slice_compare a b; Ok (c <? 0).
Definition slice_eq (a b : slice) : outcome bool := c ← slice_compare a b; Ok (c =? 0).
Definition slice_ne (a b : slice) : outcome bool := c ← slice_compare a b; Ok (negb (c =? 0)).
End Memory.

(** ** Lemmas on buffers *)
Lemma wf_init io sz : vlen (buff io) = sz -> 0 <= sz < 2 ^ 31 -> iobuf_wf (iobuf_init io sz).
Proof. intros. split; cbn; lia. Qed.

Lemma set_w_len_Ok io n :
  iobuf_wf io -> 0 <= n <= iobuf_get_w_available io ->
  iobuf_set_w_len io n = Ok (true, Iobuf (size io) (wpos io + n) (rpos io) (buff io)).
Proof.
  intros [? ? ?] Hn. unfold iobuf_set_w_len, iobuf_get_w_available in *.
  rewrite add_int_Ok by ulia. run. by rewrite (proj2 (Z.ltb_ge _ _)) by lia.
Qed.

Lemma set_w_len_full io n :
  iobuf_wf io -> iobuf_get_w_available io < n -> wpos io + n < 2 ^ 31 ->
  iobuf_set_w_len io n = Ok (false, io).
Proof.
  intros [? ? ?] Hn Hi. unfold iobuf_set_w_len, iobuf_get_w_available in *.
  rewrite add_int_Ok by ulia. run. by rewrite (proj2 (Z.ltb_lt _ _)) by lia.
Qed.

Lemma set_r_len_Ok io n :
  iobuf_wf io -> 0 <= n <= iobuf_get_r_len io ->
  iobuf_set_r_len io n = Ok (true, Iobuf (size io) (wpos io) (rpos io + n) (buff io)).
Proof.
  intros [? ? ?] Hn. unfold iobuf_set_r_len, iobuf_get_r_len in *.
  rewrite add_int_Ok by ulia. run. by rewrite (proj2 (Z.ltb_ge _ _)) by lia.
Qed.

Lemma store_Ok io off l :
  0 <= off -> off + vlen l <= vlen (buff io) ->
  exists io', iobuf_store io off l = Ok io' /\
    size io' = size io /\ wpos io' = wpos io /\ rpos io' = rpos io /\
    buff io' = take (Z.to_nat off) (buff io) ++ l ++ drop (Z.to_nat off + length l) (buff io) /\
    vlen (buff io') = vlen (buff io).
Proof.
  intros Ho Hl. unfold iobuf_store.
  rewrite (proj2 (Z.leb_le 0 off)), (proj2 (Z.leb_le _ _)) by lia. cbn [andb].
  eexists. split_and!; [done..|]. cbn. unfold vlen in *.
  rewrite !length_app, length_take, length_drop. lia.
Qed.

Lemma store_out_of_bounds io off l :
  vlen (buff io) < off + vlen l -> iobuf_store io off l = Crash OutOfBounds.
Proof.
  intros H. unfold iobuf_store. rewrite (proj2 (Z.leb_gt (off + _) _)) by lia.
  by rewrite andb_false_r.
Qed.

(** Writing [l] at the write position and advancing it appends [l] to the data. *)
Lemma data_after_write io l rest :
  iobuf_wf io -> vlen l + vlen rest <= iobuf_get_w_available io ->
  iobuf_data (Iobuf (size io) (wpos io + vlen l) (rpos io)
    (take (Z.to_nat (wpos io)) (buff io) ++ (l ++ rest) ++
     drop (Z.to_nat (wpos io) + length (l ++ rest)) (buff io))) = iobuf_data io ++ l.
Proof.
  intros [Hp Hc Hb] Hl. unfold iobuf_data, iobuf_get_w_available, vlen in *. cbn.
  rewrite drop_app_le by (rewrite length_take; lia).
  assert (drop (Z.to_nat (rpos io)) (take (Z.to_nat (wpos io)) (buff io)) =
    take (Z.to_nat (wpos io - rpos io)) (drop (Z.to_nat (rpos io)) (buff io))) as ->.
  { rewrite skipn_firstn_comm. f_equal. lia. }
  set (d := take (Z.to_nat (wpos io - rpos io)) (drop (Z.to_nat (rpos io)) (buff io))).
  assert (length d = Z.to_nat (wpos io - rpos io)) as Hd.
  { subst d. rewrite length_take, length_drop. lia. }
  replace (Z.to_nat (wpos io + Z.of_nat (length l) - rpos io)) with (length d + length l)%nat by lia.
  rewrite <- app_assoc, take_app_add'; [|done]. f_equal. by rewrite take_app_length.
Qed.

(** ** Lemmas on slices *)
Lemma read_bytes_length mem p n l : read_bytes mem p n = Ok l -> length l = n.
Proof.
  revert p l. induction n as [|n IH]; intros p l; cbn; [naive_solver|].
  destruct (mem !! p); [|done]. intros (l' & H & E)%bind_Ok. injection E as <-.
  cbn. f_equal. eauto.
Qed.

Lemma memcmp_refl xs : memcmp xs xs = 0.
Proof. induction xs as [|x xs IH]; cbn; [done|]. by rewrite Z.eqb_refl. Qed.

Lemma memcmp_zero xs ys : length xs = length ys -> memcmp xs ys = 0 <-> xs = ys.
Proof.
  intros Hl. split; [|intros ->; apply memcmp_refl].
  revert ys Hl. induction xs as [|x xs IH]; intros [|y ys] Hl; cbn; try done.
  destruct (Z.eqb_spec (uchar x) (uchar y)) as [E%uchar_inj|]; [|lia].
  subst. intros. f_equal. apply IH; [|done]. by injection Hl.
Qed.

Lemma memcmp_opp xs ys : memcmp ys xs = - memcmp xs ys.
Proof.
  revert ys. induction xs as [|x xs IH]; intros [|y ys]; cbn; try done.
  rewrite (Z.eqb_sym (uchar y)). destruct (Z.eqb_spec (uchar x) (uchar y)); [apply IH|lia].
Qed.

Lemma memcmp_trans xs ys zs :
  length xs = length ys -> length ys = length zs ->
  memcmp xs ys < 0 -> memcmp ys zs < 0 -> memcmp xs zs < 0.
Proof.
  revert ys zs. induction xs as [|x xs IH]; intros [|y ys] [|z zs]; cbn; try lia; try done.
  intros H1 H2.
  destruct (Z.eqb_spec (uchar x) (uchar y)), (Z.eqb_spec (uchar y) (uchar z)),
    (Z.eqb_spec (uchar x) (uchar z)); try lia. apply IH; lia.
Qed.

(** A slice the program can hold: a non-negative [int] length, mapped bytes. *)
Definition slice_ok (mem : gmap Z byte) (s : slice) (l : list byte) : Prop :=
  slice_bytes mem s = Ok l /\ len_ s = vlen l /\ vlen l < 2 ^ 31.

Lemma slice_ok_size mem s l : slice_ok mem s l -> i32 (slice_size s) = vlen l.
Proof.
  intros (_ & E & H). pose proof (vlen_nonneg l). unfold slice_size. rewrite E.
  rewrite u64_id by ulia. apply i32_id. ulia.
Qed.

Lemma slice_compare_ok mem a b xs ys :
  slice_ok mem a xs -> slice_ok mem b ys ->
  slice_compare mem a b = Ok (if vlen xs =? vlen ys then memcmp xs ys else vlen xs - vlen ys).
Proof.
  intros Ha Hb. unfold slice_compare.
  rewrite (slice_ok_size _ _ _ Ha), (slice_ok_size _ _ _ Hb).
  destruct (vlen xs =? vlen ys); [|done].
  destruct Ha as [-> _], Hb as [-> _]. done.
Qed.

(** ** The allocator interface

    What a response or a connection needs of [iobufs::acquire]: a new buffer,
    empty, of the configured size, that aliases no buffer in use.  [st] is the
    store of the buffers in use; [inv] is the allocator's own invariant. *)
Class BufAlloc (A : Type) := {
  alloc_size : A -> Z;
  alloc_buf : A -> gmap Z iobuf -> outcome (A * gmap Z iobuf * Z)
}.

Record fresh_buf (sz : Z) (io : iobuf) : Prop := {
  fresh_wf : iobuf_wf io;
  fresh_size : size io = sz;
  fresh_wpos : wpos io = 0;
  fresh_rpos : rpos io = 0
}.

Class BufAllocLaws (A : Type) `{BufAlloc A} (inv : A -> gmap Z iobuf -> Prop) := {
  alloc_ok a st : inv a st ->
    exists a' l io, alloc_buf a st = Ok (a', <[l := io]> st, l) /\
      st !! l = None /\ fresh_buf (alloc_size a) io /\
      alloc_size a' = alloc_size a /\ inv a' (<[l := io]> st);
  inv_update a st l io : inv a st -> is_Some (st !! l) -> inv a (<[l := io]> st)
}.

(** ** Properties *)

Definition sample_buf : iobuf := Iobuf 8 3 1 (lit "abcdefgh").
Lemma sample_buf_wf : iobuf_wf sample_buf.
Proof. split; vm_compute; intuition congruence. Qed.

Definition sample_mem : gmap Z byte :=
  list_to_map (imap (fun i b => (100 + Z.of_nat i, b)) (lit "hostHOSThost")).

(** Writing bytes at the write position and advancing it by their number
    appends them to the unread data and keeps the buffer well-formed; the
    advance is refused, and nothing moves, when the bytes do not fit. *)
Theorem write_then_advance io l :
  iobuf_wf io -> wpos io + vlen l < 2 ^ 31 ->
  (vlen l <= iobuf_get_w_available io ->
   exists io1 io2, iobuf_store io (iobuf_get_w_buf io) l = Ok io1 /\
     iobuf_set_w_len io1 (vlen l) = Ok (true, io2) /\
     iobuf_wf io2 /\ iobuf_data io2 = iobuf_data io ++ l /\
     iobuf_get_w_available io2 = iobuf_get_w_available io - vlen l) /\
  (iobuf_get_w_available io < vlen l -> iobuf_set_w_len io (vlen l) = Ok (false, io)).
Proof.
  intros Hwf Hi. split; intros H; [|by apply set_w_len_full].
  pose proof Hwf as [Hp Hc Hb]. unfold iobuf_get_w_available, iobuf_get_w_buf in *.
  destruct (store_Ok io (wpos io) l) as (io1 & -> & E1 & E2 & E3 & E4 & E5); [lia..|].
  assert (iobuf_wf io1) as Hwf1 by (split; lia).
  exists io1. eexists. split; [done|]. pose proof (vlen_nonneg l).
  rewrite set_w_len_Ok by (done || unfold iobuf_get_w_available; lia).
  split; [done|]. split_and!; [split; cbn; lia| |cbn; lia].
  rewrite E1, E2, E3, E4.
  pose proof (data_after_write io l [] Hwf) as Hd. rewrite app_nil_r in Hd.
  apply Hd. unfold iobuf_get_w_available. unfold vlen at 2. cbn. lia.
Qed.

Lemma write_then_advance_witness :
  exists io1 io2, iobuf_store sample_buf 3 (lit "XY") = Ok io1 /\
    iobuf_set_w_len io1 2 = Ok (true, io2) /\ iobuf_data io2 = lit "bcXY".
Proof.
  destruct (write_then_advance sample_buf (lit "XY") sample_buf_wf) as [H _];
    [vm_compute; reflexivity|].
  destruct H as (io1 & io2 & H1 & H2 & _ & H3 & _); [vm_compute; discriminate|].
  exists io1, io2. split; [exact H1|]. split; [exact H2|exact H3].
Defined.

(** Consuming [n] bytes drops them from the front of the unread data; the
    advance is refused when fewer bytes are there. *)
Theorem consume_correct io n :
  iobuf_wf io -> 0 <= n -> rpos io + n < 2 ^ 31 ->
  (n <= iobuf_get_r_len io ->
   exists io', iobuf_set_r_len io n = Ok (true, io') /\ iobuf_wf io' /\
     iobuf_data io' = drop (Z.to_nat n) (iobuf_data io) /\
     iobuf_get_r_len io' = iobuf_get_r_len io - n) /\
  (iobuf_get_r_len io < n -> iobuf_set_r_len io n = Ok (false, io)).
Proof.
  intros Hwf Hn Hi. pose proof Hwf as [Hp Hc Hb]. split; intros H.
  - rewrite set_r_len_Ok by done. eexists. split; [done|].
    unfold iobuf_get_r_len in *. split_and!; [split; cbn; lia| |cbn; lia].
    unfold iobuf_data. cbn. rewrite skipn_firstn_comm, drop_drop. f_equal; [lia|].
    f_equal. lia.
  - unfold iobuf_set_r_len, iobuf_get_r_len in *. rewrite add_int_Ok by ulia. run.
    by rewrite (proj2 (Z.ltb_lt _ _)) by lia.
Qed.

Lemma consume_correct_witness :
  exists io', iobuf_set_r_len sample_buf 1 = Ok (true, io') /\ iobuf_wf io'.
Proof.
  destruct (consume_correct sample_buf 1 sample_buf_wf) as [H _]; [lia|vm_compute; reflexivity|].
  destruct H as (io' & H1 & H2 & _); [vm_compute; discriminate|].
  exists io'. split; assumption.
Defined.

(** The comparison of slices is decided by their bytes: [==] holds iff the
    bytes are the same, equal slices have equal hashes, and [<] is a strict
    total order (by length, then by bytes). *)
Theorem slice_order mem a b c xs ys zs :
  slice_ok mem a xs -> slice_ok mem b ys -> slice_ok mem c zs ->
  (slice_eq mem a b = Ok true <-> xs = ys) /\
  (slice_eq mem a b = Ok true -> slice_hash mem a = slice_hash mem b) /\
  (slice_lt mem a b = Ok true \/ slice_eq mem a b = Ok true \/ slice_lt mem b a = Ok true) /\
  slice_lt mem a a = Ok false /\
  (slice_lt mem a b = Ok true -> slice_lt mem b c = Ok true -> slice_lt mem a c = Ok true).
Proof.
  intros Ha Hb Hc. unfold slice_eq, slice_lt.
  rewrite (slice_compare_ok _ a b _ _ Ha Hb), (slice_compare_ok _ b a _ _ Hb Ha),
    (slice_compare_ok _ a a _ _ Ha Ha), (slice_compare_ok _ b c _ _ Hb Hc),
    (slice_compare_ok _ a c _ _ Ha Hc).
  rewrite (Z.eqb_sym (vlen ys) (vlen xs)), Z.eqb_refl, memcmp_refl. run.
  assert ((vlen xs =? vlen ys) = true <-> length xs = length ys) as Hlen.
  { rewrite Z.eqb_eq. unfold vlen. lia. }
  assert (Ok ((if vlen xs =? vlen ys then memcmp xs ys else vlen xs - vlen ys) =? 0) = Ok true
    <-> xs = ys) as Heq.
  { destruct (Z.eqb_spec (vlen xs) (vlen ys)) as [E|E].
    - rewrite <- memcmp_zero by (unfold vlen in *; lia). rewrite <- Z.eqb_eq.
      split; [by intros [=]|by intros ->].
    - split; [intros [= H%Z.eqb_eq]; lia|by intros ->]. }
  split_and!; [done| | |done|].
  - intros ->%Heq. unfold slice_hash. by destruct Ha as [-> _], Hb as [-> _].
  - rewrite Heq. destruct (Z.eqb_spec (vlen xs) (vlen ys)) as [E|E].
    + destruct (Z.lt_trichotomy (memcmp xs ys) 0) as [H|[H|H]].
      * left. by rewrite (proj2 (Z.ltb_lt _ _)).
      * right. left. apply memcmp_zero; [unfold vlen in *; lia|done].
      * right. right. rewrite memcmp_opp. by rewrite (proj2 (Z.ltb_lt _ _)) by lia.
    + destruct (Z.lt_ge_cases (vlen xs) (vlen ys)).
      * left. by rewrite (proj2 (Z.ltb_lt _ _)) by lia.
      * right. right. by rewrite (proj2 (Z.ltb_lt _ _)) by lia.
  - intros [= H1%Z.ltb_lt] [= H2%Z.ltb_lt]. rewrite (proj2 (Z.ltb_lt _ _)); [done|].
    destruct (Z.eqb_spec (vlen xs) (vlen ys)), (Z.eqb_spec (vlen ys) (vlen zs)),
      (Z.eqb_spec (vlen xs) (vlen zs)); try lia.
    apply memcmp_trans with ys; unfold vlen in *; lia.
Qed.

Lemma slice_order_witness :
  slice_eq sample_mem (slice_new 100 4) (slice_new 108 4) = Ok true /\
  slice_hash sample_mem (slice_new 100 4) = slice_hash sample_mem (slice_new 108 4).
Proof.
  assert (slice_ok sample_mem (slice_new 100 4) (lit "host")) as Ha
    by (split; [vm_compute; reflexivity|split; vm_compute; reflexivity]).
  assert (slice_ok sample_mem (slice_new 108 4) (lit "host")) as Hb
    by (split; [vm_compute; reflexivity|split; vm_compute; reflexivity]).
  destruct (slice_order sample_mem _ _ _ _ _ _ Ha Hb Ha) as (H1 & H2 & _).
  split; [apply H1; reflexivity|apply H2, H1; reflexivity].
Defined.
