(* ===== verification/Pool.v ===== *)
(** * The chunk pool (class iobufs, src/src/iobufs.hpp and src/src/iobufs.cpp)

    One [malloc]ed block holds [count_] chunks of [size_] bytes, each behind an
    [iobuf] header; a bitset says which are free.  When none is free a chunk
    comes from [malloc].  A buffer is handed out as a shared pointer whose
    deleter either sets the bit of the chunk again or calls [free].

    What [malloc] returns is an argument of the operations that call it.  The
    state machine [pool_step] runs the pool against its clients; [pool_inv] is
    its invariant. *)
From S2P Require Import Prelude Bitset Iobuf.

(** ** State and operations *)
Record iobufs := Iobufs { bitmap_ : bitset; size_ : Z; count_ : Z; chunk_ : Z }.
Add Printing Constructor iobufs.

Inductive deleter := Release | Free.
#[export] Instance deleter_eq_dec : EqDecision deleter.
Proof. solve_decision. Defined.

Record handle := Handle { h_addr : Z; h_deleter : deleter }.

(** [size_ + sizeof(iobuf)], the distance between two chunks *)
Definition stride (p : iobufs) : Z := u64 (size_ p + sizeof_iobuf).
Definition pool_bytes (p : iobufs) : Z := u64 (stride p * u64 (count_ p)).

(** [chunk] is the block [malloc] returned; the source does not look whether it is
    [NULL]. *)
Definition iobufs_new (chunk_size chunk_count chunk : Z) : iobufs :=
  Iobufs (bitset_fill (u64 chunk_count) true) chunk_size chunk_count chunk.

(** [m] is what [malloc] returns if it is called, 0 for [NULL]; [iobuf_init] writes
    through the pointer, whether it comes from the pool's block or from [malloc]. *)
Definition acquire (p : iobufs) (m : Z) : outcome (iobufs * handle) :=
  r ← find_first (bitmap_ p);
  let i := i32 r in
  if negb (u64 i =? npos) then
    bm ← bitset_set_bit (bitmap_ p) (u64 i) false;
    if chunk_ p =? 0 then Crash NullDereference
    else Ok (Iobufs bm (size_ p) (count_ p) (chunk_ p),
        Handle (chunk_ p + u64 (u64 i * stride p)) Release)
  else if m =? 0 then Crash NullDereference
  else Ok (p, Handle m Free).

Definition inrange (p : iobufs) (io : Z) : bool :=
  (chunk_ p <=? io) && (io <? chunk_ p + pool_bytes p).

Definition release (p : iobufs) (io : Z) : outcome iobufs :=
  assert_ (inrange p io) ;;
  let i := i32 (u64 (io - chunk_ p) / stride p) in
  bm ← bitset_set_bit (bitmap_ p) (u64 i) true;
  Ok (Iobufs bm (size_ p) (count_ p) (chunk_ p)).

(** ** The pool and its clients *)
Definition no_overlap (len a b : Z) : Prop := a + len <= b \/ b + len <= a.
Definition outside_pool (p : iobufs) (a : Z) : Prop :=
  a + stride p <= chunk_ p \/ chunk_ p + pool_bytes p <= a.

(** A block that overlaps no block in use *)
Record malloc_fresh (p : iobufs) (live : gmap Z deleter) (m : Z) : Prop := {
  mf_nonnull : m <> 0;
  mf_pool : outside_pool p m;
  mf_live : forall a, live !! a = Some Free -> no_overlap (stride p) a m
}.

(** What [malloc] may return *)
Definition malloc_returns (p : iobufs) (live : gmap Z deleter) (m : Z) : Prop :=
  m = 0 \/ malloc_fresh p live m.

Inductive pool_step : iobufs * gmap Z deleter -> iobufs * gmap Z deleter -> Prop :=
  | step_acquire p live m p' h :
      malloc_returns p live m -> acquire p m = Ok (p', h) ->
      pool_step (p, live) (p', <[h_addr h := h_deleter h]> live)
  | step_release p live a p' :
      live !! a = Some Release -> release p a = Ok p' ->
      pool_step (p, live) (p', delete a live)
  | step_free p live a :
      live !! a = Some Free -> pool_step (p, live) (p, delete a live).

(** The configurations the class is safe for: no overflow in the sizes, and a
    chunk count that fills whole blocks of the bitmap. *)
Record config_ok (chunk_size chunk_count chunk : Z) : Prop := {
  co_size : 0 <= chunk_size < 2 ^ 31;
  co_count : 0 <= chunk_count < 2 ^ 31;
  co_chunk : 0 < chunk
}.

Definition chunk_addr (p : iobufs) (i : Z) : Z := chunk_ p + i * stride p.

Record pool_inv (p : iobufs) (live : gmap Z deleter) : Prop := {
  pi_config : config_ok (size_ p) (count_ p) (chunk_ p);
  pi_wf : wf (bitmap_ p);
  pi_nums : nums_ (bitmap_ p) = count_ p;
  pi_bits : forall i, 0 <= i < count_ p ->
    (bit (bitmap_ p) i = false <-> live !! chunk_addr p i = Some Release);
  pi_chunks : forall a, live !! a = Some Release ->
    exists i, 0 <= i < count_ p /\ a = chunk_addr p i;
  pi_heap : forall a, live !! a = Some Free -> outside_pool p a;
  pi_disjoint : forall a b, live !! a = Some Free -> live !! b = Some Free -> a <> b ->
    no_overlap (stride p) a b
}.

(** ** Lemmas *)
Lemma stride_eq p : 0 <= size_ p < 2 ^ 31 -> stride p = size_ p + 12.
Proof. intros. unfold stride, sizeof_iobuf. apply u64_id. ulia. Qed.

Lemma pool_bytes_eq p :
  0 <= size_ p < 2 ^ 31 -> 0 <= count_ p < 2 ^ 31 -> pool_bytes p = stride p * count_ p.
Proof.
  intros Hs Hc. unfold pool_bytes. rewrite (u64_id (count_ p)) by ulia.
  rewrite stride_eq by done. apply u64_id. unfold in_u64. nia.
Qed.

Lemma chunk_addr_inj p i j :
  0 <= size_ p < 2 ^ 31 -> chunk_addr p i = chunk_addr p j -> i = j.
Proof. unfold chunk_addr. intros H. rewrite stride_eq by done. nia. Qed.

Lemma chunk_addr_range p i :
  config_ok (size_ p) (count_ p) (chunk_ p) -> 0 <= i < count_ p ->
  chunk_ p <= chunk_addr p i /\ chunk_addr p i + stride p <= chunk_ p + pool_bytes p.
Proof.
  intros [Hs Hc _] Hi. rewrite pool_bytes_eq by done. unfold chunk_addr.
  rewrite stride_eq by done. nia.
Qed.

Lemma chunk_disjoint p i j :
  0 <= size_ p < 2 ^ 31 -> i <> j -> no_overlap (stride p) (chunk_addr p i) (chunk_addr p j).
Proof. unfold no_overlap, chunk_addr. intros H ?. rewrite stride_eq by done. nia. Qed.

Lemma outside_chunk_addr p a i :
  config_ok (size_ p) (count_ p) (chunk_ p) -> 0 <= i < count_ p ->
  outside_pool p a -> no_overlap (stride p) (chunk_addr p i) a.
Proof.
  intros Hc Hi Ho. destruct (chunk_addr_range p i Hc Hi). unfold outside_pool, no_overlap in *. lia.
Qed.

(** Two live buffers never overlap. *)
Lemma inv_disjoint p live a b d e :
  pool_inv p live -> live !! a = Some d -> live !! b = Some e -> a <> b ->
  no_overlap (stride p) a b.
Proof.
  intros I Ha Hb Hab. pose proof (pi_config _ _ I) as Hc. pose proof Hc as [Hs _ _].
  destruct d, e.
  - destruct (pi_chunks _ _ I _ Ha) as (i & Hi & ->), (pi_chunks _ _ I _ Hb) as (j & Hj & ->).
    apply chunk_disjoint; [done|congruence].
  - destruct (pi_chunks _ _ I _ Ha) as (i & Hi & ->).
    apply outside_chunk_addr; [done..|by eapply pi_heap].
  - destruct (pi_chunks _ _ I _ Hb) as (j & Hj & ->).
    destruct (outside_chunk_addr p a j Hc Hj (pi_heap _ _ I _ Ha)); unfold no_overlap; lia.
  - by eapply pi_disjoint.
Qed.

Lemma inv_init size count chunk :
  config_ok size count chunk -> count mod 64 = 0 -> pool_inv (iobufs_new size count chunk) ∅.
Proof.
  intros Hc Hm. pose proof Hc as [Hs Hn _].
  assert (u64 count = count) as E by (apply u64_id; ulia).
  split; cbn; rewrite ?E; try done; try (intros; by rewrite lookup_empty in *).
  - apply fill_wf; [ulia|by right].
  - intros i Hi. rewrite fill_bit by ulia.
    rewrite (proj2 (Z.ltb_lt i _)); [by rewrite lookup_empty|].
    unfold bits_to_block, bits_per_block. rewrite Hm. cbn.
    Z.to_euclidean_division_equations. lia.
Qed.

Definition has_free (p : iobufs) : Prop := exists i, 0 <= i < count_ p /\ bit (bitmap_ p) i = true.

(** The outcomes of [acquire]: a free chunk exists, or [malloc] is called. *)
Lemma acquire_spec p live m :
  pool_inv p live -> malloc_returns p live m ->
  (m = 0 /\ ~ has_free p /\ acquire p m = Crash NullDereference) \/
  exists p' h, acquire p m = Ok (p', h) /\ live !! h_addr h = None /\
    pool_inv p' (<[h_addr h := h_deleter h]> live) /\
    stride p' = stride p /\ size_ p' = size_ p /\
    (h_deleter h = Release <-> has_free p).
Proof.
  intros I Mr. unfold has_free. pose proof (pi_config _ _ I) as Hc. pose proof Hc as [Hs Hn Hk].
  pose proof (pi_nums _ _ I) as Hnum.
  destruct (find_from_spec (bitmap_ p) 0 (pi_wf _ _ I) ltac:(lia)) as (r & Er & Hr).
  unfold acquire, find_first. rewrite Er. run.
  destruct Hr as [[-> Hnone]|(Hrng & Hbit & _)].
  - change (u64 (i32 npos) =? npos) with true. cbn [negb].
    destruct Mr as [->|M].
    { left. split; [done|]. split; [|done]. intros (i & Hi & E). by rewrite Hnone in E by lia. }
    right. rewrite (proj2 (Z.eqb_neq m 0)) by apply M. eexists _, _. split; [done|]. cbn.
    assert (live !! m = None) as Hfresh.
    { destruct (live !! m) as [d|] eqn:E; [|done]. exfalso. destruct d.
      - destruct (pi_chunks _ _ I _ E) as (i & Hi & ->).
        destruct (outside_chunk_addr p _ i Hc Hi (mf_pool _ _ _ M));
          rewrite stride_eq in * by done; lia.
      - destruct (mf_live _ _ _ M _ E); rewrite stride_eq in * by done; lia. }
    split; [done|]. split_and!; [|done|done|].
    + split; try apply I.
      * intros i Hi. rewrite (pi_bits _ _ I) by done.
        rewrite lookup_insert_ne; [done|]. intros ->.
        destruct (outside_chunk_addr p _ i Hc Hi (mf_pool _ _ _ M));
          rewrite stride_eq in * by done; lia.
      * intros a [[_ [=]]|[_ Ha]]%lookup_insert_Some. by eapply pi_chunks.
      * intros a [[<- _]|[_ Ha]]%lookup_insert_Some; [apply M|by eapply pi_heap].
      * intros a b [[<- _]|[_ Ha]]%lookup_insert_Some [[<- _]|[_ Hb]]%lookup_insert_Some Hab;
          [done|..|by eapply pi_disjoint].
        -- destruct (mf_live _ _ _ M _ Hb); unfold no_overlap; lia.
        -- by apply M.
    + split; [done|]. intros (i & Hi & E). rewrite Hnone in E by lia. done.
  - rewrite i32_id by ulia. rewrite (u64_id r) by ulia.
    assert (r <> npos) by (unfold npos, SIZE_MAX; ulia).
    rewrite (proj2 (Z.eqb_neq r npos)) by done. cbn [negb].
    destruct (set_sets (bitmap_ p) r false (pi_wf _ _ I) Hrng) as (bm & -> & Hwf & Hbs & Hb).
    run. rewrite (proj2 (Z.eqb_neq (chunk_ p) 0)) by lia. right. eexists _, _. split; [done|]. cbn.
    assert (u64 (r * stride p) = r * stride p) as Eu.
    { rewrite stride_eq by done. apply u64_id. unfold in_u64. nia. }
    rewrite Eu. fold (chunk_addr p r).
    assert (live !! chunk_addr p r <> Some Release) as Hnot.
    { intros E. apply (pi_bits _ _ I) in E; [congruence|lia]. }
    assert (live !! chunk_addr p r = None) as Hfresh.
    { destruct (live !! chunk_addr p r) as [[]|] eqn:E; [done| |done]. exfalso.
      destruct (outside_chunk_addr p _ r Hc ltac:(lia) (pi_heap _ _ I _ E));
        rewrite stride_eq in * by done; lia. }
    split; [done|]. split_and!; [|done|done|].
    + split; cbn; try done; try lia.
      * intros i Hi. rewrite Hb by lia. change (chunk_addr _ i) with (chunk_addr p i).
        destruct (Z.eqb_spec i r) as [->|Hne]; [rewrite lookup_insert_eq; tauto|].
        rewrite (pi_bits _ _ I) by lia. rewrite lookup_insert_ne; [done|].
        intros E%chunk_addr_inj; [lia|done].
      * intros a [[<- _]|[_ Ha]]%lookup_insert_Some; [exists r; split; [lia|done]|].
        by apply (pi_chunks _ _ I).
      * intros a [[_ [=]]|[_ Ha]]%lookup_insert_Some. by apply (pi_heap _ _ I).
      * intros a b [[_ [=]]|[_ Ha]]%lookup_insert_Some [[_ [=]]|[_ Hb']]%lookup_insert_Some.
        by apply (pi_disjoint _ _ I).
    + split; [|done]. intros _. exists r. split; [lia|done].
Qed.

Lemma release_spec p live a :
  pool_inv p live -> live !! a = Some Release ->
  exists p', release p a = Ok p' /\ pool_inv p' (delete a live) /\
    size_ p' = size_ p /\ count_ p' = count_ p /\ chunk_ p' = chunk_ p.
Proof.
  intros I Ha. pose proof (pi_config _ _ I) as Hc. pose proof Hc as [Hs Hn Hk].
  destruct (pi_chunks _ _ I _ Ha) as (r & Hr & ->).
  destruct (chunk_addr_range p r Hc Hr) as [H1 H2].
  pose proof (stride_eq p Hs) as Hst. unfold release, inrange.
  rewrite (proj2 (Z.leb_le _ _)) by done. rewrite (proj2 (Z.ltb_lt _ _)) by lia. run.
  assert (u64 (chunk_addr p r - chunk_ p) / stride p = r) as ->.
  { unfold chunk_addr. replace (chunk_ p + r * stride p - chunk_ p) with (r * stride p) by lia.
    rewrite u64_id by (unfold in_u64; nia). apply Z.div_mul. lia. }
  rewrite i32_id by ulia. rewrite u64_id by ulia. pose proof (pi_nums _ _ I) as Hnum.
  destruct (set_sets (bitmap_ p) r true (pi_wf _ _ I) ltac:(lia)) as (bm & -> & Hwf & Hbs & Hb).
  run. eexists. split; [done|]. split_and!; [|done..].
  split; cbn; try done; try lia.
  - intros i Hi. rewrite Hb by lia. change (chunk_addr _ i) with (chunk_addr p i).
    destruct (Z.eqb_spec i r) as [->|Hne]; [rewrite lookup_delete_eq; split; congruence|].
    rewrite (pi_bits _ _ I) by lia. rewrite lookup_delete_ne; [done|].
    intros E%chunk_addr_inj; [lia|done].
  - intros a [_ Ha']%lookup_delete_Some. by apply (pi_chunks _ _ I).
  - intros a [_ Ha']%lookup_delete_Some. by apply (pi_heap _ _ I).
  - intros a b [_ Ha']%lookup_delete_Some [_ Hb']%lookup_delete_Some.
    by apply (pi_disjoint _ _ I).
Qed.

Lemma free_inv p live a :
  pool_inv p live -> live !! a = Some Free -> pool_inv p (delete a live).
Proof.
  intros I Ha. split; try apply I.
  - intros i Hi. rewrite (pi_bits _ _ I) by done.
    destruct (decide (chunk_addr p i = a)) as [<-|].
    + rewrite lookup_delete_eq. split; congruence.
    + by rewrite lookup_delete_ne.
  - intros b [_ Hb]%lookup_delete_Some. by apply (pi_chunks _ _ I).
  - intros b [_ Hb]%lookup_delete_Some. by apply (pi_heap _ _ I).
  - intros b c [_ Hb]%lookup_delete_Some [_ Hb']%lookup_delete_Some. by apply (pi_disjoint _ _ I).
Qed.

Lemma step_inv s s' : pool_step s s' -> pool_inv s.1 s.2 -> pool_inv s'.1 s'.2.
Proof.
  destruct 1 as [p live m p' h M E|p live a p' Ha E|p live a Ha]; cbn; intros I.
  - destruct (acquire_spec p live m I M) as [(_ & _ & E1)|(p1 & h1 & E1 & _ & I1 & _)]; [congruence|].
    rewrite E in E1. by injection E1 as <- <-.
  - destruct (release_spec p live a I Ha) as (p1 & E1 & I1 & _).
    rewrite E in E1. by injection E1 as <-.
  - by apply free_inv.
Qed.

Lemma reachable_inv s s' : rtc pool_step s s' -> pool_inv s.1 s.2 -> pool_inv s'.1 s'.2.
Proof. induction 1; eauto using step_inv. Qed.

(** ** A pool whose chunk count is not a multiple of 64

    The constructor sets whole blocks of the bitmap, so the bits from [count_]
    to the end of the last block say "free" for chunks that do not exist. *)
Fixpoint acquire_n (n : nat) (p : iobufs) (m : Z) : outcome iobufs :=
  match n with
  | O => Ok p
  | S n' => r ← acquire p m; acquire_n n' r.1 m
  end.

(** The pool after [k] chunks have been taken from a new one. *)
Record taken (k : Z) (size count chunk : Z) (p : iobufs) : Prop := {
  tk_wf : wf0 (bitmap_ p);
  tk_nums : nums_ (bitmap_ p) = count;
  tk_bits : forall j, 0 <= j -> bit (bitmap_ p) j =
    (k <=? j) && (j <? bits_to_block count * 64);
  tk_rest : size_ p = size /\ count_ p = count /\ chunk_ p = chunk
}.

Lemma taken_new size count chunk :
  config_ok size count chunk -> taken 0 size count chunk (iobufs_new size count chunk).
Proof.
  intros [Hs Hn Hk]. assert (u64 count = count) as E by (apply u64_id; ulia).
  split; cbn; rewrite ?E; [apply fill_wf0; ulia|done| |done].
  intros j Hj. rewrite fill_bit by ulia. by rewrite (proj2 (Z.leb_le 0 j)).
Qed.

Lemma taken_find k size count chunk p :
  taken k size count chunk p -> 0 <= k < bits_to_block count * 64 -> count < 2 ^ 31 ->
  0 <= count -> find_first (bitmap_ p) = Ok k.
Proof.
  intros [Hwf Hn Hb _] Hk Hc Hc0.
  destruct (find_from_blocks (bitmap_ p) 0 Hwf ltac:(lia)) as (r & Er & Hr).
  unfold find_first. rewrite Er. f_equal.
  assert (bit (bitmap_ p) k = true) as Hbk.
  { rewrite Hb by lia. rewrite Z.leb_refl, (proj2 (Z.ltb_lt _ _)) by lia. done. }
  destruct Hr as [[_ Hr]|(Hr & Hbr & Hbelow)]; [by rewrite Hr in Hbk by lia|].
  rewrite Hb in Hbr by lia. apply andb_true_iff in Hbr as [Hle%Z.leb_le _].
  destruct (Z.eq_dec r k) as [|Hne]; [done|]. by rewrite Hbelow in Hbk by lia.
Qed.

Lemma taken_step k size count chunk p m :
  taken k size count chunk p -> config_ok size count chunk -> 0 <= k < count ->
  exists p' h, acquire p m = Ok (p', h) /\ taken (k + 1) size count chunk p' /\
    h = Handle (chunk + u64 (k * stride p)) Release.
Proof.
  intros T [Hs Hn Hc] Hk. pose proof T as [Hwf Hnum Hb (E1 & E2 & E3)].
  pose proof (proj1 (bits_to_block_spec count _ ltac:(lia)) eq_refl) as Hblk.
  unfold acquire. rewrite (taken_find k size count chunk p T) by lia. run.
  rewrite i32_id, u64_id by ulia.
  rewrite (proj2 (Z.eqb_neq k npos)) by (unfold npos, SIZE_MAX; lia). cbn [negb bitset_set_bit].
  rewrite (proj2 (Z.ltb_lt _ _)) by lia. run.
  destruct (update_block_spec (bitmap_ p) k (fun x => Z.land x (not64 (bit_mask k)))
    (fun _ => false) Hwf) as (bm & Ebm & Hwf' & Hn' & Hb'); [lia|auto 6 with word| |].
  { intros. autorewrite with bits. rewrite testbit_bit_mask by lia.
    zcases; by rewrite ?andb_false_r, ?andb_true_r. }
  unfold bitset_reset_bit. rewrite Ebm. run. rewrite E3, (proj2 (Z.eqb_neq chunk 0)) by lia. eexists _, _. split; [done|].
  split; [|done]. split; cbn; [done|lia| |done].
  intros j Hj. rewrite Hb', Hb by done. zcases.
Qed.

Lemma acquire_n_taken n k size count chunk p m :
  taken k size count chunk p -> config_ok size count chunk ->
  0 <= k -> k + Z.of_nat n <= count ->
  exists p', acquire_n n p m = Ok p' /\ taken (k + Z.of_nat n) size count chunk p'.
Proof.
  intros T Hc. revert k p T. induction n as [|n IH]; intros k p T Hk Hn; cbn [acquire_n].
  - exists p. by rewrite Z.add_0_r.
  - destruct (taken_step k size count chunk p m T Hc ltac:(lia)) as (p' & h & -> & T' & _). run.
    cbn [fst]. destruct (IH _ p' T') as (p2 & -> & T2); [lia..|].
    exists p2. split; [done|]. by replace (k + Z.of_nat (S n)) with (k + 1 + Z.of_nat n) by lia.
Qed.

(** A pool without a block: the first chunk is at [NULL]. *)
Lemma null_block size count m :
  0 <= size < 2 ^ 31 -> 0 < count < 2 ^ 31 -> acquire (iobufs_new size count 0) m = Crash NullDereference.
Proof.
  intros Hs Hn. assert (config_ok size count 1) as Hc by (split; lia).
  pose proof (taken_new size count 1 Hc) as T. pose proof (taken_find 0 size count 1 _ T) as Hf.
  pose proof (proj1 (bits_to_block_spec count _ ltac:(lia)) eq_refl) as Hblk.
  unfold acquire. cbn [iobufs_new bitmap_] in *. rewrite Hf by lia. run.
  change (u64 (i32 0) =? npos) with false. cbn [negb]. change (u64 (i32 0)) with 0.
  destruct T as [Hwf Hnum _ _]. cbn [iobufs_new bitmap_] in *. cbn [bitset_set_bit].
  rewrite (proj2 (Z.ltb_lt _ _)) by lia. run.
  destruct (update_block_spec (bitset_fill (u64 count) true) 0 (fun x => Z.land x (not64 (bit_mask 0)))
    (fun _ => false) Hwf) as (bm & Ebm & _); [lia|auto 6 with word| |].
  { intros. autorewrite with bits. rewrite testbit_bit_mask by lia.
    zcases; by rewrite ?andb_false_r, ?andb_true_r. }
  unfold bitset_reset_bit. rewrite Ebm. done.
Qed.

Lemma free_chunk p live : pool_inv p live ->
  has_free p <-> exists i, 0 <= i < count_ p /\ live !! chunk_addr p i <> Some Release.
Proof.
  intros I. split; intros (i & Hi & Hb); exists i; (split; [done|]).
  - intros Hx%(pi_bits _ _ I); [congruence|done].
  - destruct (bit (bitmap_ p) i) eqn:Eb; [done|]. exfalso. by apply Hb, (pi_bits _ _ I).
Qed.

(** ** The pool as an allocator of buffers

    [malloc] and the bytes a chunk happens to hold ([junk]) are parameters.  The
    interface is for clients that are not told of a failure, so it is discharged
    for a [malloc] that does not fail. *)
Record pool_state := PoolState { ps_pool : iobufs; ps_live : gmap Z deleter }.

Section Allocator.
Context (malloc : iobufs -> gmap Z deleter -> Z) (junk : Z -> list byte).

Definition pool_alloc (a : pool_state) (st : gmap Z iobuf)
    : outcome (pool_state * gmap Z iobuf * Z) :=
  r ← acquire (ps_pool a) (malloc (ps_pool a) (ps_live a));
  let h := r.2 in
  let io := Iobuf 0 0 0 (resize (Z.to_nat (size_ (ps_pool a))) Byte.x00 (junk (h_addr h))) in
  Ok (PoolState r.1 (<[h_addr h := h_deleter h]> (ps_live a)),
      <[h_addr h := iobuf_init io (size_ (ps_pool a))]> st, h_addr h).

#[export] Instance pool_BufAlloc : BufAlloc pool_state := {|
  alloc_size := fun a => size_ (ps_pool a);
  alloc_buf := pool_alloc
|}.

Definition pool_alloc_inv (a : pool_state) (st : gmap Z iobuf) : Prop :=
  pool_inv (ps_pool a) (ps_live a) /\ dom st = dom (ps_live a).

Hypothesis malloc_ok : forall p live, pool_inv p live -> malloc_fresh p live (malloc p live).

Lemma pool_alloc_laws : BufAllocLaws pool_state pool_alloc_inv.
Proof.
  split.
  - intros [p live] st [I Hd]. cbn in *.
    destruct (acquire_spec p live _ I (or_intror (malloc_ok _ _ I))) as
      [[E0 _]|(p' & h & E & Hfresh & I' & _ & Hsz & _)]; [by destruct (mf_nonnull _ _ _ (malloc_ok _ _ I))|].
    destruct (pi_config _ _ I) as [Hs _ _].
    unfold pool_alloc. cbn. rewrite E. run. cbn.
    eexists _, _, _. split; [done|]. split_and!.
    + apply not_elem_of_dom. rewrite Hd. by apply not_elem_of_dom.
    + split; cbn; [|done..]. apply wf_init; [|done]. cbn. unfold vlen.
      rewrite length_resize. lia.
    + cbn. congruence.
    + split; [done|]. cbn. rewrite !dom_insert_L. by rewrite Hd.
  - intros a st l io [I Hd] [x Hx]. split; [done|]. rewrite dom_insert_L.
    assert (l ∈ dom st) by (by apply elem_of_dom_2 in Hx). rewrite <- Hd. set_solver.
Qed.
End Allocator.

(** A [malloc] that always returns a block past everything in use. *)
Definition bump_malloc (p : iobufs) (live : gmap Z deleter) : Z :=
  map_fold (fun a _ r => Z.max (a + stride p) r)
    (Z.max 1 (chunk_ p + pool_bytes p)) live.

Lemma bump_malloc_above p live :
  Z.max 1 (chunk_ p + pool_bytes p) <= bump_malloc p live /\
  forall a d, live !! a = Some d -> a + stride p <= bump_malloc p live.
Proof.
  unfold bump_malloc. apply (map_fold_weak_ind (fun r (m : gmap Z deleter) =>
    Z.max 1 (chunk_ p + pool_bytes p) <= r /\
    forall a d, m !! a = Some d -> a + stride p <= r)).
  - split; [done|]. intros a d H. by rewrite lookup_empty in H.
  - intros a d m r _ [H1 H2]. split; [lia|].
    intros b e [[<- _]|[_ Hb]]%lookup_insert_Some; [lia|]. specialize (H2 b e Hb). lia.
Qed.

Lemma bump_malloc_fresh p live : malloc_fresh p live (bump_malloc p live).
Proof.
  destruct (bump_malloc_above p live) as [H1 H2]. split; [lia| |].
  - right. lia.
  - intros a Ha. left. by apply (H2 a Free).
Qed.

(** ** Properties *)
Lemma config_64 : config_ok 100 64 4096.
Proof. split; lia. Qed.
Lemma config_4 : config_ok 1024 4 4096.
Proof. split; lia. Qed.

(** C36. However clients acquire, release and free buffers, starting from a new
    pool whose block could be allocated and whose chunk count is a multiple of 64:
    no two live buffers overlap, every chunk of the pool lies inside that block,
    [release] of a live chunk never fails, and [acquire] takes a chunk of the pool
    exactly as long as one is free and a block from [malloc] otherwise.  It fails
    in one case, a [NULL] from that [malloc], which is written through; and when
    the constructor's [malloc] gave [NULL], the first [acquire] does so. *)
Theorem pool_safe size count chunk p live :
  config_ok size count chunk -> count mod 64 = 0 ->
  rtc pool_step (iobufs_new size count chunk, ∅) (p, live) ->
  (forall a b d e, live !! a = Some d -> live !! b = Some e -> a <> b -> no_overlap (stride p) a b) /\
  (forall a, live !! a = Some Release ->
     chunk_ p <= a /\ a + stride p <= chunk_ p + pool_bytes p /\
     exists p', release p a = Ok p' /\ pool_inv p' (delete a live)) /\
  (forall m, malloc_returns p live m ->
     (m = 0 /\ (forall i, 0 <= i < count_ p -> live !! chunk_addr p i = Some Release) /\
      acquire p m = Crash NullDereference) \/
     exists p' h, acquire p m = Ok (p', h) /\ live !! h_addr h = None /\
       (h_deleter h = Release <->
        exists i, 0 <= i < count_ p /\ live !! chunk_addr p i <> Some Release)) /\
  (0 < count -> forall m, acquire (iobufs_new size count 0) m = Crash NullDereference).
Proof.
  intros Hc Hm Hr.
  assert (pool_inv p live) as I by apply (reachable_inv _ _ Hr (inv_init _ _ _ Hc Hm)).
  split_and!.
  - intros a b d e Ha Hb Hab. by apply (inv_disjoint p live a b d e I).
  - intros a Ha. destruct (pi_chunks _ _ I _ Ha) as (i & Hi & E).
    destruct (chunk_addr_range p i (pi_config _ _ I) Hi).
    destruct (release_spec p live a I Ha) as (p' & Ep & I' & _). subst a. eauto.
  - intros m M. destruct (acquire_spec p live m I M) as [(-> & Hno & E)|(p' & h & E & Hf & _ & _ & _ & Hd)].
    + left. split_and!; [done| |done]. intros i Hi. apply (pi_bits _ _ I); [done|].
      destruct (bit (bitmap_ p) i) eqn:Eb; [|done]. destruct Hno. by exists i.
    + right. exists p', h. split_and!; [done..|]. rewrite Hd. by apply free_chunk.
  - intros Hn m. destruct Hc. apply null_block; lia.
Qed.

Lemma pool_safe_witness :
  (exists p' h, acquire (iobufs_new 100 64 4096) 1 = Ok (p', h)) /\
  acquire (iobufs_new 100 64 0) 1 = Crash NullDereference.
Proof.
  destruct (pool_safe 100 64 4096 _ ∅ config_64 eq_refl (rtc_refl _ _)) as (_ & _ & H & Hn).
  split; [|apply (Hn ltac:(vm_compute; reflexivity))].
  destruct (H 1) as [(E & _)|(p' & h & E & _)].
  - right. split; [lia|left; vm_compute; discriminate|intros a Ha; inversion Ha].
  - discriminate E.
  - exists p', h. exact E.
Defined.

(** When the chunk count is not a multiple of 64 the pool does not fall back
    to [malloc] once its chunks are used up: after [count] successful
    [acquire]s the next one finds the set bit of a chunk that does not exist
    and stops at the [assert] of [bitset::set] (compiled without assertions it
    would return memory past the end of the block). *)
Theorem pool_overrun size count chunk m :
  config_ok size count chunk -> count mod 64 <> 0 ->
  exists p, acquire_n (Z.to_nat count) (iobufs_new size count chunk) m = Ok p /\
    find_first (bitmap_ p) = Ok count /\ acquire p m = Crash AssertFails.
Proof.
  intros Hc Hm. pose proof Hc as [Hs Hn Hk].
  destruct (acquire_n_taken (Z.to_nat count) 0 _ _ _ _ m (taken_new _ _ _ Hc) Hc)
    as (p & Ep & T); [lia..|]. rewrite Z.add_0_l, Z2Nat.id in T by lia.
  exists p. split; [done|].
  assert (find_first (bitmap_ p) = Ok count) as Hf.
  { apply (taken_find count size count chunk p T); try lia.
    unfold bits_to_block, bits_per_block. rewrite (proj2 (Z.eqb_neq _ 0)) by done.
    Z.to_euclidean_division_equations. lia. }
  split; [done|]. unfold acquire. rewrite Hf. run.
  rewrite i32_id, u64_id by ulia.
  rewrite (proj2 (Z.eqb_neq count npos)) by (unfold npos, SIZE_MAX; lia).
  cbn [negb bitset_set_bit]. rewrite (proj2 (Z.ltb_ge _ _)); [done|].
  destruct T as [_ E _ _]. lia.
Qed.

Lemma pool_overrun_witness :
  exists p, acquire_n 4 (iobufs_new 1024 4 4096) 99 = Ok p /\
    find_first (bitmap_ p) = Ok 4 /\ acquire p 99 = Crash AssertFails.
Proof. apply (pool_overrun 1024 4 4096 99 config_4). discriminate. Defined.

(** The pool implements the allocator interface its clients are verified
    against, for every [malloc] that returns fresh blocks. *)
Theorem pool_implements_alloc (malloc : iobufs -> gmap Z deleter -> Z) junk :
  (forall p live, pool_inv p live -> malloc_fresh p live (malloc p live)) ->
  @BufAllocLaws pool_state (pool_BufAlloc malloc junk) pool_alloc_inv.
Proof. apply pool_alloc_laws. Qed.

Lemma pool_implements_alloc_witness :
  @BufAllocLaws pool_state (pool_BufAlloc bump_malloc (fun _ => [])) pool_alloc_inv.
Proof. apply pool_implements_alloc. intros p live _. apply bump_malloc_fresh. Defined.
