(* ===== verification/Lpmtree.v ===== *)
(** * The longest-prefix-match tree (class lpmtree, src/src/lpmtree.hpp)

    A tree of 256-way nodes keyed by bytes.  The nodes are owned by their
    parent, so the tree is an inductive type and the walk of the source, which
    moves a [node_t*] down and writes through it, rebuilds the path.
    [V] stands for the objects the shared pointers own, a null pointer is
    [None].  Strings are shorter than 2^31, the range of the [int] length of a
    slice.

    The abstract view of a tree is the finite map from keys to values. *)
From S2P Require Import Prelude.

Section Tree.
Context {V : Type} `{EqDecision V}.

(** ** Nodes.  [index] is written and never read; the root's is not set. *)
Inductive node_t := Node {
  index : option byte;
  value : option V;
  child : list (option node_t)
}.

(** [node_t(int num_of_nodes = 256)] *)
Definition node_new (ix : option byte) : node_t := Node ix None (replicate 256 None).

(** [exist(child[idx])] and the child itself *)
Definition child_at (n : node_t) (c : byte) : option node_t :=
  match child n !! Z.to_nat (uchar c) with Some (Some x) => Some x | _ => None end.

Definition set_child (n : node_t) (c : byte) (x : node_t) : node_t :=
  Node (index n) (value n) (<[Z.to_nat (uchar c) := Some x]> (child n)).

Definition set_value (n : node_t) (v : option V) : node_t := Node (index n) v (child n).

Record lpmtree := Lpmtree { root_ : node_t; values_ : list (option V) }.

Definition lpmtree_new : lpmtree := Lpmtree (node_new None) [].

(** ** insert *)
Fixpoint insert_node (n : node_t) (ix : list byte) (v : option V) : node_t :=
  match ix with
  | [] => set_value n v
  | chr :: ix' =>
    let next := match child_at n chr with Some x => x | None => node_new (Some chr) end in
    set_child n chr (insert_node next ix' v)
  end.

Definition lpmtree_insert (t : lpmtree) (ix : list byte) (v : option V) : lpmtree :=
  Lpmtree (insert_node (root_ t) ix v)
    (if bool_decide (v ∈ values_ t) then values_ t else values_ t ++ [v]).

(** ** search.  [prefix] is the optional output string. *)
Fixpoint search_loop (current : node_t) (data match_ : list byte) (found : option V)
    (prefix : option (list byte)) : option V * option (list byte) :=
  match data with
  | [] => (found, prefix)
  | chr :: data' =>
    match child_at current chr with
    | None => (found, prefix)
    | Some next =>
      let match_ := match_ ++ [chr] in
      match value next with
      | Some v => search_loop next data' match_ (Some v) ((fun _ => match_) <$> prefix)
      | None => search_loop next data' match_ found prefix
      end
    end
  end.

Definition lpmtree_search (t : lpmtree) (ix : list byte) (prefix : option (list byte))
    : option V * option (list byte) :=
  search_loop (root_ t) ix [] None ((fun _ => []) <$> prefix).

Definition lpmtree_values (t : lpmtree) : list (option V) := values_ t.

(** ** The abstract view *)
Fixpoint lookup_node (n : node_t) (k : list byte) : option V :=
  match k with
  | [] => value n
  | c :: k' => match child_at n c with Some x => lookup_node x k' | None => None end
  end.

(** Every node has its 256 slots. *)
Inductive node_wf : node_t -> Prop :=
  | node_wf_intro n :
      length (child n) = 256%nat ->
      (forall c x, child_at n c = Some x -> node_wf x) -> node_wf n.

(** [t] represents the map [m]. *)
Definition represents (t : lpmtree) (m : gmap (list byte) V) : Prop :=
  node_wf (root_ t) /\ forall k, lookup_node (root_ t) k = m !! k.

(** The abstract insertion: a null pointer erases the key. *)
Definition map_insert (k : list byte) (v : option V) (m : gmap (list byte) V)
    : gmap (list byte) V := partial_alter (fun _ => v) k m.

(** The reference search: try the prefixes of [s], longest first, the empty one
    excluded. *)
Fixpoint try_prefixes (f : list byte -> option V) (n : nat) (s : list byte)
    : option (list byte * V) :=
  match n with
  | O => None
  | S n' =>
    match f (take n s) with
    | Some v => Some (take n s, v)
    | None => try_prefixes f n' s
    end
  end.

Definition longest_prefix (f : list byte -> option V) (s : list byte)
    : option (list byte * V) := try_prefixes f (length s) s.

(** ** Lemmas on nodes *)
Lemma uchar_nat_lt (c : byte) : (Z.to_nat (uchar c) < 256)%nat.
Proof. pose proof (uchar_range c). lia. Qed.

Lemma child_at_new ix c : child_at (node_new ix) c = None.
Proof.
  unfold child_at. cbn [child node_new].
  rewrite lookup_replicate_2; [done|apply uchar_nat_lt].
Qed.

Lemma node_new_wf ix : node_wf (node_new ix).
Proof. constructor; [apply length_replicate|]. intros c x. by rewrite child_at_new. Qed.

Lemma lookup_new ix k : lookup_node (node_new ix) k = None.
Proof. destruct k; [done|]. cbn [lookup_node]. by rewrite child_at_new. Qed.

Lemma child_at_set n c x d :
  length (child n) = 256%nat ->
  child_at (set_child n c x) d = if decide (d = c) then Some x else child_at n d.
Proof.
  intros Hl. unfold child_at, set_child. cbn [child]. case_decide as E.
  - subst. rewrite list_lookup_insert_eq; [done|]. rewrite Hl. apply uchar_nat_lt.
  - rewrite list_lookup_insert_ne; [done|]. intros H. apply E, uchar_inj.
    pose proof (uchar_range c). pose proof (uchar_range d). lia.
Qed.

Lemma insert_node_wf n k v : node_wf n -> node_wf (insert_node n k v).
Proof.
  revert n. induction k as [|c k IH]; intros n Hn; cbn [insert_node];
    inversion Hn as [? Hl Hc]; subst.
  - constructor; [done|]. intros d x. apply Hc.
  - constructor; [cbn [child set_child]; by rewrite length_insert|].
    intros d x. rewrite child_at_set by done. case_decide; [|apply Hc].
    intros [= <-]. apply IH. destruct (child_at n c) eqn:E; [by eapply Hc|apply node_new_wf].
Qed.

Lemma lookup_insert_node n k v k' :
  node_wf n ->
  lookup_node (insert_node n k v) k' = if decide (k' = k) then v else lookup_node n k'.
Proof.
  revert n k'. induction k as [|c k IH]; intros n k' Hn; inversion Hn as [? Hl Hc]; subst.
  - cbn [insert_node]. by destruct k'.
  - cbn [insert_node]. destruct k' as [|d k']; [by rewrite decide_False by done|].
    cbn [lookup_node]. rewrite child_at_set by done.
    destruct (decide (d = c)) as [->|Hd].
    + rewrite IH.
      2: { destruct (child_at n c) eqn:E; [by eapply Hc|apply node_new_wf]. }
      destruct (decide (k' = k)) as [->|Hk].
      * by rewrite decide_True.
      * rewrite decide_False by congruence.
        destruct (child_at n c); [done|]. apply lookup_new.
    + by rewrite decide_False by congruence.
Qed.

(** ** Lemmas on searching *)
Lemma try_prefixes_ext f g n s :
  (forall k, f k = g k) -> try_prefixes f n s = try_prefixes g n s.
Proof. intros H. induction n as [|n IH]; [done|]. cbn [try_prefixes]. by rewrite H, IH. Qed.

Lemma try_prefixes_cons f n c s :
  try_prefixes f (S n) (c :: s) =
    match try_prefixes (fun k => f (c :: k)) n s with
    | Some (p, v) => Some (c :: p, v)
    | None => (fun v => ([c], v)) <$> f [c]
    end.
Proof.
  induction n as [|n IH].
  - cbn. rewrite take_0. by destruct (f [c]).
  - change (try_prefixes f (S (S n)) (c :: s)) with
      (match f (c :: take (S n) s) with
       | Some v => Some (c :: take (S n) s, v) | None => try_prefixes f (S n) (c :: s) end).
    change (try_prefixes (fun k => f (c :: k)) (S n) s) with
      (match f (c :: take (S n) s) with
       | Some v => Some (take (S n) s, v) | None => try_prefixes (fun k => f (c :: k)) n s end).
    destruct (f (c :: take (S n) s)); [done|]. apply IH.
Qed.

Lemma try_prefixes_none f n s : (forall k, f k = None) -> try_prefixes f n s = None.
Proof. intros H. induction n as [|n IH]; [done|]. cbn [try_prefixes]. by rewrite H. Qed.

Lemma longest_prefix_cons f c s :
  longest_prefix f (c :: s) =
    match longest_prefix (fun k => f (c :: k)) s with
    | Some (p, v) => Some (c :: p, v)
    | None => (fun v => ([c], v)) <$> f [c]
    end.
Proof. apply try_prefixes_cons. Qed.

Lemma search_loop_spec data n match_ found prefix :
  search_loop n data match_ found prefix =
    match longest_prefix (lookup_node n) data with
    | Some (p, v) => (Some v, (fun _ => match_ ++ p) <$> prefix)
    | None => (found, prefix)
    end.
Proof.
  revert n match_ found prefix.
  induction data as [|c data IH]; intros n match_ found prefix; [done|].
  rewrite longest_prefix_cons. cbn [search_loop].
  assert (forall k, lookup_node n (c :: k) =
    match child_at n c with Some x => lookup_node x k | None => None end) as Hk by done.
  unfold longest_prefix. rewrite (try_prefixes_ext _ _ _ _ Hk), Hk. fold (longest_prefix).
  destruct (child_at n c) as [x|]; [|by rewrite try_prefixes_none].
  cbn [lookup_node]. destruct (value x) as [w|]; rewrite IH; unfold longest_prefix;
    destruct (try_prefixes (lookup_node x) (length data) data) as [[p v]|];
    rewrite <- ?app_assoc; destruct prefix; done.
Qed.

(** What the reference search returns. *)
Lemma try_prefixes_spec f n s :
  match try_prefixes f n s with
  | Some (p, v) => exists k, (0 < k <= n)%nat /\ p = take k s /\ f p = Some v /\
      forall j, (k < j <= n)%nat -> f (take j s) = None
  | None => forall j, (0 < j <= n)%nat -> f (take j s) = None
  end.
Proof.
  induction n as [|n IH]; [cbn; intros; lia|]. cbn [try_prefixes].
  destruct (f (take (S n) s)) eqn:E.
  - exists (S n). split_and!; [lia..|done|done|intros; lia].
  - destruct (try_prefixes f n s) as [[p v]|].
    + destruct IH as (k & Hk & Hp & Hf & Hj). exists k. split_and!; [lia..|done|done|].
      intros j Hlt. destruct (decide (j = S n)) as [->|]; [done|]. apply Hj. lia.
    + intros j Hj. destruct (decide (j = S n)) as [->|]; [done|]. apply IH. lia.
Qed.

Lemma represents_new : represents lpmtree_new ∅.
Proof. split; [apply node_new_wf|]. intros k. rewrite lookup_empty. apply lookup_new. Qed.

Lemma represents_insert t m k v :
  represents t m -> represents (lpmtree_insert t k v) (map_insert k v m).
Proof.
  intros [Hw Hm]. split; [by apply insert_node_wf|]. intros k'. cbn [root_ lpmtree_insert].
  rewrite lookup_insert_node by done. unfold map_insert. case_decide as E.
  - subst. by rewrite lookup_partial_alter_eq.
  - rewrite lookup_partial_alter_ne by done. apply Hm.
Qed.

(** Inserting a list of entries, in order. *)
Definition insert_all (t : lpmtree) (l : list (list byte * option V)) : lpmtree :=
  fold_left (fun t e => lpmtree_insert t e.1 e.2) l t.
Definition map_insert_all (m : gmap (list byte) V) (l : list (list byte * option V))
    : gmap (list byte) V := fold_left (fun m e => map_insert e.1 e.2 m) l m.

Lemma represents_insert_all t m l :
  represents t m -> represents (insert_all t l) (map_insert_all m l).
Proof.
  revert t m. induction l as [|[k v] l IH]; intros t m H; [done|].
  cbn. apply IH. by apply represents_insert.
Qed.

Lemma values_insert_all t l v :
  v ∈ values_ (insert_all t l) <-> v ∈ values_ t \/ v ∈ l.*2.
Proof.
  revert t. induction l as [|[k w] l IH]; intros t; [cbn; set_solver|].
  change (insert_all t ((k, w) :: l)) with (insert_all (lpmtree_insert t k w) l).
  rewrite IH. cbn. case_bool_decide; set_solver.
Qed.

Lemma values_NoDup t l : NoDup (values_ t) -> NoDup (values_ (insert_all t l)).
Proof.
  revert t. induction l as [|[k w] l IH]; intros t H; [done|]. cbn. apply IH. cbn.
  case_bool_decide; [done|]. apply NoDup_app. split_and!; [done|set_solver|].
  apply NoDup_singleton.
Qed.

(** A value found in the tree was inserted. *)
Lemma map_insert_all_value m l k v :
  map_insert_all m l !! k = Some v -> m !! k = Some v \/ Some v ∈ l.*2.
Proof.
  revert m. induction l as [|[k' w] l IH]; intros m H; [by left|]. cbn in H.
  apply IH in H as [H|H]; [|cbn; set_solver]. unfold map_insert in H.
  destruct (decide (k = k')) as [->|Hne].
  - rewrite lookup_partial_alter_eq in H. subst. cbn. set_solver.
  - rewrite lookup_partial_alter_ne in H by done. by left.
Qed.
End Tree.

Arguments node_t V : clear implicits.
Arguments lpmtree V : clear implicits.

(** ** Properties *)

(** The tree of the unit test. *)
Definition numbering : list (list byte * option nat) := [
  (lit "0", Some 1%nat); (lit "0086", Some 2%nat); (lit "008610", Some 3%nat);
  (lit "008621", Some 4%nat); (lit "0086755", Some 5%nat); (lit "00867551", Some 6%nat)].

(** C39. The tree refines a finite map: [insert] is the insertion of the key (a
    null value erases it), and [search] is the longest non-empty prefix of the
    query among the keys, with its value and, when asked for, the prefix itself
    (the empty string when there is none). *)
Theorem lpmtree_refines {V} `{EqDecision V} (t : lpmtree V) m k v s (prefix : option (list byte)) :
  represents t m ->
  represents (lpmtree_insert t k v) (map_insert k v m) /\
  lpmtree_search t s prefix =
    match longest_prefix (fun k => m !! k) s with
    | Some (p, x) => (Some x, (fun _ => p) <$> prefix)
    | None => (None, (fun _ => []) <$> prefix)
    end.
Proof.
  intros Hr. split; [by apply represents_insert|]. unfold lpmtree_search.
  rewrite search_loop_spec. unfold longest_prefix.
  rewrite (try_prefixes_ext _ _ _ _ (proj2 Hr)).
  destruct (try_prefixes _ _ s) as [[p x]|]; [by destruct prefix|done].
Qed.

Lemma lpmtree_refines_witness :
  lpmtree_search (insert_all lpmtree_new numbering) (lit "00867552") (Some []) =
    (Some 5%nat, Some (lit "0086755")).
Proof.
  destruct (lpmtree_refines (insert_all lpmtree_new numbering) (map_insert_all ∅ numbering)
    [] None (lit "00867552") (Some [])) as [_ E].
  - apply represents_insert_all. apply represents_new.
  - rewrite E. vm_compute. reflexivity.
Defined.

(** A search is sound and maximal: a returned value belongs to a key that
    is a non-empty prefix of the query, the output string is that key, and no
    longer prefix is a key; no value means that no non-empty prefix is a key. *)
Theorem search_longest {V} `{EqDecision V} (l : list (list byte * option V)) s :
  let m := map_insert_all ∅ l in
  match lpmtree_search (insert_all lpmtree_new l) s (Some []) with
  | (Some v, Some p) => exists k, (0 < k <= length s)%nat /\ p = take k s /\ m !! p = Some v /\
      forall j, (k < j <= length s)%nat -> m !! take j s = None
  | (None, Some p) => p = [] /\ forall j, (0 < j <= length s)%nat -> m !! take j s = None
  | (_, None) => False
  end.
Proof.
  cbn zeta. set (m := map_insert_all ∅ l).
  assert (represents (insert_all lpmtree_new l) m) as [_ Hm].
  { apply represents_insert_all, represents_new. }
  unfold lpmtree_search. rewrite search_loop_spec. cbn [fmap option_fmap option_map].
  unfold longest_prefix. rewrite (try_prefixes_ext _ _ _ _ Hm).
  pose proof (try_prefixes_spec (fun k => m !! k) (length s) s) as Hs.
  destruct (try_prefixes _ _ s) as [[p v]|]; [exact Hs|]. split; [done|exact Hs].
Qed.

(** [values()] lists every inserted pointer exactly once, so every value a
    search can return is listed. *)
Theorem values_complete {V} `{EqDecision V} (l : list (list byte * option V)) :
  let t := insert_all lpmtree_new l in
  NoDup (lpmtree_values t) /\
  (forall v, v ∈ lpmtree_values t <-> v ∈ l.*2) /\
  (forall s v p, lpmtree_search t s (Some []) = (Some v, p) -> Some v ∈ lpmtree_values t).
Proof.
  cbn zeta. set (t := insert_all lpmtree_new l).
  assert (forall v, v ∈ lpmtree_values t <-> v ∈ l.*2) as Hv.
  { intros v. unfold lpmtree_values, t. rewrite values_insert_all. cbn. set_solver. }
  split_and!; [apply values_NoDup, NoDup_nil_2|done|].
  intros s v p. unfold lpmtree_search. rewrite search_loop_spec.
  destruct (represents_insert_all lpmtree_new ∅ l represents_new) as [_ Hm].
  unfold longest_prefix. rewrite (try_prefixes_ext _ _ _ _ Hm).
  pose proof (try_prefixes_spec (fun k => map_insert_all ∅ l !! k) (length s) s) as Hs.
  destruct (try_prefixes _ _ s) as [[q w]|]; [|done]. intros [= -> _].
  destruct Hs as (k & _ & _ & Hf & _). apply Hv.
  apply map_insert_all_value in Hf as [Hf|]; [by rewrite lookup_empty in Hf|done].
Qed.

(** A value inserted under the empty string is never returned: the walk
    tests a node's value only after a step. *)
Theorem empty_key_not_found {V} `{EqDecision V} (t : lpmtree V) m v s :
  represents t m ->
  lpmtree_search (lpmtree_insert t [] v) s None = lpmtree_search t s None.
Proof.
  intros Hr. unfold lpmtree_search. rewrite !search_loop_spec. cbn [fmap option_fmap option_map].
  destruct (represents_insert t m [] v Hr) as [_ Hm']. destruct Hr as [_ Hm].
  unfold longest_prefix. rewrite (try_prefixes_ext _ _ _ _ Hm'), (try_prefixes_ext _ _ _ _ Hm).
  assert (forall n, (n <= length s)%nat ->
    try_prefixes (fun k => map_insert [] v m !! k) n s = try_prefixes (fun k => m !! k) n s) as E.
  { induction n as [|n IH]; intros Hn; [done|]. cbn [try_prefixes].
    assert (map_insert [] v m !! take (S n) s = m !! take (S n) s) as ->.
    { apply lookup_partial_alter_ne. destruct s; [cbn in Hn; lia|done]. }
    by rewrite IH by lia. }
  rewrite E by done. by destruct (try_prefixes _ _ s) as [[p x]|].
Qed.

Lemma empty_key_not_found_witness :
  lpmtree_search (lpmtree_insert (insert_all lpmtree_new numbering) [] (Some 9%nat)) (lit "7") None
    = (None, None).
Proof.
  rewrite (empty_key_not_found (insert_all lpmtree_new numbering) (map_insert_all ∅ numbering)).
  - vm_compute. reflexivity.
  - apply represents_insert_all. apply represents_new.
Defined.
