(* ===== verification/Request.v ===== *)
(** * Parsed requests (struct http_request, src/src/request.hpp and request.cpp)

    The parser state [parsed_] is the [http_parser] of the http-parser library,
    which is not part of the sources: its type [HP] and the few fields and
    functions the program reads are the class [HttpParser].  [std::sort] is a
    parameter with its documented contract (a sorted permutation, no stability),
    the class [FieldSort]; [std::lower_bound] is its halving loop.

    URL slices are pointers into [strurl_]: their addresses are offsets in that
    string. *)
From stdpp Require Import sorting.
From S2P Require Import Prelude Iobuf.

(** ** The http-parser library *)
Inductive http_errno :=
  | HPE_OK
  | HPE_CB_headers_complete
  | HPE_CB_message_complete
  | HPE_other (code : Z).
#[export] Instance http_errno_eq_dec : EqDecision http_errno.
Proof. solve_decision. Defined.

Class HttpParser (HP : Type) := {
  http_parser_init : HP;
  http_errno_of : HP -> http_errno;
  set_http_errno : HP -> http_errno -> HP;
  http_major : HP -> Z;
  http_minor : HP -> Z;
  http_method : HP -> Z;
  HTTP_CONNECT : Z;
  http_should_keep_alive : HP -> bool
}.

Class HttpParserLaws (HP : Type) `{HttpParser HP} := {
  init_errno : http_errno_of http_parser_init = HPE_OK;
  errno_set hp e : http_errno_of (set_http_errno hp e) = e
}.

(** ** State *)
Record parsed_url := ParsedUrl {
  nport : Z;
  schema : slice; host : slice; port : slice; path : slice;
  query : slice; frag : slice; user : slice
}.

(** [memset(&decurl_, 0, sizeof(decurl_))] *)
Definition parsed_url_zero : parsed_url :=
  ParsedUrl 0 slice_null slice_null slice_null slice_null slice_null slice_null slice_null.

Definition field_t : Type := list byte * list byte.

Section Request.
Context {HP : Type} `{HttpParser HP}.

Record http_request := HttpRequest {
  parsed_ : HP;
  strurl_ : list byte;
  decurl_ : parsed_url;
  fields_ : list field_t;
  bodybf_ : list slice;
  bodysz_ : Z;
  headers_completed_ : bool;
  message_completed_ : bool;
  state_field_value_ : bool
}.

Definition http_request_new : http_request :=
  HttpRequest http_parser_init [] parsed_url_zero [] [] 0 false false true.

(** [reset] clears everything but the parser. *)
Definition http_request_reset (r : http_request) : http_request :=
  HttpRequest (parsed_ r) [] parsed_url_zero [] [] 0 false false true.

Definition surl (r : http_request) : list byte := c_str (strurl_ r).
Definition url (r : http_request) : parsed_url := decurl_ r.
Definition major (r : http_request) : Z := http_major (parsed_ r).
Definition minor (r : http_request) : Z := http_minor (parsed_ r).
Definition method (r : http_request) : Z := http_method (parsed_ r).
Definition keep_alive (r : http_request) : bool := http_should_keep_alive (parsed_ r).
Definition error (r : http_request) : http_errno := http_errno_of (parsed_ r).
Definition fields (r : http_request) : Z := vlen (fields_ r).
Definition bodysz (r : http_request) : Z := bodysz_ r.
Definition headers_completed (r : http_request) : bool := headers_completed_ r.
Definition message_completed (r : http_request) : bool := message_completed_ r.

(** [url().path.data()]: a pointer into [strurl_] at the path, read as a C
    string by its user, hence up to the end of the whole URL. *)
Definition path_c_str (r : http_request) : option (list byte) :=
  (fun off => c_str (drop (Z.to_nat off) (strurl_ r))) <$> slice_data (path (decurl_ r)).

(** Field updates *)
Definition with_parsed (r : http_request) (hp : HP) : http_request :=
  HttpRequest hp (strurl_ r) (decurl_ r) (fields_ r) (bodybf_ r) (bodysz_ r)
    (headers_completed_ r) (message_completed_ r) (state_field_value_ r).
Definition with_fields (r : http_request) (l : list field_t) (st : bool) : http_request :=
  HttpRequest (parsed_ r) (strurl_ r) (decurl_ r) l (bodybf_ r) (bodysz_ r)
    (headers_completed_ r) (message_completed_ r) st.
Definition with_url (r : http_request) (u : list byte) : http_request :=
  HttpRequest (parsed_ r) u (decurl_ r) (fields_ r) (bodybf_ r) (bodysz_ r)
    (headers_completed_ r) (message_completed_ r) (state_field_value_ r).
Definition with_body (r : http_request) (b : list slice) (n : Z) : http_request :=
  HttpRequest (parsed_ r) (strurl_ r) (decurl_ r) (fields_ r) b n
    (headers_completed_ r) (message_completed_ r) (state_field_value_ r).
End Request.

Arguments http_request HP : clear implicits.

(** ** Ordering of field names: [std::string::operator<] *)
Fixpoint str_ltb (a b : list byte) : bool :=
  match a, b with
  | _, [] => false
  | [], _ :: _ => true
  | x :: a', y :: b' =>
    if uchar x <? uchar y then true
    else if uchar y <? uchar x then false
    else str_ltb a' b'
  end.

Definition string_pair_less (a b : field_t) : bool := str_ltb a.1 b.1.

Lemma str_ltb_irrefl a : str_ltb a a = false.
Proof. induction a as [|x a IH]; [done|]. cbn. by rewrite Z.ltb_irrefl. Qed.

Lemma str_ltb_trans a b c : str_ltb a b = true -> str_ltb b c = true -> str_ltb a c = true.
Proof.
  revert b c. induction a as [|x a IH]; intros [|y b] [|z c]; cbn; try done.
  destruct (Z.ltb_spec (uchar x) (uchar y)), (Z.ltb_spec (uchar y) (uchar x)),
    (Z.ltb_spec (uchar y) (uchar z)), (Z.ltb_spec (uchar z) (uchar y)),
    (Z.ltb_spec (uchar x) (uchar z)), (Z.ltb_spec (uchar z) (uchar x)); try lia; try done.
  apply IH.
Qed.

Lemma str_ltb_total a b : str_ltb a b = false -> str_ltb b a = false -> a = b.
Proof.
  revert b. induction a as [|x a IH]; intros [|y b]; cbn; try done.
  destruct (Z.ltb_spec (uchar x) (uchar y)), (Z.ltb_spec (uchar y) (uchar x)); try done.
  intros. f_equal; [apply uchar_inj; lia|auto].
Qed.

Lemma str_ltb_asym a b : str_ltb a b = true -> str_ltb b a = false.
Proof.
  intros Hab. destruct (str_ltb b a) eqn:Hba; [|done].
  by rewrite <- (str_ltb_irrefl a), (str_ltb_trans a b a).
Qed.

(** [a <= b] as the negation of [b < a] *)
Definition name_le (a b : field_t) : Prop := str_ltb b.1 a.1 = false.
#[export] Instance name_le_dec a b : Decision (name_le a b).
Proof. unfold name_le. apply _. Defined.

#[export] Instance name_le_trans : Transitive name_le.
Proof.
  unfold name_le. intros a b c Hab Hbc. destruct (str_ltb c.1 a.1) eqn:E; [|done].
  destruct (str_ltb a.1 b.1) eqn:Eab.
  - by rewrite (str_ltb_trans _ _ _ E Eab) in Hbc.
  - assert (a.1 = b.1) as Heq by by apply str_ltb_total. congruence.
Qed.
#[export] Instance name_le_total : Total name_le.
Proof.
  intros a b. unfold name_le. destruct (str_ltb b.1 a.1) eqn:E; [right|by left].
  by apply str_ltb_asym.
Qed.

(** ** [std::sort] *)
Class FieldSort := std_sort : list field_t -> list field_t.
Class FieldSortLaws `{FieldSort} := {
  sort_perm l : std_sort l ≡ₚ l;
  sort_sorted l : StronglySorted name_le (std_sort l)
}.

(** Merge sort is one such [std::sort]. *)
#[export] Instance merge_FieldSort : FieldSort := merge_sort name_le.
#[export] Instance merge_FieldSortLaws : @FieldSortLaws merge_FieldSort.
Proof.
  split; intros l; unfold std_sort, merge_FieldSort.
  - apply merge_sort_Permutation.
  - apply Sorted_StronglySorted; [apply _|]. apply Sorted_merge_sort. apply _.
Qed.

Definition sorthdr {HP} `{HttpParser HP} `{FieldSort} (r : http_request HP) : http_request HP :=
  with_fields r (std_sort (fields_ r)) (state_field_value_ r).

(** ** [std::lower_bound], the halving loop over [len] elements from [first];
    [None] when it runs out of fuel. *)
Fixpoint lower_bound (fuel : nat) (l : list field_t) (key : field_t) (first len : Z) : option Z :=
  if len <=? 0 then Some first
  else match fuel with
       | O => None
       | S fuel' =>
         let half := len / 2 in
         let mid := first + half in
         x ← l !! Z.to_nat mid;
         if string_pair_less x key
         then lower_bound fuel' l key (mid + 1) (len - half - 1)
         else lower_bound fuel' l key first half
       end.

(** [operator[](size_t index)] *)
Definition field_at {HP} `{HttpParser HP} (r : http_request HP) (index : Z) : option field_t :=
  if fields r <=? index then None else fields_ r !! Z.to_nat index.

(** [operator[]] by name.  A list of [n] fields needs [n] rounds. *)
Definition find_field (l : list field_t) (field : list byte) : option (list byte) :=
  let key := (c_str field, []) in
  it ← lower_bound (length l) l key 0 (vlen l);
  e ← l !! Z.to_nat it;
  if bool_decide (e.1 = key.1) then Some e.2 else None.

Definition field_value {HP} `{HttpParser HP} (r : http_request HP) (field : list byte)
    : option (list byte) := find_field (fields_ r) field.

(** ** Lemmas on the search *)
Lemma sorted_le l i j x y :
  StronglySorted name_le l -> l !! i = Some x -> l !! j = Some y -> (i <= j)%nat -> name_le x y.
Proof.
  intros Hs. revert i j. induction Hs as [|a l Hs IH Ha]; intros i j Hi Hj Hij; [done|].
  destruct i as [|i], j as [|j]; cbn in *; try lia.
  - simplify_eq. unfold name_le. apply str_ltb_irrefl.
  - simplify_eq. rewrite Forall_forall in Ha. apply Ha. by eapply list_elem_of_lookup_2.
  - apply (IH i j); auto with lia.
Qed.

(** [before l key i]: the elements below [i] are less than the key, the others
    are not. *)
Definition splits_at (l : list field_t) (key : field_t) (i : Z) : Prop :=
  0 <= i <= vlen l /\
  forall j x, l !! j = Some x -> string_pair_less x key = (Z.of_nat j <? i).

Lemma lower_bound_spec fuel l key first len :
  StronglySorted name_le l -> 0 <= first -> 0 <= len -> first + len <= vlen l ->
  (Z.to_nat len <= fuel)%nat ->
  (forall j x, l !! j = Some x -> Z.of_nat j < first -> string_pair_less x key = true) ->
  (forall j x, l !! j = Some x -> first + len <= Z.of_nat j -> string_pair_less x key = false) ->
  exists i, lower_bound fuel l key first len = Some i /\ splits_at l key i.
Proof.
  intros Hs. revert first len.
  induction fuel as [|fuel IH]; intros first len Hf Hl Hb Hfuel Hlo Hhi; cbn [lower_bound].
  { assert (len = 0) as -> by lia. exists first. split; [done|]. split; [lia|].
    intros j x Hx. destruct (Z.ltb_spec (Z.of_nat j) first); [by eapply Hlo|].
    eapply Hhi; [done|lia]. }
  destruct (Z.leb_spec len 0) as [Hz|Hpos].
  { assert (len = 0) as -> by lia. exists first. split; [done|]. split; [lia|].
    intros j x Hx. destruct (Z.ltb_spec (Z.of_nat j) first); [by eapply Hlo|].
    eapply Hhi; [done|lia]. }
  assert (0 <= len / 2 < len) as Hh by (Z.to_euclidean_division_equations; lia).
  destruct (lookup_lt_is_Some_2 l (Z.to_nat (first + len / 2))) as [x Hx].
  { unfold vlen in Hb. lia. }
  rewrite Hx. cbn [mbind option_bind]. destruct (string_pair_less x key) eqn:Ex.
  - apply IH; try lia.
    + intros j y Hy Hj. destruct (decide (Z.of_nat j < first)); [by eapply Hlo|].
      assert (name_le y x) as Hyx by (eapply (sorted_le l j); [done..|lia]).
      unfold string_pair_less, name_le in *.
      destruct (str_ltb y.1 key.1) eqn:E; [done|].
      destruct (str_ltb x.1 y.1) eqn:E2; [done|]. exfalso.
      destruct (str_ltb y.1 x.1) eqn:E3.
      * by rewrite (str_ltb_trans _ _ _ E3 Ex) in E.
      * assert (x.1 = y.1) as Heq by by apply str_ltb_total. congruence.
    + intros j y Hy Hj. eapply Hhi; [done|lia].
  - apply IH; try lia; [done|]. intros j y Hy Hj.
    assert (name_le x y) as Hxy by (eapply (sorted_le l _ j); [done..|lia]).
    unfold string_pair_less, name_le in *.
    destruct (str_ltb y.1 key.1) eqn:E; [|done].
    destruct (str_ltb x.1 y.1) eqn:E2; [by rewrite (str_ltb_trans _ _ _ E2 E) in Ex|].
    assert (x.1 = y.1) as Heq by by apply str_ltb_total. congruence.
Qed.

Lemma find_field_spec l field :
  StronglySorted name_le l ->
  match find_field l field with
  | Some v => (c_str field, v) ∈ l
  | None => forall v, (c_str field, v) ∉ l
  end.
Proof.
  intros Hs. unfold find_field. set (key := (c_str field, [])).
  destruct (lower_bound_spec (length l) l key 0 (vlen l) Hs) as (i & -> & Hi & Hsplit);
    [unfold vlen; lia..| |].
  { intros j x Hx Hj. apply lookup_lt_Some in Hx. unfold vlen in Hj. lia. }
  cbn [mbind option_bind].
  destruct (l !! Z.to_nat i) as [[k v]|] eqn:E; cbn [mbind option_bind fst snd].
  - case_bool_decide as Hk; cbn in Hk.
    + subst k. by eapply list_elem_of_lookup_2.
    + intros w [j Hj]%list_elem_of_lookup_1.
      pose proof (Hsplit j _ Hj) as H1. unfold string_pair_less in H1. cbn in H1.
      rewrite str_ltb_irrefl in H1. symmetry in H1. apply Z.ltb_ge in H1.
      assert (name_le (k, v) (c_str field, w)) as Hle by (eapply (sorted_le l); [done..|lia]).
      pose proof (Hsplit _ _ E) as H2. unfold string_pair_less, name_le in *. cbn in *.
      rewrite Z2Nat.id, Z.ltb_irrefl in H2 by lia. apply Hk.
      by apply str_ltb_total.
  - intros w [j Hj]%list_elem_of_lookup_1. apply lookup_ge_None in E.
    pose proof (Hsplit j _ Hj) as H1. unfold string_pair_less in H1. cbn in H1.
    rewrite str_ltb_irrefl in H1. apply lookup_lt_Some in Hj.
    symmetry in H1. apply Z.ltb_ge in H1. unfold vlen in Hi. lia.
Qed.

(** ** Properties *)

(** Once [sorthdr] has run, [operator[]] on a name decides membership:
    it returns the value of a received header field of that name when there is
    one and a null pointer exactly when there is none; the binary search of
    [std::lower_bound] ends within as many rounds as there are fields, and
    [sorthdr] only reorders the fields. *)
Theorem header_lookup {HP} `{HttpParser HP} `{FieldSort} `{!FieldSortLaws}
    (r : http_request HP) (name : list byte) :
  fields_ (sorthdr r) ≡ₚ fields_ r /\
  (exists i, lower_bound (length (fields_ r)) (fields_ (sorthdr r)) (c_str name, []) 0 (fields r)
             = Some i /\ splits_at (fields_ (sorthdr r)) (c_str name, []) i) /\
  match field_value (sorthdr r) name with
  | Some v => (c_str name, v) ∈ fields_ r
  | None => forall v, (c_str name, v) ∉ fields_ r
  end.
Proof.
  assert (fields_ (sorthdr r) ≡ₚ fields_ r) as Hp by apply sort_perm.
  assert (StronglySorted name_le (fields_ (sorthdr r))) as Hs by apply sort_sorted.
  split; [done|]. split.
  - apply lower_bound_spec; unfold fields, vlen; rewrite ?Hp; try lia; [done|].
    intros j x Hx%lookup_lt_Some. rewrite Hp in Hx. lia.
  - pose proof (find_field_spec _ name Hs) as Hf. unfold field_value.
    destruct (find_field (fields_ (sorthdr r)) name); by setoid_rewrite Hp in Hf.
Qed.

(** A parser state for examples: the error number only. *)
#[local] Instance errno_parser : HttpParser http_errno := {|
  http_parser_init := HPE_OK;
  http_errno_of := id;
  set_http_errno _ e := e;
  http_major _ := 1; http_minor _ := 1; http_method _ := 3; HTTP_CONNECT := 5;
  http_should_keep_alive _ := true
|}.

Definition example_request : http_request http_errno :=
  with_fields http_request_new
    [(lit "Host", lit "h"); (lit "Accept", lit "a"); (lit "Cookie", lit "c")] true.

Lemma header_lookup_witness :
  field_value (sorthdr example_request) (lit "Cookie") = Some (lit "c") /\
  (lit "Cookie", lit "c") ∈ fields_ example_request.
Proof.
  split; [vm_compute; reflexivity|].
  exact (proj2 (proj2 (header_lookup example_request (lit "Cookie")))).
Defined.

(** The index form of [operator[]] is total: it gives the field at a valid
    index and a null pointer at and beyond the number of fields, so it never
    reads outside the vector; every field it gives is one of the request. *)
Theorem field_at_correct {HP} `{HttpParser HP} (r : http_request HP) (index : Z) :
  0 <= index ->
  (field_at r index = None <-> fields r <= index) /\
  (forall f, field_at r index = Some f <-> index < fields r /\ vget (fields_ r) index = Ok f).
Proof.
  intros Hi. unfold field_at, fields, vlen. destruct (Z.leb_spec (Z.of_nat (length (fields_ r))) index).
  - split; [done|]. intros f. split; [done|lia].
  - destruct (lookup_lt_is_Some_2 (fields_ r) (Z.to_nat index)) as [x Hx]; [lia|].
    rewrite Hx. split; [split; [done|lia]|]. intros f. rewrite vget_Ok, Hx. naive_solver.
Qed.

Lemma field_at_correct_witness :
  0 <= 1 /\ (field_at example_request 1 = None <-> fields example_request <= 1).
Proof. split; [lia|]. exact (proj1 (field_at_correct example_request 1 ltac:(lia))). Defined.

(** [reset] keeps only the parser, so a pipelined message starts in the state
    of a fresh request. *)
Lemma reset_is_new {HP} `{HttpParser HP} (r : http_request HP) :
  http_request_reset r = with_parsed http_request_new (parsed_ r).
Proof. reflexivity. Qed.
