(* ===== verification/Codec.v ===== *)
(** * The HTTP codec (class http_codec, src/src/codecs.hpp and codecs.cpp)

    [http_codec] hands the bytes of a buffer to [http_parser_execute] and
    collects what its callbacks report in the request.  The library itself is
    not part of the sources: [HttpExecute] and [HttpParseUrl] are its two entry
    points and [HttpExecuteLaws], [HttpParseUrlLaws] what its documentation
    promises of a parser that is in no error state.  The callbacks reach the request through [hp->data]; the request
    contains the parser, so each callback sees it with the parser's current
    state ([with_parsed]). *)
From S2P Require Import Prelude Iobuf Request.

(** ** http_parser_execute *)
Inductive event :=
  | EvMessageBegin
  | EvUrl (at_ : Z) (s : list byte)
  | EvHeaderField (at_ : Z) (s : list byte)
  | EvHeaderValue (at_ : Z) (s : list byte)
  | EvHeadersComplete
  | EvBody (at_ : Z) (s : list byte)
  | EvMessageComplete.
#[export] Instance event_eq_dec : EqDecision event.
Proof. solve_decision. Defined.

(** A callback gets the parser, and for data a pointer with the bytes there;
    [S] is what [hp->data] points to. *)
Record http_parser_settings (HP S : Type) := Settings {
  cb_message_begin : HP -> S -> S * Z;
  cb_url : HP -> Z -> list byte -> S -> S * Z;
  cb_header_field : HP -> Z -> list byte -> S -> S * Z;
  cb_header_value : HP -> Z -> list byte -> S -> S * Z;
  cb_headers_complete : HP -> S -> S * Z;
  cb_body : HP -> Z -> list byte -> S -> S * Z;
  cb_message_complete : HP -> S -> S * Z
}.
Arguments Settings {HP S}.
Arguments cb_message_begin {HP S}.
Arguments cb_url {HP S}.
Arguments cb_header_field {HP S}.
Arguments cb_header_value {HP S}.
Arguments cb_headers_complete {HP S}.
Arguments cb_body {HP S}.
Arguments cb_message_complete {HP S}.

Class HttpExecute (HP : Type) := http_parser_execute :
  forall S, http_parser_settings HP S -> HP -> S -> Z -> list byte -> HP * S * Z.
Arguments http_parser_execute {HP _ S}.

Definition fire {HP S} (cb : http_parser_settings HP S) (hp : HP) (ev : event) (s : S) : S * Z :=
  match ev with
  | EvMessageBegin => cb_message_begin cb hp s
  | EvUrl a l => cb_url cb hp a l s
  | EvHeaderField a l => cb_header_field cb hp a l s
  | EvHeaderValue a l => cb_header_value cb hp a l s
  | EvHeadersComplete => cb_headers_complete cb hp s
  | EvBody a l => cb_body cb hp a l s
  | EvMessageComplete => cb_message_complete cb hp s
  end.

(** A callback stops the parser by returning non-zero, except that
    [on_headers_complete] may return 1 (no body) or 2 (no more messages). *)
Definition goes_on (ev : event) (rc : Z) : bool :=
  (rc =? 0) || match ev with EvHeadersComplete => (rc =? 1) || (rc =? 2) | _ => false end.

(** Delivers events in order, up to the one whose callback stops the parser. *)
Fixpoint deliver {HP S} (cb : http_parser_settings HP S) (evs : list (HP * event)) (s : S)
    : S * option event :=
  match evs with
  | [] => (s, None)
  | (hp, ev) :: evs' =>
    let '(s', rc) := fire cb hp ev s in
    if goes_on ev rc then deliver cb evs' s' else (s', Some ev)
  end.

(** The error number [HPE_CB_*] of a stopping callback. *)
Definition stop_errno (ev : event) (e : http_errno) : Prop :=
  match ev with
  | EvHeadersComplete => e = HPE_CB_headers_complete
  | EvMessageComplete => e = HPE_CB_message_complete
  | _ => exists c, e = HPE_other c
  end.

(** The data an event points to is part of the input at address [a]. *)
Definition event_within (a : Z) (data : list byte) (ev : event) : Prop :=
  match ev with
  | EvUrl p s | EvHeaderField p s | EvHeaderValue p s | EvBody p s =>
    a <= p /\ p + vlen s <= a + vlen data /\
    s = take (length s) (drop (Z.to_nat (p - a)) data)
  | _ => True
  end.

(** What the library documents: it makes callbacks in sequence on data within
    the input, stops at the first that asks for it, and reports how many bytes
    it consumed; it makes progress on non-empty input unless it fails. *)
Class HttpExecuteLaws (HP : Type) `{HttpParser HP, !HttpExecute HP} := {
  execute_spec S (cb : http_parser_settings HP S) hp s a data hp' s' n :
    http_errno_of hp = HPE_OK -> http_parser_execute cb hp s a data = (hp', s', n) ->
    0 <= n <= vlen data /\
    exists evs stop, deliver cb evs s = (s', stop) /\
      Forall (fun e => event_within a data e.2) evs /\
      match stop with
      | Some ev => stop_errno ev (http_errno_of hp')
      | None => http_errno_of hp' <> HPE_CB_headers_complete /\
                http_errno_of hp' <> HPE_CB_message_complete /\
                (http_errno_of hp' = HPE_OK -> data <> [] -> 0 < n)
      end
}.

(** ** http_parser_parse_url *)
Inductive url_field :=
  UF_SCHEMA | UF_HOST | UF_PORT | UF_PATH | UF_QUERY | UF_FRAGMENT | UF_USERINFO.

Record http_parser_url := ParserUrl {
  field_set : url_field -> bool;
  field_data : url_field -> Z * Z;
  hpu_port : Z
}.

(** [http_parser_url_init] followed by [http_parser_parse_url(url, is_connect)],
    whose return value the program ignores. *)
Class HttpParseUrl := http_parser_parse_url : list byte -> bool -> http_parser_url.
Class HttpParseUrlLaws `{HttpParseUrl} := {
  parse_url_range u c f off len :
    vlen u < 2 ^ 16 -> field_set (http_parser_parse_url u c) f = true ->
    field_data (http_parser_parse_url u c) f = (off, len) ->
    0 <= off /\ 0 <= len /\ off + len <= vlen u;
  parse_url_port u c : 0 <= hpu_port (http_parser_parse_url u c) < 2 ^ 16
}.

(** ** The callbacks *)
Section Codec.
Context {HP : Type} `{HttpParser HP, !HttpExecute HP, HttpParseUrl, FieldSort}.

Definition of_message_begin (r : http_request HP) : http_request HP * Z := (r, 0).

(** [decurl_.x = slice(url.data() + off, len)] under its bit of [field_set] *)
Definition url_slice (hpu : http_parser_url) (f : url_field) (old : slice) : slice :=
  if field_set hpu f then slice_new (field_data hpu f).1 (field_data hpu f).2 else old.

Definition of_headers_complete (r : http_request HP) : http_request HP * Z :=
  let r := sorthdr (HttpRequest (parsed_ r) (strurl_ r) (decurl_ r) (fields_ r) (bodybf_ r)
                      (bodysz_ r) true (message_completed_ r) (state_field_value_ r)) in
  let hpu := http_parser_parse_url (strurl_ r) (method r =? HTTP_CONNECT) in
  let d := decurl_ r in
  let d := ParsedUrl (u16 (hpu_port hpu))
             (url_slice hpu UF_SCHEMA (schema d)) (url_slice hpu UF_HOST (host d))
             (url_slice hpu UF_PORT (port d)) (url_slice hpu UF_PATH (path d))
             (url_slice hpu UF_QUERY (query d)) (url_slice hpu UF_FRAGMENT (frag d))
             (url_slice hpu UF_USERINFO (user d)) in
  (HttpRequest (parsed_ r) (strurl_ r) d (fields_ r) (bodybf_ r) (bodysz_ r)
     (headers_completed_ r) (message_completed_ r) (state_field_value_ r), 100).

Definition of_message_complete (r : http_request HP) : http_request HP * Z :=
  (HttpRequest (parsed_ r) (strurl_ r) (decurl_ r) (fields_ r) (bodybf_ r) (bodysz_ r)
     (headers_completed_ r) true (state_field_value_ r), 100).

Definition of_url (s : list byte) (r : http_request HP) : http_request HP * Z :=
  (with_url r (strurl_ r ++ s), 0).

(** [fields_.back()], updated in place *)
Fixpoint update_back (f : field_t -> field_t) (l : list field_t) : list field_t :=
  match l with
  | [] => []
  | [x] => [f x]
  | x :: l' => x :: update_back f l'
  end.

Definition of_header_field (s : list byte) (r : http_request HP) : http_request HP * Z :=
  if state_field_value_ r then (with_fields r (fields_ r ++ [(s, [])]) false, 0)
  else if bool_decide (fields_ r = []) then (r, 1)
  else (with_fields r (update_back (fun f => (f.1 ++ s, f.2)) (fields_ r)) false, 0).

Definition of_header_value (s : list byte) (r : http_request HP) : http_request HP * Z :=
  if bool_decide (fields_ r = []) then (with_fields r [] true, 1)
  else (with_fields r (update_back (fun f => (f.1, f.2 ++ s)) (fields_ r)) true, 0).

(** [c.data() + c.size()] *)
Definition slice_end (c : slice) : Z := default 0 (slice_data c) + slice_size c.

Definition of_body (a : Z) (s : list byte) (r : http_request HP) : http_request HP * Z :=
  let sz := i64 (bodysz_ r + vlen s) in
  match last (bodybf_ r) with
  | None => (with_body r [slice_new a (vlen s)] sz, 0)
  | Some c =>
    if slice_end c =? a then
      let c' := Slice (slice_data c) (i32 (slice_size c + vlen s)) in
      (with_body r (removelast (bodybf_ r) ++ [c']) sz, 0)
    else (with_body r (bodybf_ r ++ [slice_new a (vlen s)]) sz, 0)
  end.

(** [config_] with the static functions [on_*]: they find the request through
    [hp->data] and call the member function of its codec. *)
Definition http_codec_config : http_parser_settings HP (http_request HP) := {|
  cb_message_begin hp r := of_message_begin (with_parsed r hp);
  cb_url hp _ s r := of_url s (with_parsed r hp);
  cb_header_field hp _ s r := of_header_field s (with_parsed r hp);
  cb_header_value hp _ s r := of_header_value s (with_parsed r hp);
  cb_headers_complete hp r := of_headers_complete (with_parsed r hp);
  cb_body hp a s r := of_body a s (with_parsed r hp);
  cb_message_complete hp r := of_message_complete (with_parsed r hp)
|}.

(** ** parse *)



End Codec.



Lemma event_within_drop a (data : list byte) k ev :
  0 <= k <= vlen data ->
  event_within (a + k) (drop (Z.to_nat k) data) ev -> event_within a data ev.
Proof.
  intros Hk. assert (vlen (drop (Z.to_nat k) data) = vlen data - k) as Hl.
  { unfold vlen in *. rewrite length_drop. lia. }
  destruct ev; cbn; rewrite ?Hl; try done; intros (? & ? & Hs); split_and!; try lia;
    rewrite drop_drop in Hs; rewrite Hs at 1; do 2 f_equal; lia.
Qed.

Lemma deliver_app {HP S} (cb : http_parser_settings HP S) e1 e2 s :
  deliver cb (e1 ++ e2) s =
  match deliver cb e1 s with
  | (s', None) => deliver cb e2 s'
  | r => r
  end.
Proof.
  revert s. induction e1 as [|[hp ev] e1 IH]; intros s; [done|]. cbn.
  destruct (fire cb hp ev s) as [s' rc]. destruct (goes_on ev rc); [apply IH|done].
Qed.

Lemma last_app_cons {A} (l : list A) x : last (l ++ [x]) = Some x.
Proof. apply last_snoc. Qed.

Lemma update_back_snoc f l x : update_back f (l ++ [x]) = l ++ [f x].
Proof.
  induction l as [|y l IH]; [done|]. cbn. rewrite IH. by destruct l.
Qed.

Section Lemmas.
Context {HP : Type} `{HttpParser HP, !HttpExecute HP, HttpParseUrl, FieldSort}.
Implicit Types r : http_request HP.

(** [r] and [r'] agree on everything but the parser. *)
Definition same_request r r' : Prop := forall hp, with_parsed r hp = with_parsed r' hp.

#[export] Instance same_request_equivalence : Equivalence same_request.
Proof.
  split; [by intros r hp|by intros r r' H' hp|intros a b c Hab Hbc hp].
  by rewrite Hab.
Qed.

Lemma same_with_parsed r hp : same_request r (with_parsed r hp).
Proof. by intros hp'. Qed.

Lemma fire_same r r' hp ev :
  same_request r r' -> fire http_codec_config hp ev r = fire http_codec_config hp ev r'.
Proof. intros Hs. destruct ev; cbn; by rewrite (Hs hp). Qed.

Lemma deliver_same evs r r' s stop :
  same_request r r' -> deliver http_codec_config evs r = (s, stop) ->
  exists s', deliver http_codec_config evs r' = (s', stop) /\ same_request s s'.
Proof.
  intros Hs. destruct evs as [|[hp ev] evs]; cbn.
  - intros [= <- <-]. eauto.
  - rewrite (fire_same r r') by done. intros E. exists s. by rewrite E.
Qed.


End Lemmas.

(** ** The loop of [parse] *)
Section ParseLoop.
Context {HP : Type} `{HttpParserLaws HP, !HttpExecute HP, !HttpExecuteLaws HP}
  `{HttpParseUrl, FieldSort}.
Implicit Types r : http_request HP.




End ParseLoop.

Section ParseTotal.
Context {HP : Type} `{HttpParserLaws HP, !HttpExecute HP, !HttpExecuteLaws HP}
  `{HttpParseUrl, FieldSort}.
Implicit Types r : http_request HP.




End ParseTotal.

(** ** Header and body fragments *)

(** A fragment as a callback reports it: parser, position, bytes. *)
Definition fragment (HP : Type) : Type := HP * Z * list byte.
Definition frag_bytes {HP} (l : list (fragment HP)) : list byte := concat ((fun f => f.2) <$> l).

Definition url_events {HP} (l : list (fragment HP)) : list (HP * event) :=
  (fun f => (f.1.1, EvUrl f.1.2 f.2)) <$> l.
Definition body_events {HP} (l : list (fragment HP)) : list (HP * event) :=
  (fun f => (f.1.1, EvBody f.1.2 f.2)) <$> l.
Definition header_events {HP} (h : list (fragment HP) * list (fragment HP)) : list (HP * event) :=
  ((fun f => (f.1.1, EvHeaderField f.1.2 f.2)) <$> h.1) ++
  ((fun f => (f.1.1, EvHeaderValue f.1.2 f.2)) <$> h.2).
Definition header_field {HP} (h : list (fragment HP) * list (fragment HP)) : field_t :=
  (frag_bytes h.1, frag_bytes h.2).

Definition url_component (f : url_field) (u : parsed_url) : slice :=
  match f with
  | UF_SCHEMA => schema u | UF_HOST => host u | UF_PORT => port u | UF_PATH => path u
  | UF_QUERY => query u | UF_FRAGMENT => frag u | UF_USERINFO => user u
  end.

(** The bytes of a body, slice by slice *)
Fixpoint slices_bytes (mem : gmap Z byte) (l : list slice) : outcome (list byte) :=
  match l with
  | [] => Ok []
  | c :: l' => x ← slice_bytes mem c; y ← slices_bytes mem l'; Ok (x ++ y)
  end.

Lemma slices_bytes_app mem l k x y :
  slices_bytes mem l = Ok x -> slices_bytes mem k = Ok y ->
  slices_bytes mem (l ++ k) = Ok (x ++ y).
Proof.
  revert x. induction l as [|c l IH]; intros x; cbn.
  - by intros [= <-].
  - destruct (slice_bytes mem c) as [u| |]; try done. cbn.
    destruct (slices_bytes mem l) as [v| |]; try done. cbn.
    intros [= <-] Hy. rewrite (IH v) by done. cbn. by rewrite app_assoc.
Qed.

Lemma read_bytes_app mem p n m x y :
  read_bytes mem p n = Ok x -> read_bytes mem (p + Z.of_nat n) m = Ok y ->
  read_bytes mem p (n + m) = Ok (x ++ y).
Proof.
  revert p x. induction n as [|n IH]; intros p x; cbn [read_bytes Nat.add].
  - intros [= <-]. by rewrite Z.add_0_r.
  - destruct (mem !! p) as [b|]; [|done].
    destruct (read_bytes mem (p + 1) n) as [u| |] eqn:E; try done. cbn. intros [= <-] Hy.
    rewrite (IH _ u); [done|done|]. rewrite <- Hy. f_equal. lia.
Qed.

Section Fragments.
Context {HP : Type} `{HttpParser HP, !HttpExecute HP, HttpParseUrl, FieldSort}.
Implicit Types r : http_request HP.
#[local] Abbreviation cfg := (http_codec_config (HP := HP)).

Lemma deliver_url l r :
  exists r', deliver cfg (url_events l) r = (r', None) /\
    same_request r' (with_url r (strurl_ r ++ frag_bytes l)).
Proof.
  revert r. induction l as [|[[hp a] s] l IH]; intros r; cbn.
  - exists r. split; [done|]. intros x. cbn. rewrite app_nil_r. by destruct r.
  - destruct (IH (with_url (with_parsed r hp) (strurl_ r ++ s))) as (r' & E & Hs).
    exists r'. split; [exact E|]. rewrite Hs. intros x. cbn. by rewrite <- app_assoc.
Qed.

(** Further fragments of the name of the last field *)
Lemma deliver_name l r fs n v :
  state_field_value_ r = false -> fields_ r = fs ++ [(n, v)] ->
  exists r', deliver cfg ((fun f => (f.1.1, EvHeaderField f.1.2 f.2)) <$> l) r = (r', None) /\
    same_request r' (with_fields r (fs ++ [(n ++ frag_bytes l, v)]) false).
Proof.
  revert r n. induction l as [|[[hp a] s] l IH]; intros r n Hst Hf; cbn.
  - exists r. split; [done|]. intros x. cbn. rewrite app_nil_r, <- Hf, <- Hst. by destruct r.
  - unfold of_header_field. cbn. rewrite Hst.
    rewrite bool_decide_false by (rewrite Hf; by destruct fs). cbn.
    rewrite Hf, update_back_snoc.
    edestruct (IH (with_fields (with_parsed r hp) (fs ++ [(n ++ s, v)]) false)) as (r' & E & Hs);
      [done..|].
    exists r'. split; [exact E|]. rewrite Hs. intros x. cbn. by rewrite <- app_assoc.
Qed.

Lemma deliver_value l r fs n v st :
  state_field_value_ r = st -> (l = [] -> st = true) -> fields_ r = fs ++ [(n, v)] ->
  exists r', deliver cfg ((fun f => (f.1.1, EvHeaderValue f.1.2 f.2)) <$> l) r = (r', None) /\
    same_request r' (with_fields r (fs ++ [(n, v ++ frag_bytes l)]) true).
Proof.
  revert r v st. induction l as [|[[hp a] s] l IH]; intros r v st Hst Hl Hf; cbn.
  - exists r. split; [done|]. intros x. cbn. rewrite app_nil_r, <- Hf.
    rewrite <- (Hl eq_refl), <- Hst. by destruct r.
  - unfold of_header_value. cbn.
    rewrite bool_decide_false by (rewrite Hf; by destruct fs). cbn.
    rewrite Hf, update_back_snoc.
    edestruct (IH (with_fields (with_parsed r hp) (fs ++ [(n, v ++ s)]) true)) as (r' & E & Hs);
      [done..|].
    exists r'. split; [exact E|]. rewrite Hs. intros x. cbn. by rewrite <- app_assoc.
Qed.

Lemma deliver_header h r :
  state_field_value_ r = true -> h.1 <> [] -> h.2 <> [] ->
  exists r', deliver cfg (header_events h) r = (r', None) /\
    same_request r' (with_fields r (fields_ r ++ [header_field h]) true).
Proof.
  destruct h as [ns vs]. intros Hst Hn Hv. cbn in Hn, Hv.
  destruct ns as [|[[hp a] s] ns]; [done|]. unfold header_events. cbn.
  unfold of_header_field. cbn. rewrite Hst. cbn. rewrite deliver_app.
  edestruct (deliver_name ns (with_fields (with_parsed r hp) (fields_ r ++ [(s, [])]) false))
    as (r1 & -> & Hs1); [done..|].
  edestruct (deliver_value vs (with_fields r (fields_ r ++ [(s ++ frag_bytes ns, [])]) false))
    as (r2 & E & Hs2); [done..|].
  edestruct deliver_same as (r3 & E3 & Hs3); [|exact E|].
  { intros x. symmetry. exact (Hs1 x). }
  exists r3. split; [exact E3|]. by rewrite <- Hs3, Hs2.
Qed.

Lemma deliver_headers hs r :
  state_field_value_ r = true -> Forall (fun h => h.1 <> [] /\ h.2 <> []) hs ->
  exists r', deliver cfg (concat (header_events <$> hs)) r = (r', None) /\
    same_request r' (with_fields r (fields_ r ++ (header_field <$> hs)) true).
Proof.
  revert r. induction hs as [|h hs IH]; intros r Hst Hhs; cbn.
  - exists r. split; [done|]. intros x. cbn. rewrite app_nil_r, <- Hst. by destruct r.
  - apply Forall_cons_1 in Hhs as [[Hn Hv] Hhs]. rewrite deliver_app.
    destruct (deliver_header h r Hst Hn Hv) as (r1 & -> & Hs1).
    destruct (IH (with_fields r (fields_ r ++ [header_field h]) true)) as (r2 & E & Hs2); [done..|].
    edestruct deliver_same as (r3 & E3 & Hs3); [symmetry; exact Hs1|exact E|].
    exists r3. split; [exact E3|]. rewrite <- Hs3, Hs2. intros x. cbn. by rewrite <- app_assoc.
Qed.

(** ** The body *)

(** Slices of a body: [bs] are their bytes in order, no slice starts where the
    one before it ends. *)
Definition touching (c d : slice) : Prop := slice_data d = Some (slice_end c).
Record body_inv (mem : gmap Z byte) (r : http_request HP) (bs : list byte) : Prop := {
  bi_bytes : slices_bytes mem (bodybf_ r) = Ok bs;
  bi_size : bodysz_ r = vlen bs;
  bi_slices : Forall (fun c => is_Some (buf_ c) /\ 0 <= len_ c <= vlen bs) (bodybf_ r);
  bi_apart : forall i c d, bodybf_ r !! i = Some c -> bodybf_ r !! S i = Some d -> ~ touching c d
}.

Lemma slices_bytes_snoc mem l c bs :
  slices_bytes mem (l ++ [c]) = Ok bs ->
  exists x y, slices_bytes mem l = Ok x /\ slice_bytes mem c = Ok y /\ bs = x ++ y.
Proof.
  revert bs. induction l as [|d l IH]; intros bs; cbn.
  - destruct (slice_bytes mem c) as [y| |]; try done. cbn. intros [= <-].
    exists [], y. by rewrite app_nil_r.
  - destruct (slice_bytes mem d) as [u| |]; try done. cbn.
    destruct (slices_bytes mem (l ++ [c])) as [v| |] eqn:E; try done. cbn. intros [= <-].
    destruct (IH v eq_refl) as (x & y & -> & -> & ->). exists (u ++ x), y.
    by rewrite <- app_assoc.
Qed.

Lemma slice_bytes_new mem a s :
  read_bytes mem a (length s) = Ok s -> vlen s < 2 ^ 31 ->
  slice_bytes mem (slice_new a (vlen s)) = Ok s.
Proof.
  intros Hm Hs. pose proof (vlen_nonneg s). unfold slice_bytes, slice_new. cbn.
  rewrite i32_id by ulia. unfold vlen. by rewrite Nat2Z.id.
Qed.

Lemma apart_snoc l d :
  (forall i c e, l !! i = Some c -> l !! S i = Some e -> ~ touching c e) ->
  (forall c, last l = Some c -> ~ touching c d) ->
  forall i c e, (l ++ [d]) !! i = Some c -> (l ++ [d]) !! S i = Some e -> ~ touching c e.
Proof.
  intros Hl Hd i c e Hc He.
  destruct (decide (S i < length l)%nat).
  - rewrite lookup_app_l in Hc, He by lia. by eapply Hl.
  - pose proof (lookup_lt_Some _ _ _ He) as Hlt. rewrite length_app in Hlt. cbn in Hlt.
    rewrite lookup_app_l in Hc by lia. rewrite lookup_app_r in He by lia.
    replace (S i - length l)%nat with 0%nat in He by lia. cbn in He. simplify_eq.
    apply Hd. rewrite last_lookup. by replace (pred (length l)) with i by lia.
Qed.

Lemma of_body_step mem a s r bs :
  body_inv mem r bs -> read_bytes mem a (length s) = Ok s -> vlen (bs ++ s) < 2 ^ 31 ->
  exists r', of_body a s r = (r', 0) /\ body_inv mem r' (bs ++ s) /\ parsed_ r' = parsed_ r.
Proof.
  intros [Hb Hz Hs Ha] Hm Hlen. rewrite vlen_app in Hlen.
  pose proof (vlen_nonneg s). pose proof (vlen_nonneg bs).
  assert (i64 (bodysz_ r + vlen s) = vlen (bs ++ s)) as Hsz.
  { rewrite vlen_app, Hz. apply i64_id. lia. }
  assert (Forall (fun c => is_Some (buf_ c) /\ 0 <= len_ c <= vlen (bs ++ s)) (bodybf_ r)) as Hs'.
  { eapply Forall_impl; [exact Hs|]. rewrite vlen_app. intuition lia. }
  pose proof (slice_bytes_new mem a s Hm) as Hnew. unfold of_body.
  destruct (last (bodybf_ r)) as [c|] eqn:Hlast.
  - apply last_Some in Hlast as Hl. destruct Hl as [l Hl].
    destruct (Z.eqb_spec (slice_end c) a) as [He|He]; eexists; (split; [done|]); (split; [|done]).
    + rewrite Hl, removelast_last in *. apply Forall_app in Hs as [Hsl Hc].
      apply Forall_app in Hs' as [Hs'l _].
      apply Forall_cons_1 in Hc as [[[p Hp] Hc] _].
      apply slices_bytes_snoc in Hb as (x & y & Hx & Hy & ->).
      unfold slice_end, slice_data, slice_size in *. rewrite Hp in *. cbn in He.
      rewrite u64_id in * by ulia. rewrite vlen_app in *.
      unfold slice_bytes in Hy. rewrite Hp in Hy.
      split; cbn [bodybf_ bodysz_ with_body]; [|by rewrite Hsz, !vlen_app| |].
      * rewrite <- app_assoc. apply slices_bytes_app; [done|]. cbn.
        unfold slice_bytes. cbn [buf_ len_]. rewrite i32_id by ulia. unfold vlen.
        rewrite Z2Nat.inj_add, Nat2Z.id by lia.
        rewrite (read_bytes_app _ _ _ _ y s); [cbn; by rewrite app_nil_r|done|].
        rewrite Z2Nat.id by lia. by subst a.
      * apply Forall_app. split.
        { eapply Forall_impl; [exact Hsl|]. intros d. rewrite ?vlen_app. cbn. intuition lia. }
        apply Forall_singleton. cbn.
        rewrite i32_id, !vlen_app by ulia. split; [eauto|].
        apply read_bytes_length in Hy. unfold vlen in *. lia.
      * apply apart_snoc.
        -- intros i d e Hd Hf. apply (Ha i); by apply lookup_app_l_Some.
        -- intros d Hd Ht. apply last_Some in Hd as [l0 ->].
           apply (Ha (length l0) d c); [| |unfold touching, slice_data in *; cbn in Ht; congruence].
           ++ by rewrite <- app_assoc, lookup_app_r, Nat.sub_diag by lia.
           ++ rewrite lookup_app_r by (rewrite length_app; cbn; lia).
              rewrite length_app. cbn. by replace (S (length l0) - (length l0 + 1))%nat with 0%nat by lia.
    + split; cbn [bodybf_ bodysz_ with_body]; [|done| |].
      * apply slices_bytes_app; [done|]. cbn [slices_bytes]. rewrite Hnew by lia. cbn. by rewrite app_nil_r.
      * apply Forall_app. split; [done|]. apply Forall_singleton. cbn.
        rewrite i32_id, vlen_app by ulia. split; [eauto|lia].
      * apply apart_snoc; [done|]. rewrite Hlast. intros ? [= <-]. unfold touching. cbn. congruence.
  - apply last_None in Hlast. rewrite Hlast in Hb. cbn in Hb. injection Hb as <-.
    eexists. split; [done|]. split; [|done]. split; cbn [bodybf_ bodysz_ with_body]; [|done| |].
    + cbn [slices_bytes]. rewrite Hnew by lia. cbn. by rewrite app_nil_r.
    + apply Forall_singleton. cbn. rewrite i32_id by ulia. split; [eauto|lia].
    + intros [|i] c d; done.
Qed.

Lemma body_inv_same mem r r' bs : same_request r r' -> body_inv mem r bs -> body_inv mem r' bs.
Proof.
  intros Hs [? ? ? ?]. pose proof (Hs (parsed_ r)) as Hx.
  unfold with_parsed in Hx. injection Hx as _ _ _ E1 E2 _ _ _. split; by rewrite <- ?E1, <- ?E2.
Qed.

Lemma deliver_body mem l r bs :
  body_inv mem r bs -> vlen (bs ++ frag_bytes l) < 2 ^ 31 ->
  Forall (fun f => read_bytes mem f.1.2 (length f.2) = Ok f.2) l ->
  exists r', deliver cfg (body_events l) r = (r', None) /\ body_inv mem r' (bs ++ frag_bytes l).
Proof.
  revert r bs. induction l as [|[[hp a] s] l IH]; intros r bs Hr Hlen Hl; cbn.
  - exists r. by rewrite app_nil_r.
  - apply Forall_cons_1 in Hl as [Hm Hl].
    change (frag_bytes ((hp, a, s) :: l)) with (s ++ frag_bytes l) in *.
    rewrite app_assoc in Hlen.
    destruct (of_body_step mem a s (with_parsed r hp) bs) as (r1 & -> & Hr1 & _).
    { by eapply body_inv_same; [apply same_with_parsed|]. }
    { done. }
    { rewrite vlen_app in Hlen. pose proof (vlen_nonneg (frag_bytes l)). lia. }
    cbn. destruct (IH r1 (bs ++ s)) as (r2 & E & H2); [done..|].
    exists r2. split; [exact E|]. by rewrite app_assoc.
Qed.
End Fragments.


(** ** A small parser for the examples

    Its states are error numbers; ['H'] ends the headers, ['M'] the message,
    ['/'] is a URL byte and every other byte a body byte. *)
#[export] Instance toy_HttpParser : HttpParser http_errno := {|
  http_parser_init := HPE_OK;
  http_errno_of := id;
  set_http_errno _ e := e;
  http_major _ := 1; http_minor _ := 1; http_method _ := 3; HTTP_CONNECT := 5;
  http_should_keep_alive _ := true
|}.
#[export] Instance toy_HttpParserLaws : HttpParserLaws http_errno.
Proof. by split. Qed.

Definition toy_event (a : Z) (b : byte) : event :=
  match b with
  | Byte.x48 => EvHeadersComplete
  | Byte.x4d => EvMessageComplete
  | Byte.x2f => EvUrl a [b]
  | _ => EvBody a [b]
  end.
Definition toy_errno (ev : event) : http_errno :=
  match ev with
  | EvHeadersComplete => HPE_CB_headers_complete
  | EvMessageComplete => HPE_CB_message_complete
  | _ => HPE_other 1
  end.
Fixpoint toy_run {S} (cb : http_parser_settings http_errno S) (a : Z) (data : list byte) (s : S)
    : http_errno * S * Z :=
  match data with
  | [] => (HPE_OK, s, 0)
  | b :: data' =>
    let '(s1, rc) := fire cb HPE_OK (toy_event a b) s in
    if goes_on (toy_event a b) rc
    then let '(e, s2, n) := toy_run cb (a + 1) data' s1 in (e, s2, n + 1)
    else (toy_errno (toy_event a b), s1, 1)
  end.
#[export] Instance toy_HttpExecute : HttpExecute http_errno := fun S cb hp s a data =>
  if bool_decide (hp = HPE_OK) then toy_run cb a data s else (hp, s, 0).

Lemma toy_event_within a b data : event_within a (b :: data) (toy_event a b).
Proof.
  assert (forall s, s = [b] -> a <= a /\ a + vlen s <= a + vlen (b :: data) /\
    s = take (length s) (drop (Z.to_nat (a - a)) (b :: data))) as Hb.
  { intros s ->. rewrite Z.sub_diag. unfold vlen. cbn. split_and!; [lia|lia|done]. }
  unfold toy_event. destruct b; (apply Hb; reflexivity) || exact I.
Qed.

Lemma toy_run_spec {S} (cb : http_parser_settings http_errno S) a data s e s' n :
  toy_run cb a data s = (e, s', n) ->
  0 <= n <= vlen data /\ exists evs stop, deliver cb evs s = (s', stop) /\
    Forall (fun x => event_within a data x.2) evs /\
    match stop with
    | Some ev => stop_errno ev e
    | None => e = HPE_OK /\ (data <> [] -> 0 < n)
    end.
Proof.
  revert a s e s' n. induction data as [|b data IH]; intros a s e s' n; cbn [toy_run].
  - intros [= <- <- <-]. split; [unfold vlen; cbn; lia|]. by exists [], None.
  - destruct (fire cb HPE_OK (toy_event a b) s) as [s1 rc] eqn:Ef.
    unfold vlen. cbn [length]. destruct (goes_on (toy_event a b) rc) eqn:Eg.
    + destruct (toy_run cb (a + 1) data s1) as [[e2 s2] m] eqn:Er. intros [= <- <- <-].
      apply IH in Er as (Hm & evs & stop & Hd & Hw & Hst). unfold vlen in Hm. split; [lia|].
      exists ((HPE_OK, toy_event a b) :: evs), stop. cbn [deliver]. rewrite Ef, Eg.
      split; [done|]. split.
      * constructor; [apply toy_event_within|]. eapply Forall_impl; [exact Hw|].
        intros x Hx. apply (event_within_drop _ _ 1); [unfold vlen; cbn; lia|done].
      * destruct stop; [done|]. destruct Hst as [-> _]. split; [done|lia].
    + intros [= <- <- <-]. split; [lia|]. exists [(HPE_OK, toy_event a b)], (Some (toy_event a b)).
      cbn [deliver]. rewrite Ef, Eg. split; [done|]. split.
      * constructor; [apply toy_event_within|done].
      * destruct (toy_event a b); cbn; eauto.
Qed.

#[export] Instance toy_HttpExecuteLaws : HttpExecuteLaws http_errno.
Proof.
  split. intros S cb hp s a data hp' s' n Hok. cbn in Hok. unfold id in Hok. subst hp.
  unfold http_parser_execute, toy_HttpExecute. cbn [bool_decide]. intros E.
  rewrite bool_decide_true in E by done.
  apply toy_run_spec in E as (Hn & evs & stop & Hd & Hw & Hst). split; [done|].
  exists evs, stop. split_and!; [done..|]. destruct stop; [done|].
  destruct Hst as [-> Hst]. cbn. unfold id. auto.
Qed.

(** A URL parser that takes the whole URL for its path. *)
#[export] Instance toy_HttpParseUrl : HttpParseUrl := fun u _ =>
  ParserUrl (fun f => match f with UF_PATH => true | _ => false end) (fun _ => (0, vlen u)) 0.
#[export] Instance toy_HttpParseUrlLaws : HttpParseUrlLaws.
Proof.
  split; intros; unfold http_parser_parse_url, toy_HttpParseUrl in *; cbn in *; [|lia].
  simplify_eq. pose proof (vlen_nonneg u). lia.
Qed.

Definition toy_new : http_request http_errno := http_request_new.


(** ** Properties *)





(** C15. The header block arrives intact however the input is cut: when the
    parser reports the URL and each field name and value in any fragments, the
    request ends up with the concatenated URL and exactly the fields sent, in
    some order, each one found by name; the parser is told to stop, and the
    components of the decoded URL are the ranges of the whole URL that the
    library reports for it. *)
Theorem header_phase_correct {HP} `{HttpParser HP, !HttpExecute HP, HttpParseUrlLaws, FieldSortLaws}
    (r : http_request HP) hp0 hp1 us hs :
  state_field_value_ r = true -> fields_ r = [] -> strurl_ r = [] -> decurl_ r = parsed_url_zero ->
  Forall (fun h => h.1 <> [] /\ h.2 <> []) hs -> vlen (frag_bytes us) < 2 ^ 16 ->
  let evs := (hp0, EvMessageBegin) :: url_events us ++ concat (header_events <$> hs) ++
             [(hp1, EvHeadersComplete)] in
  let hpu := http_parser_parse_url (frag_bytes us) (http_method hp1 =? HTTP_CONNECT) in
  exists r', deliver http_codec_config evs r = (r', Some EvHeadersComplete) /\
    headers_completed r' = true /\ strurl_ r' = frag_bytes us /\
    fields_ r' ≡ₚ header_field <$> hs /\
    (forall name, match field_value r' name with
                  | Some v => (c_str name, v) ∈ header_field <$> hs
                  | None => forall v, (c_str name, v) ∉ header_field <$> hs
                  end) /\
    (forall f, url_component f (decurl_ r') =
       if field_set hpu f then Slice (Some (field_data hpu f).1) (field_data hpu f).2 else slice_null) /\
    nport (decurl_ r') = hpu_port hpu.
Proof.
  intros Hst Hf Hu Hdec Hhs Hlen evs hpu. unfold evs. cbn [deliver fire http_codec_config
    cb_message_begin of_message_begin goes_on Z.eqb orb].
  rewrite deliver_app.
  destruct (deliver_url us (with_parsed r hp0)) as (r1 & -> & Hs1). rewrite deliver_app.
  destruct (deliver_headers hs (with_url r (frag_bytes us))) as (r2 & E2 & Hs2); [done..|].
  edestruct deliver_same as (r3 & E3 & Hs3); [|exact E2|].
  { intros x. symmetry. rewrite (Hs1 x). cbn. by rewrite Hu. }
  rewrite E3.
  rewrite Hs2 in Hs3.
  set (X := with_fields (with_url r (frag_bytes us)) (fields_ r ++ (header_field <$> hs)) true) in *.
  cbn [deliver]. rewrite <- (fire_same X r3 hp1 EvHeadersComplete Hs3).
  cbn [fire http_codec_config cb_headers_complete]. unfold of_headers_complete.
  eexists. split; [done|]. cbn. rewrite Hf. cbn.
  assert (std_sort (header_field <$> hs) ≡ₚ header_field <$> hs) as Hp by apply sort_perm.
  split_and!; [done|done|done| | |].
  - intros name.
    pose proof (find_field_spec (std_sort (header_field <$> hs)) name (sort_sorted _)) as Hfind.
    enough (match find_field (std_sort (header_field <$> hs)) name with
            | Some v => (c_str name, v) ∈ header_field <$> hs
            | None => forall v, (c_str name, v) ∉ header_field <$> hs
            end) as Hg by exact Hg.
    destruct (find_field _ name); by setoid_rewrite Hp in Hfind.
  - intros f. fold hpu. unfold method. cbn. fold hpu. rewrite Hdec.
    assert (url_slice hpu f slice_null = if field_set hpu f
      then Slice (Some (field_data hpu f).1) (field_data hpu f).2 else slice_null) as Hsl.
    { unfold url_slice, slice_new. destruct (field_set hpu f) eqn:Ef; [|done].
      destruct (field_data hpu f) as [o l] eqn:Ed. cbn.
      destruct (parse_url_range _ _ _ _ _ Hlen Ef Ed) as (? & ? & ?).
      by rewrite i32_id by ulia. }
    by destruct f.
  - unfold u16. apply Z.mod_small. apply parse_url_port.
Qed.

(** C16. The body arrives intact however it is cut: the slices the request
    collects designate, in order, exactly the bytes reported; [bodysz] is their
    number; and fragments that follow each other in memory are merged, so that
    no slice starts where the previous one ends. *)
Theorem body_correct {HP} `{HttpParser HP, !HttpExecute HP, HttpParseUrl, FieldSort}
    (mem : gmap Z byte) (r : http_request HP) l :
  bodybf_ r = [] -> bodysz_ r = 0 -> vlen (frag_bytes l) < 2 ^ 31 ->
  Forall (fun f => read_bytes mem f.1.2 (length f.2) = Ok f.2) l ->
  exists r', deliver http_codec_config (body_events l) r = (r', None) /\
    slices_bytes mem (bodybf_ r') = Ok (frag_bytes l) /\
    bodysz r' = vlen (frag_bytes l) /\
    (forall i c d, bodybf_ r' !! i = Some c -> bodybf_ r' !! S i = Some d -> ~ touching c d).
Proof.
  intros Hb Hz Hlen Hl.
  destruct (deliver_body mem l r []) as (r' & E & [Hbytes Hsize _ Hapart]); [|done..|by exists r'].
  split; rewrite ?Hb, ?Hz; [done..|by intros i c d].
Qed.

Definition toy_frags (l : list (list byte)) : list (fragment http_errno) :=
  (fun s => (HPE_OK, 0, s)) <$> l.
Definition toy_headers : list (list (fragment http_errno) * list (fragment http_errno)) :=
  [(toy_frags [lit "Ho"; lit "st"], toy_frags [lit "h"]);
   (toy_frags [lit "Accept"], toy_frags [lit "te"; lit "xt"])].

Lemma header_phase_correct_witness :
  exists r' : http_request http_errno, fields_ r' ≡ₚ header_field <$> toy_headers /\ strurl_ r' = lit "/x" /\
    headers_completed r' = true.
Proof.
  destruct (header_phase_correct (HP := http_errno) toy_new HPE_OK HPE_OK
              (toy_frags [lit "/"; lit "x"]) toy_headers)
    as (r' & _ & H1 & H2 & H3 & _); [reflexivity..| |vm_compute; reflexivity|].
  - repeat constructor; intros E; vm_compute in E; discriminate E.
  - exists r'. split; [exact H3|]. split; [exact H2|exact H1].
Defined.

Definition toy_mem : gmap Z byte :=
  list_to_map (imap (fun i b => (1000 + Z.of_nat i, b)) (lit "q=42")).
Definition toy_body : list (fragment http_errno) :=
  [(HPE_OK, 1000, lit "q="); (HPE_OK, 1002, lit "42")].

Lemma body_correct_witness :
  exists r', deliver http_codec_config (body_events toy_body) toy_new = (r', None) /\
    slices_bytes toy_mem (bodybf_ r') = Ok (lit "q=42") /\ bodysz r' = 4.
Proof.
  destruct (body_correct (HP := http_errno) toy_mem toy_new toy_body)
    as (r' & H1 & H2 & H3 & _); [reflexivity..| |].
  - repeat constructor; vm_compute; reflexivity.
  - exists r'. split; [exact H1|]. split; [exact H2|exact H3].
Defined.

(** A chunked message may carry fields after its body. *)
Definition header_block : list (http_errno * event) :=
  header_events (toy_frags [lit "Host"], toy_frags [lit "h"]) ++
  header_events (toy_frags [lit "Transfer-Encoding"], toy_frags [lit "chunked"]).
Definition trailer : list (http_errno * event) :=
  header_events (toy_frags [lit "Expires"], toy_frags [lit "0"]).

(** Fields are sorted once, when the header block ends.  A field of a
    chunked message's trailer is appended to the sorted list afterwards, and
    the binary search of [operator[]] can miss it: here the request holds the
    trailer field [Expires], its index finds it, its name does not. *)
Theorem trailer_field_not_found :
  let r1 := (deliver http_codec_config (header_block ++ [(HPE_OK, EvHeadersComplete)]) toy_new).1 in
  let r2 := (deliver http_codec_config (trailer ++ [(HPE_OK, EvMessageComplete)]) r1).1 in
  headers_completed r1 = true /\ message_completed r2 = true /\
  field_at r2 2 = Some (lit "Expires", lit "0") /\ field_value r2 (lit "Expires") = None.
Proof. vm_compute. split_and!; reflexivity. Qed.
