(* ===== verification/Stdio.v ===== *)
(** * Formatted output of the C library

    [snprintf] and [vsnprintf] as the program uses them: the text a format
    produces is an argument (the program's own formats are written out where
    they are used), and these definitions say how much of it reaches memory and
    what is returned.  [None] stands for a conversion error. *)
From S2P Require Import Prelude Iobuf.

(** [%d] and [%02d]; 20 digits are enough for any 64-bit value. *)
Fixpoint digits (fuel : nat) (n : Z) (acc : list byte) : list byte :=
  match fuel with
  | O => acc
  | S fuel' =>
    let acc := of_uchar (48 + n mod 10) :: acc in
    if n / 10 =? 0 then acc else digits fuel' (n / 10) acc
  end.
Definition dec (z : Z) : list byte :=
  if z <? 0 then lit "-" ++ digits 20 (- z) [] else digits 20 z [].
Definition dec02 (z : Z) : list byte :=
  if (0 <=? z) && (z <? 10) then lit "0" ++ dec z else dec z.

(** The value returned: the length of the whole text, or a negative value when
    the conversion fails or the length is not an [int]. *)
Definition printf_len (out : option (list byte)) : Z :=
  match out with
  | Some t => if vlen t <? 2 ^ 31 then vlen t else -1
  | None => -1
  end.

(** What a buffer of [n > 0] bytes holds afterwards, as a C string. *)
Definition snprintf_text (n : Z) (out : list byte) : list byte := take (Z.to_nat (n - 1)) out.

(** The bytes [snprintf(p, n, ...)] stores at [p]. *)
Definition snprintf_bytes (n : Z) (out : list byte) : list byte :=
  if n =? 0 then [] else snprintf_text n out ++ [Byte.x00].

(** Into the buffer [io] at offset [off]: the size argument [s] is an [int]
    expression, converted to [size_t].  A pointer past the end of the array is
    out of bounds even when nothing is stored. *)
Definition iobuf_snprintf (io : iobuf) (off s : Z) (out : option (list byte)) : outcome (iobuf * Z) :=
  if (0 <=? off) && (off <=? vlen (buff io)) then
    match out with
    | Some t => io' ← iobuf_store io off (snprintf_bytes (u64 s) t); Ok (io', printf_len out)
    | None => Ok (io, printf_len out)
    end
  else Crash OutOfBounds.

Lemma printf_len_Some t : vlen t < 2 ^ 31 -> printf_len (Some t) = vlen t.
Proof. intros H. unfold printf_len. by rewrite (proj2 (Z.ltb_lt _ _)). Qed.

Lemma printf_len_range out : -1 <= printf_len out < 2 ^ 31.
Proof.
  destruct out as [t|]; cbn; [|lia]. pose proof (vlen_nonneg t).
  destruct (Z.ltb_spec (vlen t) (2 ^ 31)); lia.
Qed.

Lemma vlen_take {A} n (l : list A) : 0 <= n -> vlen (take (Z.to_nat n) l) = n `min` vlen l.
Proof. intros. unfold vlen. rewrite length_take. lia. Qed.

Lemma snprintf_bytes_len n t : 0 <= n -> vlen (snprintf_bytes n t) = n `min` (vlen t + 1).
Proof.
  intros Hn. pose proof (vlen_nonneg t). unfold snprintf_bytes.
  destruct (Z.eqb_spec n 0) as [->|]; [change (vlen (A := byte) []) with 0; lia|].
  unfold snprintf_text. rewrite vlen_app, vlen_take by lia.
  change (vlen [Byte.x00]) with 1. lia.
Qed.

(** A text that fits with its NUL is stored whole. *)
Lemma snprintf_bytes_fits n t : vlen t < n -> snprintf_bytes n t = t ++ [Byte.x00].
Proof.
  intros Hn. pose proof (vlen_nonneg t). unfold snprintf_bytes, snprintf_text.
  destruct (Z.eqb_spec n 0); [lia|]. rewrite firstn_all2; [done|].
  unfold vlen in Hn. lia.
Qed.

(** ** Decimal numbers *)

(** The value of a sequence of digits, as a reader computes it. *)
Definition read_digits (l : list byte) : Z := fold_left (fun n b => 10 * n + (uchar b - 48)) l 0.

Lemma digits_read fuel n acc k :
  0 <= n < 10 ^ Z.of_nat fuel -> (fuel <> 0)%nat ->
  fold_left (fun n b => 10 * n + (uchar b - 48)) (digits fuel n acc) k =
  fold_left (fun n b => 10 * n + (uchar b - 48)) acc
    (10 ^ (vlen (digits fuel n acc) - vlen acc) * k + n) /\
  vlen acc <= vlen (digits fuel n acc) <= vlen acc + Z.of_nat fuel.
Proof.
  revert n acc. induction fuel as [|fuel IH]; intros n acc Hn Hf; [done|].
  assert (0 <= n mod 10 < 10) as Hm by (apply Z.mod_pos_bound; lia).
  assert (n = 10 * (n / 10) + n mod 10) as Hdiv by (apply Z.div_mod; lia).
  rewrite Nat2Z.inj_succ, Z.pow_succ_r in Hn by lia.
  cbn [digits]. set (d := of_uchar (48 + n mod 10)).
  assert (uchar d - 48 = n mod 10) as Hd by (subst d; rewrite uchar_of_uchar; lia).
  assert (vlen (d :: acc) = vlen acc + 1) as Hl by (unfold vlen; cbn [length]; lia).
  destruct (Z.eqb_spec (n / 10) 0) as [E|E].
  - cbn [fold_left]. rewrite Hd, Hl. split; [|lia].
    replace (vlen acc + 1 - vlen acc) with 1 by lia. f_equal. lia.
  - destruct fuel as [|fuel]; [cbn in Hn; lia|].
    destruct (IH (n / 10) (d :: acc)) as [-> Hb]; [nia|done|]. rewrite Hl in *.
    split; [|lia]. cbn [fold_left]. rewrite Hd. f_equal.
    set (m := vlen (digits (S fuel) (n / 10) (d :: acc))) in *.
    replace (m - vlen acc) with (Z.succ (m - (vlen acc + 1))) by lia.
    rewrite Z.pow_succ_r by lia. lia.
Qed.

Lemma read_dec z : 0 <= z < 10 ^ 20 -> read_digits (dec z) = z.
Proof.
  intros Hz. unfold read_digits, dec. rewrite (proj2 (Z.ltb_ge z 0)) by lia.
  destruct (digits_read 20 z [] 0) as [-> _]; [done|done|]. cbn [fold_left]. lia.
Qed.

Lemma dec_length z : - 10 ^ 20 < z < 10 ^ 20 -> vlen (dec z) <= 21.
Proof.
  intros Hz. unfold dec. destruct (Z.ltb_spec z 0).
  - rewrite vlen_app. destruct (digits_read 20 (- z) [] 0) as [_ Hl]; [lia|done|].
    change (vlen (lit "-")) with 1. change (vlen (A := byte) []) with 0 in Hl. lia.
  - destruct (digits_read 20 z [] 0) as [_ Hl]; [lia|done|].
    change (vlen (A := byte) []) with 0 in Hl. lia.
Qed.
