(* ===== verification/Errors.v ===== *)
(** * Error reports (src/src/errors.hpp and errors.cpp)

    [report_stack] builds the text of an exception: a prefix with the place, the
    formatted message, however long, and the error number.  Its retry loop owns
    a heap buffer; the model keeps whether it is still allocated at the end. *)
From S2P Require Import Prelude Iobuf Stdio.

(** [errno] and [strerror] *)
Class Errno := { errno : Z; strerror : Z -> list byte }.

Definition slash : byte := Byte.x2f.

(** [strrchr(file, '/')], then the part after it *)
Fixpoint get_basename (file : list byte) : list byte :=
  match file with
  | [] => []
  | b :: file' =>
    if bool_decide (slash ∈ file') then get_basename file'
    else if decide (b = slash) then file' else file
  end.

Definition rhandle_error `{Errno} (size code : Z) : list byte :=
  snprintf_text size (lit " [" ++ dec code ++ lit "]:" ++ strerror code).

(** The loop of [vreport_stack]: [tries] rounds at most, on a buffer of [len]
    bytes.  [Ok (m, live)]: what it appended, and whether the buffer is still
    allocated.  [ncopy < len] compares as [size_t]. *)
Fixpoint vreport_loop (tries : nat) (len : Z) (out : option (list byte))
    : outcome (list byte * bool) :=
  match tries with
  | O => Ok ([], true)
  | S tries' =>
    let ncopy := printf_len out in
    if (-1 <? ncopy) && (ncopy <? len)
    then Ok (snprintf_text len (default [] out), false)
    else
      len' ← (if 0 <? ncopy then add_int ncopy 1 else Ok (u64 (len * 2)));
      vreport_loop tries' len' out
  end.

Definition vreport_stack `{Errno} (file : list byte) (line : Z) (func : list byte) (code : Z)
    (out : option (list byte)) : outcome (list byte * bool) :=
  let prefix := snprintf_text 2048
    (lit "[" ++ get_basename file ++ lit ":" ++ dec line ++ lit ":" ++ func ++ lit "] ") in
  r ← vreport_loop 10 2048 out;
  Ok (prefix ++ r.1 ++ rhandle_error 2048 code, r.2).

Definition report_stack `{Errno} file line func code out : outcome (list byte) :=
  r ← vreport_stack file line func code out; Ok r.1.

(** [THROW_EXCEPT(std::runtime_error, ...)] *)
Definition throw_except {A} `{Errno} (file : list byte) (line : Z) (func : list byte)
    (out : option (list byte)) : outcome A :=
  what ← report_stack file line func errno out; Throws (RuntimeError (c_str what)).

(** ** Properties *)

Lemma get_basename_no_slash file : slash ∉ file -> get_basename file = file.
Proof.
  destruct file as [|b file]; [done|]. intros H. cbn.
  rewrite bool_decide_false by set_solver. rewrite decide_False by set_solver. done.
Qed.

Lemma get_basename_dir dir base :
  slash ∉ base -> get_basename (dir ++ slash :: base) = base.
Proof.
  intros H. induction dir as [|b dir IH]; cbn [app].
  - cbn. by rewrite bool_decide_false, decide_True by done.
  - cbn. rewrite bool_decide_true by set_solver. exact IH.
Qed.

Lemma snprintf_text_full n t : vlen t < n -> snprintf_text n t = t.
Proof. intros Hn. unfold snprintf_text. apply firstn_all2. unfold vlen in Hn. lia. Qed.

Lemma vreport_loop_Some k t :
  vlen t < 2 ^ 31 - 1 -> vreport_loop (S (S k)) 2048 (Some t) = Ok (t, false).
Proof.
  intros Ht. pose proof (vlen_nonneg t). cbn [vreport_loop]. rewrite printf_len_Some by lia.
  destruct (Z.ltb_spec (-1) (vlen t)); [|lia]. cbn [andb].
  destruct (Z.ltb_spec (vlen t) 2048); [cbn; by rewrite snprintf_text_full|].
  destruct (Z.ltb_spec 0 (vlen t)); [|lia]. rewrite add_int_Ok by ulia. run.
  destruct (Z.ltb_spec (vlen t) (vlen t + 1)); [|lia]. cbn. by rewrite snprintf_text_full by lia.
Qed.

Lemma throw_except_Throws {A} `{Errno} file line func t :
  vlen t < 2 ^ 31 - 1 ->
  exists what, throw_except (A := A) file line func (Some t) = Throws (RuntimeError what).
Proof.
  intros Ht. unfold throw_except, report_stack, vreport_stack.
  rewrite vreport_loop_Some by done. run. eauto.
Qed.

(** A report never loses text: whatever the length of the formatted message
    (up to an [int]), the loop ends in at most two rounds with the whole
    message between prefix and error number and with its buffer freed.  When
    the format itself fails, the ten rounds end without a message and the
    buffer of the last round is not freed. *)
Theorem vreport_stack_correct `{Errno} file line func code (out : option (list byte)) :
  exists prefix, vlen prefix <= 2047 /\
  match out with
  | Some t => vlen t < 2 ^ 31 - 1 ->
      vreport_loop 10 2048 out = vreport_loop 2 2048 out /\
      vreport_stack file line func code out =
        Ok (prefix ++ t ++ rhandle_error 2048 code, false)
  | None => vreport_stack file line func code out = Ok (prefix ++ rhandle_error 2048 code, true)
  end.
Proof.
  eexists. split; cycle 1.
  - destruct out as [t|].
    + intros Ht. unfold vreport_stack. rewrite !vreport_loop_Some by done. run.
      split; reflexivity.
    + unfold vreport_stack. change (vreport_loop 10 2048 None) with (Ok (@nil byte, true)).
      run. reflexivity.
  - unfold snprintf_text. rewrite vlen_take by lia. lia.
Qed.

Definition sample_errno : Errno := {| errno := 2; strerror _ := lit "No such file" |}.

Lemma vreport_stack_correct_witness :
  exists prefix, @vreport_stack sample_errno (lit "a/b.cpp") 7 (lit "f") 2 (Some (lit "boom")) =
    Ok (prefix ++ lit "boom" ++ @rhandle_error sample_errno 2048 2, false).
Proof.
  destruct (@vreport_stack_correct sample_errno (lit "a/b.cpp") 7 (lit "f") 2 (Some (lit "boom")))
    as (prefix & _ & H).
  exists prefix. apply H. vm_compute. reflexivity.
Defined.

Example report_text :
  @report_stack sample_errno (lit "a/b.cpp") 7 (lit "f") 2 (Some (lit "boom")) =
  Ok (lit "[b.cpp:7:f] boom [2]:No such file").
Proof. vm_compute. reflexivity. Qed.
