(* ===== verification/Response.v ===== *)
(** * The response (class http_response, src/src/response.hpp and response.cpp)

    A response collects its header and its body in buffers of the pool.  The
    buffers live in a store [st] from addresses to [iobuf]s, shared with the
    rest of the connection; [acquire] is the [BufAlloc] interface.  A
    [std::vector] keeps its capacity: a [push_back] at full capacity moves the
    elements and ends every reference into the vector, which [append] holds.
    What a shared pointer frees when it is overwritten or destroyed is the
    pool's business (file Pool): the store keeps the buffer. *)
From S2P Require Import Prelude Iobuf Stdio Errors.

(** ** std::vector<iobuf_t> *)
Record vec := Vec { elems : list Z; cap : Z }.
Add Printing Constructor vec.

(** The capacity after a reallocation is the library's choice. *)
Class VecGrow := grow : Z -> Z.
Class VecGrowLaws `{VecGrow} := grow_more c : 0 <= c -> c < grow c.

Definition vec_empty : vec := Vec [] 0.
Definition vec_clear (v : vec) : vec := Vec [] (cap v).
(** Also tells whether the elements have moved. *)
Definition push_back `{VecGrow} (v : vec) (x : Z) : vec * bool :=
  if vlen (elems v) <? cap v then (Vec (elems v ++ [x]) (cap v), false)
  else (Vec (elems v ++ [x]) (grow (cap v)), true).
(** [v.back()] as an index; of an empty vector it is undefined. *)
Definition back_index (v : vec) : outcome Z :=
  if bool_decide (elems v = []) then Crash OutOfBounds else Ok (vlen (elems v) - 1).

(** ** State *)
Record http_response := HttpResponse {
  header_ : vec;
  body_ : vec;
  status_ : Z;
  alive_ : Z;
  iseom_ : Z
}.
Add Printing Constructor http_response.

(** [struct tm] of the current time *)
Record tm := Tm {
  tm_wday : Z; tm_mday : Z; tm_mon : Z; tm_year : Z; tm_hour : Z; tm_min : Z; tm_sec : Z
}.

Definition st_get (st : gmap Z iobuf) (l : Z) : outcome iobuf :=
  match st !! l with Some io => Ok io | None => Crash DanglingReference end.

Definition with_status (r : http_response) (n : Z) : http_response :=
  HttpResponse (header_ r) (body_ r) n (alive_ r) (iseom_ r).
Definition with_alive (r : http_response) (n : Z) : http_response :=
  HttpResponse (header_ r) (body_ r) (status_ r) n (iseom_ r).
Definition with_eom (r : http_response) (n : Z) : http_response :=
  HttpResponse (header_ r) (body_ r) (status_ r) (alive_ r) n.
Definition with_vecs (r : http_response) (h b : vec) : http_response :=
  HttpResponse h b (status_ r) (alive_ r) (iseom_ r).

Definition is_alive (r : http_response) : bool := alive_ r =? 1.
Definition iseom (r : http_response) : bool := iseom_ r =? 1.
Definition buffers (r : http_response) : list Z := elems (header_ r) ++ elems (body_ r).

Definition THIS_FILE : list byte := lit "response.cpp".

Section Response.
Context {A : Type} `{BufAlloc A, VecGrow, Errno}.
Implicit Types (a : A) (st : gmap Z iobuf) (r : http_response).

Definition http_response_new a st : outcome (A * gmap Z iobuf * http_response) :=
  '(a, st, l1) ← alloc_buf a st;
  '(a, st, l2) ← alloc_buf a st;
  Ok (a, st, HttpResponse (push_back vec_empty l1).1 (push_back vec_empty l2).1 (-1) 1 0).

Definition http_response_reset r : http_response :=
  HttpResponse (vec_clear (header_ r)) (vec_clear (body_ r)) (-1) 1 0.

(** [header_.back()] *)
Definition header_back r : outcome Z :=
  i ← back_index (header_ r); vget (elems (header_ r)) i.

(** [char* p = iobuf_get_w_buf(iov); int s = iobuf_get_w_available(iov);
    int n = snprintf(p, s, ...); iobuf_set_w_len(iov, n);] *)
Definition put_text (io : iobuf) (out : option (list byte)) : outcome iobuf :=
  '(io, n) ← iobuf_snprintf io (iobuf_get_w_buf io) (iobuf_get_w_available io) out;
  '(_, io) ← iobuf_set_w_len io n;
  Ok io.

Definition WEEK_DAY : list (list byte) :=
  [lit "Sun"; lit "Mon"; lit "Tue"; lit "Wed"; lit "Thu"; lit "Fri"; lit "Sat"].
Definition MONTH : list (list byte) :=
  [lit "Jan"; lit "Feb"; lit "Mar"; lit "Apr"; lit "May"; lit "Jun"; lit "Jul"; lit "Aug";
   lit "Sep"; lit "Oct"; lit "Nov"; lit "Dec"].

Definition date_text (t : tm) : outcome (list byte) :=
  day ← vget WEEK_DAY (tm_wday t);
  month ← vget MONTH (tm_mon t);
  year ← add_int (tm_year t) 1900;
  Ok (lit "Date: " ++ day ++ lit ", " ++ dec (tm_mday t) ++ lit " " ++ month ++ lit " " ++
      dec year ++ lit " " ++ dec02 (tm_hour t) ++ lit ":" ++ dec02 (tm_min t) ++ lit ":" ++
      dec02 (tm_sec t) ++ lit " GMT" ++ CRLF).

Definition http_response_current_date (t : tm) (io : iobuf) : outcome iobuf :=
  text ← date_text t; put_text io (Some text).

Definition status_text (code : Z) (message : list byte) : list byte :=
  lit "HTTP/1.1 " ++ dec code ++ lit " " ++ c_str message ++ CRLF ++
  lit "Server: cohttp/0.9.0" ++ CRLF.

Definition status (t : tm) (code : Z) (message : list byte) r st
    : outcome (http_response * gmap Z iobuf) :=
  let r := with_status r code in
  l ← header_back r;
  io ← st_get st l;
  io ← put_text io (Some (status_text code message));
  io ← http_response_current_date t io;
  Ok (r, <[l := io]> st).

(** [if(status_ == -1) THROW_EXCEPT(...)] *)
Definition require_status r (line : Z) (func : list byte) : outcome unit :=
  if status_ r =? -1
  then throw_except THIS_FILE line func (Some (lit "response should set status first"))
  else Ok tt.

Definition content_type (type charset : option (list byte)) r st
    : outcome (http_response * gmap Z iobuf) :=
  require_status r 74 (lit "content_type") ;;
  l ← header_back r;
  io ← st_get st l;
  let p := iobuf_get_w_buf io in
  let s := iobuf_get_w_available io in
  '(io, n) ← iobuf_snprintf io p s
      (Some (lit "Content-Type: " ++ c_str (default (lit "text/html") type)));
  let text2 := match charset with
               | Some c => lit "; charset=" ++ c_str c ++ CRLF
               | None => CRLF
               end in
  '(io, n2) ← iobuf_snprintf io (p + n) (s - n) (Some text2);
  n ← add_int n n2;
  '(_, io) ← iobuf_set_w_len io n;
  Ok (r, <[l := io]> st).

Definition connection_text (alive : bool) : list byte :=
  lit "Connection: " ++ (if alive then lit "keep-alive" else lit "close") ++ CRLF.

Definition keep_alive (alive : bool) r st : outcome (http_response * gmap Z iobuf) :=
  require_status r 99 (lit "keep_alive") ;;
  let r := with_alive r (if alive then 1 else 0) in
  l ← header_back r;
  io ← st_get st l;
  io ← put_text io (Some (connection_text alive));
  Ok (r, <[l := io]> st).

Definition field_text (field value : list byte) : list byte :=
  c_str field ++ lit ": " ++ value ++ CRLF.

Definition too_large (line s n : Z) {B} : outcome B :=
  throw_except THIS_FILE line (lit "header")
    (Some (lit "too larget http response header: available " ++ dec s ++ lit ", expected " ++ dec n)).

(** The overload [header(field, value)] *)
Definition header (field value : list byte) r st : outcome (http_response * gmap Z iobuf) :=
  require_status r 116 (lit "header") ;;
  l ← header_back r;
  io ← st_get st l;
  let p := iobuf_get_w_buf io in
  let s := iobuf_get_w_available io in
  '(io, n) ← iobuf_snprintf io p s (Some (field_text field (c_str value)));
  if (n <? 0) || (s <? n) then too_large 125 s n
  else
    '(_, io) ← iobuf_set_w_len io n;
    Ok (r, <[l := io]> st).

(** The overload [header(field, fmt, ...)]; [out] is the formatted value. *)
Definition header_fmt (field : list byte) (out : option (list byte)) r st
    : outcome (http_response * gmap Z iobuf) :=
  require_status r 136 (lit "header") ;;
  l ← header_back r;
  io ← st_get st l;
  let s := i32 (u64 (u64 (printf_len out) + vlen (c_str field) + 4)) in
  if (s <? 0) || (iobuf_get_w_available io <? s) then
    throw_except THIS_FILE 151 (lit "header")
      (Some (lit "too larget http response header: " ++ c_str field ++ lit " available " ++
             dec (iobuf_get_w_available io) ++ lit ", expected " ++ dec s))
  else
    let p := iobuf_get_w_buf io in
    let s := iobuf_get_w_available io in
    '(io, n1) ← iobuf_snprintf io p s (Some (c_str field ++ lit ": "));
    '(io, l') ← iobuf_snprintf io (p + n1) (s - n1) out;
    '(io, n2) ← iobuf_snprintf io (p + n1 + l') (s - n1 - l') (Some CRLF);
    '(_, io) ← iobuf_set_w_len io (l' + n1 + n2);
    Ok (r, <[l := io]> st).

(** The [do ... while(retry < 2)] loop of [printf], from buffer [iov]. *)
Fixpoint printf_loop (rounds : nat) (iov : Z) (out : option (list byte)) (ret : Z) a st (b : vec)
    : outcome (A * gmap Z iobuf * vec * Z) :=
  match rounds with
  | O => Ok (a, st, b, ret)
  | S rounds' =>
    io ← st_get st iov;
    let n := iobuf_get_w_available io in
    '(io, k) ← iobuf_snprintf io (iobuf_get_w_buf io) n out;
    if (-1 <? k) && (k <=? n) then
      '(_, io) ← iobuf_set_w_len io k;
      Ok (a, <[iov := io]> st, b, k)
    else
      '(a, st, iov') ← alloc_buf a (<[iov := io]> st);
      printf_loop rounds' iov' out k a st (push_back b iov').1
  end.

Definition printf (out : option (list byte)) r a st
    : outcome (A * gmap Z iobuf * http_response * Z) :=
  i ← back_index (body_ r);
  iov ← vget (elems (body_ r)) i;
  '(a, st, b, k) ← printf_loop 2 iov out 0 a st (body_ r);
  Ok (a, st, with_vecs r (header_ r) b, k).

(** [memcpy(p, buf + used, n)] with [p] the write position *)
Definition copy_in (io : iobuf) (buf : list byte) (used n : Z) : outcome iobuf :=
  if (0 <=? used) && (0 <=? n) && (used + n <=? vlen buf)
  then iobuf_store io (iobuf_get_w_buf io) (take (Z.to_nat n) (drop (Z.to_nat used) buf))
  else Crash OutOfBounds.

(** The loop of [append]: [iov] refers to element [i] of [body_], which
    [iov = acquire()] overwrites; the reference ends when the following
    [push_back] moves the elements.  [None] when it runs out of fuel. *)
Fixpoint append_loop (fuel : nat) (buf : list byte) (len used avail i : Z) a st (b : vec)
    : option (outcome (A * gmap Z iobuf * vec)) :=
  if used <? len then
    match fuel with
    | O => None
    | S fuel' =>
      let n := if avail <? len - used then avail else len - used in
      match (iov ← vget (elems b) i; io ← st_get st iov;
             io ← copy_in io buf used n;
             '(_, io) ← iobuf_set_w_len io n;
             Ok (<[iov := io]> st)) with
      | Ok st =>
        let used := used + n in
        let avail := avail - n in
        if avail <? len - used then
          match ('(a, st, l) ← alloc_buf a st;
                 es ← vset (elems b) i l;
                 let '(b, moved) := push_back (Vec es (cap b)) l in
                 if moved then Crash DanglingReference
                 else io ← st_get st l; Ok (a, st, b, iobuf_get_w_available io)) with
          | Ok (a, st, b, avail) => append_loop fuel' buf len used avail i a st b
          | Throws e => Some (Throws e)
          | Crash f => Some (Crash f)
          end
        else append_loop fuel' buf len used avail i a st b
      | Throws e => Some (Throws e)
      | Crash f => Some (Crash f)
      end
    end
  else Some (Ok (a, st, b)).

(** Only the first round can copy nothing, when its buffer is full. *)
Definition append (buf : list byte) (len : Z) r a st
    : option (outcome (A * gmap Z iobuf * http_response)) :=
  match (i ← back_index (body_ r); iov ← vget (elems (body_ r)) i; io ← st_get st iov;
         Ok (i, iobuf_get_w_available io)) with
  | Ok (i, avail) =>
    fmap (M := option)
      (fmap (M := outcome) (fun '(a, st, b) => (a, st, with_vecs r (header_ r) b)))
      (append_loop (S (S (Z.to_nat len))) buf len 0 avail i a st (body_ r))
  | Throws e => Some (Throws e)
  | Crash f => Some (Crash f)
  end.

Definition eom r st : outcome (http_response * gmap Z iobuf) :=
  let r := with_eom r 1 in
  l ← header_back r;
  io ← st_get st l;
  io ← put_text io (Some CRLF);
  Ok (r, <[l := io]> st).
End Response.

(** ** Lemmas: text written behind the write position *)

(** [io] is [io0] with the text [t] stored at its write position, which has not
    moved yet. *)
Record pending (io0 io : iobuf) (t : list byte) : Prop := {
  pd_size : size io = size io0;
  pd_wpos : wpos io = wpos io0;
  pd_rpos : rpos io = rpos io0;
  pd_buff : vlen (buff io) = vlen (buff io0);
  pd_text : take (Z.to_nat (wpos io0) + length t) (buff io) =
            take (Z.to_nat (wpos io0)) (buff io0) ++ t;
  pd_room : vlen t <= iobuf_get_w_available io0
}.

Lemma pending_refl io : iobuf_wf io -> pending io io [].
Proof.
  intros [? ? ?]. split; try done.
  - by rewrite Nat.add_0_r, app_nil_r.
  - unfold iobuf_get_w_available, vlen. cbn. lia.
Qed.

Lemma pending_store io0 io t w k :
  iobuf_wf io0 -> pending io0 io t -> vlen t + vlen w <= iobuf_get_w_available io0 ->
  exists io', iobuf_store io (wpos io0 + vlen t) w = Ok io' /\ pending io0 io' (t ++ take k w).
Proof.
  intros [Hp Hc Hb] [H1 H2 H3 H4 H5 H6] Hw. unfold iobuf_get_w_available in *.
  pose proof (vlen_nonneg t). pose proof (vlen_nonneg w).
  destruct (store_Ok io (wpos io0 + vlen t) w) as (io' & E & E1 & E2 & E3 & E4 & E5); [lia..|].
  exists io'. split; [done|]. split; try congruence.
  - rewrite E4. unfold vlen in *. rewrite length_app.
    replace (Z.to_nat (wpos io0 + Z.of_nat (length t))) with (Z.to_nat (wpos io0) + length t)%nat by lia.
    rewrite app_assoc, take_app_le by (rewrite length_app, !length_take; lia).
    rewrite H5, Nat.add_assoc, take_app_add'.
    + rewrite <- app_assoc, !length_take. do 2 f_equal. rewrite <- take_take. by rewrite firstn_all.
    + rewrite length_app, length_take. lia.
  - unfold iobuf_get_w_available. rewrite vlen_app. unfold vlen in *. rewrite length_take. lia.
Qed.

(** One [snprintf] after the pending text: whole if it fits with its NUL,
    without its last byte and with a NUL for it if only that is missing. *)
Lemma pending_snprintf io0 io t u :
  iobuf_wf io0 -> pending io0 io t -> u <> [] \/ vlen t < iobuf_get_w_available io0 ->
  vlen t + vlen u <= iobuf_get_w_available io0 ->
  exists io', iobuf_snprintf io (wpos io0 + vlen t) (iobuf_get_w_available io0 - vlen t) (Some u)
      = Ok (io', vlen u) /\
    pending io0 io' (t ++ if vlen t + vlen u <? iobuf_get_w_available io0 then u
                          else take (length u - 1) u ++ [Byte.x00]).
Proof.
  intros Hwf Hpd Hu Hroom. pose proof Hwf as [Hp Hc Hb]. pose proof (pd_buff _ _ _ Hpd) as Hl.
  pose proof (vlen_nonneg t). pose proof (vlen_nonneg u).
  unfold iobuf_snprintf, iobuf_get_w_available in *.
  rewrite (proj2 (Z.leb_le 0 _)), (proj2 (Z.leb_le (_ + _) _)) by lia. cbn [andb].
  rewrite u64_id by ulia.
  set (m := size io0 - wpos io0 - vlen t) in *.
  pose proof (snprintf_bytes_len m u ltac:(lia)) as Hlen.
  destruct (pending_store io0 io t (snprintf_bytes m u) (length u) Hwf Hpd) as (io' & -> & Hpd').
  { unfold iobuf_get_w_available. lia. }
  run. exists io'. rewrite printf_len_Some by lia. split; [done|].
  replace (take (length u) (snprintf_bytes m u)) with
    (if vlen t + vlen u <? size io0 - wpos io0 then u else take (length u - 1) u ++ [Byte.x00])
    in Hpd'; [done|].
  destruct (Z.ltb_spec (vlen t + vlen u) (size io0 - wpos io0)).
  - rewrite snprintf_bytes_fits by lia. by rewrite take_app_length.
  - assert (0 < vlen u) as Hu0.
    { destruct Hu; [|lia]. destruct u; [done|unfold vlen; cbn; lia]. }
    assert (m = vlen u) as -> by lia. unfold snprintf_bytes, snprintf_text.
    rewrite (proj2 (Z.eqb_neq _ _)) by lia.
    replace (Z.to_nat (vlen u - 1)) with (length u - 1)%nat by (unfold vlen; lia).
    symmetry. apply firstn_all2. rewrite length_app, length_take. cbn [length].
    unfold vlen in Hu0. lia.
Qed.

Lemma pending_commit io0 io t :
  iobuf_wf io0 -> pending io0 io t ->
  exists io', iobuf_set_w_len io (vlen t) = Ok (true, io') /\ iobuf_wf io' /\
    iobuf_data io' = iobuf_data io0 ++ t /\ size io' = size io0 /\
    iobuf_get_w_available io' = iobuf_get_w_available io0 - vlen t.
Proof.
  intros [Hp Hc Hb] [H1 H2 H3 H4 H5 H6]. pose proof (vlen_nonneg t).
  unfold iobuf_get_w_available in *.
  assert (iobuf_wf io) as Hwf by (split; lia).
  rewrite set_w_len_Ok by (done || unfold iobuf_get_w_available; lia).
  eexists. split; [done|]. cbn. split_and!; [split; cbn; lia| |done|lia].
  unfold iobuf_data. cbn. rewrite H2, H3.
  replace (Z.to_nat (wpos io0 + vlen t - rpos io0))
    with ((Z.to_nat (wpos io0) + length t) - Z.to_nat (rpos io0))%nat by (unfold vlen in *; lia).
  rewrite <- skipn_firstn_comm, H5, drop_app_le by (rewrite length_take; unfold vlen in *; lia).
  f_equal. rewrite skipn_firstn_comm. f_equal. lia.
Qed.

Lemma pending_data io0 io : iobuf_wf io0 -> pending io0 io [] -> iobuf_wf io /\ iobuf_data io = iobuf_data io0.
Proof.
  intros Hwf Hpd. destruct (pending_commit io0 io [] Hwf Hpd) as (io' & E & Hwf' & Hd & _).
  destruct Hwf as [? ? ?], Hpd as [? ? ? ? _ _].
  assert (iobuf_wf io) as Hw by (split; lia). split; [done|].
  rewrite set_w_len_Ok in E by (done || unfold iobuf_get_w_available, vlen; cbn; lia).
  injection E as <-. rewrite app_nil_r in Hd. rewrite <- Hd. unfold iobuf_data. cbn.
  by rewrite Z.add_0_r.
Qed.

(** What a reader of the header finds after a text of [avail] bytes or fewer *)
Definition stored_text (avail : Z) (u : list byte) : list byte :=
  if vlen u <? avail then u else take (length u - 1) u ++ [Byte.x00].

Lemma vlen_stored_text avail u : u <> [] -> vlen (stored_text avail u) = vlen u.
Proof.
  intros Hu. unfold stored_text. destruct (vlen u <? avail); [done|].
  rewrite vlen_app. unfold vlen. rewrite length_take. cbn [length].
  destruct u; [done|]. cbn [length]. lia.
Qed.

Lemma put_text_spec io u :
  iobuf_wf io -> u <> [] -> vlen u <= iobuf_get_w_available io ->
  exists io', put_text io (Some u) = Ok io' /\ iobuf_wf io' /\ size io' = size io /\
    iobuf_data io' = iobuf_data io ++ stored_text (iobuf_get_w_available io) u /\
    iobuf_get_w_available io' = iobuf_get_w_available io - vlen u.
Proof.
  intros Hwf Hu Hl. unfold put_text, iobuf_get_w_buf.
  destruct (pending_snprintf io io [] u Hwf (pending_refl _ Hwf) (or_introl Hu)) as (io1 & E1 & Hpd).
  { unfold vlen at 1. cbn. lia. }
  change (vlen (A := byte) []) with 0 in *. rewrite Z.add_0_r, Z.sub_0_r in E1. rewrite E1. run.
  destruct (pending_commit _ _ _ Hwf Hpd) as (io' & E & Hwf' & Hd & Hs & Ha).
  cbn [app] in *. rewrite Z.add_0_l in *.
  fold (stored_text (iobuf_get_w_available io) u) in *.
  rewrite vlen_stored_text in * by done. rewrite E. run. eauto 10.
Qed.

Lemma put_text_too_long io u :
  iobuf_wf io -> iobuf_get_w_available io < vlen u -> wpos io + vlen u < 2 ^ 31 ->
  exists io', put_text io (Some u) = Ok io' /\ iobuf_wf io' /\ size io' = size io /\
    iobuf_data io' = iobuf_data io.
Proof.
  intros Hwf Hl Hi. pose proof Hwf as [Hp Hc Hb]. unfold put_text, iobuf_snprintf, iobuf_get_w_buf.
  unfold iobuf_get_w_available in *.
  rewrite (proj2 (Z.leb_le 0 _)), (proj2 (Z.leb_le (wpos io) _)) by lia. cbn [andb].
  rewrite u64_id by ulia.
  destruct (pending_store io io [] (snprintf_bytes (size io - wpos io) u) 0 Hwf (pending_refl _ Hwf))
    as (io1 & E & Hpd).
  { unfold iobuf_get_w_available. rewrite snprintf_bytes_len by lia.
    change (vlen (A := byte) []) with 0. lia. }
  change (vlen (A := byte) []) with 0 in E. rewrite Z.add_0_r in E. rewrite E. run.
  rewrite printf_len_Some by lia. cbn [app take] in Hpd.
  destruct (pending_data _ _ Hwf Hpd) as [Hwf1 Hd]. destruct Hpd as [Es Ew _ _ _ _].
  rewrite set_w_len_full by (done || unfold iobuf_get_w_available; lia). run. eauto.
Qed.

(** [io'] is [io] with the text [u] appended to its data. *)
Record appended (io io' : iobuf) (u : list byte) : Prop := {
  ap_wf : iobuf_wf io';
  ap_size : size io' = size io;
  ap_data : iobuf_data io' = iobuf_data io ++ u;
  ap_room : iobuf_get_w_available io' = iobuf_get_w_available io - vlen u
}.

Lemma appended_trans io1 io2 io3 u v :
  appended io1 io2 u -> appended io2 io3 v -> appended io1 io3 (u ++ v).
Proof.
  intros [_ S1 D1 R1] [W2 S2 D2 R2].
  split; [done|congruence|by rewrite D2, D1, app_assoc|rewrite vlen_app; lia].
Qed.

Lemma commit_appended io0 io t :
  iobuf_wf io0 -> pending io0 io t ->
  exists io', iobuf_set_w_len io (vlen t) = Ok (true, io') /\ appended io0 io' t.
Proof.
  intros Hwf Hpd. destruct (pending_commit _ _ _ Hwf Hpd) as (io' & ? & ? & ? & ? & ?).
  exists io'. split; [done|]. by split.
Qed.

(** Consecutive [snprintf]s that fit, then the advance *)
Lemma snprintf_fits io0 io t u :
  iobuf_wf io0 -> pending io0 io t -> vlen t + vlen u < iobuf_get_w_available io0 ->
  exists io', iobuf_snprintf io (iobuf_get_w_buf io0 + vlen t) (iobuf_get_w_available io0 - vlen t) (Some u)
      = Ok (io', vlen u) /\ pending io0 io' (t ++ u).
Proof.
  intros Hwf Hpd Hl. pose proof (vlen_nonneg u).
  destruct (pending_snprintf io0 io t u) as (io' & E & Hpd'); [done|done|right; lia|lia|].
  rewrite (proj2 (Z.ltb_lt _ _)) in Hpd' by done. eauto.
Qed.

Lemma snprintf_first io u :
  iobuf_wf io -> vlen u < iobuf_get_w_available io ->
  exists io', iobuf_snprintf io (iobuf_get_w_buf io) (iobuf_get_w_available io) (Some u)
      = Ok (io', vlen u) /\ pending io io' u.
Proof.
  intros Hwf Hl. destruct (snprintf_fits io io [] u Hwf (pending_refl _ Hwf)) as (io' & E & Hpd).
  { change (vlen (A := byte) []) with 0. lia. }
  change (vlen (A := byte) []) with 0 in E. rewrite Z.add_0_r, Z.sub_0_r in E. eauto.
Qed.

Lemma put_fits io u :
  iobuf_wf io -> vlen u < iobuf_get_w_available io ->
  exists io', put_text io (Some u) = Ok io' /\ appended io io' u.
Proof.
  intros Hwf Hl. unfold put_text. destruct (snprintf_first io u Hwf Hl) as (io1 & -> & Hpd). run.
  destruct (commit_appended _ _ _ Hwf Hpd) as (io' & -> & ?). run. eauto.
Qed.

(** ** The calls that build a header *)
Inductive header_call :=
  | CStatus (t : tm) (code : Z) (message : list byte)
  | CContentType (type charset : option (list byte))
  | CKeepAlive (alive : bool)
  | CHeader (field value : list byte)
  | CHeaderFmt (field out : list byte)
  | CEom.

Section Header.
Context {A : Type} `{BufAlloc A, VecGrow, Errno}.
Implicit Types (st : gmap Z iobuf) (r : http_response).

Definition run_header_call (c : header_call) r st : outcome (http_response * gmap Z iobuf) :=
  match c with
  | CStatus t code message => status t code message r st
  | CContentType type charset => content_type type charset r st
  | CKeepAlive alive => keep_alive alive r st
  | CHeader field value => header field value r st
  | CHeaderFmt field out => header_fmt field (Some out) r st
  | CEom => eom r st
  end.

Fixpoint run_header_calls (cs : list header_call) r st : outcome (http_response * gmap Z iobuf) :=
  match cs with
  | [] => Ok (r, st)
  | c :: cs' => '(r, st) ← run_header_call c r st; run_header_calls cs' r st
  end.

(** The text a call is meant to add *)
Definition header_call_text (c : header_call) : outcome (list byte) :=
  match c with
  | CStatus t code message => d ← date_text t; Ok (status_text code message ++ d)
  | CContentType type charset =>
    Ok (lit "Content-Type: " ++ c_str (default (lit "text/html") type) ++
        match charset with Some c => lit "; charset=" ++ c_str c ++ CRLF | None => CRLF end)
  | CKeepAlive alive => Ok (connection_text alive)
  | CHeader field value => Ok (field_text field (c_str value))
  | CHeaderFmt field out => Ok (field_text field out)
  | CEom => Ok CRLF
  end.

Fixpoint header_calls_text (cs : list header_call) : outcome (list byte) :=
  match cs with
  | [] => Ok []
  | c :: cs' => t ← header_call_text c; ts ← header_calls_text cs'; Ok (t ++ ts)
  end.

(** Fields of the response a call sets *)
Definition call_flags (c : header_call) r : http_response :=
  match c with
  | CStatus _ code _ => with_status r code
  | CKeepAlive alive => with_alive r (if alive then 1 else 0)
  | CEom => with_eom r 1
  | _ => r
  end.

(** [status] comes first, and never with code -1. *)
Definition call_allowed (c : header_call) r : bool :=
  match c with CStatus _ code _ => negb (code =? -1) | CEom => true | _ => negb (status_ r =? -1) end.
Fixpoint calls_allowed (cs : list header_call) r : bool :=
  match cs with
  | [] => true
  | c :: cs' => call_allowed c r && calls_allowed cs' (call_flags c r)
  end.

(** [l] is the buffer of [header_.back()], and it is [io]. *)
Definition header_in r st (l : Z) (io : iobuf) : Prop :=
  header_back r = Ok l /\ st !! l = Some io /\ iobuf_wf io.

Lemma require_status_Ok r n f : negb (status_ r =? -1) = true -> require_status r n f = Ok tt.
Proof. intros Hs%negb_true_iff. unfold require_status. by rewrite Hs. Qed.

Lemma require_status_Throws r n f :
  status_ r = -1 -> exists what, require_status r n f = Throws (RuntimeError what).
Proof.
  intros Hs. unfold require_status. rewrite Hs, Z.eqb_refl.
  apply throw_except_Throws. vm_compute. reflexivity.
Qed.

Lemma put_header r st l io u :
  header_in r st l io -> vlen u < iobuf_get_w_available io ->
  exists io', (l ← header_back r; io ← st_get st l; io ← put_text io (Some u);
    Ok (r, <[l := io]> st)) = Ok (r, <[l := io']> st) /\ appended io io' u.
Proof.
  intros (Hl & Hst & Hwf) Hu. rewrite Hl. run. unfold st_get. rewrite Hst. run.
  destruct (put_fits io u Hwf Hu) as (io' & -> & Ha). run. eauto.
Qed.

Lemma status_ok t code message d r st l io :
  header_in r st l io -> date_text t = Ok d ->
  vlen (status_text code message ++ d) < iobuf_get_w_available io ->
  exists io', status t code message r st = Ok (with_status r code, <[l := io']> st) /\
    appended io io' (status_text code message ++ d).
Proof.
  intros (Hl & Hst & Hwf) Hd Hu. rewrite vlen_app in Hu. pose proof (vlen_nonneg d).
  unfold status. replace (header_back (with_status r code)) with (header_back r) by done.
  rewrite Hl. run. unfold st_get. rewrite Hst. run.
  destruct (put_fits io (status_text code message) Hwf) as (io1 & -> & Ha1); [lia|]. run.
  unfold http_response_current_date. rewrite Hd. run.
  pose proof (ap_room _ _ _ Ha1) as Hr.
  destruct (put_fits io1 d (ap_wf _ _ _ Ha1)) as (io2 & -> & Ha2); [lia|]. run.
  exists io2. split; [done|]. by eapply appended_trans.
Qed.

Lemma content_type_ok type charset u r st l io :
  header_in r st l io -> negb (status_ r =? -1) = true ->
  header_call_text (CContentType type charset) = Ok u -> vlen u < iobuf_get_w_available io ->
  exists io', content_type type charset r st = Ok (r, <[l := io']> st) /\ appended io io' u.
Proof.
  intros (Hl & Hst & Hwf) Hs Ht Hu. unfold content_type. rewrite require_status_Ok by done. run.
  unfold st_get. rewrite Hst. run. pose proof Hwf as [Hp Hc Hb].
  set (t1 := lit "Content-Type: " ++ c_str (default (lit "text/html") type)).
  set (t2 := match charset with Some c => lit "; charset=" ++ c_str c ++ CRLF | None => CRLF end).
  assert (u = t1 ++ t2) as ->.
  { subst t1 t2. rewrite <- app_assoc. cbn [header_call_text] in Ht. congruence. }
  rewrite vlen_app in Hu. pose proof (vlen_nonneg t1). pose proof (vlen_nonneg t2).
  destruct (snprintf_first io t1 Hwf) as (io1 & -> & Hpd1); [lia|]. run.
  destruct (snprintf_fits io io1 t1 t2 Hwf Hpd1) as (io2 & -> & Hpd2); [lia|]. run.
  unfold iobuf_get_w_available in Hu. rewrite add_int_Ok by ulia. run.
  destruct (commit_appended _ _ _ Hwf Hpd2) as (io' & E & Ha). rewrite vlen_app in E. rewrite E. run.
  eauto.
Qed.

Lemma header_ok field value r st l io :
  header_in r st l io -> negb (status_ r =? -1) = true ->
  vlen (field_text field (c_str value)) < iobuf_get_w_available io ->
  exists io', header field value r st = Ok (r, <[l := io']> st) /\
    appended io io' (field_text field (c_str value)).
Proof.
  intros (Hl & Hst & Hwf) Hs Hu. unfold header. rewrite require_status_Ok by done. run.
  unfold st_get. rewrite Hst. run.
  pose proof (vlen_nonneg (field_text field (c_str value))).
  destruct (snprintf_first io (field_text field (c_str value)) Hwf Hu) as (io1 & -> & Hpd). run.
  rewrite (proj2 (Z.ltb_ge _ 0)), (proj2 (Z.ltb_ge _ (vlen _))) by lia. cbn [orb].
  destruct (commit_appended _ _ _ Hwf Hpd) as (io' & -> & Ha). run. eauto.
Qed.

Lemma header_fmt_ok field out r st l io :
  header_in r st l io -> negb (status_ r =? -1) = true ->
  vlen (field_text field out) < iobuf_get_w_available io ->
  exists io', header_fmt field (Some out) r st = Ok (r, <[l := io']> st) /\
    appended io io' (field_text field out).
Proof.
  intros (Hl & Hst & Hwf) Hs Hu. unfold header_fmt. rewrite require_status_Ok by done. run.
  unfold st_get. rewrite Hst. run. pose proof Hwf as [Hp Hc Hb].
  unfold field_text in *. set (f := c_str field) in *.
  pose proof (vlen_nonneg f). pose proof (vlen_nonneg out).
  rewrite !vlen_app in Hu. change (vlen (lit ": ")) with 2 in Hu. change (vlen CRLF) with 2 in Hu.
  assert (iobuf_get_w_available io < 2 ^ 31) by (unfold iobuf_get_w_available; lia).
  rewrite printf_len_Some by lia. rewrite (u64_id (vlen out)) by ulia.
  rewrite u64_id, i32_id by ulia.
  rewrite (proj2 (Z.ltb_ge _ 0)), (proj2 (Z.ltb_ge _ (vlen out + _ + _))) by lia. cbn [orb].
  assert (vlen (f ++ lit ": ") = vlen f + 2) as E1 by by rewrite vlen_app.
  destruct (snprintf_first io (f ++ lit ": ") Hwf) as (io1 & -> & Hpd1); [lia|]. run.
  destruct (snprintf_fits io io1 _ out Hwf Hpd1) as (io2 & -> & Hpd2); [lia|]. run.
  destruct (snprintf_fits io io2 _ CRLF Hwf Hpd2) as (io3 & E3 & Hpd3).
  { rewrite vlen_app. change (vlen CRLF) with 2. lia. }
  rewrite (vlen_app (f ++ lit ": ") out) in E3.
  rewrite Z.add_assoc, Z.sub_add_distr in E3. rewrite E3. run.
  destruct (commit_appended _ _ _ Hwf Hpd3) as (io' & E & Ha).
  rewrite <- !app_assoc in Ha. rewrite !vlen_app in E.
  rewrite vlen_app. replace (vlen out + (vlen f + vlen (lit ": ")) + vlen CRLF)
    with (vlen f + vlen (lit ": ") + vlen out + vlen CRLF) by lia.
  rewrite E. run. eauto.
Qed.

Lemma header_call_spec c r st l io u :
  header_in r st l io -> call_allowed c r = true ->
  header_call_text c = Ok u -> vlen u < iobuf_get_w_available io ->
  exists io', run_header_call c r st = Ok (call_flags c r, <[l := io']> st) /\ appended io io' u.
Proof.
  intros Hin Hok Ht Hu.
  destruct c as [t code message|type charset|alive|field value|field out|];
    cbn [header_call_text call_allowed run_header_call call_flags] in *.
  - destruct (date_text t) as [d| |] eqn:Hd; try done. injection Ht as <-. by apply status_ok.
  - by apply content_type_ok.
  - injection Ht as <-. unfold keep_alive. rewrite require_status_Ok by done. run.
    by apply (put_header (with_alive r (if alive then 1 else 0))).
  - injection Ht as <-. by apply header_ok.
  - injection Ht as <-. by apply header_fmt_ok.
  - injection Ht as <-. by apply (put_header (with_eom r 1)).
Qed.
End Header.

(** ** Body buffers *)
Lemma st_get_Ok (st : gmap Z iobuf) l io : st !! l = Some io -> st_get st l = Ok io.
Proof. intros Hl. unfold st_get. by rewrite Hl. Qed.

Lemma snprintf_too_long io u :
  iobuf_wf io -> iobuf_get_w_available io < vlen u -> vlen u < 2 ^ 31 ->
  exists io', iobuf_snprintf io (iobuf_get_w_buf io) (iobuf_get_w_available io) (Some u)
    = Ok (io', vlen u) /\ pending io io' [].
Proof.
  intros Hwf Hl Hi. pose proof Hwf as [Hp Hc Hb]. unfold iobuf_snprintf, iobuf_get_w_buf.
  unfold iobuf_get_w_available in *.
  rewrite (proj2 (Z.leb_le 0 _)), (proj2 (Z.leb_le (wpos io) _)) by lia. cbn [andb].
  rewrite u64_id by ulia.
  destruct (pending_store io io [] (snprintf_bytes (size io - wpos io) u) 0 Hwf (pending_refl _ Hwf))
    as (io1 & E & Hpd).
  { unfold iobuf_get_w_available. rewrite snprintf_bytes_len by lia.
    change (vlen (A := byte) []) with 0. lia. }
  change (vlen (A := byte) []) with 0 in E. rewrite Z.add_0_r in E. rewrite E. run.
  rewrite printf_len_Some by lia. eauto.
Qed.

(** [l] is the last buffer of the body, and it is [io]. *)
Definition body_in (r : http_response) (st : gmap Z iobuf) (l : Z) (io : iobuf) : Prop :=
  last (elems (body_ r)) = Some l /\ st !! l = Some io /\ iobuf_wf io.

Lemma back_of {X} (v : vec) l (k : Z -> Z -> outcome X) :
  last (elems v) = Some l ->
  (i ← back_index v; x ← vget (elems v) i; k i x) = k (vlen (elems v) - 1) l.
Proof.
  intros Hl. unfold back_index. destruct (bool_decide_reflect (elems v = [])) as [E|E].
  - by rewrite E in Hl.
  - run. rewrite last_lookup in Hl.
    rewrite (proj2 (vget_Ok _ _ l)); [done|]. unfold vlen.
    assert (length (elems v) <> 0%nat) by by destruct (elems v).
    split; [lia|]. rewrite <- Hl. f_equal. lia.
Qed.

Lemma printf_fits {A} `{BufAlloc A, VecGrow, Errno} r a st l io t :
  body_in r st l io -> vlen t < iobuf_get_w_available io ->
  exists io', printf (Some t) r a st = Ok (a, <[l := io']> st, r, vlen t) /\ appended io io' t.
Proof.
  intros (Hl & Hst & Hwf) Hlt. pose proof (vlen_nonneg t).
  unfold printf. rewrite (back_of (body_ r) l) by done. cbn [printf_loop].
  rewrite (st_get_Ok _ _ _ Hst). run.
  destruct (snprintf_first io t Hwf Hlt) as (io1 & E1 & Hpd). rewrite E1. run.
  rewrite (proj2 (Z.ltb_lt (-1) _)), (proj2 (Z.leb_le (vlen t) _)) by lia. cbn [andb].
  destruct (commit_appended _ _ _ Hwf Hpd) as (io' & -> & Ha). run.
  exists io'. split; [by destruct r|done].
Qed.

(** [append] always returns: a round copies at least a byte, except the first
    one on a full buffer. *)
Lemma append_loop_returns {A inv} `{BufAllocLaws A inv, VecGrow, Errno} fuel buf len used avail i a st b :
  inv a st -> 0 < alloc_size a -> 0 <= avail ->
  (Z.to_nat (len - used) + (if (avail =? 0)%Z then 1 else 0) <= fuel)%nat ->
  append_loop fuel buf len used avail i a st b <> None.
Proof.
  revert used avail a st b. induction fuel as [|fuel IH]; intros used avail a st b Hinv Hsz Ha Hf;
    cbn [append_loop]; (destruct (Z.ltb_spec used len); [|done]); [lia|].
  set (n := if avail <? len - used then avail else len - used).
  destruct (vget (elems b) i) as [iov| |]; try done. run.
  destruct (st_get st iov) as [io| |] eqn:Eio; try done. run.
  assert (is_Some (st !! iov)) as Hs by (unfold st_get in Eio; destruct (st !! iov); done).
  destruct (copy_in io buf used n) as [io1| |]; try done. run.
  destruct (iobuf_set_w_len io1 n) as [[ok io2]| |]; try done. run.
  assert (inv a (<[iov := io2]> st)) as Hinv' by by apply inv_update.
  destruct (Z.ltb_spec (avail - n) (len - (used + n))) as [Hmore|Hdone].
  - destruct (alloc_ok a (<[iov := io2]> st) Hinv') as (a' & l & io3 & -> & _ & Hnew & Hz & Hi). run.
    destruct (vset (elems b) i l) as [es| |]; try done. run.
    destruct (push_back (Vec es (cap b)) l) as [b' [|]]; try done.
    assert (st_get (<[l := io3]> (<[iov := io2]> st)) l = Ok io3) as ->
      by (unfold st_get; by rewrite lookup_insert_eq). run.
    assert (iobuf_get_w_available io3 = alloc_size a) as ->
      by (destruct Hnew; unfold iobuf_get_w_available; lia).
    apply IH; [done|lia|lia|].
    rewrite (proj2 (Z.eqb_neq (alloc_size a) 0)) by lia.
    subst n. destruct (Z.ltb_spec avail (len - used)), (Z.eqb_spec avail 0); lia.
  - assert (n = len - used) as En by (subst n; destruct (Z.ltb_spec avail (len - used)); lia).
    destruct fuel; cbn [append_loop]; by rewrite (proj2 (Z.ltb_ge _ len)) by lia.
Qed.

Lemma append_returns {A inv} `{BufAllocLaws A inv, VecGrow, Errno} buf len r a st l io :
  body_in r st l io -> inv a st -> 0 < alloc_size a -> append buf len r a st <> None.
Proof.
  intros (Hl & Hst & [Hp Hc Hb]) Hinv Hsz. unfold append. rewrite (back_of (body_ r) l) by done.
  rewrite (st_get_Ok _ _ _ Hst). run.
  pose proof (append_loop_returns (S (S (Z.to_nat len))) buf len 0 (iobuf_get_w_available io)
    (vlen (elems (body_ r)) - 1) a st (body_ r) Hinv Hsz) as Hx.
  destruct (append_loop _ _ _ _ _ _ _ _ _); [done|]. intros _. apply Hx; [|destruct (_ =? 0); lia|done].
  unfold iobuf_get_w_available. lia.
Qed.

Lemma elems_push_back `{VecGrow} v x : elems (push_back v x).1 = elems v ++ [x].
Proof. unfold push_back. by destruct (_ <? _). Qed.

(** An allocator for examples: ever higher addresses, chunks of one size. *)
Record bump := Bump { next : Z; chunk_size : Z }.
#[export] Instance bump_BufAlloc : BufAlloc bump := {|
  alloc_size := chunk_size;
  alloc_buf b st := Ok (Bump (next b + 1) (chunk_size b),
    <[next b := Iobuf (chunk_size b) 0 0 (replicate (Z.to_nat (chunk_size b)) Byte.x00)]> st, next b)
|}.
Definition bump_inv (b : bump) (st : gmap Z iobuf) : Prop :=
  0 <= chunk_size b < 2 ^ 31 /\ forall l, is_Some (st !! l) -> l < next b.
#[export] Instance bump_BufAllocLaws : BufAllocLaws bump bump_inv.
Proof.
  split.
  - intros b st [Hc Hn]. do 3 eexists. split; [done|]. split_and!.
    + apply eq_None_not_Some. intros Hs%Hn. lia.
    + split; try done. split; cbn; try lia. unfold vlen. rewrite length_replicate. lia.
    + done.
    + split; [done|]. cbn. intros l. rewrite lookup_insert_is_Some'. intros [<-|Hl%Hn]; lia.
  - intros b st l io [Hc Hn] Hl. split; [done|]. intros l'. rewrite lookup_insert_is_Some'.
    intros [<-|?]; auto.
Qed.

(** Vectors that double *)
#[export] Instance double_grow : VecGrow := fun c => if c <=? 0 then 1 else 2 * c.
#[export] Instance double_grow_laws : VecGrowLaws.
Proof. intros c Hc. unfold grow, double_grow. destruct (Z.leb_spec c 0); lia. Qed.

Lemma header_calls_spec `{Errno} cs r st l io text :
  header_in r st l io -> calls_allowed cs r = true ->
  header_calls_text cs = Ok text -> vlen text < iobuf_get_w_available io ->
  exists io', run_header_calls cs r st =
      Ok (fold_left (fun r c => call_flags c r) cs r, <[l := io']> st) /\
    appended io io' text.
Proof.
  revert r st io text. induction cs as [|c cs IH]; intros r st io text Hin Hok Ht Hroom; cbn in *.
  - injection Ht as <-. exists io. destruct Hin as (_ & Hst & Hwf).
    rewrite insert_id by done. split; [done|]. split; [done..|by rewrite app_nil_r|unfold vlen; cbn; lia].
  - apply andb_true_iff in Hok as [Hc Hok].
    destruct (header_call_text c) as [u| |] eqn:Eu; try done. cbn in Ht.
    destruct (header_calls_text cs) as [v| |] eqn:Ev; try done. cbn in Ht. injection Ht as <-.
    rewrite vlen_app in Hroom. pose proof (vlen_nonneg v).
    destruct (header_call_spec c r st l io u) as (io1 & -> & Ha1); [done..|lia|]. run.
    pose proof (ap_room _ _ _ Ha1).
    destruct (IH (call_flags c r) (<[l := io1]> st) io1 v) as (io2 & -> & Ha2); [|done|done|lia|].
    { destruct Hin as (Hl & _). split_and!; [by destruct c|by rewrite lookup_insert_eq|apply Ha1]. }
    exists io2. rewrite insert_insert_eq. split; [done|]. by eapply appended_trans.
Qed.

(** ** Properties *)

(** C35. Calls that build a header, [status] before the ones that need it, append
    exactly their texts, in order, to the header buffer as long as the whole
    text is shorter than the room left; they touch no other buffer and set the
    status, keep-alive and end-of-message fields as called. *)
Theorem header_block_correct `{Errno} cs r st l io text :
  header_in r st l io -> calls_allowed cs r = true ->
  header_calls_text cs = Ok text -> vlen text < iobuf_get_w_available io ->
  exists io', run_header_calls cs r st =
      Ok (fold_left (fun r c => call_flags c r) cs r, <[l := io']> st) /\
    appended io io' text.
Proof. apply header_calls_spec. Qed.

(** At the limits of the header buffer: a [header] line of exactly the room
    left is accepted, but its line feed is lost to the terminating NUL; a longer
    one raises [runtime_error]; a [keep_alive] line that does not fit leaves no
    text and no error, though the flag is set. *)
Theorem header_limits `{Errno} r st l io field value alive :
  header_in r st l io -> status_ r <> -1 -> wpos io + vlen (field_text field (c_str value)) < 2 ^ 31 ->
  (vlen (field_text field (c_str value)) = iobuf_get_w_available io ->
   exists io', header field value r st = Ok (r, <[l := io']> st) /\
     iobuf_data io' = iobuf_data io ++ c_str field ++ lit ": " ++ c_str value ++ [Byte.x0d; Byte.x00] /\
     iobuf_get_w_available io' = 0) /\
  (iobuf_get_w_available io < vlen (field_text field (c_str value)) ->
   exists what, header field value r st = Throws (RuntimeError what)) /\
  (iobuf_get_w_available io < vlen (connection_text alive) ->
   wpos io + vlen (connection_text alive) < 2 ^ 31 ->
   exists io', keep_alive alive r st =
       Ok (with_alive r (if alive then 1 else 0), <[l := io']> st) /\
     iobuf_data io' = iobuf_data io).
Proof.
  intros (Hl & Hst & Hwf) Hs Hi. assert (negb (status_ r =? -1) = true) as Hs'
    by (apply negb_true_iff; lia). pose proof (wf_pos _ Hwf).
  split_and!; intros Hroom.
  - set (u := field_text field (c_str value)) in *.
    assert (u <> []) as Hu by (subst u; unfold field_text; by destruct (c_str field)).
    unfold header. fold u. rewrite require_status_Ok by done. run. unfold st_get. rewrite Hst. run.
    destruct (pending_snprintf io io [] u Hwf (pending_refl _ Hwf) (or_introl Hu)) as (io1 & E1 & Hpd).
    { change (vlen (A := byte) []) with 0. lia. }
    change (vlen (A := byte) []) with 0 in *. rewrite Z.add_0_r, Z.sub_0_r in E1.
    unfold iobuf_get_w_buf. rewrite E1. run. pose proof (vlen_nonneg u).
    rewrite (proj2 (Z.ltb_ge _ 0)), (proj2 (Z.ltb_ge _ (vlen u))) by lia. cbn [orb].
    rewrite (proj2 (Z.ltb_ge _ _)) in Hpd by lia. cbn [app] in Hpd.
    destruct (commit_appended _ _ _ Hwf Hpd) as (io' & E & Ha).
    assert (take (length u - 1) u ++ [Byte.x00] =
      c_str field ++ lit ": " ++ c_str value ++ [Byte.x0d; Byte.x00]) as Ht.
    { subst u. unfold field_text, CRLF.
      replace (c_str field ++ lit ": " ++ c_str value ++ [Byte.x0d; Byte.x0a])
        with ((c_str field ++ lit ": " ++ c_str value ++ [Byte.x0d]) ++ [Byte.x0a])
        by by rewrite <- !app_assoc.
      rewrite length_app, Nat.add_sub, take_app_length. by rewrite <- !app_assoc. }
    assert (vlen (take (length u - 1) u ++ [Byte.x00]) = vlen u) as Hlen.
    { unfold vlen. rewrite length_app, length_take. cbn [length].
      destruct u; [done|]. cbn [length]. lia. }
    rewrite Hlen in E. rewrite E. run. exists io'. split; [done|]. destruct Ha as [_ _ Hd Ha].
    rewrite Ht in Hd. split; [done|lia].
  - unfold header. rewrite require_status_Ok by done. run. unfold st_get. rewrite Hst. run.
    destruct (snprintf_too_long io (field_text field (c_str value)) Hwf) as (io1 & -> & _); [lia..|].
    run. rewrite (proj2 (Z.ltb_lt _ (vlen _))), orb_true_r by lia.
    apply throw_except_Throws. rewrite !vlen_app. unfold iobuf_get_w_available in *.
    pose proof (dec_length (size io - wpos io)). pose proof (wf_cap _ Hwf).
    pose proof (dec_length (vlen (field_text field (c_str value)))).
    change (vlen (lit "too larget http response header: available ")) with 43.
    change (vlen (lit ", expected ")) with 11. lia.
  - intros Hi'. unfold keep_alive. rewrite require_status_Ok by done. run.
    replace (header_back (with_alive r _)) with (header_back r) by done. rewrite Hl. run.
    unfold st_get. rewrite Hst. run.
    destruct (put_text_too_long io (connection_text alive) Hwf) as (io' & -> & _ & _ & Hd); [lia..|].
    run. eauto.
Qed.

(** [content_type] does not look at the result of its first [snprintf]: a
    type longer than the room left makes it write through a pointer past the
    end of the buffer, with a size that has wrapped around. *)
Theorem content_type_overrun `{Errno} r st l io type charset :
  header_in r st l io -> status_ r <> -1 ->
  iobuf_get_w_available io < vlen (lit "Content-Type: " ++ c_str type) < 2 ^ 31 ->
  content_type (Some type) charset r st = Crash OutOfBounds.
Proof.
  intros (Hl & Hst & Hwf) Hs Hi. assert (negb (status_ r =? -1) = true) as Hs'
    by (apply negb_true_iff; lia). pose proof Hwf as [Hp Hc Hb].
  unfold content_type. rewrite require_status_Ok by done. run. unfold st_get. rewrite Hst. run.
  cbn [default]. set (t := lit "Content-Type: " ++ c_str type) in *.
  destruct (snprintf_too_long io t Hwf) as (io1 & E & Hpd); [lia..|].
  replace (iobuf_snprintf io _ _ _) with (Ok (io1, vlen t)). run.
  unfold iobuf_snprintf at 1. rewrite (pd_buff _ _ _ Hpd).
  unfold iobuf_get_w_available, iobuf_get_w_buf in *.
  rewrite (proj2 (Z.leb_gt (_ + _) (vlen (buff io)))) by lia. by rewrite andb_false_r.
Qed.

(** [printf] of a text shorter than a chunk stores it whole and returns its
    length: behind the data of the last body buffer if it is shorter than the
    room there, and otherwise in a fresh buffer that becomes the last one, with
    the data of the buffers in use unchanged. *)
Theorem printf_correct {A inv} `{BufAllocLaws A inv, VecGrow, Errno} r a st l io t :
  body_in r st l io -> inv a st -> vlen t < alloc_size a < 2 ^ 31 ->
  vlen t <> iobuf_get_w_available io ->
  exists a' st' r', printf (Some t) r a st = Ok (a', st', r', vlen t) /\
    inv a' st' /\ header_ r' = header_ r /\
    (vlen t < iobuf_get_w_available io ->
     r' = r /\ exists io', st' = <[l := io']> st /\ appended io io' t) /\
    (iobuf_get_w_available io < vlen t ->
     exists l' io1 io2, elems (body_ r') = elems (body_ r) ++ [l'] /\ st !! l' = None /\
       st' = <[l' := io2]> (<[l := io1]> st) /\
       iobuf_wf io1 /\ iobuf_data io1 = iobuf_data io /\
       iobuf_wf io2 /\ iobuf_data io2 = t).
Proof.
  intros Hin Hinv Ht Hne. pose proof Hin as (Hl & Hst & Hwf). pose proof (vlen_nonneg t).
  assert (is_Some (st !! l)) as Hsome by eauto.
  destruct (Z.lt_total (vlen t) (iobuf_get_w_available io)) as [Hlt|[?|Hgt]]; [|done|].
  - destruct (printf_fits r a st l io t Hin Hlt) as (io' & -> & Ha).
    do 3 eexists. split; [done|]. split_and!; [by apply inv_update|done| |lia]. eauto.
  - unfold printf. rewrite (back_of (body_ r) l) by done. cbn [printf_loop].
    rewrite (st_get_Ok _ _ _ Hst). run.
    destruct (snprintf_too_long io t Hwf) as (io1 & -> & Hpd); [lia..|]. run.
    destruct (pending_data _ _ Hwf Hpd) as [Hwf1 Hd1].
    rewrite (proj2 (Z.leb_gt (vlen t) _)), andb_false_r by lia.
    destruct (alloc_ok a (<[l := io1]> st)) as (a' & l' & io2 & -> & Hfresh & Hnew & Hsz & Hinv').
    { by apply inv_update. }
    run. rewrite (st_get_Ok (<[l' := io2]> _) l' io2) by apply lookup_insert_eq. run. destruct Hnew as [Hwf2 Hs2 Hw2 Hr2].
    assert (vlen t < iobuf_get_w_available io2) as Hroom by (unfold iobuf_get_w_available; lia).
    destruct (snprintf_first io2 t Hwf2 Hroom) as (io3 & -> & Hpd2). run.
    rewrite (proj2 (Z.ltb_lt (-1) _)), (proj2 (Z.leb_le (vlen t) _)) by lia. cbn [andb].
    destruct (commit_appended _ _ _ Hwf2 Hpd2) as (io4 & -> & [Hwf4 _ Hd4 _]). run.
    rewrite insert_insert_eq. do 3 eexists. split; [done|]. split_and!; [|done|lia|].
    + rewrite <- (insert_insert_eq _ l' io4 io2). apply inv_update; [done|].
      rewrite lookup_insert_eq. eauto.
    + intros _. exists l', io1, io4. cbn. rewrite elems_push_back.
      apply lookup_insert_None in Hfresh as [Hfresh _]. split_and!; try done.
      rewrite Hd4. unfold iobuf_data. rewrite Hw2, Hr2. done.
Qed.

(** [append] copies a block that fits in the last body buffer behind its
    data and changes nothing else. *)
Theorem append_correct {A} `{BufAlloc A, VecGrow, Errno} r a st l io buf :
  body_in r st l io -> vlen buf <= iobuf_get_w_available io ->
  exists io', append buf (vlen buf) r a st = Some (Ok (a, <[l := io']> st, r)) /\
    appended io io' buf.
Proof.
  intros (Hl & Hst & Hwf) Hroom. pose proof (vlen_nonneg buf). pose proof Hwf as [Hp Hc Hb].
  unfold append. rewrite (back_of (body_ r) l) by done. rewrite (st_get_Ok _ _ _ Hst). run.
  cbn [append_loop]. destruct (Z.ltb_spec 0 (vlen buf)) as [Hpos|Hz].
  - rewrite Z.sub_0_r, (proj2 (Z.ltb_ge _ (vlen buf))) by lia.
    assert (vget (elems (body_ r)) (vlen (elems (body_ r)) - 1) = Ok l) as ->.
    { rewrite last_lookup in Hl. apply vget_Ok. unfold vlen.
      assert (length (elems (body_ r)) <> 0%nat) by by destruct (elems (body_ r)).
      split; [lia|]. rewrite <- Hl. f_equal. lia. }
    run. rewrite (st_get_Ok _ _ _ Hst). run.
    unfold copy_in, iobuf_get_w_buf. rewrite (proj2 (Z.leb_le 0 (vlen buf))) by lia.
    rewrite Z.add_0_l, !Z.leb_refl. cbn [andb Z.leb Z.compare Z.to_nat drop].
    rewrite (firstn_all2 buf) by (unfold vlen; lia).
    destruct (pending_store io io [] buf (length buf) Hwf (pending_refl _ Hwf)) as (io1 & E & Hpd).
    { change (vlen (A := byte) []) with 0. lia. }
    change (vlen (A := byte) []) with 0 in E. rewrite Z.add_0_r in E. rewrite E. run.
    rewrite firstn_all in Hpd. cbn [app] in Hpd.
    destruct (commit_appended _ _ _ Hwf Hpd) as (io' & -> & Ha). run.
    rewrite (proj2 (Z.ltb_ge (_ - _) _)) by lia. cbn [append_loop].
    rewrite Z.ltb_irrefl. cbn. exists io'. split; [|done]. by destruct r.
  - assert (buf = []) as -> by (destruct buf; [done|unfold vlen in Hz; cbn in Hz; lia]).
    cbn. exists io. rewrite insert_id by done. split; [by destruct r|].
    split; [done..|by rewrite app_nil_r|unfold vlen; cbn; lia].
Qed.

(** A block that does not fit ends in a dangling reference as soon as the
    body vector is full, as it is after construction: [push_back] moves the
    elements while [append] still refers to the last one. *)
Theorem append_dangling {A inv} `{BufAllocLaws A inv, VecGrow, Errno} r a st l io buf :
  body_in r st l io -> inv a st -> vlen (elems (body_ r)) = cap (body_ r) ->
  iobuf_get_w_available io < vlen buf ->
  append buf (vlen buf) r a st = Some (Crash DanglingReference).
Proof.
  intros (Hl & Hst & Hwf) Hinv Hfull Hroom. pose proof Hwf as [Hp Hc Hb].
  assert (0 <= iobuf_get_w_available io) by (unfold iobuf_get_w_available; lia).
  set (avail := iobuf_get_w_available io) in *.
  unfold append. rewrite (back_of (body_ r) l) by done. rewrite (st_get_Ok _ _ _ Hst). run.
  cbn [append_loop]. fold avail. rewrite (proj2 (Z.ltb_lt 0 _)) by lia.
  rewrite Z.sub_0_r, (proj2 (Z.ltb_lt _ (vlen buf))) by lia.
  rewrite last_lookup in Hl.
  assert (length (elems (body_ r)) <> 0%nat) as Hne by by destruct (elems (body_ r)).
  assert (vget (elems (body_ r)) (vlen (elems (body_ r)) - 1) = Ok l) as ->.
  { apply vget_Ok. unfold vlen. split; [lia|]. rewrite <- Hl. f_equal. lia. }
  run. rewrite (st_get_Ok _ _ _ Hst). run.
  unfold copy_in, iobuf_get_w_buf. rewrite (proj2 (Z.leb_le 0 avail)), (proj2 (Z.leb_le (0 + _) _)) by lia.
  cbn [andb Z.leb Z.compare]. change (drop (Z.to_nat 0) buf) with buf.
  assert (vlen (take (Z.to_nat avail) buf) = avail) as Hlen by (rewrite vlen_take; lia).
  destruct (pending_store io io [] (take (Z.to_nat avail) buf) (Z.to_nat avail) Hwf (pending_refl _ Hwf))
    as (io1 & E & Hpd).
  { change (vlen (A := byte) []) with 0. fold avail. lia. }
  change (vlen (A := byte) []) with 0 in E. rewrite Z.add_0_r in E. rewrite E. run.
  cbn [app] in Hpd. rewrite take_take, Nat.min_id in Hpd.
  destruct (commit_appended _ _ _ Hwf Hpd) as (io' & E2 & _). rewrite Hlen in E2. rewrite E2. run.
  rewrite Z.sub_diag, Z.add_0_l, (proj2 (Z.ltb_lt 0 _)) by lia.
  destruct (alloc_ok a (<[l := io']> st)) as (a' & l' & io2 & -> & _ & _ & _ & _).
  { apply inv_update; eauto. }
  run. rewrite vset_in_range by (unfold vlen; lia). run.
  unfold push_back. cbn [elems cap].
  rewrite (proj2 (Z.ltb_ge (vlen (<[_ := _]> _)) _)) by (rewrite vlen_insert; lia). done.
Qed.

(** [printf] reports a length it has not stored.  A text longer than a whole
    chunk is stored nowhere: its length is returned, two empty buffers are
    added to the body and no data changes.  A text of exactly the room left is
    accepted, with its last byte lost to the terminating NUL. *)
Theorem printf_limits {A inv} `{BufAllocLaws A inv, VecGrow, Errno} r a st l io t :
  body_in r st l io -> inv a st -> 0 < vlen t < 2 ^ 31 ->
  (vlen t = iobuf_get_w_available io ->
   exists io', printf (Some t) r a st = Ok (a, <[l := io']> st, r, vlen t) /\
     iobuf_data io' = iobuf_data io ++ take (length t - 1) t ++ [Byte.x00]) /\
  (iobuf_get_w_available io < vlen t -> alloc_size a < vlen t ->
   exists a' r' io1 l1 io2 l2 io3,
     printf (Some t) r a st = Ok (a', <[l2 := io3]> (<[l1 := io2]> (<[l := io1]> st)), r', vlen t) /\
     elems (body_ r') = elems (body_ r) ++ [l1; l2] /\
     iobuf_data io1 = iobuf_data io /\ iobuf_data io2 = [] /\ iobuf_data io3 = []).
Proof.
  intros (Hl & Hst & Hwf) Hinv Ht. split.
  - intros Heq. assert (t <> []) as Hne by (intros ->; cbn in Ht; unfold vlen in Ht; cbn in Ht; lia).
    unfold printf. rewrite (back_of (body_ r) l) by done. cbn [printf_loop].
    rewrite (st_get_Ok _ _ _ Hst). run.
    destruct (pending_snprintf io io [] t Hwf (pending_refl _ Hwf) (or_introl Hne)) as (io1 & E1 & Hpd).
    { change (vlen (A := byte) []) with 0. lia. }
    change (vlen (A := byte) []) with 0 in *. rewrite Z.add_0_r, Z.sub_0_r in E1.
    rewrite (proj2 (Z.ltb_ge _ _)) in Hpd by lia. cbn [app] in Hpd.
    unfold iobuf_get_w_buf. rewrite E1. run.
    rewrite (proj2 (Z.ltb_lt (-1) _)), (proj2 (Z.leb_le (vlen t) _)) by lia. cbn [andb].
    destruct (commit_appended _ _ _ Hwf Hpd) as (io' & E & Ha).
    assert (vlen (take (length t - 1) t ++ [Byte.x00]) = vlen t) as Hlen.
    { unfold vlen in *. rewrite length_app, length_take. cbn [length]. lia. }
    rewrite Hlen in E. rewrite E. run. exists io'. split; [by destruct r|apply Ha].
  - intros Hgt Hbig. unfold printf. rewrite (back_of (body_ r) l) by done. cbn [printf_loop].
    rewrite (st_get_Ok _ _ _ Hst). run.
    destruct (snprintf_too_long io t Hwf) as (io1 & -> & Hpd); [lia..|]. run.
    destruct (pending_data _ _ Hwf Hpd) as [Hwf1 Hd1].
    rewrite (proj2 (Z.leb_gt (vlen t) _)), andb_false_r by lia.
    destruct (alloc_ok a (<[l := io1]> st)) as (a1 & l1 & io2 & -> & Hf1 & Hn1 & Hsz & Hinv1).
    { apply inv_update; eauto. }
    run. rewrite (st_get_Ok (<[l1 := io2]> _) l1 io2) by apply lookup_insert_eq. run.
    destruct Hn1 as [Hwf2 Hs2 Hw2 Hr2].
    destruct (snprintf_too_long io2 t Hwf2) as (io2' & -> & Hpd2);
      [unfold iobuf_get_w_available; lia|lia|]. run.
    destruct (pending_data _ _ Hwf2 Hpd2) as [Hwf2' Hd2].
    rewrite (proj2 (Z.leb_gt (vlen t) _)), andb_false_r by (unfold iobuf_get_w_available; lia).
    rewrite insert_insert_eq.
    destruct (alloc_ok a1 (<[l1 := io2']> (<[l := io1]> st))) as (a2 & l2 & io3 & -> & Hf2 & Hn2 & _ & _).
    { rewrite <- (insert_insert_eq _ l1 io2' io2). apply inv_update; [done|].
      rewrite lookup_insert_eq. eauto. }
    run. destruct Hn2 as [Hwf3 Hs3 Hw3 Hr3].
    do 7 eexists. split; [done|]. cbn [body_ with_vecs]. rewrite !elems_push_back, <- app_assoc.
    split_and!; [done|done| |].
    + rewrite Hd2. unfold iobuf_data. by rewrite Hw2, Hr2.
    + unfold iobuf_data. by rewrite Hw3, Hr3.
Qed.

(** A new response owns two different empty buffers, one for the header and
    one for the body, and takes no header call but [status] (and [eom]): every
    other one raises [runtime_error] until the status is set. *)
Theorem response_new_correct {A inv} `{BufAllocLaws A inv, VecGrow, Errno} a st :
  inv a st ->
  exists a' st' r lh lb ioh iob, http_response_new a st = Ok (a', st', r) /\ inv a' st' /\
    header_in r st' lh ioh /\ body_in r st' lb iob /\ lh <> lb /\ buffers r = [lh; lb] /\
    iobuf_data ioh = [] /\ iobuf_data iob = [] /\
    iobuf_get_w_available ioh = alloc_size a /\ iobuf_get_w_available iob = alloc_size a /\
    status_ r = -1 /\ is_alive r = true /\ iseom r = false /\
    (forall c, match c with
               | CStatus _ _ _ | CEom => True
               | _ => exists what, run_header_call c r st' = Throws (RuntimeError what)
               end).
Proof.
  intros Hinv. unfold http_response_new.
  destruct (alloc_ok a st) as (a1 & lh & ioh & -> & Hf1 & [Hw1 Hs1 Hp1 Hr1] & Hz1 & Hi1); [done|]. run.
  destruct (alloc_ok a1 (<[lh := ioh]> st)) as (a2 & lb & iob & -> & Hf2 & [Hw2 Hs2 Hp2 Hr2] & Hz2 & Hi2);
    [done|]. run.
  apply lookup_insert_None in Hf2 as [Hf2 Hne].
  exists a2. eexists. eexists. exists lh, lb, ioh, iob. split; [done|].
  unfold header_in, body_in. split_and!; try done.
  all: try (by rewrite ?lookup_insert_ne, ?lookup_insert_eq by done).
  all: try (unfold iobuf_data; by rewrite ?Hp1, ?Hr1, ?Hp2, ?Hr2).
  all: try (unfold iobuf_get_w_available; lia).
  intros c. destruct c; try done; cbn [run_header_call];
    unfold content_type, keep_alive, header, header_fmt;
    match goal with |- context [require_status ?r ?n ?f] =>
      destruct (require_status_Throws r n f eq_refl) as [w ->] end; run; eauto.
Qed.

(** ** Witnesses *)
#[local] Instance example_errno : Errno := sample_errno.

Definition blank (n : Z) : iobuf := Iobuf n 0 0 (replicate (Z.to_nat n) Byte.x00).
(** A response on chunks of [n] bytes with its header at 1 and its body at 2 *)
Definition example_alloc (n : Z) : bump := Bump 3 n.
Definition example_store (n : Z) : gmap Z iobuf := <[2 := blank n]> (<[1 := blank n]> ∅).
Definition example_response (code : Z) : http_response :=
  HttpResponse (Vec [1] 1) (Vec [2] 1) code 1 0.
Definition example_tm : tm := Tm 2 27 8 116 9 5 0.
Definition example_calls : list header_call :=
  [CStatus example_tm 200 (lit "OK"); CKeepAlive true; CHeader (lit "X-A") (lit "b"); CEom].

Lemma blank_wf n : 0 <= n < 2 ^ 31 -> iobuf_wf (blank n).
Proof. intros. split; cbn; try lia. unfold vlen. rewrite length_replicate. lia. Qed.

Lemma example_header n code : 0 <= n < 2 ^ 31 ->
  header_in (example_response code) (example_store n) 1 (blank n).
Proof. intros. split_and!; [done|done|by apply blank_wf]. Qed.
Lemma example_body n code : 0 <= n < 2 ^ 31 ->
  body_in (example_response code) (example_store n) 2 (blank n).
Proof. intros. split_and!; [done|done|by apply blank_wf]. Qed.
Lemma example_inv n : 0 <= n < 2 ^ 31 -> bump_inv (example_alloc n) (example_store n).
Proof.
  intros. split; [done|]. intros l. unfold example_store. rewrite !lookup_insert_is_Some'.
  intros [<-|[<-|Hs]]; cbn; [lia..|]. by apply lookup_empty_is_Some in Hs.
Qed.

Lemma header_block_correct_witness :
  exists text io', header_calls_text example_calls = Ok text /\
    run_header_calls example_calls (example_response (-1)) (example_store 256) =
      Ok (HttpResponse (Vec [1] 1) (Vec [2] 1) 200 1 1, <[1 := io']> (example_store 256)) /\
    appended (blank 256) io' text.
Proof.
  eexists.
  destruct (header_block_correct example_calls (example_response (-1)) (example_store 256)
    1 (blank 256) _ (example_header 256 (-1) ltac:(lia)) eq_refl eq_refl)
    as (io' & H1 & H2); [vm_compute; reflexivity|].
  exists io'. split; [reflexivity|]. split; [exact H1|exact H2].
Defined.

Lemma header_limits_witness :
  exists io', header (lit "A") (lit "b") (example_response 200) (example_store 6) =
      Ok (example_response 200, <[1 := io']> (example_store 6)) /\
    iobuf_data io' = lit "A: b" ++ [Byte.x0d; Byte.x00].
Proof.
  destruct (header_limits (example_response 200) (example_store 6) 1 (blank 6) (lit "A") (lit "b") true)
    as (H & _); [apply example_header; lia|discriminate|vm_compute; reflexivity|].
  destruct (H eq_refl) as (io' & H1 & H2 & _). exists io'. split; [exact H1|exact H2].
Defined.

Lemma content_type_overrun_witness :
  content_type (Some (lit "text/html")) None (example_response 200) (example_store 16) = Crash OutOfBounds.
Proof.
  apply (content_type_overrun _ _ 1 (blank 16));
    [apply example_header; lia|discriminate|split; vm_compute; reflexivity].
Defined.

Lemma printf_correct_witness :
  exists a' st' r', printf (Some (lit "hello")) (example_response 200) (example_alloc 16) (example_store 16)
    = Ok (a', st', r', 5) /\ bump_inv a' st'.
Proof.
  destruct (printf_correct (inv := bump_inv) (example_response 200) (example_alloc 16) (example_store 16)
    2 (blank 16) (lit "hello")) as (a' & st' & r' & H1 & H2 & _);
    [apply example_body; lia|apply example_inv; lia|split; vm_compute; reflexivity|vm_compute; discriminate|].
  exists a', st', r'. split; [exact H1|exact H2].
Defined.

Lemma append_correct_witness :
  exists io', append (lit "abc") 3 (example_response 200) (example_alloc 16) (example_store 16) =
    Some (Ok (example_alloc 16, <[2 := io']> (example_store 16), example_response 200)) /\
    appended (blank 16) io' (lit "abc").
Proof.
  apply (append_correct (A := bump) _ _ _ 2 (blank 16));
    [apply example_body; lia|vm_compute; discriminate].
Defined.

Lemma append_dangling_witness :
  append (lit "abcdef") 6 (example_response 200) (example_alloc 4) (example_store 4) =
    Some (Crash DanglingReference).
Proof.
  apply (append_dangling (inv := bump_inv) _ _ _ 2 (blank 4));
    [apply example_body; lia|apply example_inv; lia|reflexivity|vm_compute; reflexivity].
Defined.

Lemma printf_limits_witness :
  exists io', printf (Some (lit "hello")) (example_response 200) (example_alloc 5) (example_store 5)
      = Ok (example_alloc 5, <[2 := io']> (example_store 5), example_response 200, 5) /\
    iobuf_data io' = lit "hell" ++ [Byte.x00].
Proof.
  destruct (printf_limits (inv := bump_inv) (example_response 200) (example_alloc 5) (example_store 5)
    2 (blank 5) (lit "hello")) as [H _];
    [apply example_body; lia|apply example_inv; lia|split; vm_compute; reflexivity|].
  destruct (H eq_refl) as (io' & H1 & H2). exists io'. split; [exact H1|exact H2].
Defined.

Lemma response_new_correct_witness :
  exists a' st' r, http_response_new (Bump 1 64) ∅ = Ok (a', st', r) /\ bump_inv a' st'.
Proof.
  destruct (response_new_correct (inv := bump_inv) (Bump 1 64) ∅)
    as (a' & st' & r & lh & lb & ioh & iob & H1 & H2 & _).
  - split; [split; vm_compute; intuition congruence|]. intros l Hl. by apply lookup_empty_is_Some in Hl.
  - exists a', st', r. split; [exact H1|exact H2].
Defined.

(** The header texts of the source, as bytes *)
Example example_header_text :
  header_calls_text example_calls = Ok
    (lit "HTTP/1.1 200 OK" ++ CRLF ++ lit "Server: cohttp/0.9.0" ++ CRLF ++
     lit "Date: Tue, 27 Sep 2016 09:05:00 GMT" ++ CRLF ++ lit "Connection: keep-alive" ++ CRLF ++
     lit "X-A: b" ++ CRLF ++ CRLF).
Proof. vm_compute. reflexivity. Qed.
