(* ===== verification/Modules.v ===== *)
(** * Module handlers and their table (src/src/handler.hpp, modules.hpp and modules.cpp)

    A module is an object with callbacks; [modules] finds one by the path of a
    request in an [unordered_map] keyed by C strings, hashed and compared
    without case.  The map is the list of its elements with the number of its
    buckets; the order of its iteration is not specified and no result here
    depends on it.  [spec_find] is the abstract contract: a finite map from
    lower-case paths. *)
From S2P Require Import Prelude Iobuf Request Codec.

(** ** enum handle_event *)
Definition HE_NONE : Z := 0.
Definition HE_PROCESS_INIT : Z := 1.
Definition HE_PROCESS_EXIT : Z := 2.
Definition HE_CONNECT_INIT : Z := 4.
Definition HE_CONNECT_EXIT : Z := 8.
Definition HE_REQUEST_HDR : Z := 16.
Definition HE_REQUEST_BODY : Z := 32.

(** [mh->handle_events() & flag] *)
Definition wants (events flag : Z) : bool := negb (Z.land events flag =? 0).

(** ** class module_handler

    [Rq] and [Rs] are what a request callback reads and changes; the lifecycle
    callbacks act on a state [W] of the module's own. *)
Record module_handler (W Rq Rs : Type) := ModuleHandler {
  handle_events : Z;
  handler_path : option (list byte);
  handler_name : list byte;
  on_process_init : W -> W;
  on_process_exit : W -> W;
  on_connect_init : Z -> W -> W;
  on_connect_exit : Z -> W -> W;
  on_request_header : Z -> Z -> Rq -> Rs -> outcome Rs;
  on_request_body : Z -> Z -> Rq -> Rs -> outcome Rs
}.
Arguments ModuleHandler {W Rq Rs}.
Arguments handle_events {W Rq Rs}.
Arguments handler_path {W Rq Rs}.
Arguments handler_name {W Rq Rs}.
Arguments on_process_init {W Rq Rs}.
Arguments on_process_exit {W Rq Rs}.
Arguments on_connect_init {W Rq Rs}.
Arguments on_connect_exit {W Rq Rs}.
Arguments on_request_header {W Rq Rs}.
Arguments on_request_body {W Rq Rs}.

(** ** Keys without case *)

(** [toupper] and [tolower] of the C locale *)
Definition toupper (c : Z) : Z := if (97 <=? c) && (c <=? 122) then c - 32 else c.
Definition tolower (c : Z) : Z := if (65 <=? c) && (c <=? 90) then c + 32 else c.

(** [r ^= static_cast<size_t>(toupper( *k)); r *= prime;] with [char] signed *)
Definition hash_step (r : Z) (c : byte) : Z := fnv_step r (u64 (toupper (schar c))).
Definition modules_hash (k : list byte) : Z := fold_left hash_step (c_str k) fnv_seed.

Fixpoint strcasecmp_loop (a b : list byte) : Z :=
  match a, b with
  | [], [] => 0
  | x :: a', y :: b' =>
    if tolower (uchar x) =? tolower (uchar y) then strcasecmp_loop a' b'
    else tolower (uchar x) - tolower (uchar y)
  | x :: _, [] => tolower (uchar x)
  | [], y :: _ => - tolower (uchar y)
  end.
Definition strcasecmp (a b : list byte) : Z := strcasecmp_loop (c_str a) (c_str b).
Definition modules_comp (a b : list byte) : bool := strcasecmp a b =? 0.

(** ** class modules *)
Section Modules.
Context {H : Type}.

Record modules := Modules { default_ : option H; modules_ : list (list byte * H); buckets : Z }.

(** [modules_.find(path)]: an element of the bucket with an equal key *)
Definition map_find (n : Z) (l : list (list byte * H)) (path : list byte) : option H :=
  snd <$> find (fun e => (modules_hash e.1 mod n =? modules_hash path mod n)
                         && modules_comp e.1 path) l.

(** [insert] may rehash: [n] is the number of buckets afterwards. *)
Definition setup_handler (n : Z) (path : option (list byte)) (mh : H) (m : modules) : modules * bool :=
  match path with
  | None => (Modules (Some mh) (modules_ m) (buckets m), true)
  | Some p =>
    match map_find (buckets m) (modules_ m) p with
    | Some _ => (m, false)
    | None => (Modules (default_ m) ((c_str p, mh) :: modules_ m) n, true)
    end
  end.

Definition match_handler (path : option (list byte)) (m : modules) : option H :=
  match path with
  | None => default_ m
  | Some p =>
    match map_find (buckets m) (modules_ m) p with
    | Some mh => Some mh
    | None => default_ m
    end
  end.

Definition list_handler (m : modules) : list H := snd <$> modules_ m.

(** ** setup: the plug-ins of a directory

    What the file system, the dynamic loader and a plug-in answer for each
    directory entry; [Throws] is an exception of the plug-in's constructor. *)
Record dir_entry := DirEntry {
  is_regular_file : bool;
  dlopen_ok : bool;
  dlsym_ok : bool;
  create_module : outcome (option (option (list byte) * H))
}.

Fixpoint setup_entries (n : Z) (l : list dir_entry) (m : modules) : outcome modules :=
  match l with
  | [] => Ok m
  | e :: l' =>
    if negb (is_regular_file e) then setup_entries n l' m
    else if negb (dlopen_ok e) then setup_entries n l' m
    else if negb (dlsym_ok e) then setup_entries n l' m
    else
      match create_module e with
      | Ok (Some (path, mh)) => setup_entries n l' (setup_handler n path mh m).1
      | Ok None => setup_entries n l' m
      | Throws (RuntimeError _) => Ok m
      | Throws ex => Throws ex
      | Crash f => Crash f
      end
  end.

(** [config_ok]: the configuration file could be read; [exists_p]: there is
    such a directory. *)
Definition modules_setup (n : Z) (config_ok exists_p : bool) (l : list dir_entry) (m : modules)
    : outcome modules :=
  if negb config_ok then Ok m else if negb exists_p then Ok m else setup_entries n l m.
End Modules.
Arguments modules H : clear implicits.
Arguments dir_entry H : clear implicits.

(** ** Lemmas *)
Definition lower (k : list byte) : list Z := (fun c => tolower (uchar c)) <$> c_str k.

Lemma tolower_nonneg c : 0 <= tolower (uchar c).
Proof. unfold tolower. pose proof (uchar_range c). zcases. Qed.

Lemma tolower_zero c : tolower (uchar c) = 0 -> c = Byte.x00.
Proof.
  intros H. apply uchar_inj. change (uchar Byte.x00) with 0. revert H. unfold tolower.
  pose proof (uchar_range c). zcases.
Qed.

Lemma toupper_lower x y :
  tolower (uchar x) = tolower (uchar y) -> toupper (schar x) = toupper (schar y).
Proof.
  unfold tolower, toupper, schar. pose proof (uchar_range x). pose proof (uchar_range y). zcases.
Qed.

Lemma c_str_c_str k : c_str (c_str k) = c_str k.
Proof. apply c_str_no_nul, no_nul_c_str. Qed.

Lemma strcasecmp_loop_zero a b :
  no_nul a -> no_nul b ->
  strcasecmp_loop a b = 0 <->
  (fun c => tolower (uchar c)) <$> a = (fun c => tolower (uchar c)) <$> b.
Proof.
  unfold no_nul. revert b. induction a as [|x a IH]; intros [|y b] Ha Hb; cbn.
  - done.
  - split; [|done]. intros Hz. exfalso. apply Hb. rewrite (tolower_zero y) by lia. set_solver.
  - split; [|done]. intros Hz. exfalso. apply Ha. rewrite (tolower_zero x) by lia. set_solver.
  - destruct (Z.eqb_spec (tolower (uchar x)) (tolower (uchar y))) as [->|Hne].
    + rewrite IH by set_solver. split; [by intros ->|by intros [=]].
    + split; [lia|by intros [=]].
Qed.

Lemma modules_comp_lower a b : modules_comp a b = true <-> lower a = lower b.
Proof.
  unfold modules_comp, strcasecmp, lower. rewrite Z.eqb_eq.
  apply strcasecmp_loop_zero; apply no_nul_c_str.
Qed.

(** Equal keys have equal hashes: what [unordered_map] asks of the two. *)
Lemma hash_comp a b : modules_comp a b = true -> modules_hash a = modules_hash b.
Proof.
  rewrite modules_comp_lower. unfold modules_hash, lower. generalize fnv_seed.
  generalize (c_str b). induction (c_str a) as [|x l IH]; intros [|y k] r; try done.
  cbn. intros [= Hxy Hlk]. unfold hash_step at 2 4. rewrite (toupper_lower x y Hxy).
  by apply IH.
Qed.

Lemma lower_c_str k : lower (c_str k) = lower k.
Proof. unfold lower. by rewrite c_str_c_str. Qed.

Section Lemmas.
Context {H : Type}.
Implicit Types (m : modules H) (l : list (list byte * H)).

Definition spec_of l : gmap (list Z) H := list_to_map ((fun e => (lower e.1, e.2)) <$> l).

Record modules_wf m : Prop := {
  mw_keys : NoDup ((fun e => lower e.1) <$> modules_ m);
  mw_nul : Forall (fun e => no_nul e.1) (modules_ m)
}.

(** The table decides by [modules_comp] alone, whatever the number of buckets. *)
Lemma map_find_spec n l path : map_find n l path = spec_of l !! lower path.
Proof.
  unfold map_find, spec_of. induction l as [|[k v] l IH]; [done|].
  cbn [find fmap list_fmap list_to_map foldr fst snd].
  destruct (modules_comp k path) eqn:E.
  - rewrite (hash_comp _ _ E), Z.eqb_refl. cbn [andb fmap option_fmap option_map snd].
    apply modules_comp_lower in E. by rewrite E, lookup_insert_eq.
  - rewrite andb_false_r, lookup_insert_ne; [done|]. intros He%modules_comp_lower. congruence.
Qed.

Lemma spec_of_None l path :
  spec_of l !! lower path = None <-> lower path ∉ (fun e => lower e.1) <$> l.
Proof.
  unfold spec_of. rewrite <- not_elem_of_list_to_map.
  by rewrite <- list_fmap_compose.
Qed.

Lemma setup_handler_wf n path mh m : modules_wf m -> modules_wf (setup_handler n path mh m).1.
Proof.
  intros [Hk Hn]. destruct path as [p|]; [|done]. cbn [setup_handler].
  rewrite map_find_spec. destruct (spec_of _ !! _) eqn:E; [done|]. apply spec_of_None in E.
  split; cbn [fst modules_ fmap list_fmap].
  - constructor; [by rewrite lower_c_str|done].
  - constructor; [apply no_nul_c_str|done].
Qed.

Lemma setup_handler_spec n p mh m :
  spec_of (modules_ (setup_handler n (Some p) mh m).1) =
    (if (setup_handler n (Some p) mh m).2 then <[lower p := mh]> (spec_of (modules_ m))
     else spec_of (modules_ m)) /\
  default_ (setup_handler n (Some p) mh m).1 = default_ m /\
  ((setup_handler n (Some p) mh m).2 = true <-> spec_of (modules_ m) !! lower p = None).
Proof.
  cbn [setup_handler]. rewrite map_find_spec.
  destruct (spec_of (modules_ m) !! lower p) eqn:E; [done|]. split_and!; [|done..].
  cbn [fst snd modules_]. unfold spec_of at 1. cbn [fmap list_fmap list_to_map foldr fst snd].
  by rewrite lower_c_str.
Qed.

Lemma setup_handler_grows n path mh m :
  spec_of (modules_ m) ⊆ spec_of (modules_ (setup_handler n path mh m).1).
Proof.
  destruct path as [p|]; [|done]. destruct (setup_handler_spec n p mh m) as (-> & _ & Hok).
  destruct (setup_handler _ _ _ _).2; [|done]. apply insert_subseteq. by apply Hok.
Qed.
End Lemmas.

(** ** Properties *)

(** C37. The handler table implements a finite map from case-folded paths: a
    registration is refused exactly when the path is taken (whatever its case),
    and otherwise extends the map; a lookup gives the handler of the path, or
    the default handler; [list_handler] lists exactly the handlers of the map,
    never the default one. *)
Theorem modules_table_correct {H} n (m : modules H) p q mh :
  modules_wf m ->
  let m' := (setup_handler n (Some p) mh m).1 in
  modules_wf m' /\ default_ m' = default_ m /\
  spec_of (modules_ m') = match spec_of (modules_ m) !! lower p with
                          | Some _ => spec_of (modules_ m)
                          | None => <[lower p := mh]> (spec_of (modules_ m))
                          end /\
  ((setup_handler n (Some p) mh m).2 = true <-> spec_of (modules_ m) !! lower p = None) /\
  match_handler (Some q) m = match spec_of (modules_ m) !! lower q with
                             | Some h => Some h
                             | None => default_ m
                             end /\
  match_handler None m = default_ m /\
  (forall h, h ∈ list_handler m <-> exists k, spec_of (modules_ m) !! k = Some h).
Proof.
  intros Hwf m'. destruct (setup_handler_spec n p mh m) as (Hs & Hd & Hok).
  split_and!; [by apply setup_handler_wf|done| |done| |done|].
  - unfold m'. rewrite Hs. destruct (spec_of (modules_ m) !! lower p) eqn:E.
    + destruct (setup_handler n (Some p) mh m).2; [|done]. by pose proof (proj1 Hok eq_refl).
    + by rewrite (proj2 Hok eq_refl).
  - cbn [match_handler]. by rewrite map_find_spec.
  - intros h. unfold list_handler. rewrite list_elem_of_fmap. split.
    + intros ([k v] & -> & Hin). exists (lower k). apply elem_of_list_to_map.
      * rewrite <- list_fmap_compose. apply (mw_keys _ Hwf).
      * apply list_elem_of_fmap. by exists (k, v).
    + intros [k Hk]. apply elem_of_list_to_map in Hk.
      * apply list_elem_of_fmap in Hk as ([k' v] & [= -> ->] & Hin). by exists (k', v).
      * rewrite <- list_fmap_compose. apply (mw_keys _ Hwf).
Qed.

Definition example_modules : modules nat :=
  (setup_handler 11 (Some (lit "/Hello")) 1%nat (Modules None [] 1)).1.
Lemma example_modules_wf : modules_wf example_modules.
Proof. apply setup_handler_wf. split; constructor. Qed.

Lemma modules_table_correct_witness :
  modules_wf example_modules /\ (setup_handler 11 (Some (lit "/HELLO")) 2%nat example_modules).2 = false /\
  match_handler (Some (lit "/hello")) example_modules = Some 1%nat.
Proof.
  split; [exact example_modules_wf|].
  destruct (modules_table_correct 11 example_modules (lit "/HELLO") (lit "/hello") 2%nat example_modules_wf)
    as (_ & _ & _ & Hok & Hm & _).
  split; [|rewrite Hm; vm_compute; reflexivity].
  destruct (setup_handler _ _ _ _).2; [|reflexivity].
  pose proof (proj1 Hok eq_refl) as E. vm_compute in E. discriminate E.
Defined.

(** Loading the plug-in directory only adds handlers: every handler
    registered before keeps its path, the table stays well-formed, and an
    unreadable configuration, a missing directory or a plug-in whose
    constructor raises [runtime_error] never makes [setup] raise it. *)
Theorem modules_setup_correct {H} n config_ok exists_p (l : list (dir_entry H)) m :
  modules_wf m ->
  match modules_setup n config_ok exists_p l m with
  | Ok m' => modules_wf m' /\ spec_of (modules_ m) ⊆ spec_of (modules_ m') /\
             (config_ok && exists_p = false -> m' = m)
  | Throws (RuntimeError _) => False
  | _ => True
  end.
Proof.
  intros Hwf. unfold modules_setup.
  destruct config_ok; [|done]. destruct exists_p; [|done]. cbn [negb].
  assert (match setup_entries n l m with
    | Ok m' => modules_wf m' /\ spec_of (modules_ m) ⊆ spec_of (modules_ m')
    | Throws (RuntimeError _) => False
    | _ => True
    end) as Hx; [|by destruct (setup_entries n l m) as [|[]|]; naive_solver].
  revert m Hwf. induction l as [|e l IH]; intros m Hwf; [done|]. cbn [setup_entries].
  destruct (is_regular_file e); [|by apply IH]. destruct (dlopen_ok e); [|by apply IH].
  destruct (dlsym_ok e); [|by apply IH]. cbn [negb].
  destruct (create_module e) as [[[path mh]|]|[]|]; try done; [|by apply IH].
  pose proof (IH _ (setup_handler_wf n path mh m Hwf)) as Hn.
  destruct (setup_entries n l _) as [m'|[]|]; try done. destruct Hn as [? Hs].
  split; [done|]. etrans; [apply (setup_handler_grows n path mh)|done].
Qed.

Lemma modules_setup_correct_witness :
  match modules_setup 11 true true [DirEntry true true true (Ok (Some (Some (lit "/x"), 7%nat)))]
          example_modules with
  | Ok m' => modules_wf m' | _ => True
  end.
Proof.
  pose proof (modules_setup_correct 11 true true
    [DirEntry true true true (Ok (Some (Some (lit "/x"), 7%nat)))] example_modules example_modules_wf) as Hs.
  destruct (modules_setup _ _ _ _ _) as [m'| |]; [exact (proj1 Hs)|exact I|exact I].
Defined.

(** The connection looks a handler up by [url().path.data()], which is not
    terminated at the end of the path: with a query the key is the path, [?]
    and the rest of the URL, so a module registered for the path is not found
    and the default handler answers. *)
Theorem query_misses_handler {HP} `{HttpParser HP} {M} (m : modules M) (r : http_request HP) p rest :
  modules_wf m -> Forall (fun e => Byte.x3f ∉ e.1) (modules_ m) ->
  no_nul (p ++ [Byte.x3f] ++ rest) -> strurl_ r = p ++ [Byte.x3f] ++ rest ->
  path (decurl_ r) = slice_new 0 (vlen p) ->
  match_handler (path_c_str r) m = default_ m.
Proof.
  intros Hwf Hq Hn Hu Hp. unfold path_c_str. rewrite Hp, Hu. cbn [slice_data slice_new buf_ fmap option_fmap option_map].
  change (Z.to_nat 0) with 0%nat. rewrite drop_0, c_str_no_nul by done. cbn [match_handler].
  rewrite map_find_spec. destruct (spec_of _ !! _) as [h|] eqn:E; [|done]. exfalso.
  apply elem_of_list_to_map in E; [|rewrite <- list_fmap_compose; apply (mw_keys _ Hwf)].
  apply list_elem_of_fmap in E as ([k v] & [= Hk _] & Hin).
  rewrite Forall_forall in Hq. apply (Hq _ Hin). cbn.
  assert (no_nul k) as Hkn by (pose proof (mw_nul _ Hwf) as Hm; rewrite Forall_forall in Hm; by apply (Hm _ Hin)).
  unfold lower in Hk. rewrite !c_str_no_nul in Hk by done.
  assert (63 ∈ (fun c => tolower (uchar c)) <$> k) as H63.
  { rewrite <- Hk, fmap_app. apply elem_of_app. right. cbn. left. }
  apply list_elem_of_fmap in H63 as (c & Hc & Hin').
  assert (c = Byte.x3f) as ->; [|done]. apply uchar_inj. change (uchar Byte.x3f) with 63.
  revert Hc. unfold tolower. pose proof (uchar_range c). zcases.
Qed.

Definition hello_request : http_request http_errno :=
  HttpRequest HPE_OK (lit "/hello?x=1")
    (ParsedUrl 0 slice_null slice_null slice_null (slice_new 0 6) (slice_new 7 3) slice_null slice_null)
    [] [] 0 true false true.

Lemma query_misses_handler_witness :
  match_handler (Some (lit "/hello")) example_modules = Some 1%nat /\
  match_handler (path_c_str hello_request) example_modules = default_ example_modules.
Proof.
  split; [vm_compute; reflexivity|].
  apply (query_misses_handler example_modules hello_request (lit "/hello") (lit "x=1"));
    [exact example_modules_wf| | |reflexivity|reflexivity].
  - apply Forall_singleton. change (Byte.x3f ∉ lit "/Hello").
    refine (bool_decide_unpack _ _). vm_compute. exact I.
  - change (Byte.x00 ∉ lit "/hello?x=1"). refine (bool_decide_unpack _ _). vm_compute. exact I.
Defined.
