(* ===== verification/Builtin.v ===== *)
(** * The modules shipped with the server (src/src/modules/hello, default and redis)

    Each answers a request with a small page: status line, connection and type
    headers, the body through [printf], then [Content-Length] and the end of the
    header.  Of the redis module here are its routing of commands and its
    page, with the replies as arguments; Redis has the rest. *)
From S2P Require Import Prelude Iobuf Stdio Errors Request Codec Response Modules.

Section Pages.
Context {A : Type} `{BufAlloc A, VecGrow, Errno} {HP : Type} `{HttpParser HP}.
Implicit Types (a : A) (st : gmap Z iobuf) (r : http_response) (req : http_request HP).

(** What a callback changes through [rsp]: the pool, the buffers, the response *)
Definition rsp_state : Type := A * gmap Z iobuf * http_response.

Definition hello_on_request_header (t : tm) req (s : rsp_state) : outcome rsp_state :=
  let '(a, st, r) := s in
  '(r, st) ← status t 200 (lit "OK") r st;
  '(r, st) ← keep_alive (Request.keep_alive req) r st;
  '(r, st) ← content_type (Some (lit "text/html")) None r st;
  '(a, st, r, n) ← printf (Some (lit "<html>world!</html>" ++ CRLF)) r a st;
  '(r, st) ← header_fmt (lit "Content-Length") (Some (dec n)) r st;
  '(r, st) ← eom r st;
  Ok (a, st, r).

Definition default_on_request_header (t : tm) req (s : rsp_state) : outcome rsp_state :=
  let '(a, st, r) := s in
  '(r, st) ← status t 404 (lit "Not Found") r st;
  '(r, st) ← keep_alive (Request.keep_alive req) r st;
  '(r, st) ← content_type (Some (lit "text/html")) None r st;
  '(a, st, r, n) ← printf (Some (lit "<html><body><h1>Not Found</h1></body></html>" ++ CRLF)) r a st;
  '(r, st) ← header_fmt (lit "Content-Length") (Some (dec n)) r st;
  '(r, st) ← eom r st;
  Ok (a, st, r).

Definition hello_module (W : Type) (t : tm) : module_handler W (http_request HP) rsp_state :=
  ModuleHandler HE_REQUEST_HDR (Some (lit "/hello")) (lit "hello")
    id id (fun _ => id) (fun _ => id)
    (fun _ _ req s => hello_on_request_header t req s) (fun _ _ _ s => Ok s).

Definition default_module (W : Type) (t : tm) : module_handler W (http_request HP) rsp_state :=
  ModuleHandler HE_REQUEST_HDR None (lit "default")
    id id (fun _ => id) (fun _ => id)
    (fun _ _ req s => default_on_request_header t req s) (fun _ _ _ s => Ok s).

(** ** redis *)
Record endpoint := Endpoint { ep_host : list byte; ep_port : Z }.
Record command := Command { cmd_cid : Z; cmd_cmd : list (list byte) }.

(** A [redisReply] as the page prints it; [str] is null in a reply that carries
    no string. *)
Record redis_reply := RedisReply { rr_type : Z; rr_integer : Z; rr_str : option (list byte) }.
Definition reply_str (x : redis_reply) : outcome (list byte) :=
  match rr_str x with Some s => Ok (c_str s) | None => Crash NullDereference end.

(** [%lu_%u] of the two numbers *)
Definition redis_key (cid tid : Z) : list byte := dec (u64 cid) ++ lit "_" ++ dec (u32 tid).
Definition redis_command (cid tid : Z) : command :=
  Command cid
    [snprintf_text 128 (lit "SET key_" ++ redis_key cid tid ++ lit " " ++ redis_key cid tid);
     snprintf_text 128 (lit "GET key_" ++ redis_key cid tid)].

(** [cid % config_.size()]: the signed id is converted to [size_t] first. *)
Definition redis_server (cid : Z) (config : list endpoint) : option Z :=
  if 0 <? vlen config then Some (i32 (u64 cid mod vlen config)) else None.

Definition reply_text (rr : option redis_reply) : outcome (list byte) :=
  match rr with
  | None => Ok (lit "<html>null reply</html>" ++ CRLF)
  | Some x =>
    s ← reply_str x;
    Ok (lit "<html>" ++ dec (rr_type x) ++ lit ", " ++ dec (rr_integer x) ++ lit ", " ++ s ++
        lit "</html>" ++ CRLF)
  end.

Definition same_text (cid tid : Z) (x : redis_reply) : outcome (list byte) :=
  s ← reply_str x;
  Ok (if bool_decide (snprintf_text 128 (redis_key cid tid) = s)
      then lit "<html>same</html>" ++ CRLF else lit "<html>not same</html>" ++ CRLF).

Definition redis_on_request_header (t : tm) (cid tid : Z) (r1 r2 : option redis_reply) req
    (s : rsp_state) : outcome rsp_state :=
  let '(a, st, r) := s in
  '(r, st) ← status t 200 (lit "OK") r st;
  '(r, st) ← keep_alive (Request.keep_alive req) r st;
  '(r, st) ← content_type (Some (lit "text/html")) None r st;
  text1 ← reply_text r1;
  '(a, st, r, n) ← printf (Some text1) r a st;
  text2 ← reply_text r2;
  '(a, st, r, k) ← printf (Some text2) r a st;
  n ← add_int n k;
  '(a, st, r, n) ←
    match r2 with
    | None => Ok (a, st, r, n)
    | Some x =>
      text3 ← same_text cid tid x;
      '(a, st, r, k) ← printf (Some text3) r a st;
      n ← add_int n k;
      Ok (a, st, r, n)
    end;
  '(r, st) ← header_fmt (lit "Content-Length") (Some (dec n)) r st;
  '(r, st) ← eom r st;
  Ok (a, st, r).
End Pages.

Definition redis_events : Z :=
  Z.lor (Z.lor (Z.lor (Z.lor HE_REQUEST_HDR HE_PROCESS_INIT) HE_PROCESS_EXIT) HE_CONNECT_INIT)
    HE_CONNECT_EXIT.

(** The reply channels, one per open connection *)
Definition redis_on_connect_init {C} (fresh : C) (cid : Z) (chans : gmap Z C) : gmap Z C :=
  <[cid := fresh]> chans.
Definition redis_on_connect_exit {C} (cid : Z) (chans : gmap Z C) : gmap Z C := delete cid chans.

(** ** Lemmas: the page all three build *)
Section Lemmas.
Context {A : Type} `{BufAlloc A, VecGrow, Errno}.
Implicit Types (a : A) (st : gmap Z iobuf) (r : http_response).

(** Header at [lh], body at [lb] *)
Record rsp_at r st (lh lb : Z) (ioh iob : iobuf) : Prop := {
  ra_header : header_in r st lh ioh;
  ra_body : body_in r st lb iob;
  ra_ne : lh <> lb
}.

(** What has been added since: texts to header and body, nothing elsewhere *)
Record grown st st' (lh lb : Z) (ioh iob ioh' iob' : iobuf) (th tb : list byte) : Prop := {
  gr_header : appended ioh ioh' th;
  gr_body : appended iob iob' tb;
  gr_else : forall x, x <> lh -> x <> lb -> st' !! x = st !! x
}.

Definition same_vecs r r' : Prop := header_ r' = header_ r /\ body_ r' = body_ r.

Lemma grown_trans st1 st2 st3 lh lb h1 b1 h2 b2 h3 b3 th tb uh ub :
  grown st1 st2 lh lb h1 b1 h2 b2 th tb -> grown st2 st3 lh lb h2 b2 h3 b3 uh ub ->
  grown st1 st3 lh lb h1 b1 h3 b3 (th ++ uh) (tb ++ ub).
Proof.
  intros [? ? E1] [? ? E2]. split; [by eapply appended_trans..|].
  intros x Hh Hb. by rewrite E2, E1.
Qed.

Lemma appended_nil io : iobuf_wf io -> appended io io [].
Proof. split; [done..|by rewrite app_nil_r|unfold vlen; cbn; lia]. Qed.

Lemma page_call c r st lh lb ioh iob u :
  rsp_at r st lh lb ioh iob -> call_allowed c r = true ->
  header_call_text c = Ok u -> vlen u < iobuf_get_w_available ioh ->
  exists st' ioh', run_header_call c r st = Ok (call_flags c r, st') /\
    rsp_at (call_flags c r) st' lh lb ioh' iob /\ same_vecs r (call_flags c r) /\
    grown st st' lh lb ioh iob ioh' iob u [] /\
    iobuf_get_w_available ioh' = iobuf_get_w_available ioh - vlen u.
Proof.
  intros [Hh (Hb & Hbl & Hbw) Hne] Hok Ht Hu.
  destruct (header_call_spec c r st lh ioh u Hh Hok Ht Hu) as (ioh' & -> & Ha).
  do 2 eexists. split; [done|]. split_and!; [|by destruct c| |apply Ha].
  - split; [|split_and!; [by destruct c|by rewrite lookup_insert_ne|done]|done].
    destruct Hh as (Hl & _). split_and!; [by destruct c|by rewrite lookup_insert_eq|apply Ha].
  - split; [done|by apply appended_nil|]. intros x Hx _. by rewrite lookup_insert_ne.
Qed.

Lemma page_printf a r st lh lb ioh iob t :
  rsp_at r st lh lb ioh iob -> vlen t < iobuf_get_w_available iob ->
  exists st' iob', printf (Some t) r a st = Ok (a, st', r, vlen t) /\
    rsp_at r st' lh lb ioh iob' /\ grown st st' lh lb ioh iob ioh iob' [] t /\
    iobuf_get_w_available iob' = iobuf_get_w_available iob - vlen t.
Proof.
  intros [(Hh & Hhl & Hhw) Hb Hne] Hu.
  destruct (printf_fits r a st lb iob t Hb Hu) as (iob' & -> & Ha).
  do 2 eexists. split; [done|]. split_and!; [| |apply Ha].
  - destruct Hb as (Hl & _). split; [split_and!; [done|by rewrite lookup_insert_ne|done]| |done].
    split_and!; [done|by rewrite lookup_insert_eq|apply Ha].
  - split; [by apply appended_nil|done|]. intros x _ Hx. by rewrite lookup_insert_ne.
Qed.
End Lemmas.

(** The header of a page, and what a client reads from it *)
Definition page_header (t : tm) (code : Z) (message : list byte) (alive : bool) (n : Z)
    : outcome (list byte) :=
  header_calls_text [CStatus t code message; CKeepAlive alive;
    CContentType (Some (lit "text/html")) None; CHeaderFmt (lit "Content-Length") (dec n); CEom].

Lemma page_header_end t code message alive n th :
  page_header t code message alive n = Ok th ->
  exists front, th = front ++ lit "Content-Length: " ++ dec n ++ CRLF ++ CRLF.
Proof.
  intros Hth. unfold page_header in Hth. cbn [header_calls_text] in Hth.
  apply bind_Ok in Hth as (u1 & _ & Hth). apply bind_Ok in Hth as (v1 & Hth & [= <-]).
  apply bind_Ok in Hth as (u2 & _ & Hth). apply bind_Ok in Hth as (v2 & Hth & [= <-]).
  apply bind_Ok in Hth as (u3 & _ & Hth). apply bind_Ok in Hth as (v3 & Hth & [= <-]).
  exists (u1 ++ u2 ++ u3). apply bind_Ok in Hth as (u4 & E4 & Hth).
  apply bind_Ok in Hth as (v4 & Hth & E). injection E as <-. cbn [header_call_text] in E4, Hth.
  assert (u4 = field_text (lit "Content-Length") (dec n)) as -> by congruence.
  assert (v4 = CRLF ++ []) as -> by (cbn [mbind outcome_bind] in Hth; congruence).
  unfold field_text. change (c_str (lit "Content-Length")) with (lit "Content-Length").
  change (lit "Content-Length: ") with (lit "Content-Length" ++ lit ": ").
  by rewrite app_nil_r, <- !app_assoc.
Qed.

(** The callbacks of [hello] and [default] are this function. *)
Definition page {A} `{BufAlloc A, VecGrow, Errno} (code : Z) (message text : list byte) (t : tm)
    (alive : bool) (s : rsp_state (A := A)) : outcome rsp_state :=
  let '(a, st, r) := s in
  '(r, st) ← status t code message r st;
  '(r, st) ← keep_alive alive r st;
  '(r, st) ← content_type (Some (lit "text/html")) None r st;
  '(a, st, r, n) ← printf (Some text) r a st;
  '(r, st) ← header_fmt (lit "Content-Length") (Some (dec n)) r st;
  '(r, st) ← eom r st;
  Ok (a, st, r).

Lemma page_spec {A} `{BufAlloc A, VecGrow, Errno} code message text t alive (a : A) st r lh lb ioh iob th :
  rsp_at r st lh lb ioh iob -> code <> -1 ->
  page_header t code message alive (vlen text) = Ok th ->
  vlen th < iobuf_get_w_available ioh -> vlen text < iobuf_get_w_available iob ->
  exists st' r' ioh' iob', page code message text t alive (a, st, r) = Ok (a, st', r') /\
    rsp_at r' st' lh lb ioh' iob' /\ grown st st' lh lb ioh iob ioh' iob' th text /\
    same_vecs r r' /\ status_ r' = code /\ is_alive r' = alive /\ iseom r' = true.
Proof.
  intros Hat Hcode Hth Hh Hb. unfold page_header in Hth. cbn [header_calls_text] in Hth.
  apply bind_Ok in Hth as (u1 & E1 & Hth). apply bind_Ok in Hth as (v1 & Hth & [= <-]).
  apply bind_Ok in Hth as (u2 & E2 & Hth). apply bind_Ok in Hth as (v2 & Hth & [= <-]).
  apply bind_Ok in Hth as (u3 & E3 & Hth). apply bind_Ok in Hth as (v3 & Hth & [= <-]).
  apply bind_Ok in Hth as (u4 & E4 & Hth). apply bind_Ok in Hth as (v4 & Hth & [= <-]).
  apply bind_Ok in Hth as (u5 & E5 & Hth). apply bind_Ok in Hth as (v5 & [= <-] & [= <-]).
  rewrite !vlen_app in Hh. change (vlen (A := byte) []) with 0 in Hh.
  pose proof (vlen_nonneg u1). pose proof (vlen_nonneg u2). pose proof (vlen_nonneg u3).
  pose proof (vlen_nonneg u4). pose proof (vlen_nonneg u5).
  assert ((code =? -1) = false) as Hc by lia.
  unfold page.
  destruct (page_call (CStatus t code message) r st lh lb ioh iob u1)
    as (st1 & ioh1 & X1 & Hat1 & Hv1 & Hg1 & Hr1); [done|cbn; by rewrite Hc|done|lia|].
  cbn [run_header_call] in X1. rewrite X1. run.
  destruct (page_call (CKeepAlive alive) (call_flags (CStatus t code message) r) st1 lh lb ioh1 iob u2)
    as (st2 & ioh2 & X2 & Hat2 & Hv2 & Hg2 & Hr2); [done|cbn; by rewrite Hc|done|lia|].
  cbn [run_header_call] in X2. rewrite X2. run.
  set (r2 := call_flags (CKeepAlive alive) _) in *.
  destruct (page_call (CContentType (Some (lit "text/html")) None) r2 st2 lh lb ioh2 iob u3)
    as (st3 & ioh3 & X3 & Hat3 & Hv3 & Hg3 & Hr3); [done|cbn; by rewrite Hc|done|lia|].
  cbn [run_header_call] in X3. rewrite X3. cbn [call_flags] in *. run.
  destruct (page_printf a r2 st3 lh lb ioh3 iob text) as (st4 & iob4 & -> & Hat4 & Hg4 & Hr4);
    [done|lia|]. run.
  destruct (page_call (CHeaderFmt (lit "Content-Length") (dec (vlen text))) r2 st4 lh lb ioh3 iob4 u4)
    as (st5 & ioh5 & X5 & Hat5 & Hv5 & Hg5 & Hr5); [done|cbn; by rewrite Hc|done|lia|].
  cbn [run_header_call] in X5. rewrite X5. cbn [call_flags] in *. run.
  destruct (page_call CEom r2 st5 lh lb ioh5 iob4 u5)
    as (st6 & ioh6 & X6 & Hat6 & Hv6 & Hg6 & Hr6); [done|done|done|lia|].
  cbn [run_header_call] in X6. rewrite X6. run.
  exists st6, (call_flags CEom r2), ioh6, iob4. split; [done|]. split; [done|].
  split_and!.
  - pose proof (grown_trans _ _ _ _ _ _ _ _ _ _ _ _ _ _ _ Hg1 (grown_trans _ _ _ _ _ _ _ _ _ _ _ _ _ _ _ Hg2
      (grown_trans _ _ _ _ _ _ _ _ _ _ _ _ _ _ _ Hg3 (grown_trans _ _ _ _ _ _ _ _ _ _ _ _ _ _ _ Hg4
      (grown_trans _ _ _ _ _ _ _ _ _ _ _ _ _ _ _ Hg5 Hg6))))) as Hg.
    cbn [app] in Hg. rewrite ?app_nil_r in Hg. by rewrite ?app_nil_r.
  - split; [by destruct Hv1, Hv2|by destruct Hv1, Hv2].
  - done.
  - cbn. unfold is_alive. by destruct alive.
  - done.
Qed.

(** ** Properties *)

(** The answer of the [hello] and the [default] module to a request, on
    buffers with room for it: status 200 or 404, the request's keep-alive, one
    header block ended by an empty line whose [Content-Length] reads back as the
    length of the body, and the page as the whole body; nothing else changes. *)
Theorem builtin_page_correct {A} `{BufAlloc A, VecGrow, Errno} {HP} `{HttpParser HP}
    (hello : bool) t (req : http_request HP) (a : A) st r lh lb ioh iob th :
  let code := if hello then 200 else 404 in
  let message := if hello then lit "OK" else lit "Not Found" in
  let text := if hello then lit "<html>world!</html>" ++ CRLF
              else lit "<html><body><h1>Not Found</h1></body></html>" ++ CRLF in
  rsp_at r st lh lb ioh iob -> iobuf_data ioh = [] -> iobuf_data iob = [] ->
  page_header t code message (Request.keep_alive req) (vlen text) = Ok th ->
  vlen th < iobuf_get_w_available ioh -> vlen text < iobuf_get_w_available iob ->
  exists st' r' ioh' iob',
    (if hello then hello_on_request_header else default_on_request_header) t req (a, st, r)
      = Ok (a, st', r') /\
    rsp_at r' st' lh lb ioh' iob' /\ same_vecs r r' /\
    iobuf_data ioh' = th /\ iobuf_data iob' = text /\
    (exists front, th = front ++ lit "Content-Length: " ++ dec (vlen text) ++ CRLF ++ CRLF) /\
    read_digits (dec (vlen text)) = vlen (iobuf_data iob') /\
    status_ r' = code /\ is_alive r' = Request.keep_alive req /\
    (forall x, x <> lh -> x <> lb -> st' !! x = st !! x).
Proof.
  intros code message text Hat Hdh Hdb Hth Hh Hb.
  destruct (page_spec code message text t (Request.keep_alive req) a st r lh lb ioh iob th)
    as (st' & r' & ioh' & iob' & E & Hat' & [[_ _ Hh' _] [_ _ Hb' _] Helse] & Hv & Hs & Hal & _);
    [done|by subst code; destruct hello|done..|].
  rewrite Hdh in Hh'. rewrite Hdb in Hb'. cbn [app] in *.
  exists st', r', ioh', iob'. split; [by subst code message text; destruct hello|].
  split_and!; try done.
  - by apply page_header_end in Hth.
  - rewrite Hb'. apply read_dec. subst text. destruct hello; vm_compute; intuition congruence.
Qed.

#[local] Instance example_errno : Errno := sample_errno.

Lemma example_rsp_at n code : 0 <= n < 2 ^ 31 ->
  rsp_at (example_response code) (example_store n) 1 2 (blank n) (blank n).
Proof. intros. split; [by apply example_header|by apply example_body|done]. Qed.

Lemma builtin_page_correct_witness :
  exists st' r' iob' th,
    hello_on_request_header example_tm toy_new (example_alloc 512, example_store 512, example_response (-1))
      = Ok (example_alloc 512, st', r') /\
    page_header example_tm 200 (lit "OK") true 21 = Ok th /\ th <> [] /\
    iobuf_data iob' = lit "<html>world!</html>" ++ CRLF.
Proof.
  destruct (builtin_page_correct (A := bump) (HP := http_errno) true example_tm toy_new (example_alloc 512)
    (example_store 512) (example_response (-1)) 1 2 (blank 512) (blank 512)
    (match page_header example_tm 200 (lit "OK") true 21 with Ok th => th | _ => [] end))
    as (st' & r' & ioh' & iob' & H1 & _ & _ & _ & H2 & _);
    [apply example_rsp_at; lia|vm_compute; reflexivity..|].
  exists st', r', iob'. eexists. split; [exact H1|]. split; [vm_compute; reflexivity|].
  split; [discriminate|exact H2].
Defined.
