(* ===== verification/Server.v ===== *)
(** * Connections (class http_connection, src/src/server.hpp and server.cpp)

    A connection reads into the buffers of [reqbuf], feeds them to the codec,
    calls the module of the request's path and writes the response.  Its socket is
    Boost.Asio's and its timers are libgo's; neither is in the repository, so they
    are the classes [Trans] and [TimerLib].  Both waiting loops of
    [process_request] have the same body, [recv_loop], with the flag they wait for
    and their limit.  Log messages and the durations of timers are left out; [trans_]
    is never null. *)
From S2P Require Import Prelude Iobuf Stdio Errors Request Codec Response Modules Builtin.

(** ** The socket

    A read is given the room in the buffer, and gives bytes and an error code (0 for
    none); a write gives a count and a code; the others may throw. *)
Class Trans (SK : Type) := {
  trans_read_some : Z -> SK -> list byte * Z * SK;
  trans_write : list (list byte) -> SK -> Z * Z * SK;
  trans_shutdown : SK -> outcome unit * SK;
  trans_close : SK -> outcome unit * SK;
  trans_remote_endpoint : SK -> outcome unit
}.

Definition may_fail (r : outcome unit) : Prop :=
  match r with Ok _ | Throws (SystemError _) => True | _ => False end.

(** What the documentation of [read_some], [write] and the others says, with the
    bytes that the peer has been sent *)
Class TransLaws (SK : Type) `{Trans SK} := {
  delivered : SK -> list byte;
  read_gives room s data s' : 0 < room -> trans_read_some room s = (data, 0, s') -> 0 < vlen data <= room;
  read_delivers room s data ec s' : trans_read_some room s = (data, ec, s') -> delivered s' = delivered s;
  write_delivers bufs s n ec s' : trans_write bufs s = (n, ec, s') ->
    0 <= n <= vlen (concat bufs) /\ (ec = 0 -> n = vlen (concat bufs)) /\
    delivered s' = delivered s ++ take (Z.to_nat n) (concat bufs);
  shutdown_throws s : may_fail (trans_shutdown s).1;
  close_throws s : may_fail (trans_close s).1;
  endpoint_throws s : may_fail (trans_remote_endpoint s)
}.

(** ** The timers of libgo: an identifier is an object, which is not made twice. *)
Class TimerLib (TM : Type) := {
  co_timer_add : TM -> Z * TM;
  co_timer_cancel : Z -> TM -> TM;
  timer_fires : Z -> TM -> TM -> Prop
}.
Class TimerLaws (TM : Type) `{TimerLib TM} := {
  armed : TM -> gset Z;
  issued : TM -> gset Z;
  armed_issued l : armed l ⊆ issued l;
  add_timer l i l' : co_timer_add l = (i, l') ->
    i ∉ issued l /\ issued l' = {[i]} ∪ issued l /\ armed l' = {[i]} ∪ armed l;
  cancel_timer i l : armed (co_timer_cancel i l) = armed l ∖ {[i]} /\ issued (co_timer_cancel i l) = issued l;
  fire_timer i l l' : timer_fires i l l' -> i ∈ armed l /\ armed l' = armed l ∖ {[i]} /\ issued l' = issued l
}.

Section Connection.
Context {A : Type} `{BufAlloc A, VecGrow, Errno}.
Context {HP : Type} `{HttpParser HP, !HttpExecute HP, HttpParseUrl, FieldSort}.
Context {SK : Type} `{Trans SK} {TM : Type} `{TimerLib TM} {W : Type}.

Definition handler_t : Type := module_handler W (http_request HP) (rsp_state (A := A)).

(** The members of [option_] a connection reads *)
Record conn_options := ConnOptions {
  max_header_size : Z;
  max_body_size : Z;
  timer_life_set : bool;
  handlers : modules handler_t
}.

(** ** Timers *)
Record timers := Timers { timer_idle_ : option Z; timer_life_ : option Z }.

Definition cancel_set (id : option Z) (l : TM) : TM :=
  match id with Some i => co_timer_cancel i l | None => l end.

Definition pause_timer (t : timers) (l : TM) : TM := cancel_set (timer_idle_ t) l.

Definition start_timer (t : timers) (l : TM) : timers * TM :=
  let l := pause_timer t l in
  let '(i, l) := co_timer_add l in
  (Timers (Some i) (timer_life_ t), l).

Definition clear_timer (t : timers) (l : TM) : timers * TM :=
  let l := cancel_set (timer_idle_ t) l in
  let t := Timers None (timer_life_ t) in
  let l := cancel_set (timer_life_ t) l in
  (Timers None None, l).

(** The timer part of the constructor *)
Definition timers_new (life_set : bool) (l : TM) : timers * TM :=
  if life_set then let '(i, l) := co_timer_add l in (Timers None (Some i), l) else (Timers None None, l).

(** The callbacks: when [shutdown] throws, the identifier is not reset and the
    exception goes to the library. *)
Definition on_idle_expired (t : timers) (s : SK) : outcome unit * timers * SK :=
  match trans_shutdown s with
  | (Ok _, s) => (Ok tt, Timers None (timer_life_ t), s)
  | (Throws e, s) => (Throws e, t, s)
  | (Crash f, s) => (Crash f, t, s)
  end.
Definition on_life_expired (t : timers) (s : SK) : outcome unit * timers * SK :=
  match trans_shutdown s with
  | (Ok _, s) => (Ok tt, Timers (timer_idle_ t) None, s)
  | (Throws e, s) => (Throws e, t, s)
  | (Crash f, s) => (Crash f, t, s)
  end.

(** ** A connection *)
Record conn := Conn {
  c_alloc : A;
  c_store : gmap Z iobuf;
  c_buf : list Z;
  c_sock : SK;
  c_timers : timers;
  c_lib : TM
}.

Definition with_timers (c : conn) (t : timers) (l : TM) : conn :=
  Conn (c_alloc c) (c_store c) (c_buf c) (c_sock c) t l.



(** ** process_request *)











(** ** parse *)




(** ** Constructor and destructor: the modules hear of the connection. *)
Definition notify (flag : Z) (f : handler_t -> W -> W) (m : modules handler_t) (w : W) : W :=
  fold_left (fun w h => if wants (handle_events h) flag then f h w else w) (list_handler m) w.

Definition tell_init (opt : conn_options) (connid : Z) (w : W) : W :=
  notify HE_CONNECT_INIT (fun h => on_connect_init h connid) (handlers opt) w.

(** The modules have been told when [remote_endpoint] throws. *)
Definition http_connection_new (opt : conn_options) (connid : Z) (s : SK) (l : TM) (w : W)
    : outcome timers * TM * W :=
  let w := tell_init opt connid w in
  match trans_remote_endpoint s with
  | Ok _ => let '(t, l) := timers_new (timer_life_set opt) l in (Ok t, l, w)
  | Throws e => (Throws e, l, w)
  | Crash f => (Crash f, l, w)
  end.


(** ** http_service *)

(** The [while(run_)] loop of [start] over the results of its [accept]s: the
    identifiers of the connections it starts, [connection_id | conid] with
    [conid] a [uint32_t] counter. *)
Fixpoint service_loop (pid conid : Z) (accepts : list bool) : list Z :=
  match accepts with
  | [] => []
  | ok :: l =>
    if ok then
      let conid := u32 (conid + 1) in
      Z.lor (u64 (Z.shiftl pid 32)) conid :: service_loop pid conid l
    else service_loop pid conid l
  end.

Definition service_init (m : modules handler_t) (w : W) : W :=
  notify HE_PROCESS_INIT on_process_init m w.
(** The source tests [HE_PROCESS_INIT] here as well. *)
Definition service_exit (m : modules handler_t) (w : W) : W :=
  notify HE_PROCESS_INIT on_process_exit m w.
End Connection.

(** ** Timers among those of other connections *)
Section TimerSteps.
Context {SK : Type} `{Trans SK} {TM : Type} `{TimerLaws TM}.

Record timer_state := TimerState { ts_own : timers; ts_lib : TM; ts_sock : SK; ts_others : gset Z }.

(** The object's own calls, its expiries, and what other objects do *)
Inductive timer_step : timer_state -> timer_state -> Prop :=
  | step_start t l s o t' l' :
      start_timer t l = (t', l') -> timer_step (TimerState t l s o) (TimerState t' l' s o)
  | step_pause t l s o : timer_step (TimerState t l s o) (TimerState t (pause_timer t l) s o)
  | step_idle t l s o i l' r t' s' :
      timer_idle_ t = Some i -> timer_fires i l l' -> on_idle_expired t s = (r, t', s') ->
      timer_step (TimerState t l s o) (TimerState t' l' s' o)
  | step_life t l s o i l' r t' s' :
      timer_life_ t = Some i -> timer_fires i l l' -> on_life_expired t s = (r, t', s') ->
      timer_step (TimerState t l s o) (TimerState t' l' s' o)
  | step_other_adds t l s o i l' :
      co_timer_add l = (i, l') -> timer_step (TimerState t l s o) (TimerState t l' s ({[i]} ∪ o))
  | step_other_cancels t l s o i :
      i ∈ o -> timer_step (TimerState t l s o) (TimerState t (co_timer_cancel i l) s (o ∖ {[i]}))
  | step_other_fires t l s o i l' :
      i ∈ o -> timer_fires i l l' -> timer_step (TimerState t l s o) (TimerState t l' s (o ∖ {[i]}))
  | step_socket t l s o s' : timer_step (TimerState t l s o) (TimerState t l s' o).
End TimerSteps.

(** ** Lemmas: timers *)
Section TimerLemmas.
Context {SK : Type} `{Trans SK} {TM : Type} `{TimerLaws TM}.
Implicit Types (t : timers) (l : TM) (o : gset Z).

Definition owns t (i : Z) : Prop := timer_idle_ t = Some i \/ timer_life_ t = Some i.

(** Armed are the timers of others, and perhaps the two the connection knows of. *)
Record timers_ok o t l : Prop := {
  tk_armed i : i ∈ armed l -> owns t i \/ i ∈ o;
  tk_others i : i ∈ o -> i ∈ armed l;
  tk_own i : owns t i -> i ∉ o;
  tk_issued i : owns t i -> i ∈ issued l;
  tk_two i : timer_idle_ t = Some i -> timer_life_ t <> Some i
}.

Lemma armed_cancel i l j : j ∈ armed (cancel_set i l) <-> j ∈ armed l /\ i <> Some j.
Proof.
  destruct i as [i|]; cbn; [|naive_solver]. destruct (cancel_timer i l) as [-> _]. set_solver.
Qed.
Lemma issued_cancel i l : issued (cancel_set i l) = issued l.
Proof. destruct i as [i|]; cbn; [apply cancel_timer|done]. Qed.
Lemma armed_add l i l' j : co_timer_add l = (i, l') -> j ∈ armed l' <-> j = i \/ j ∈ armed l.
Proof. intros E. destruct (add_timer _ _ _ E) as (_ & _ & ->). set_solver. Qed.
Lemma issued_add l i l' j : co_timer_add l = (i, l') -> j ∈ issued l' <-> j = i \/ j ∈ issued l.
Proof. intros E. destruct (add_timer _ _ _ E) as (_ & -> & _). set_solver. Qed.
Lemma new_timer l i l' : co_timer_add l = (i, l') -> i ∉ issued l /\ i ∉ armed l.
Proof. intros E. destruct (add_timer _ _ _ E) as (Hi & _). pose proof (armed_issued l). set_solver. Qed.
Lemma armed_fire i l l' j : timer_fires i l l' -> j ∈ armed l' <-> j ∈ armed l /\ i <> j.
Proof. intros E. destruct (fire_timer _ _ _ E) as (_ & -> & _). set_solver. Qed.

Lemma pause_ok o t l : timers_ok o t l -> timers_ok o t (pause_timer t l).
Proof.
  intros [Ha Ho Hd Hi Ht]. unfold pause_timer. split; try done; intros i; rewrite ?issued_cancel; try auto.
  - rewrite armed_cancel. intros [? _]. auto.
  - rewrite armed_cancel. intros Hin. split; [auto|]. intros E. by apply (Hd i); [left|].
Qed.

Lemma paused_idle t l i : timer_idle_ t = Some i -> i ∉ armed (pause_timer t l).
Proof. unfold pause_timer. intros Hi. rewrite armed_cancel, Hi. tauto. Qed.

Lemma start_ok o t l t' l' : timers_ok o t l -> start_timer t l = (t', l') -> timers_ok o t' l'.
Proof.
  intros Hok. pose proof (pause_ok _ _ _ Hok) as [Ha Ho Hd Hi Ht]. unfold start_timer.
  pose proof (fun j => paused_idle t l j) as Hp. set (l0 := pause_timer t l) in *.
  destruct (co_timer_add l0) as [i l1] eqn:E. intros [= <- <-]. destruct (new_timer _ _ _ E) as [Hn1 Hn2].
  split; unfold owns in *; cbn [timer_idle_ timer_life_]; intros j.
  - rewrite (armed_add _ _ _ _ E). intros [->|Hj]; [auto|]. destruct (Ha j Hj) as [[Hx|?]|?]; [|auto..].
    by destruct (Hp j Hx).
  - rewrite (armed_add _ _ _ _ E). auto.
  - intros [[= ->]|?] Hj; [by apply Hn2, Ho|]. by apply (Hd j); [right|].
  - rewrite (issued_add _ _ _ _ E). intros [[= ->]|?]; auto.
  - intros [= ->] E2. apply Hn1, Hi. auto.
Qed.

Lemma timers_new_ok b l t l' : timers_new b l = (t, l') -> timers_ok (armed l) t l'.
Proof.
  pose proof (armed_issued l) as Hai. unfold timers_new, owns. destruct b.
  - destruct (co_timer_add l) as [i l1] eqn:E. intros [= <- <-]. destruct (new_timer _ _ _ E) as [Hn1 Hn2].
    split; unfold owns; cbn; intros j; rewrite ?(armed_add _ _ _ _ E), ?(issued_add _ _ _ _ E); try naive_solver.
  - intros [= <- <-]. split; unfold owns; cbn; intros j; naive_solver.
Qed.

(** One of the two has fired; whether its identifier is reset does not matter. *)
Lemma fired_ok o t l i l' t' : timers_ok o t l -> owns t i -> timer_fires i l l' ->
  (forall j, owns t' j -> owns t j) -> (forall j, owns t j -> j = i \/ owns t' j) ->
  (forall j, timer_idle_ t' = Some j -> timer_life_ t' <> Some j) -> timers_ok o t' l'.
Proof.
  intros [Ha Ho Hd Hi Ht] Hin Hf Hsub Hsup Ht'. pose proof (fire_timer _ _ _ Hf) as (_ & _ & Ei).
  split; try done; intros j; rewrite ?(armed_fire _ _ _ _ Hf), ?Ei.
  - intros [Hj Hne]. destruct (Ha j Hj) as [Hx|?]; [|by right]. destruct (Hsup j Hx); [congruence|by left].
  - intros Hj. split; [auto|]. intros ->. by apply (Hd j).
  - intros Hx. apply Hd. auto.
  - intros Hx. apply Hi. auto.
Qed.

Lemma timer_step_ok x y : timer_step x y -> timers_ok (ts_others x) (ts_own x) (ts_lib x) ->
  timers_ok (ts_others y) (ts_own y) (ts_lib y).
Proof.
  intros Hs Hok. pose proof Hok as [Ha Ho Hd Hi Ht].
  inversion Hs as [t l s o t' l' E|t l s o|t l s o i l' r t' s' Et Hf E|t l s o i l' r t' s' Et Hf E|t l s o i l' E
    |t l s o i Hin|t l s o i l' Hin Hf|t l s o s']; subst; cbn [ts_own ts_lib ts_others] in *.
  - by eapply start_ok.
  - by apply pause_ok.
  - assert (t' = Timers None (timer_life_ t) \/ t' = t) as [-> | ->].
    { unfold on_idle_expired in E. destruct (trans_shutdown s) as [[] ?]; injection E as _ <- _; auto. }
    all: eapply (fired_ok o t l i); [done|by left|done|..]; unfold owns; cbn; naive_solver.
  - assert (t' = Timers (timer_idle_ t) None \/ t' = t) as [-> | ->].
    { unfold on_life_expired in E. destruct (trans_shutdown s) as [[] ?]; injection E as _ <- _; auto. }
    all: eapply (fired_ok o t l i); [done|by right|done|..]; unfold owns; cbn; naive_solver.
  - destruct (new_timer _ _ _ E) as [Hn1 Hn2].
    split; intros j; rewrite ?(armed_add _ _ _ _ E), ?(issued_add _ _ _ _ E), ?elem_of_union, ?elem_of_singleton.
    + intros [->|Hj]; [auto|]. destruct (Ha j Hj); auto.
    + intros [->|Hj]; auto.
    + intros Hx [->|Hj]; [by apply Hn1, Hi|by apply (Hd j)].
    + auto.
    + auto.
  - destruct (cancel_timer i l) as [Ea Ei].
    split; intros j; rewrite ?Ea, ?Ei, ?elem_of_difference, ?elem_of_singleton.
    + intros [Hj Hne]. destruct (Ha j Hj); auto.
    + intros [Hj Hne]. auto.
    + intros Hx [Hj _]. by apply (Hd j).
    + auto.
    + auto.
  - pose proof (fire_timer _ _ _ Hf) as (_ & Ea & Ei).
    split; intros j; rewrite ?Ea, ?Ei, ?elem_of_difference, ?elem_of_singleton.
    + intros [Hj Hne]. destruct (Ha j Hj); auto.
    + intros [Hj Hne]. auto.
    + intros Hx [Hj _]. by apply (Hd j).
    + auto.
    + auto.
  - done.
Qed.

(** [clear_timer] leaves the timers of the others. *)
Lemma clear_armed o t l : timers_ok o t l -> armed (clear_timer t l).2 = o.
Proof.
  intros [Ha Ho Hd Hi Ht]. apply set_eq. intros j. unfold clear_timer. cbn [snd]. rewrite !armed_cancel.
  unfold owns in *. split; [|naive_solver]. intros [[Hx Hy] Hz]. by destruct (Ha j Hx) as [[?|?]|?].
Qed.
End TimerLemmas.

(** ** Lemmas: receiving *)
Section Receive.
Context {A : Type} {inv : A -> gmap Z iobuf -> Prop} `{BufAllocLaws A inv, VecGrow, Errno}.
Context {HP : Type} `{HttpParserLaws HP, !HttpExecute HP, !HttpExecuteLaws HP, HttpParseUrl, FieldSort}.
Context {SK : Type} `{TransLaws SK} {TM : Type} `{TimerLaws TM} {W : Type}.
Implicit Types (c : conn (A := A) (SK := SK) (TM := TM)) (req : http_request HP) (s : SK).
Implicit Types (opt : conn_options (A := A) (HP := HP) (W := W)).

Record pool_ok (a : A) (st : gmap Z iobuf) : Prop := {
  po_inv : inv a st;
  po_wf : map_Forall (fun _ io => iobuf_wf io) st;
  po_size : 0 < alloc_size a < 2 ^ 31
}.



(** The buffer in use is the last of the list; all of them are in the store. *)
Record conn_ok c (iov : Z) : Prop := {
  co_pool : pool_ok (c_alloc c) (c_store c);
  co_last : last (c_buf c) = Some iov;
  co_all : Forall (fun l => is_Some (c_store c !! l)) (c_buf c)
}.











(** What receiving may change: the buffers it reads into, and it adds buffers;
    it keeps the others and the timers. *)
Record conn_grows c c' : Prop := {
  cg_store : forall l, is_Some (c_store c !! l) -> is_Some (c_store c' !! l);
  cg_else : forall l io, c_store c !! l = Some io -> l ∉ c_buf c ->
    c_store c' !! l = Some io /\ l ∉ c_buf c';
  cg_buf : exists k, c_buf c' = c_buf c ++ k;
  cg_alloc : alloc_size (c_alloc c') = alloc_size (c_alloc c);
  cg_timers : c_timers c' = c_timers c;
  cg_lib : c_lib c' = c_lib c
}.

#[export] Instance conn_grows_preorder : PreOrder conn_grows.
Proof.
  split; [intros c; split; try done; exists []; by rewrite app_nil_r|].
  intros c1 c2 c3 [? He1 [k1 Hk1] ? ? ?] [? He2 [k2 Hk2] ? ? ?].
  split; try congruence; auto.
  - intros l io Hl Hb. destruct (He1 l io Hl Hb). by apply He2.
  - exists (k1 ++ k2). by rewrite Hk2, Hk1, app_assoc.
Qed.









(** ** Lemmas: a whole request *)











Lemma conn_ok_timers c iov t l : conn_ok c iov -> conn_ok (with_timers c t l) iov.
Proof. by intros [? ? ?]. Qed.

















End Receive.

(** ** Lemmas: the shipped modules, from the first byte to the last *)
Section Site.
Context {A : Type} {inv : A -> gmap Z iobuf -> Prop} `{BufAllocLaws A inv, VecGrow, Errno}.
Context {HP : Type} `{HttpParserLaws HP, !HttpExecute HP, !HttpExecuteLaws HP, HttpParseUrl, FieldSort}.
Context {SK : Type} `{TransLaws SK} {TM : Type} `{TimerLaws TM} {W : Type}.
Implicit Types (req : http_request HP).
Implicit Types (opt : conn_options (A := A) (HP := HP) (W := W)).












End Site.

Lemma lor_high_low p c : 0 <= p -> 0 <= c < 2 ^ 32 -> Z.lor (Z.shiftl p 32) c = p * 2 ^ 32 + c.
Proof.
  intros Hp Hc. rewrite Z.shiftl_mul_pow2 by lia.
  pose proof (Z.add_lor_land (p * 2 ^ 32) c) as E.
  assert (Z.land (p * 2 ^ 32) c = 0) as El; [|lia].
  apply Z.bits_inj'. intros i Hi. rewrite Z.land_spec, Z.bits_0.
  destruct (Z.lt_ge_cases i 32).
  - by rewrite Z.mul_pow2_bits_low by lia.
  - rewrite andb_comm. rewrite <- (Z.mod_small c (2 ^ 32)) by lia.
    by rewrite Z.mod_pow2_bits_high by lia.
Qed.

Definition accepted (l : list bool) : Z := vlen (filter (fun b => b = true) l).

Lemma service_loop_spec pid k l :
  0 <= pid < 2 ^ 31 -> 0 <= k -> k + accepted l < 2 ^ 32 ->
  service_loop pid k l = (fun i => pid * 2 ^ 32 + i) <$> seqZ (k + 1) (accepted l).
Proof.
  intros Hp. revert k. induction l as [|b l IH]; intros k Hk Hl; cbn [service_loop]; [done|].
  unfold accepted in *. rewrite filter_cons in *. destruct b.
  - rewrite decide_True in * by done. unfold vlen in *. cbn [length] in *.
    rewrite (u32_id (k + 1)) by lia. rewrite (u64_id (Z.shiftl pid 32)).
    + rewrite lor_high_low, IH by lia. rewrite (seqZ_cons (k + 1)) by lia. cbn [fmap list_fmap].
      do 3 f_equal; lia.
    + unfold in_u64. rewrite Z.shiftl_mul_pow2 by lia. lia.
  - rewrite decide_False in * by done. by apply IH.
Qed.

(** ** A socket and a timer library

    The socket gives the chunks of [sk_in], an empty one as an error, and end of file
    at their end; [sk_out] are the codes of its writes; it throws when the peer is
    gone.  Identifiers of timers are numbers. *)
Record script := Script { sk_in : list (list byte); sk_out : list Z; sk_sent : list byte; sk_gone : bool }.
Definition script_throws (s : script) : outcome unit :=
  if sk_gone s then Throws (SystemError 107) else Ok tt.
#[export] Instance script_Trans : Trans script := {
  trans_read_some room s :=
    match sk_in s with
    | [] => ([], 2, s)
    | [] :: l => ([], 104, Script l (sk_out s) (sk_sent s) (sk_gone s))
    | b :: l =>
      let rest := drop (Z.to_nat room) b in
      (take (Z.to_nat room) b, 0,
       Script (if bool_decide (rest = []) then l else rest :: l) (sk_out s) (sk_sent s) (sk_gone s))
    end;
  trans_write bufs s :=
    let ec := default 0 (head (sk_out s)) in
    let n := if ec =? 0 then vlen (concat bufs) else 0 in
    (n, ec, Script (sk_in s) (tail (sk_out s)) (sk_sent s ++ take (Z.to_nat n) (concat bufs)) (sk_gone s));
  trans_shutdown s := (script_throws s, Script [] (sk_out s) (sk_sent s) (sk_gone s));
  trans_close s := (script_throws s, s);
  trans_remote_endpoint := script_throws
}.
#[export] Instance script_TransLaws : TransLaws script.
Proof.
  refine {| delivered := sk_sent |}.
  - intros room [[|[|b d] l] out sent gone] data s' Hr;
      cbn [trans_read_some script_Trans sk_in]; intros [= <- _].
    unfold vlen. rewrite length_take. cbn [length]. lia.
  - intros room [[|[|b d] l] out sent gone] data ec s'; cbn; intros [= <- <- <-]; done.
  - intros bufs s n ec s'. cbn. intros [= <- <- <-]. pose proof (vlen_nonneg (concat bufs)).
    cbn. destruct (Z.eqb_spec (default 0 (head (sk_out s))) 0); split_and!; (lia || done).
  - intros s. cbn. unfold script_throws. by destruct (sk_gone s).
  - intros s. cbn. unfold script_throws. by destruct (sk_gone s).
  - intros s. cbn. unfold script_throws. by destruct (sk_gone s).
Defined.

Record clock := Clock { tm_next : nat; tm_armed : gset Z }.
Definition clock_issued (n : nat) : gset Z := list_to_set (Z.of_nat <$> seq 0 n).
#[export] Instance clock_TimerLib : TimerLib clock := {
  co_timer_add l := (Z.of_nat (tm_next l), Clock (S (tm_next l)) ({[Z.of_nat (tm_next l)]} ∪ tm_armed l));
  co_timer_cancel i l := Clock (tm_next l) (tm_armed l ∖ {[i]});
  timer_fires i l l' := i ∈ tm_armed l ∩ clock_issued (tm_next l) /\ l' = Clock (tm_next l) (tm_armed l ∖ {[i]})
}.
Lemma clock_issued_S n : clock_issued (S n) = {[Z.of_nat n]} ∪ clock_issued n.
Proof. unfold clock_issued. rewrite seq_S, fmap_app, list_to_set_app_L. cbn. set_solver. Qed.
#[export] Instance clock_TimerLaws : TimerLaws clock.
Proof.
  refine {| armed l := tm_armed l ∩ clock_issued (tm_next l); issued l := clock_issued (tm_next l) |};
    cbn [co_timer_add co_timer_cancel timer_fires clock_TimerLib].
  - set_solver.
  - intros l i l' [= <- <-]. cbn [tm_next tm_armed]. rewrite clock_issued_S. split_and!; [|done|set_solver].
    unfold clock_issued. rewrite elem_of_list_to_set, list_elem_of_fmap. intros (k & Hk & Hin%elem_of_seq). lia.
  - intros i l. cbn [tm_next tm_armed]. set_solver.
  - intros i l l' [Hi ->]. cbn [tm_next tm_armed]. split_and!; [done|set_solver|done].
Defined.

(** ** Properties *)

(** C38. The timers of a connection, among those of all the others: whatever the
    interleaving of starts, pauses and expirations, and of additions, cancellations
    and expirations elsewhere, and although a callback whose [shutdown] throws leaves
    the identifier set: every armed timer is one of the two that the object knows of
    or another's, so that [clear_timer], which the destructor calls first, leaves
    armed those of others, and all of them; a paused idle timer is not armed. *)
Theorem timers_safe {SK} `{Trans SK} {TM} `{TimerLaws TM} life_set (l0 : TM) (s : SK) x :
  let '(t0, l) := timers_new life_set l0 in
  rtc timer_step (TimerState t0 l s (armed l0)) x ->
  (forall i, i ∈ armed (ts_lib x) -> owns (ts_own x) i \/ i ∈ ts_others x) /\
  ts_others x ⊆ armed (ts_lib x) /\
  armed (clear_timer (ts_own x) (ts_lib x)).2 = ts_others x /\
  (forall i, timer_idle_ (ts_own x) = Some i -> i ∉ armed (pause_timer (ts_own x) (ts_lib x))).
Proof.
  destruct (timers_new life_set l0) as [t0 l] eqn:E. intros Hr.
  assert (timers_ok (ts_others x) (ts_own x) (ts_lib x)) as Hok.
  { assert (timers_ok (armed l0) t0 l) as Hnew by by eapply timers_new_ok.
    remember (TimerState t0 l s (armed l0)) as y eqn:Ey.
    assert (timers_ok (ts_others y) (ts_own y) (ts_lib y)) as Hy by by subst y. clear Ey Hnew.
    induction Hr as [|u v w Hs _ IH]; [done|]. apply IH. by apply (timer_step_ok u). }
  split_and!; [apply Hok|intros i; apply Hok|by apply clear_armed|intros i; apply paused_idle].
Qed.

(** The idle timer expires, then the life timer, whose callback throws. *)
Lemma timers_safe_witness :
  let l0 : clock := Clock 3 {[1]} in
  exists x : timer_state (SK := script) (TM := clock), ts_own x = Timers None (Some 3) /\ armed (ts_lib x) = {[1]} /\
    armed (clear_timer (ts_own x) (ts_lib x)).2 = {[1]}.
Proof.
  set (l1 := Clock 5 {[1; 3; 4]}). set (l2 := Clock 5 {[1; 3]}). set (l3 := Clock 5 {[1]}).
  set (s := Script [] [] [] false). set (s' := Script [] [] [] true).
  exists (TimerState (Timers None (Some 3)) l3 s' {[1]}).
  split; [reflexivity|]. split; [apply (bool_decide_unpack _); vm_compute; exact I|].
  refine (proj1 (proj2 (proj2 (timers_safe true (Clock 3 {[1]}) s
    (TimerState (Timers None (Some 3)) l3 s' {[1]}) _)))).
  replace (armed (Clock 3 {[1]})) with ({[1]} : gset Z) by (apply (bool_decide_unpack _); vm_compute; exact I).
  eapply rtc_l; [apply (step_start _ _ _ _ (Timers (Some 4) (Some 3)) l1);
    vm_compute; reflexivity|].
  eapply rtc_l; [apply (step_idle (Timers (Some 4) (Some 3)) l1 s _ 4 l2 (Ok tt) (Timers None (Some 3)) s);
    [reflexivity|split; [apply (bool_decide_unpack _); vm_compute; exact I|vm_compute; reflexivity]|reflexivity]|].
  eapply rtc_l; [apply (step_socket _ _ _ _ s')|].
  eapply rtc_l; [apply (step_life (Timers None (Some 3)) l2 s' _ 3 l3 (Throws (SystemError 107)) (Timers None (Some 3)) s');
    [reflexivity|split; [apply (bool_decide_unpack _); vm_compute; exact I|vm_compute; reflexivity]|reflexivity]|].
  apply rtc_refl.
Defined.




(** What the constructor does: the modules are told first, so that they hear of a
    connection whose peer is already gone, and never of its end. *)
Theorem connection_new_spec {A HP} `{HttpParser HP} {SK} `{TransLaws SK} {TM} `{TimerLaws TM} {W}
    (opt : conn_options (A := A) (HP := HP) (W := W)) connid (s : SK) (l : TM) (w : W) :
  let '(r, l', w') := http_connection_new opt connid s l w in
  w' = tell_init opt connid w /\
  match r with
  | Ok t => trans_remote_endpoint s = Ok tt /\ timers_ok (armed l) t l'
  | Throws e => trans_remote_endpoint s = Throws e /\ l' = l
  | Crash _ => False
  end.
Proof.
  unfold http_connection_new. pose proof (endpoint_throws s) as He. destruct (trans_remote_endpoint s) as [[]| |]; [|done|done].
  destruct (timers_new _ l) as [t l'] eqn:E. split; [done|]. split; [done|]. by eapply timers_new_ok.
Qed.

(** Connection identifiers: a process numbers the connections it accepts
    1, 2, 3, ... in the low half of the identifier and has its pid in the high
    half, so that up to 2^32 connections they are all different. *)
Theorem connection_ids pid l :
  0 <= pid < 2 ^ 31 -> accepted l < 2 ^ 32 ->
  service_loop pid 0 l = (fun i => pid * 2 ^ 32 + i) <$> seqZ 1 (accepted l) /\
  NoDup (service_loop pid 0 l) /\
  Forall (fun id => id / 2 ^ 32 = pid /\ in_u64 id) (service_loop pid 0 l).
Proof.
  intros Hp Hl. rewrite service_loop_spec by lia. split; [done|]. split.
  - apply NoDup_fmap_2; [|apply NoDup_seqZ]. intros i j. lia.
  - apply Forall_fmap, Forall_forall. intros i Hi%elem_of_seqZ. cbn. unfold in_u64.
    split; [|lia]. rewrite Z.add_comm, Z.div_add, Z.div_small by lia. lia.
Qed.

Lemma connection_ids_witness :
  service_loop 5 0 [true; false; true] = [5 * 2 ^ 32 + 1; 5 * 2 ^ 32 + 2].
Proof.
  destruct (connection_ids 5 [true; false; true]) as [-> _];
    [lia|vm_compute; reflexivity|vm_compute; reflexivity].
Defined.

(** At the end of [start] the modules are told by [on_process_exit] when they
    asked for [HE_PROCESS_INIT]: one that asked for [HE_PROCESS_EXIT] only is
    not told, one that asked for [HE_PROCESS_INIT] only is. *)
Theorem exit_follows_init_flag {A HP} `{HttpParser HP} {W} (m : modules (handler_t (A := A) (HP := HP) (W := W)))
    (k : list byte) (h : handler_t (A := A) (HP := HP) (W := W)) n (w : W) :
  (handle_events h = HE_PROCESS_EXIT -> service_exit (Modules None [(k, h)] n) w = w) /\
  (handle_events h = HE_PROCESS_INIT ->
   service_exit (Modules None [(k, h)] n) w = on_process_exit h w) /\
  service_exit m w =
    fold_left (fun w h => on_process_exit h w)
      (filter (fun h => wants (handle_events h) HE_PROCESS_INIT = true) (list_handler m)) w.
Proof.
  unfold service_exit, notify. split_and!; [by intros E; cbn; rewrite E..|].
  generalize w. induction (list_handler m) as [|h' l IH]; intros w'; [done|].
  cbn [fold_left]. rewrite IH, filter_cons.
  destruct (wants (handle_events h') HE_PROCESS_INIT); [by rewrite decide_True|by rewrite decide_False].
Qed.

(** ** Witnesses *)
#[local] Instance example_errno : Errno := sample_errno.









