(* ===== verification/Semops.v ===== *)
(** * The accept semaphore (class semops, src/src/semops.hpp and semops.cpp)

    A System V semaphore set of one, to let one process at a time accept.  The
    kernel is the map of its semaphores; a caller that would block waits until
    [semop] can proceed, so the model says what a call that returns did.  The
    constructor keeps the identifier in a local variable of the member's name:
    [semid_], the member, stays -1. *)
From S2P Require Import Prelude Iobuf Stdio Errors.

(** ** The kernel *)
Record sem_kernel := SemKernel { sems : gmap Z Z; next_sem : Z }.

(** [semget(IPC_PRIVATE, 1, IPC_CREAT | 0666)]; [ok] is false when the system
    has no semaphore left. *)
Definition semget (ok : bool) (k : sem_kernel) : sem_kernel * Z :=
  if ok then (SemKernel (<[next_sem k := 0]> (sems k)) (next_sem k + 1), next_sem k) else (k, -1).

Definition semctl_setval (id v : Z) (k : sem_kernel) : sem_kernel * Z :=
  match sems k !! id with
  | Some _ => (SemKernel (<[id := v]> (sems k)) (next_sem k), 0)
  | None => (k, -1)
  end.

Definition semctl_rmid (id : Z) (k : sem_kernel) : sem_kernel :=
  SemKernel (delete id (sems k)) (next_sem k).

(** [semop] of one operation: [None] while it blocks, -1 for no such set *)
Definition semop (id op : Z) (k : sem_kernel) : option (sem_kernel * Z) :=
  match sems k !! id with
  | None => Some (k, -1)
  | Some v =>
    if v + op <? 0 then None
    else Some (SemKernel (<[id := v + op]> (sems k)) (next_sem k), 0)
  end.

(** ** class semops *)
Section Semops.
Context `{Errno}.

Record semops := Semops { semid_ : Z }.

Definition semops_text (what : list byte) : list byte :=
  lit "can't " ++ what ++ lit " semaphore for accept: " ++ dec errno ++ lit ", " ++ c_str (strerror errno).

Definition semops_new (ok : bool) (value : Z) (k : sem_kernel) : outcome (sem_kernel * semops) :=
  let self := Semops (-1) in
  let '(k, semid) := semget ok k in
  if semid =? -1 then throw_except (lit "semops.cpp") 21 (lit "semops") (Some (semops_text (lit "create")))
  else
    let '(k, rc) := semctl_setval semid value k in
    if rc =? -1 then throw_except (lit "semops.cpp") 35 (lit "semops") (Some (semops_text (lit "setval")))
    else Ok (k, self).

Definition semops_delete (s : semops) (k : sem_kernel) : sem_kernel * semops :=
  if negb (semid_ s =? -1) then (semctl_rmid (semid_ s) k, Semops (-1)) else (k, s).

Definition semops_wait (s : semops) (k : sem_kernel) : option (sem_kernel * bool) :=
  '(k, rc) ← semop (semid_ s) (-1) k; Some (k, rc =? 0).

Definition semops_wake (s : semops) (k : sem_kernel) : option sem_kernel :=
  '(k, _) ← semop (semid_ s) 1 k; Some k.

(** Identifiers are not negative. *)
Definition kernel_ok (k : sem_kernel) : Prop :=
  0 <= next_sem k /\ forall id, is_Some (sems k !! id) -> 0 <= id < next_sem k.

(** ** Properties *)

(** The semaphore never locks: the constructor creates and sets a kernel
    semaphore but the object does not know it, so that [wait] fails at once and
    excludes nobody, however often it is called, [wake] changes nothing, and the
    destructor leaves the kernel semaphore behind. *)
Theorem semops_never_locks value k :
  kernel_ok k ->
  exists k' s, semops_new true value k = Ok (k', s) /\
    sems k' = <[next_sem k := value]> (sems k) /\
    semops_wait s k' = Some (k', false) /\
    semops_wake s k' = Some k' /\
    semops_delete s k' = (k', s).
Proof.
  intros [Hn Hk]. unfold semops_new, semget. cbn [sems next_sem].
  destruct (Z.eqb_spec (next_sem k) (-1)) as [E|_]; [lia|].
  unfold semctl_setval. cbn [sems next_sem]. rewrite lookup_insert_eq, insert_insert_eq. cbn [Z.eqb].
  do 2 eexists. split; [done|]. cbn [sems]. split; [done|].
  assert (<[next_sem k := value]> (sems k) !! (-1) = None) as E.
  { apply eq_None_not_Some. rewrite lookup_insert_is_Some'. intros [E|Hs]; [lia|].
    apply Hk in Hs. lia. }
  unfold semops_wait, semops_wake, semop. cbn [semid_ sems]. by rewrite E.
Qed.
End Semops.

Lemma semops_never_locks_witness :
  exists k' s, @semops_new sample_errno true 1 (SemKernel ∅ 3) = Ok (k', s) /\
    semops_wait s k' = Some (k', false).
Proof.
  destruct (@semops_never_locks sample_errno 1 (SemKernel ∅ 3)) as (k' & s & H1 & _ & H2 & _).
  - split; [vm_compute; discriminate|]. intros id Hs. cbn in Hs. by apply lookup_empty_is_Some in Hs.
  - exists k', s. split; [exact H1|exact H2].
Defined.

(** The semaphore the program means to use: a kernel semaphore of value 1 does
    exclude. *)
Lemma semaphore_excludes id k :
  sems k !! id = Some 1 ->
  exists k', semop id (-1) k = Some (k', 0) /\ semop id (-1) k' = None /\
    exists k'', semop id 1 k' = Some (k'', 0) /\ sems k'' = sems k.
Proof.
  intros Hk. unfold semop. rewrite Hk. cbn. eexists. split; [done|]. cbn.
  rewrite lookup_insert_eq. cbn. split; [done|]. eexists. split; [done|]. cbn.
  rewrite insert_insert_eq. by apply insert_id.
Qed.
