(* ===== verification/Config.v ===== *)
(** * The configuration (load_config, src/src/cohttp.cpp; http_service::options)

    The file is read through yaml-cpp, which is not part of the sources: [Yaml]
    is the part of its interface the program uses.  Four exceptions of the library
    are caught, and what was set before one stays set; the others, [BadSubscript]
    for one, leave [load_config].  The model is a monad of updates to the options
    that can stop early ([Stop]) or be undefined ([Undef], the [int] product of
    [MaxBodySize]). *)
From S2P Require Import Prelude.

(** ** yaml-cpp *)
Inductive yaml_exn :=
  | ParserException
  | BadFile
  | InvalidNode
  | BadConversion
  | BadSubscript (what : list byte)
  | OtherException (what : list byte).

Inductive yaml (A : Type) := Value (a : A) | Raised (e : yaml_exn).
Arguments Value {A}.
Arguments Raised {A}.
#[export] Instance yaml_ret : MRet yaml := fun A a => Value a.
#[export] Instance yaml_bind : MBind yaml := fun A B f m =>
  match m with Value a => f a | Raised e => Raised e end.
#[export] Instance yaml_fmap : FMap yaml := fun A B f m =>
  match m with Value a => Value (f a) | Raised e => Raised e end.

Class Yaml (N : Type) := {
  yaml_field : N -> list byte -> yaml N;
  yaml_defined : N -> bool;
  as_ushort : N -> yaml Z;
  as_int : N -> yaml Z;
  as_string : N -> yaml (list byte)
}.

(** The conversions give values of their type. *)
Class YamlLaws (N : Type) `{Yaml N} := {
  as_ushort_range n v : as_ushort n = Value v -> 0 <= v < 2 ^ 16;
  as_int_range n v : as_int n = Value v -> in_i32 v
}.

(** ** struct http_service::options *)
Record options := Options {
  iobuf_size : Z; iobuf_count : Z; opt_max_header_size : Z; opt_max_body_size : Z;
  logger_path : list byte; logger_cout : bool;
  reuse_port : Z; serve_port : Z; process : Z;
  opt_timer_idle : Z; opt_timer_life : Z;
  mod_path : list byte
}.
Add Printing Constructor options.
#[export] Instance options_eq_dec : EqDecision options.
Proof. solve_decision. Defined.

Definition options_default : options :=
  Options 8192 16384 8192 (10 * 1024 * 1024) (lit "../log") true 0 80 2 5 60 [].

(** ** The body of the [try] block *)
Inductive step (A : Type) := Go (a : A) | Stop (e : yaml_exn) | Undef.
Arguments Go {A}.
Arguments Stop {A}.
Arguments Undef {A}.
Definition load (A : Type) : Type := options -> options * step A.
#[export] Instance load_ret : MRet load := fun A a o => (o, Go a).
#[export] Instance load_bind : MBind load := fun A B f m o =>
  match m o with
  | (o', Go a) => f a o'
  | (o', Stop e) => (o', Stop e)
  | (o', Undef) => (o', Undef)
  end.

Definition attempt {A} (x : yaml A) : load A := fun o =>
  (o, match x with Value a => Go a | Raised e => Stop e end).
Definition update (f : options -> options) : load unit := fun o => (f o, Go tt).
Definition defined (x : outcome Z) : load Z := fun o =>
  (o, match x with Ok v => Go v | _ => Undef end).

Section Load.
Context {N : Type} `{Yaml N}.

(** [if(node[key]) { set(node[key].as<T>()); }] *)
Definition when_key {T} (node : N) (key : list byte) (as_T : N -> yaml T)
    (set : T -> load unit) : load unit :=
  n ← attempt (yaml_field node key);
  if yaml_defined n then v ← attempt (as_T n); set v else mret tt.

Definition set_port v o := Options (iobuf_size o) (iobuf_count o) (opt_max_header_size o)
  (opt_max_body_size o) (logger_path o) (logger_cout o) (reuse_port o) v (process o)
  (opt_timer_idle o) (opt_timer_life o) (mod_path o).
Definition set_mod_path v o := Options (iobuf_size o) (iobuf_count o) (opt_max_header_size o)
  (opt_max_body_size o) (logger_path o) (logger_cout o) (reuse_port o) (serve_port o) (process o)
  (opt_timer_idle o) (opt_timer_life o) v.
Definition set_process v o := Options (iobuf_size o) (iobuf_count o) (opt_max_header_size o)
  (opt_max_body_size o) (logger_path o) (logger_cout o) (reuse_port o) (serve_port o) v
  (opt_timer_idle o) (opt_timer_life o) (mod_path o).
Definition set_idle v o := Options (iobuf_size o) (iobuf_count o) (opt_max_header_size o)
  (opt_max_body_size o) (logger_path o) (logger_cout o) (reuse_port o) (serve_port o) (process o)
  v (opt_timer_life o) (mod_path o).
Definition set_life v o := Options (iobuf_size o) (iobuf_count o) (opt_max_header_size o)
  (opt_max_body_size o) (logger_path o) (logger_cout o) (reuse_port o) (serve_port o) (process o)
  (opt_timer_idle o) v (mod_path o).
Definition set_header_size v o := Options (iobuf_size o) (iobuf_count o) v
  (opt_max_body_size o) (logger_path o) (logger_cout o) (reuse_port o) (serve_port o) (process o)
  (opt_timer_idle o) (opt_timer_life o) (mod_path o).
Definition set_body_size v o := Options (iobuf_size o) (iobuf_count o) (opt_max_header_size o)
  v (logger_path o) (logger_cout o) (reuse_port o) (serve_port o) (process o)
  (opt_timer_idle o) (opt_timer_life o) (mod_path o).
Definition set_iobuf_size v o := Options v (iobuf_count o) (opt_max_header_size o)
  (opt_max_body_size o) (logger_path o) (logger_cout o) (reuse_port o) (serve_port o) (process o)
  (opt_timer_idle o) (opt_timer_life o) (mod_path o).
Definition set_iobuf_count v o := Options (iobuf_size o) v (opt_max_header_size o)
  (opt_max_body_size o) (logger_path o) (logger_cout o) (reuse_port o) (serve_port o) (process o)
  (opt_timer_idle o) (opt_timer_life o) (mod_path o).
Definition set_logger_path v o := Options (iobuf_size o) (iobuf_count o) (opt_max_header_size o)
  (opt_max_body_size o) v (logger_cout o) (reuse_port o) (serve_port o) (process o)
  (opt_timer_idle o) (opt_timer_life o) (mod_path o).
Definition set_cout v o := Options (iobuf_size o) (iobuf_count o) (opt_max_header_size o)
  (opt_max_body_size o) (logger_path o) v (reuse_port o) (serve_port o) (process o)
  (opt_timer_idle o) (opt_timer_life o) (mod_path o).

(** [as<int>() * 1024 * 1024] *)
Definition megabytes (v : Z) : outcome Z := x ← mul_int v 1024; mul_int x 1024.

Definition load_body (config : N) : load unit :=
  when_key config (lit "ListenPort") as_ushort (fun v => update (set_port v)) ;;
  when_key config (lit "ModulePath") as_string (fun v => update (set_mod_path v)) ;;
  when_key config (lit "CpuUsed") as_int (fun v => update (set_process v)) ;;
  connections ← attempt (yaml_field config (lit "Connection"));
  when_key connections (lit "IdleTimer") as_int (fun v => update (set_idle v)) ;;
  when_key connections (lit "LifeTimer") as_int (fun v => update (set_life v)) ;;
  when_key connections (lit "MaxHeaderSize") as_int (fun v => update (set_header_size (u64 v))) ;;
  when_key connections (lit "MaxBodySize") as_int
    (fun v => x ← defined (megabytes v); update (set_body_size (u64 x))) ;;
  memory ← attempt (yaml_field config (lit "Memory"));
  when_key memory (lit "ChunkSize") as_int (fun v => update (set_iobuf_size (u64 v))) ;;
  when_key memory (lit "ChunkCount") as_int (fun v => update (set_iobuf_count (u64 v))) ;;
  logger ← attempt (yaml_field config (lit "Logger"));
  when_key logger (lit "Path") as_string (fun v => update (set_logger_path v)) ;;
  when_key logger (lit "console") Value (fun _ => update (set_cout true)).

Definition caught (e : yaml_exn) : bool :=
  match e with ParserException | BadFile | InvalidNode | BadConversion => true | _ => false end.
(** [YAML::Exception] is a [runtime_error]. *)
Definition escapes (e : yaml_exn) : exn :=
  RuntimeError match e with BadSubscript what | OtherException what => what | _ => [] end.

(** [file]: what [LoadFile] gives *)
Definition load_config (file : yaml N) : outcome options :=
  match file with
  | Raised e => if caught e then Ok options_default else Throws (escapes e)
  | Value config =>
    match load_body config options_default with
    | (o, Go _) => Ok o
    | (o, Stop e) => if caught e then Ok o else Throws (escapes e)
    | (_, Undef) => Crash SignedOverflow
    end
  end.

(** ** What a file says *)

(** A key of a node, of a node that is a section of the document *)
Definition key_value {T} (node : N) (key : list byte) (as_T : N -> yaml T) : yaml (option T) :=
  n ← yaml_field node key;
  if yaml_defined n then Some <$> as_T n else Value None.
Definition section_value {T} (config : N) (section key : list byte) (as_T : N -> yaml T) : yaml (option T) :=
  node ← yaml_field config section; key_value node key as_T.

Definition listen_port (c : N) := key_value c (lit "ListenPort") as_ushort.
Definition module_path (c : N) := key_value c (lit "ModulePath") as_string.
Definition cpu_used (c : N) := key_value c (lit "CpuUsed") as_int.
Definition idle_timer (c : N) := section_value c (lit "Connection") (lit "IdleTimer") as_int.
Definition life_timer (c : N) := section_value c (lit "Connection") (lit "LifeTimer") as_int.
Definition header_limit (c : N) := section_value c (lit "Connection") (lit "MaxHeaderSize") as_int.
Definition body_limit (c : N) := section_value c (lit "Connection") (lit "MaxBodySize") as_int.
Definition chunk_size (c : N) := section_value c (lit "Memory") (lit "ChunkSize") as_int.
Definition chunk_count (c : N) := section_value c (lit "Memory") (lit "ChunkCount") as_int.
Definition log_path (c : N) := section_value c (lit "Logger") (lit "Path") as_string.
Definition console (c : N) := section_value c (lit "Logger") (lit "console") Value.

(** The keys in the order in which they are read, and where reading fails *)
Definition failure {T} (r : yaml T) : option yaml_exn :=
  match r with Value _ => None | Raised e => Some e end.
Definition failures (c : N) : list (option yaml_exn) :=
  [failure (listen_port c); failure (module_path c); failure (cpu_used c); failure (idle_timer c);
   failure (life_timer c); failure (header_limit c); failure (body_limit c); failure (chunk_size c);
   failure (chunk_count c); failure (log_path c); failure (console c)].
Definition reads_up_to (c : N) (stop : nat) : Prop := Forall (fun f => f = None) (take stop (failures c)).

(** The value of an option, read as the [i]th when the first [stop] are read *)
Definition get {T R} (r : yaml (option T)) (conv : T -> R) (d : R) : R :=
  match r with Value (Some v) => conv v | _ => d end.
Definition setting {T R} (stop i : nat) (r : yaml (option T)) (conv : T -> R) (d : R) : R :=
  if (i <? stop)%nat then get r conv d else d.

Record loaded (c : N) (stop : nat) (o : options) : Prop := {
  ld_port : serve_port o = setting stop 0 (listen_port c) id 80;
  ld_mod_path : mod_path o = setting stop 1 (module_path c) id [];
  ld_process : process o = setting stop 2 (cpu_used c) id 2;
  ld_idle : opt_timer_idle o = setting stop 3 (idle_timer c) id 5;
  ld_life : opt_timer_life o = setting stop 4 (life_timer c) id 60;
  ld_header : opt_max_header_size o = setting stop 5 (header_limit c) u64 8192;
  ld_body : opt_max_body_size o = setting stop 6 (body_limit c) (fun v => u64 (v * 2 ^ 20)) (10 * 2 ^ 20);
  ld_chunk : iobuf_size o = setting stop 7 (chunk_size c) u64 8192;
  ld_count : iobuf_count o = setting stop 8 (chunk_count c) u64 16384;
  ld_path : logger_path o = setting stop 9 (log_path c) id (lit "../log");
  ld_console : logger_cout o = true;
  ld_reuse : reuse_port o = 0;
  ld_fits : (6 < stop)%nat -> forall v, body_limit c = Value (Some v) -> in_i32 (v * 2 ^ 20)
}.

Record options_ok (o : options) : Prop := {
  oo_sizes : in_u64 (iobuf_size o) /\ in_u64 (iobuf_count o) /\ in_u64 (opt_max_header_size o) /\
    in_u64 (opt_max_body_size o);
  oo_port : 0 <= serve_port o < 2 ^ 16
}.

(** What became of reading a document up to the key [stop] *)
Definition outcome_at (c : N) (stop : nat) (r : options * step unit) : Prop :=
  reads_up_to c stop /\
  match r with
  | (o, Go _) => stop = 11%nat /\ loaded c stop o
  | (o, Stop e) => failures c !! stop = Some (Some e) /\ loaded c stop o
  | (_, Undef) => stop = 6%nat /\ exists v, body_limit c = Value (Some v) /\ ~ in_i32 (v * 2 ^ 20)
  end.

(** ** Lemmas *)
Lemma megabytes_spec v :
  megabytes v = if bool_decide (in_i32 (v * 2 ^ 20)) then Ok (v * 2 ^ 20) else Crash SignedOverflow.
Proof.
  unfold megabytes, mul_int, in_i32 in *. case_bool_decide as E;
    repeat (zcases; cbn [mbind outcome_bind]); try (f_equal; lia); exfalso; apply E; lia.
Qed.

Lemma when_key_spec {T} node key (as_T : N -> yaml T) set o :
  when_key node key as_T set o =
  match key_value node key as_T with
  | Raised e => (o, Stop e)
  | Value None => (o, Go tt)
  | Value (Some v) => set v o
  end.
Proof.
  unfold when_key, key_value, mbind, load_bind, yaml_bind, attempt.
  destruct (yaml_field node key) as [n|e]; [|done]. destruct (yaml_defined n); [|done].
  by destruct (as_T n).
Qed.

(** A key whose value goes into the field that [set] sets and [field] reads *)
Lemma when_key_sets {T R} node key (as_T : N -> yaml T) (conv : T -> R) (set : R -> options -> options) field o :
  set (field o) o = o ->
  when_key node key as_T (fun v => update (set (conv v))) o =
  match failure (key_value node key as_T) with
  | Some e => (o, Stop e)
  | None => (set (get (key_value node key as_T) conv (field o)) o, Go tt)
  end.
Proof. intros Hs. rewrite when_key_spec. destruct (key_value _ _ _) as [[v|]|e]; cbn; by rewrite ?Hs. Qed.

Lemma load_seq {A B} (m : load A) (f : A -> load B) o :
  (m ≫= f) o = match m o with (o, Go a) => f a o | (o, Stop e) => (o, Stop e) | (o, Undef) => (o, Undef) end.
Proof. unfold mbind, load_bind. by destruct (m o) as [? []]. Qed.

Lemma section_Value {T} config section key (as_T : N -> yaml T) node :
  yaml_field config section = Value node -> section_value config section key as_T = key_value node key as_T.
Proof. unfold section_value. by intros ->. Qed.
Lemma section_Raised {T} config section key (as_T : N -> yaml T) e :
  yaml_field config section = Raised e -> section_value config section key as_T = Raised e.
Proof. unfold section_value. by intros ->. Qed.

Definition fits (r : yaml (option Z)) : bool :=
  match r with Value (Some v) => bool_decide (in_i32 (v * 2 ^ 20)) | _ => true end.
Lemma fits_spec r : if fits r then forall v, r = Value (Some v) -> in_i32 (v * 2 ^ 20)
  else exists v, r = Value (Some v) /\ ~ in_i32 (v * 2 ^ 20).
Proof.
  unfold fits. destruct r as [[v|]|e]; [|done..]. case_bool_decide; [by intros ? [= <-]|eauto].
Qed.

Lemma when_key_body node o :
  when_key node (lit "MaxBodySize") as_int
    (fun v => x ← defined (megabytes v); update (set_body_size (u64 x))) o =
  match failure (key_value node (lit "MaxBodySize") as_int) with
  | Some e => (o, Stop e)
  | None =>
    if fits (key_value node (lit "MaxBodySize") as_int)
    then (set_body_size (get (key_value node (lit "MaxBodySize") as_int) (fun v => u64 (v * 2 ^ 20))
            (opt_max_body_size o)) o, Go tt)
    else (o, Undef)
  end.
Proof.
  rewrite when_key_spec. destruct (key_value _ _ _) as [[v|]|e]; [|by destruct o|done].
  cbn [failure get fits]. rewrite load_seq, megabytes_spec. by case_bool_decide.
Qed.

(** The run ends with the key [i], everything before it read. *)
Ltac stops_at i :=
  exists i; cbn [take]; split;
    [repeat (apply Forall_cons_2; [reflexivity|]); apply Forall_nil; exact I
    |split; [reflexivity|split; try reflexivity; intros; first [lia|eauto]]].
(** One key of [load_body]: reading it fails, or its value is taken. *)
Ltac read_value conv set field :=
  rewrite ?load_seq;
  lazymatch goal with |- context [when_key ?node ?key ?as_T ?f ?o] =>
    change f with (fun v => update (set (conv v)));
    rewrite (when_key_sets node key as_T conv set field o) by reflexivity
  end;
  cbn [set_port set_mod_path set_process set_idle set_life set_header_size set_body_size set_iobuf_size
    set_iobuf_count set_logger_path set_cout iobuf_size iobuf_count opt_max_header_size opt_max_body_size
    logger_path logger_cout reuse_port serve_port process opt_timer_idle opt_timer_life mod_path].
Ltac read_key i reading conv set field :=
  read_value conv set field;
  lazymatch goal with |- context [get (key_value ?node ?key ?as_T) _ _] =>
    change (key_value node key as_T) with reading
  end;
  destruct (failure reading) eqn:?; [stops_at i|].
(** The same in a section that [Hs] has found *)
Ltac read_in Hs i reading conv set field :=
  read_value conv set field;
  lazymatch goal with |- context [get (key_value ?node ?key ?as_T) _ _] =>
    rewrite <- (section_Value _ _ key as_T node Hs);
    lazymatch goal with |- context [get (section_value ?c ?s key as_T) _ _] =>
      change (section_value c s key as_T) with reading
    end
  end;
  destruct (failure reading) eqn:?; [stops_at i|].
(** A section that cannot be found fails as its first key would. *)
Ltac find_section Hs i reading :=
  rewrite load_seq; unfold attempt at 1;
  lazymatch goal with |- context [yaml_field ?c ?sec] =>
    let node := fresh "node" in let e := fresh "e" in
    destruct (yaml_field c sec) as [node|e] eqn:Hs; cycle 1;
    [assert (failure reading = Some e) as ->
       by (unfold idle_timer, chunk_size, log_path; by rewrite (section_Raised _ _ _ _ _ Hs)); stops_at i|]
  end.

Lemma load_body_spec config : exists stop, outcome_at config stop (load_body config options_default).
Proof.
  unfold load_body, outcome_at, reads_up_to, failures, options_default.
  read_key 0%nat (listen_port config) (@id Z) set_port serve_port.
  read_key 1%nat (module_path config) (@id (list byte)) set_mod_path mod_path.
  read_key 2%nat (cpu_used config) (@id Z) set_process process.
  find_section Hs 3%nat (idle_timer config).
  read_in Hs 3%nat (idle_timer config) (@id Z) set_idle opt_timer_idle.
  read_in Hs 4%nat (life_timer config) (@id Z) set_life opt_timer_life.
  read_in Hs 5%nat (header_limit config) u64 set_header_size opt_max_header_size.
  rewrite load_seq, when_key_body, <- (section_Value _ _ _ _ _ Hs). fold (body_limit config).
  pose proof (fits_spec (body_limit config)) as Hfit.
  destruct (failure (body_limit config)) eqn:?; [stops_at 6%nat|].
  destruct (fits (body_limit config)); cycle 1.
  { exists 6%nat. split; [repeat (apply Forall_cons_2; [reflexivity|]); apply Forall_nil; exact I|by split]. }
  clear Hs. find_section Hs 7%nat (chunk_size config).
  read_in Hs 7%nat (chunk_size config) u64 set_iobuf_size iobuf_size.
  read_in Hs 8%nat (chunk_count config) u64 set_iobuf_count iobuf_count.
  clear Hs. find_section Hs 9%nat (log_path config).
  read_in Hs 9%nat (log_path config) (@id (list byte)) set_logger_path logger_path.
  rewrite when_key_spec, <- (section_Value _ _ _ _ _ Hs). fold (console config).
  destruct (console config) as [[v|]|e]; [stops_at 11%nat..|stops_at 10%nat].
Qed.

Lemma loaded_ok `{!YamlLaws N} c stop o : loaded c stop o -> options_ok o.
Proof.
  intros [Hp _ _ _ _ Hh Hb Hc Hn _ _ _ _]. split.
  - rewrite Hh, Hb, Hc, Hn. unfold setting, get.
    split_and!; (destruct (_ <? _)%nat; [|done]); repeat case_match; auto with word; done.
  - rewrite Hp. unfold setting, get. destruct (_ <? _)%nat; [|done].
    destruct (listen_port c) as [[v|]|e] eqn:E; [|done..]. unfold listen_port, key_value in E.
    destruct (yaml_field _ _) as [n|]; [|done]. cbn in E. destruct (yaml_defined n); [|done].
    destruct (as_ushort n) as [w|] eqn:Ew; [|done]. injection E as <-. by apply as_ushort_range in Ew.
Qed.
End Load.

(** A document as nested association lists, for examples *)
Inductive doc := Scalar (n : option Z) (s : list byte) | Map (l : list (list byte * doc)) | Undefined.
#[export] Instance doc_Yaml : Yaml doc := {|
  yaml_field d k :=
    match d with
    | Map l => Value (default Undefined (snd <$> find (fun e => bool_decide (e.1 = k)) l))
    | Scalar _ _ => Raised (BadSubscript (lit "operator[] call on a scalar"))
    | Undefined => Value Undefined
    end;
  yaml_defined d := match d with Undefined => false | _ => true end;
  as_ushort d := match d with
    | Scalar (Some n) _ => if (0 <=? n) && (n <? 2 ^ 16) then Value n else Raised BadConversion
    | Undefined => Raised InvalidNode | _ => Raised BadConversion end;
  as_int d := match d with
    | Scalar (Some n) _ => if (- 2 ^ 31 <=? n) && (n <? 2 ^ 31) then Value n else Raised BadConversion
    | Undefined => Raised InvalidNode | _ => Raised BadConversion end;
  as_string d := match d with
    | Scalar _ s => Value s | Undefined => Raised InvalidNode | _ => Raised BadConversion end
|}.
#[export] Instance doc_YamlLaws : YamlLaws doc.
Proof.
  split; intros [[n|] s|l|] v; cbn; try done; unfold in_i32; zcases; intros [= <-]; lia.
Qed.

(** ** Properties *)

(** C40. For every file [load_config] gives each option the value of its own key,
    converted as the code does (the sizes are [size_t], so a negative number
    becomes a huge one; [MaxBodySize] is in units of 2^20), and its default when
    the key is absent; when a key cannot be read, the options of the keys before
    it are set, the others keep their defaults, and the exception is swallowed if
    it is one of the four the code catches and leaves [load_config] otherwise, as
    [BadSubscript] does.  It is undefined exactly when the keys before
    [MaxBodySize] can be read and its value times 2^20 does not fit an [int].  The
    console logger is on whatever the file says.  [reads_up_to c n]: the first [n]
    keys can be read. *)
Theorem load_config_correct {N} `{YamlLaws N} (c : N) :
  match load_config (Value c) with
  | Ok o => options_ok o /\ exists stop, reads_up_to c stop /\ loaded c stop o /\
      (stop = 11%nat \/ exists e, failures c !! stop = Some (Some e) /\ caught e = true)
  | Throws x => exists stop e, reads_up_to c stop /\ failures c !! stop = Some (Some e) /\
      caught e = false /\ x = escapes e
  | Crash f => f = SignedOverflow /\ reads_up_to c 6 /\
      exists v, body_limit c = Value (Some v) /\ ~ in_i32 (v * 2 ^ 20)
  end.
Proof.
  unfold load_config. destruct (load_body_spec c) as (stop & Hr & Hl).
  destruct (load_body c options_default) as [o [[]|e|]].
  - destruct Hl as [-> Hl]. split; [by eapply loaded_ok|]. exists 11%nat. auto.
  - destruct Hl as [He Hl]. destruct (caught e) eqn:Ec; [|eauto 10].
    split; [by eapply loaded_ok|]. exists stop. eauto 10.
  - destruct Hl as [-> Hl]. done.
Qed.

Definition sample_doc : doc := Map
  [(lit "ListenPort", Scalar (Some 8080) (lit "8080"));
   (lit "Connection", Map [(lit "MaxBodySize", Scalar (Some 4) (lit "4"))]);
   (lit "Memory", Map [(lit "ChunkCount", Scalar (Some 1024) (lit "1024"))]);
   (lit "Logger", Map [(lit "console", Scalar None (lit "false"))])].

Lemma load_config_correct_witness :
  exists o, load_config (Value sample_doc) = Ok o /\ options_ok o /\
    serve_port o = 8080 /\ opt_max_body_size o = 4194304 /\ iobuf_count o = 1024 /\ process o = 2.
Proof.
  pose proof (load_config_correct sample_doc) as Hc.
  destruct (load_config (Value sample_doc)) as [o| |] eqn:E; [|vm_compute in E; discriminate E..].
  exists o. split; [reflexivity|]. split; [exact (proj1 Hc)|]. vm_compute in E. injection E as <-.
  repeat split.
Defined.

(** Sections that are no maps, and a file that cannot be read *)
Example bad_subscript : exists what,
  load_config (Value (Map [(lit "Connection", Scalar None (lit "x"))])) = Throws (RuntimeError what).
Proof. eexists. vm_compute. reflexivity. Qed.
Example bad_file : load_config (N := doc) (Raised BadFile) = Ok options_default.
Proof. reflexivity. Qed.
