(* ===== verification/Process.v ===== *)
(** * The processes (main, do_fork and check_alive, src/src/cohttp.cpp)

    [main] forks the workers and then watches them: every five seconds
    [check_alive::check] collects the children that have exited and forks as
    many again.  [fork] is an argument: what it returns in the parent.  A worker
    serves until it is killed; if its set-up raises, [do_fork] returns in the
    child as it does in the parent.  Sockets and the scheduler are left out. *)
From S2P Require Import Prelude.

(** ** The parent *)
Record children := Children { running : gset Z; exited : list Z }.

(** [do_fork] in the parent: the result of [fork] is only compared with 0. *)
Definition do_fork (rc : Z) (s : gset Z) : gset Z := if 0 <? rc then {[rc]} ∪ s else s.

(** The [for] loops around [do_fork]: one [fork] result each *)
Definition fork_all (rcs : list Z) (s : gset Z) : gset Z := fold_left (fun s rc => do_fork rc s) rcs s.

(** [waitpid(-1, NULL, WNOHANG)] until it gives no more *)
Fixpoint reap (l : list Z) (count : Z) : outcome Z :=
  match l with
  | [] => Ok count
  | _ :: l' => n ← add_int count 1; reap l' n
  end.

(** [fork n] is what the [n] calls of [fork] return. *)
Definition check (fork : Z -> list Z) (c : children) : outcome children :=
  count ← reap (exited c) 0;
  Ok (Children (fork_all (fork count) (running c)) []).

(** A child exits. *)
Definition child_exits (pid : Z) (c : children) : children :=
  if bool_decide (pid ∈ running c) then Children (running c ∖ {[pid]}) (exited c ++ [pid]) else c.

(** New pids: positive, different, not in use *)
Definition fresh_pids (rcs : list Z) (s : gset Z) : Prop :=
  NoDup rcs /\ Forall (fun p => 0 < p /\ p ∉ s) rcs.

(** ** The process tree of [main]'s loop: how many processes come out of it, and
    how many serve.  [ok]: the set-up in the children succeeds. *)
Fixpoint main_loop (ok : bool) (n : nat) : nat * nat :=
  match n with
  | O => (1, 0)%nat
  | S n' =>
    let '(out, serving) := main_loop ok n' in
    if ok then (out, S serving) else (2 * out, 2 * serving)%nat
  end.

(** ** Lemmas *)
Lemma reap_spec l count : 0 <= count -> count + vlen l < 2 ^ 31 -> reap l count = Ok (count + vlen l).
Proof.
  revert count. induction l as [|x l IH]; intros count Hc Hl; cbn.
  - f_equal. unfold vlen. cbn. lia.
  - unfold vlen in *. cbn [length] in *. rewrite add_int_Ok by ulia. run. rewrite IH by lia. f_equal. lia.
Qed.

Lemma fork_all_size rcs s :
  fresh_pids rcs s -> base.size (fork_all rcs s) = (base.size s + length rcs)%nat.
Proof.
  revert s. induction rcs as [|p rcs IH]; intros s [Hn Hf]; cbn; [lia|].
  apply NoDup_cons in Hn as [Hp Hn]. apply Forall_cons in Hf as [[Hpos Hps] Hf].
  assert (do_fork p s = {[p]} ∪ s) as E by (unfold do_fork; by rewrite (proj2 (Z.ltb_lt 0 p))).
  change (fold_left _ rcs (do_fork p s)) with (fork_all rcs (do_fork p s)).
  rewrite IH; [rewrite E, size_union, size_singleton by set_solver; lia|].
  split; [done|]. rewrite E.
  rewrite Forall_forall in *. intros q Hq. destruct (Hf q Hq) as [? ?]. split; [done|].
  rewrite elem_of_union, elem_of_singleton. intros [->|?]; done.
Qed.

Lemma fork_all_fails rcs s : Forall (fun rc => rc < 0) rcs -> fork_all rcs s = s.
Proof.
  induction 1 as [|rc rcs Hrc _ IH]; [done|]. unfold fork_all in *. cbn. unfold do_fork at 2.
  by rewrite (proj2 (Z.ltb_ge 0 rc)) by lia.
Qed.

Lemma child_exits_total pid c :
  (base.size (running (child_exits pid c)) + length (exited (child_exits pid c)) =
   base.size (running c) + length (exited c))%nat.
Proof.
  unfold child_exits. case_bool_decide as Hp; [|done]. cbn. rewrite length_app. cbn.
  rewrite size_difference by set_solver. rewrite size_singleton.
  assert (base.size (running c) <> 0)%nat; [|lia]. intros E%size_empty_inv. set_solver.
Qed.

(** ** Properties *)

(** The watchdog keeps the number of workers: after any number of exits a
    [check] whose forks succeed brings the running workers back to where they
    were, and leaves none to collect; if its forks fail instead, the missing
    workers are never started again, since later checks count only new exits. *)
Theorem check_restores pids c fork :
  exited c = [] -> vlen pids < 2 ^ 31 ->
  let c1 := fold_left (fun c p => child_exits p c) pids c in
  (fresh_pids (fork (vlen (exited c1))) (running c1) ->
   length (fork (vlen (exited c1))) = length (exited c1) ->
   exists c2, check fork c1 = Ok c2 /\ exited c2 = [] /\
     base.size (running c2) = base.size (running c)) /\
  (Forall (fun rc => rc < 0) (fork (vlen (exited c1))) -> fork 0 = [] ->
   exists c2, check fork c1 = Ok c2 /\ running c2 = running c1 /\ check fork c2 = Ok c2).
Proof.
  intros He Hl c1.
  assert ((base.size (running c1) + length (exited c1) = base.size (running c))%nat /\
          (length (exited c1) <= length pids)%nat) as [Htot Hlen].
  { assert (forall c0, (base.size (running (fold_left (fun c p => child_exits p c) pids c0)) +
      length (exited (fold_left (fun c p => child_exits p c) pids c0)) =
      base.size (running c0) + length (exited c0))%nat /\
      (length (exited (fold_left (fun c p => child_exits p c) pids c0)) <=
       length (exited c0) + length pids)%nat) as Hg.
    { clear. induction pids as [|p l IH]; intros c0; cbn; [lia|].
      destruct (IH (child_exits p c0)) as [-> Hle]. rewrite child_exits_total. split; [done|].
      assert (length (exited (child_exits p c0)) <= S (length (exited c0)))%nat; [|lia].
      unfold child_exits. case_bool_decide; cbn; rewrite ?length_app; cbn; lia. }
    destruct (Hg c) as [H1 H2]. rewrite He in H1, H2. cbn in *. unfold c1. lia. }
  unfold check. rewrite reap_spec by (unfold vlen in *; lia). run. rewrite Z.add_0_l.
  split.
  - intros Hf Hn. eexists. split; [done|]. split; [done|]. cbn. rewrite fork_all_size by done. lia.
  - intros Hf H0. eexists. split; [done|]. cbn. rewrite fork_all_fails by done. split; [done|].
    by rewrite H0.
Qed.

Lemma check_restores_witness :
  exists c2, check (fun n => if n =? 1 then [30] else []) (child_exits 11 (Children {[10; 11]} [])) = Ok c2 /\
    base.size (running c2) = 2%nat.
Proof.
  destruct (check_restores [11] (Children {[10; 11]} []) (fun n => if n =? 1 then [30] else []))
    as [Hs _]; [reflexivity|vm_compute; reflexivity|].
  destruct Hs as (c2 & H1 & _ & H2).
  - split; [apply NoDup_singleton|]. apply Forall_singleton. split; [lia|].
    refine (bool_decide_unpack _ _). vm_compute. exact I.
  - vm_compute. reflexivity.
  - exists c2. split; [exact H1|exact H2].
Defined.

(** When the set-up succeeds [main]'s loop leaves one process, the parent, and
    [n] workers.  When it raises, each failed child goes on with the rest of
    the parent's loop: the loop ends in 2^n processes, none serving. *)
Lemma main_loop_processes n :
  main_loop true n = (1, n)%nat /\ main_loop false n = (2 ^ n, 0)%nat.
Proof.
  induction n as [|n [IH1 IH2]]; [done|]. cbn [main_loop]. rewrite IH1, IH2.
  split; [done|]. by rewrite Nat.pow_succ_r', Nat.mul_0_r.
Qed.
