(* ===== verification/Socketops.v ===== *)
(** * Socket operations (asio/detail/impl/socket_ops.ipp, detail/socket_ops.hpp)

    The server reads, writes and accepts through asio, of which the repository
    carries a copy (src/src/3rd).  This file models its lowest layer: the
    functions around the system calls, on Linux (of each [#if] the branch taken
    there).  The kernel is the class [Kernel]: a state that answers system
    calls.  An operation is a state transformer [io] on the kernel and [errno];
    the [error_code&] parameter is part of the result, [state_type&] as well.
    The loops that repeat a call take fuel. *)
From S2P Require Import Prelude.

(** ** error_code (asio/error_code.hpp, asio/error.hpp) *)
Inductive error_category := system_category | netdb_category | addrinfo_category | misc_category.
#[export] Instance error_category_eq_dec : EqDecision error_category.
Proof. solve_decision. Defined.

Record error_code := ErrorCode { value : Z; category : error_category }.
#[export] Instance error_code_eq_dec : EqDecision error_code.
Proof. solve_decision. Defined.

(** [error_code()], [operator!] and the conversion to [bool] *)
Definition error_code_new : error_code := ErrorCode 0 system_category.
Definition ec_not (ec : error_code) : bool := value ec =? 0.
Definition ec_bool (ec : error_code) : bool := negb (value ec =? 0).
Definition ec_eqb (e1 e2 : error_code) : bool :=
  (value e1 =? value e2) && bool_decide (category e1 = category e2).

(** The errors the functions below name, with the numbers Linux gives them *)
Definition EINTR := 4.
Definition EBADF := 9.
Definition EAGAIN := 11.
Definition ENOMEM := 12.
Definition EFAULT := 14.
Definition EINVAL := 22.
Definition ENOTTY := 25.
Definition EPROTO := 71.
Definition ENOTSOCK := 88.
Definition ECONNABORTED := 103.
Definition ENOBUFS := 105.
Definition EINPROGRESS := 115.
Definition basic_error (e : Z) : error_code := ErrorCode e system_category.
Definition interrupted := basic_error EINTR.
Definition bad_descriptor := basic_error EBADF.
Definition try_again := basic_error EAGAIN.
Definition would_block := basic_error EAGAIN.
Definition invalid_argument := basic_error EINVAL.
Definition not_socket := basic_error ENOTSOCK.
Definition connection_aborted := basic_error ECONNABORTED.
Definition no_buffer_space := basic_error ENOBUFS.
Definition in_progress := basic_error EINPROGRESS.
Definition already_open : error_code := ErrorCode 1 misc_category.
Definition eof : error_code := ErrorCode 2 misc_category.

(** ** state_type *)
Definition user_set_non_blocking := 1.
Definition internal_non_blocking := 2.
Definition non_blocking := Z.lor user_set_non_blocking internal_non_blocking.
Definition enable_connection_aborted := 4.
Definition user_set_linger := 8.
Definition stream_oriented := 16.
Definition datagram_oriented := 32.
Definition possible_dup := 64.

(** [state & flag] as a condition, [state |= flag] and [state &= ~flag] *)
Definition flag_set (state flag : Z) : bool := negb (Z.land state flag =? 0).
Definition flag_on (state flag : Z) : Z := Z.lor state flag.
Definition flag_off (state flag : Z) : Z := Z.ldiff state flag.

(** ** System calls (socket_types.hpp gives the constants) *)
Definition invalid_socket := -1.
Definition socket_error_retval := -1.
Definition custom_socket_option_level := i32 0xA5100000.
Definition enable_connection_aborted_option := 1.
Definition always_fail_option := 2.
Definition SOL_SOCKET := 1.
Definition AF_INET := 2.
Definition AF_INET6 := 10.
Definition SO_ERROR := 4.
Definition SO_SNDBUF := 7.
Definition SO_RCVBUF := 8.
Definition SO_LINGER := 13.
Definition FIONREAD := 0x541B.
Definition FIONBIO := 0x5421.
Definition SIOCATMARK := 0x8905.
Definition POLLIN := 1.
Definition POLLOUT := 4.
Definition MSG_NOSIGNAL := 0x4000.

Record iovec := Iovec { iov_base : Z; iov_len : Z }.

Inductive syscall :=
  | SysAccept (s : Z) (addrlen : option Z)
  | SysBind (s : Z) (addr : list byte) (addrlen : Z)
  | SysClose (s : Z)
  | SysIoctl (s cmd arg : Z)
  | SysShutdown (s what : Z)
  | SysConnect (s : Z) (addr : list byte) (addrlen : Z)
  | SysPoll (s events timeout : Z)
  | SysListen (s backlog : Z)
  | SysRecvmsg (s : Z) (iov : list iovec) (flags : Z)
  | SysSendmsg (s : Z) (data : list byte) (flags : Z)
  | SysSocket (af type protocol : Z)
  | SysSetsockopt (s level optname : Z) (optval : list byte) (optlen : Z)
  | SysGetsockopt (s level optname optlen : Z)
  | SysGetpeername (s addrlen : Z)
  | SysGetsockname (s addrlen : Z).

(** What a call gives back: its result, the new [errno] if it sets it, the
    bytes it stores for the caller, the integer it stores. *)
Record answer := Answer { a_ret : Z; a_errno : option Z; a_data : list byte; a_int : Z }.

Class Kernel (K : Type) := sys : syscall -> K -> K * answer.

(** ** The monad *)
Record world (K : Type) := World { kernel : K; errno_ : Z }.
Arguments World {K}.
Arguments kernel {K}.
Arguments errno_ {K}.
Definition io (K A : Type) : Type := world K -> A * world K.
#[export] Instance io_ret {K} : MRet (io K) := fun A a w => (a, w).
#[export] Instance io_bind {K} : MBind (io K) := fun A B f m w => let '(a, w') := m w in f a w'.

Section Ops.
Context {K : Type} `{Kernel K}.

Definition call (c : syscall) : io K answer := fun w =>
  let '(k, a) := sys c (kernel w) in (a, World k (default (errno_ w) (a_errno a))).

Definition clear_last_error : io K unit := fun w => (tt, World (kernel w) 0).

Definition error_wrapper (return_value : Z) : io K (Z * error_code) := fun w =>
  ((return_value, ErrorCode (errno_ w) system_category), w).

(** ** accept *)
Definition call_accept (s : Z) (addrlen : option Z) : io K (Z * (list byte * option Z)) :=
  a ← call (SysAccept s (u32 <$> addrlen));
  mret (a_ret a, (a_data a, match addrlen with Some _ => Some (u64 (a_int a)) | None => None end)).

(** The new socket, the peer's address and its length, the error *)
Definition accept (s : Z) (addrlen : option Z) : io K (Z * (list byte * option Z) * error_code) :=
  if s =? invalid_socket then mret (invalid_socket, ([], addrlen), bad_descriptor) else
  clear_last_error ;;
  '(new_s, addr) ← call_accept s addrlen;
  '(new_s, ec) ← error_wrapper new_s;
  if new_s =? invalid_socket then mret (new_s, addr, ec) else mret (new_s, addr, error_code_new).

(** ** poll *)
Definition poll_read (s state : Z) : io K (Z * error_code) :=
  if s =? invalid_socket then mret (socket_error_retval, bad_descriptor) else
  let timeout := if flag_set state user_set_non_blocking then 0 else -1 in
  clear_last_error ;;
  a ← call (SysPoll s POLLIN timeout);
  '(result, ec) ← error_wrapper (a_ret a);
  if result =? 0 then
    mret (result, if flag_set state user_set_non_blocking then would_block else error_code_new)
  else if 0 <? result then mret (result, error_code_new)
  else mret (result, ec).

Definition poll_write (s state : Z) : io K (Z * error_code) :=
  if s =? invalid_socket then mret (socket_error_retval, bad_descriptor) else
  let timeout := if flag_set state user_set_non_blocking then 0 else -1 in
  clear_last_error ;;
  a ← call (SysPoll s POLLOUT timeout);
  '(result, ec) ← error_wrapper (a_ret a);
  if result =? 0 then
    mret (result, if flag_set state user_set_non_blocking then would_block else error_code_new)
  else if 0 <? result then mret (result, error_code_new)
  else mret (result, ec).

Definition poll_connect (s : Z) : io K (Z * error_code) :=
  if s =? invalid_socket then mret (socket_error_retval, bad_descriptor) else
  clear_last_error ;;
  a ← call (SysPoll s POLLOUT (-1));
  '(result, ec) ← error_wrapper (a_ret a);
  mret (result, if 0 <=? result then error_code_new else ec).

(** ** The accept loops; [None]: out of fuel *)
Definition accept_retries (state : Z) (ec : error_code) : bool :=
  if ec_eqb ec would_block || ec_eqb ec try_again then negb (flag_set state user_set_non_blocking)
  else if ec_eqb ec connection_aborted then negb (flag_set state enable_connection_aborted)
  else if value ec =? EPROTO then negb (flag_set state enable_connection_aborted)
  else false.

Fixpoint sync_accept (fuel : nat) (s state : Z) (addrlen : option Z)
    : io K (option (Z * (list byte * option Z) * error_code)) :=
  match fuel with
  | O => mret None
  | S fuel' =>
    '(new_socket, addr, ec) ← accept s addrlen;
    if negb (new_socket =? invalid_socket) then mret (Some (new_socket, addr, ec)) else
    if negb (accept_retries state ec) then mret (Some (invalid_socket, addr, ec)) else
    '(result, ec) ← poll_read s 0;
    if result <? 0 then mret (Some (invalid_socket, addr, ec)) else
    sync_accept fuel' s state (snd addr)
  end.

(** Whether the operation is complete, and then what it gave *)
Fixpoint non_blocking_accept (fuel : nat) (s state : Z) (addrlen : option Z)
    : io K (option (bool * (Z * (list byte * option Z) * error_code))) :=
  match fuel with
  | O => mret None
  | S fuel' =>
    '(new_socket, addr, ec) ← accept s addrlen;
    if negb (new_socket =? invalid_socket) then mret (Some (true, (new_socket, addr, ec))) else
    if ec_eqb ec interrupted then non_blocking_accept fuel' s state (snd addr) else
    mret (Some (negb (accept_retries state ec), (new_socket, addr, ec)))
  end.

(** ** bind, shutdown, connect, listen, socket *)
Definition bind (s : Z) (addr : list byte) (addrlen : Z) : io K (Z * error_code) :=
  if s =? invalid_socket then mret (socket_error_retval, bad_descriptor) else
  clear_last_error ;;
  a ← call (SysBind s addr (u32 addrlen));
  '(result, ec) ← error_wrapper (a_ret a);
  mret (result, if result =? 0 then error_code_new else ec).

Definition shutdown (s what : Z) : io K (Z * error_code) :=
  if s =? invalid_socket then mret (socket_error_retval, bad_descriptor) else
  clear_last_error ;;
  a ← call (SysShutdown s what);
  '(result, ec) ← error_wrapper (a_ret a);
  mret (result, if result =? 0 then error_code_new else ec).

Definition connect (s : Z) (addr : list byte) (addrlen : Z) : io K (Z * error_code) :=
  if s =? invalid_socket then mret (socket_error_retval, bad_descriptor) else
  clear_last_error ;;
  a ← call (SysConnect s addr (u32 addrlen));
  '(result, ec) ← error_wrapper (a_ret a);
  if result =? 0 then mret (result, error_code_new)
  else if ec_eqb ec try_again then mret (result, no_buffer_space)
  else mret (result, ec).

Definition listen (s backlog : Z) : io K (Z * error_code) :=
  if s =? invalid_socket then mret (socket_error_retval, bad_descriptor) else
  clear_last_error ;;
  a ← call (SysListen s backlog);
  '(result, ec) ← error_wrapper (a_ret a);
  mret (result, if result =? 0 then error_code_new else ec).

Definition socket (af type protocol : Z) : io K (Z * error_code) :=
  clear_last_error ;;
  a ← call (SysSocket af type protocol);
  '(s, ec) ← error_wrapper (a_ret a);
  mret (s, if 0 <=? s then error_code_new else ec).

(** ** Socket options; [int]s are little-endian *)
Definition sizeof_int := 4.
Definition le_val (l : list byte) : Z := foldr (fun b v => uchar b + 256 * v) 0 l.
Definition int_of (l : list byte) : Z := i32 (le_val (take 4 l)).
Definition int_bytes (z : Z) : list byte :=
  let u := u32 z in
  [of_uchar u; of_uchar (u / 2 ^ 8); of_uchar (u / 2 ^ 16); of_uchar (u / 2 ^ 24)].
(** Storing at the start of an object *)
Definition overwrite (old new : list byte) : list byte := new ++ drop (length new) old.

Definition call_setsockopt (s level optname : Z) (optval : list byte) (optlen : Z) : io K Z :=
  a ← call (SysSetsockopt s level optname optval (u32 optlen)); mret (a_ret a).

Definition setsockopt (s state level optname : Z) (optval : list byte) (optlen : Z)
    : io K (Z * Z * error_code) :=
  if s =? invalid_socket then mret (socket_error_retval, state, bad_descriptor) else
  if (level =? custom_socket_option_level) && (optname =? always_fail_option)
  then mret (socket_error_retval, state, invalid_argument) else
  if (level =? custom_socket_option_level) && (optname =? enable_connection_aborted_option) then
    if negb (optlen =? sizeof_int) then mret (socket_error_retval, state, invalid_argument) else
    mret (0, (if negb (int_of optval =? 0) then flag_on state enable_connection_aborted
              else flag_off state enable_connection_aborted), error_code_new)
  else
  let state := if (level =? SOL_SOCKET) && (optname =? SO_LINGER)
               then flag_on state user_set_linger else state in
  clear_last_error ;;
  r ← call_setsockopt s level optname optval optlen;
  '(result, ec) ← error_wrapper r;
  mret (result, state, if result =? 0 then error_code_new else ec).

Definition call_getsockopt (s level optname : Z) (optval : list byte) (optlen : Z)
    : io K (Z * list byte * Z) :=
  a ← call (SysGetsockopt s level optname (u32 optlen));
  mret (a_ret a, overwrite optval (a_data a), u32 (a_int a)).

(** The result, the option's value and length, the error *)
Definition getsockopt (s state level optname : Z) (optval : list byte) (optlen : Z)
    : io K (Z * list byte * Z * error_code) :=
  if s =? invalid_socket then mret (socket_error_retval, optval, optlen, bad_descriptor) else
  if (level =? custom_socket_option_level) && (optname =? always_fail_option)
  then mret (socket_error_retval, optval, optlen, invalid_argument) else
  if (level =? custom_socket_option_level) && (optname =? enable_connection_aborted_option) then
    if negb (optlen =? sizeof_int) then mret (socket_error_retval, optval, optlen, invalid_argument)
    else mret (0, overwrite optval (int_bytes (if flag_set state enable_connection_aborted then 1 else 0)),
               optlen, error_code_new)
  else
  clear_last_error ;;
  '(r, optval, optlen) ← call_getsockopt s level optname optval optlen;
  '(result, ec) ← error_wrapper r;
  let optval :=
    if (result =? 0) && (level =? SOL_SOCKET) && (optlen =? sizeof_int)
       && ((optname =? SO_SNDBUF) || (optname =? SO_RCVBUF))
    then overwrite optval (int_bytes (Z.quot (int_of optval) 2)) else optval in
  mret (result, optval, optlen, if result =? 0 then error_code_new else ec).

(** ** Names *)
Definition call_getpeername (s addrlen : Z) : io K (Z * list byte * Z) :=
  a ← call (SysGetpeername s (u32 addrlen)); mret (a_ret a, a_data a, u32 (a_int a)).

Definition getpeername (s addrlen : Z) (cached : bool) : io K (Z * list byte * Z * error_code) :=
  if s =? invalid_socket then mret (socket_error_retval, [], addrlen, bad_descriptor) else
  clear_last_error ;;
  '(r, addr, addrlen) ← call_getpeername s addrlen;
  '(result, ec) ← error_wrapper r;
  mret (result, addr, addrlen, if result =? 0 then error_code_new else ec).

Definition call_getsockname (s addrlen : Z) : io K (Z * list byte * Z) :=
  a ← call (SysGetsockname s (u32 addrlen)); mret (a_ret a, a_data a, u32 (a_int a)).

Definition getsockname (s addrlen : Z) : io K (Z * list byte * Z * error_code) :=
  if s =? invalid_socket then mret (socket_error_retval, [], addrlen, bad_descriptor) else
  clear_last_error ;;
  '(r, addr, addrlen) ← call_getsockname s addrlen;
  '(result, ec) ← error_wrapper r;
  mret (result, addr, addrlen, if result =? 0 then error_code_new else ec).

(** ** Blocking modes: the new state is part of the result *)
Definition set_user_non_blocking (s state : Z) (v : bool) : io K (bool * Z * error_code) :=
  if s =? invalid_socket then mret (false, state, bad_descriptor) else
  clear_last_error ;;
  a ← call (SysIoctl s FIONBIO (if v then 1 else 0));
  '(result, ec) ← error_wrapper (a_ret a);
  if 0 <=? result then
    mret (true, (if v then flag_on state user_set_non_blocking
                 else flag_off state (Z.lor user_set_non_blocking internal_non_blocking)),
          error_code_new)
  else mret (false, state, ec).

Definition set_internal_non_blocking (s state : Z) (v : bool) : io K (bool * Z * error_code) :=
  if s =? invalid_socket then mret (false, state, bad_descriptor) else
  if negb v && flag_set state user_set_non_blocking then mret (false, state, invalid_argument) else
  clear_last_error ;;
  a ← call (SysIoctl s FIONBIO (if v then 1 else 0));
  '(result, ec) ← error_wrapper (a_ret a);
  if 0 <=? result then
    mret (true, (if v then flag_on state internal_non_blocking
                 else flag_off state internal_non_blocking), error_code_new)
  else mret (false, state, ec).

(** The result, the state, the argument after the call, the error *)
Definition ioctl (s state cmd arg : Z) : io K (Z * Z * Z * error_code) :=
  if s =? invalid_socket then mret (socket_error_retval, state, arg, bad_descriptor) else
  clear_last_error ;;
  a ← call (SysIoctl s cmd arg);
  '(result, ec) ← error_wrapper (a_ret a);
  let arg := if cmd =? FIONBIO then arg else a_int a in
  if 0 <=? result then
    mret (result,
          (if cmd =? FIONBIO then
             if negb (arg =? 0) then flag_on state user_set_non_blocking
             else flag_off state (Z.lor user_set_non_blocking internal_non_blocking)
           else state), arg, error_code_new)
  else mret (result, state, arg, ec).

Definition sockatmark (s : Z) : io K (bool * error_code) :=
  if s =? invalid_socket then mret (false, bad_descriptor) else
  a ← call (SysIoctl s SIOCATMARK 0);
  '(result, ec) ← error_wrapper (a_ret a);
  let ec := if result =? 0 then error_code_new else ec in
  let ec := if value ec =? ENOTTY then not_socket else ec in
  mret (if ec_bool ec then false else negb (a_int a =? 0), ec).

Definition available (s : Z) : io K (Z * error_code) :=
  if s =? invalid_socket then mret (0, bad_descriptor) else
  a ← call (SysIoctl s FIONREAD 0);
  '(result, ec) ← error_wrapper (a_ret a);
  let ec := if result =? 0 then error_code_new else ec in
  let ec := if value ec =? ENOTTY then not_socket else ec in
  mret (if ec_bool ec then 0 else u64 (a_int a), ec).

(** ** close *)
Definition close (s state : Z) (destruction : bool) : io K (Z * Z * error_code) :=
  if s =? invalid_socket then mret (0, state, error_code_new) else
  '(_, state, _) ← (if destruction && flag_set state user_set_linger
                    then setsockopt s state SOL_SOCKET SO_LINGER (int_bytes 0 ++ int_bytes 0) 8
                    else mret (0, state, error_code_new));
  clear_last_error ;;
  a ← call (SysClose s);
  '(result, ec) ← error_wrapper (a_ret a);
  '(result, state, ec) ←
    (if negb (result =? 0) && (ec_eqb ec would_block || ec_eqb ec try_again) then
       call (SysIoctl s FIONBIO 0) ;;
       let state := flag_off state non_blocking in
       clear_last_error ;;
       a ← call (SysClose s);
       '(result, ec) ← error_wrapper (a_ret a);
       mret (result, state, ec)
     else mret (result, state, ec));
  mret (result, state, if result =? 0 then error_code_new else ec).

(** ** Connecting *)
Definition sync_connect (s : Z) (addr : list byte) (addrlen : Z) : io K error_code :=
  '(_, ec) ← connect s addr addrlen;
  if negb (ec_eqb ec in_progress) && negb (ec_eqb ec would_block) then mret ec else
  '(r, ec) ← poll_connect s;
  if r <? 0 then mret ec else
  '(r, connect_error, _, ec) ← getsockopt s 0 SOL_SOCKET SO_ERROR (int_bytes 0) sizeof_int;
  if r =? socket_error_retval then mret ec else
  mret (ErrorCode (int_of connect_error) system_category).

(** Whether the connect has finished; [ec] is left alone when it has not. *)
Definition non_blocking_connect (s : Z) (ec : error_code) : io K (bool * error_code) :=
  a ← call (SysPoll s POLLOUT 0);
  if a_ret a =? 0 then mret (false, ec) else
  '(r, connect_error, _, ec) ← getsockopt s 0 SOL_SOCKET SO_ERROR (int_bytes 0) sizeof_int;
  if r =? 0 then
    mret (true, if negb (int_of connect_error =? 0)
                then ErrorCode (int_of connect_error) system_category else error_code_new)
  else mret (true, ec).

(** ** Receiving: the result, what was stored in the buffers, the error *)
Definition init_buf (data size : Z) : iovec := Iovec data size.
Definition msg_iov (bufs : list iovec) (count : Z) : list iovec := take (Z.to_nat (i32 count)) bufs.

Definition recv (s : Z) (bufs : list iovec) (count flags : Z) : io K (Z * list byte * error_code) :=
  clear_last_error ;;
  a ← call (SysRecvmsg s (msg_iov bufs count) flags);
  '(result, ec) ← error_wrapper (a_ret a);
  mret (result, a_data a, if 0 <=? result then error_code_new else ec).

Fixpoint sync_recv_loop (fuel : nat) (s state : Z) (bufs : list iovec) (count flags : Z)
    : io K (option (Z * list byte * error_code)) :=
  match fuel with
  | O => mret None
  | S fuel' =>
    '(bytes, data, ec) ← recv s bufs count flags;
    if 0 <? bytes then mret (Some (bytes, data, ec)) else
    if flag_set state stream_oriented && (bytes =? 0) then mret (Some (0, [], eof)) else
    if flag_set state user_set_non_blocking || (negb (ec_eqb ec would_block) && negb (ec_eqb ec try_again))
    then mret (Some (0, [], ec)) else
    '(r, ec) ← poll_read s 0;
    if r <? 0 then mret (Some (0, [], ec)) else
    sync_recv_loop fuel' s state bufs count flags
  end.

Definition sync_recv (fuel : nat) (s state : Z) (bufs : list iovec) (count flags : Z) (all_empty : bool)
    : io K (option (Z * list byte * error_code)) :=
  if s =? invalid_socket then mret (Some (0, [], bad_descriptor)) else
  if all_empty && flag_set state stream_oriented then mret (Some (0, [], error_code_new)) else
  sync_recv_loop fuel s state bufs count flags.

(** Whether the operation is complete; [bytes_transferred] is a reference that
    the end of the stream leaves alone. *)
Fixpoint non_blocking_recv (fuel : nat) (s : Z) (bufs : list iovec) (count flags : Z)
    (is_stream : bool) (bytes_transferred : Z) : io K (option (bool * Z * list byte * error_code)) :=
  match fuel with
  | O => mret None
  | S fuel' =>
    '(bytes, data, ec) ← recv s bufs count flags;
    if is_stream && (bytes =? 0) then mret (Some (true, bytes_transferred, [], eof)) else
    if ec_eqb ec interrupted
    then non_blocking_recv fuel' s bufs count flags is_stream bytes_transferred else
    if ec_eqb ec would_block || ec_eqb ec try_again
    then mret (Some (false, bytes_transferred, [], ec)) else
    if 0 <=? bytes then mret (Some (true, bytes, data, error_code_new))
    else mret (Some (true, 0, [], ec))
  end.

(** ** Sending from the memory [mem] *)
Definition iov_bytes (mem : Z -> byte) (v : iovec) : list byte :=
  mem <$> seqZ (iov_base v) (iov_len v).

Definition send (mem : Z -> byte) (s : Z) (bufs : list iovec) (count flags : Z)
    : io K (Z * error_code) :=
  clear_last_error ;;
  a ← call (SysSendmsg s (concat (iov_bytes mem <$> msg_iov bufs count)) (Z.lor flags MSG_NOSIGNAL));
  '(result, ec) ← error_wrapper (a_ret a);
  mret (result, if 0 <=? result then error_code_new else ec).

Fixpoint sync_send_loop (fuel : nat) (mem : Z -> byte) (s state : Z) (bufs : list iovec)
    (count flags : Z) : io K (option (Z * error_code)) :=
  match fuel with
  | O => mret None
  | S fuel' =>
    '(bytes, ec) ← send mem s bufs count flags;
    if 0 <=? bytes then mret (Some (bytes, ec)) else
    if flag_set state user_set_non_blocking || (negb (ec_eqb ec would_block) && negb (ec_eqb ec try_again))
    then mret (Some (0, ec)) else
    '(r, ec) ← poll_write s 0;
    if r <? 0 then mret (Some (0, ec)) else
    sync_send_loop fuel' mem s state bufs count flags
  end.

Definition sync_send (fuel : nat) (mem : Z -> byte) (s state : Z) (bufs : list iovec)
    (count flags : Z) (all_empty : bool) : io K (option (Z * error_code)) :=
  if s =? invalid_socket then mret (Some (0, bad_descriptor)) else
  if all_empty && flag_set state stream_oriented then mret (Some (0, error_code_new)) else
  sync_send_loop fuel mem s state bufs count flags.

Fixpoint non_blocking_send (fuel : nat) (mem : Z -> byte) (s : Z) (bufs : list iovec)
    (count flags bytes_transferred : Z) : io K (option (bool * Z * error_code)) :=
  match fuel with
  | O => mret None
  | S fuel' =>
    '(bytes, ec) ← send mem s bufs count flags;
    if ec_eqb ec interrupted then non_blocking_send fuel' mem s bufs count flags bytes_transferred else
    if ec_eqb ec would_block || ec_eqb ec try_again then mret (Some (false, bytes_transferred, ec)) else
    if 0 <=? bytes then mret (Some (true, bytes, error_code_new))
    else mret (Some (true, 0, ec))
  end.
End Ops.

(** ** What the kernel promises (POSIX and the Linux manual pages)

    A call that fails gives -1 and sets [errno].  [poll] without a timeout
    does not return 0, and fails with [poll_errno] only.  [sent] is what the peer
    of a socket is given, [nonblock] the descriptor's [O_NONBLOCK].
    [patience] says that a call is interrupted, finds the socket not ready or a
    connection gone only finitely often in a row. *)
Definition retry_errno (e : Z) : Prop := e = EINTR \/ e = EAGAIN \/ e = ECONNABORTED \/ e = EPROTO.
Definition poll_errno (e : Z) : Prop := e = EINTR \/ e = ENOMEM \/ e = EFAULT \/ e = EINVAL.
Definition is_transfer (c : syscall) : Prop :=
  match c with SysAccept _ _ | SysRecvmsg _ _ _ | SysSendmsg _ _ _ => True | _ => False end.
Definition room (iov : list iovec) : Z := foldr (fun v n => iov_len v + n) 0 iov.

Class KernelLaws (K : Type) `{Kernel K} := {
  patience : K -> nat;
  sent : K -> Z -> list byte;
  nonblock : K -> Z -> bool;
  sys_fails c k k' a : sys c k = (k', a) -> a_ret a < 0 ->
    a_ret a = -1 /\ exists e, a_errno a = Some e /\ 0 < e;
  sys_patience c k k' a : sys c k = (k', a) -> (patience k' <= patience k)%nat;
  sys_retry c k k' a e : sys c k = (k', a) -> is_transfer c -> a_ret a = -1 ->
    a_errno a = Some e -> retry_errno e -> (patience k' < patience k)%nat;
  sys_poll s events k k' a : sys (SysPoll s events (-1)) k = (k', a) ->
    a_ret a <> 0 /\ (a_ret a = -1 -> exists e, a_errno a = Some e /\ poll_errno e);
  sys_recv s iov flags k k' a : sys (SysRecvmsg s iov flags) k = (k', a) -> 0 <= a_ret a ->
    a_ret a = vlen (a_data a) /\ a_ret a <= room iov;
  sys_send s data flags k k' a : sys (SysSendmsg s data flags) k = (k', a) ->
    (0 <= a_ret a -> a_ret a <= vlen data /\ (a_ret a = 0 -> data = [])) /\
    sent k' s = sent k s ++ take (Z.to_nat (a_ret a)) data;
  sys_poll_sent s events timeout k k' a : sys (SysPoll s events timeout) k = (k', a) ->
    sent k' s = sent k s;
  sys_ioctl s cmd arg k k' a : sys (SysIoctl s cmd arg) k = (k', a) ->
    nonblock k' s = if (0 <=? a_ret a) && (cmd =? FIONBIO) then negb (arg =? 0) else nonblock k s;
  sys_option s level optname v len k k' a :
    sys (SysSetsockopt s level optname v len) k = (k', a) -> nonblock k' s = nonblock k s
}.

(** ** Lemmas *)
Ltac io_run := cbv beta iota delta [mbind io_bind mret io_ret]; cbn [kernel errno_ fst snd].

Lemma flag_on_spec state f g : flag_set (flag_on state f) g = flag_set state g || flag_set f g.
Proof.
  unfold flag_set, flag_on. rewrite Z.land_lor_distr_l, <- negb_andb. f_equal.
  apply eq_true_iff_eq. rewrite andb_true_iff, !Z.eqb_eq, Z.lor_eq_0_iff. done.
Qed.

Lemma flag_set_0 f : flag_set 0 f = false.
Proof. unfold flag_set. by rewrite Z.land_0_l. Qed.

Lemma flag_off_spec state f g : Z.ldiff g f = 0 -> flag_set (flag_off state f) g = false.
Proof.
  intros Hg. unfold flag_set, flag_off. apply negb_false_iff, Z.eqb_eq. apply Z.bits_inj'. intros i Hi.
  rewrite Z.land_spec, Z.ldiff_spec, Z.bits_0.
  assert (Z.testbit (Z.ldiff g f) i = false) as E by by rewrite Hg, Z.bits_0.
  rewrite Z.ldiff_spec in E. destruct (Z.testbit state i), (Z.testbit f i), (Z.testbit g i); done.
Qed.

Lemma ec_eqb_spec e1 e2 : ec_eqb e1 e2 = true <-> e1 = e2.
Proof.
  unfold ec_eqb. rewrite andb_true_iff, Z.eqb_eq, bool_decide_eq_true.
  destruct e1, e2; cbn. split; [intros [-> ->]; done|by intros [= -> ->]].
Qed.

Lemma ec_eqb_system e n : ec_eqb (ErrorCode e system_category) (basic_error n) = (e =? n).
Proof. unfold ec_eqb, basic_error. cbn. by rewrite bool_decide_true, andb_true_r. Qed.

Lemma ec_bool_pos e c : 0 < e -> ec_bool (ErrorCode e c) = true.
Proof. intros. unfold ec_bool. cbn. zcases. Qed.

Lemma poll_errno_pos e : poll_errno e -> 0 < e.
Proof. unfold poll_errno, EINTR, ENOMEM, EFAULT, EINVAL. lia. Qed.
Lemma poll_errno_not_again : ~ poll_errno EAGAIN.
Proof. unfold poll_errno, EINTR, ENOMEM, EFAULT, EINVAL, EAGAIN. lia. Qed.

Section Lemmas.
Context {K : Type} `{KernelLaws K}.

(** A blocking [poll] either reports the descriptor ready or fails; it changes
    nothing the stream shows. *)
Lemma poll_cases s events (w : world K) :
  exists r k e, call (SysPoll s events (-1)) (World (kernel w) 0) =
      (r, World k e) /\ (patience k <= patience (kernel w))%nat /\
    sent k s = sent (kernel w) s /\
    (0 < a_ret r \/ a_ret r = -1 /\ poll_errno e).
Proof.
  unfold call. io_run. destruct (sys (SysPoll s events (-1)) (kernel w)) as [k a] eqn:E.
  exists a, k, (default 0 (a_errno a)). split; [done|].
  split; [by eapply sys_patience|]. split; [by eapply sys_poll_sent|].
  destruct (sys_poll _ _ _ _ _ E) as [Hz Hne].
  destruct (Z.lt_ge_cases (a_ret a) 0) as [Hn|]; [right|left; lia].
  destruct (sys_fails _ _ _ _ E Hn) as (Hr & _). destruct (Hne Hr) as (e & -> & He). done.
Qed.

Lemma poll_read_blocking s (w : world K) : s <> invalid_socket ->
  exists r ec w', poll_read s 0 w = ((r, ec), w') /\ (patience (kernel w') <= patience (kernel w))%nat /\
    (0 < r \/ r = -1 /\ exists e, ec = ErrorCode e system_category /\ poll_errno e).
Proof.
  intros Hs. unfold poll_read. rewrite (proj2 (Z.eqb_neq _ _) Hs), flag_set_0. io_run.
  destruct (poll_cases s POLLIN w) as (r & k & e & Ec & Hp & _ & Hr).
  unfold clear_last_error. io_run. rewrite Ec. io_run. unfold error_wrapper. io_run.
  destruct Hr as [Hr|(Hr & He)].
  - rewrite (proj2 (Z.eqb_neq (a_ret r) 0)), (proj2 (Z.ltb_lt 0 _) Hr) by lia. do 3 eexists. eauto.
  - rewrite Hr. do 3 eexists. split; [done|]. split; [done|]. right. eauto.
Qed.

Lemma poll_write_blocking s (w : world K) : s <> invalid_socket ->
  exists r ec w', poll_write s 0 w = ((r, ec), w') /\ (patience (kernel w') <= patience (kernel w))%nat /\
    sent (kernel w') s = sent (kernel w) s /\
    (0 < r \/ r = -1 /\ exists e, ec = ErrorCode e system_category /\ poll_errno e).
Proof.
  intros Hs. unfold poll_write. rewrite (proj2 (Z.eqb_neq _ _) Hs), flag_set_0. io_run.
  destruct (poll_cases s POLLOUT w) as (r & k & e & Ec & Hp & Hsent & Hr).
  unfold clear_last_error. io_run. rewrite Ec. io_run. unfold error_wrapper. io_run.
  destruct Hr as [Hr|(Hr & He)].
  - rewrite (proj2 (Z.eqb_neq (a_ret r) 0)), (proj2 (Z.ltb_lt 0 _) Hr) by lia. do 3 eexists. eauto.
  - rewrite Hr. do 3 eexists. split; [done|]. split; [done|]. split; [done|]. right. eauto.
Qed.

(** A transfer call fails with a positive [errno]; one that asks for another
    try costs patience. *)
Lemma transfer_cases c (w : world K) : is_transfer c ->
  exists a k e, call c (World (kernel w) 0) = (a, World k e) /\ sys c (kernel w) = (k, a) /\
    (patience k <= patience (kernel w))%nat /\
    (0 <= a_ret a \/
     a_ret a = -1 /\ 0 < e /\ (retry_errno e -> (patience k < patience (kernel w))%nat)).
Proof.
  intros Ht. unfold call. io_run. destruct (sys c (kernel w)) as [k a] eqn:E.
  exists a, k, (default 0 (a_errno a)). split; [done|]. split; [done|].
  split; [by eapply sys_patience|].
  destruct (Z.lt_ge_cases (a_ret a) 0) as [Hn|]; [right|by left].
  destruct (sys_fails _ _ _ _ E Hn) as (Hr & e & He & Hpos). rewrite He. cbn.
  split_and!; [done|done|]. intros Hre. by eapply sys_retry.
Qed.

Lemma ec_would_block e :
  ec_eqb (ErrorCode e system_category) would_block || ec_eqb (ErrorCode e system_category) try_again
  = (e =? EAGAIN).
Proof. unfold would_block, try_again. rewrite ec_eqb_system. apply orb_diag. Qed.

Lemma ec_not_would_block e :
  negb (ec_eqb (ErrorCode e system_category) would_block) &&
  negb (ec_eqb (ErrorCode e system_category) try_again) = negb (e =? EAGAIN).
Proof. by rewrite <- negb_orb, ec_would_block. Qed.

(** ** Receiving *)
Lemma recv_cases s bufs count flags (w : world K) :
  exists bytes data ec w', recv s bufs count flags w = ((bytes, data, ec), w') /\
    (patience (kernel w') <= patience (kernel w))%nat /\
    (0 <= bytes /\ bytes = vlen data /\ bytes <= room (msg_iov bufs count) /\ ec = error_code_new \/
     bytes = -1 /\ exists e, ec = ErrorCode e system_category /\ 0 < e /\
       (retry_errno e -> (patience (kernel w') < patience (kernel w))%nat)).
Proof.
  unfold recv, clear_last_error. io_run.
  destruct (transfer_cases (SysRecvmsg s (msg_iov bufs count) flags) w) as (a & k & e & -> & Es & Hp & Hr); [done|].
  unfold error_wrapper. io_run. destruct Hr as [Hr|(Hr & He & Hre)].
  - rewrite (proj2 (Z.leb_le 0 _) Hr). do 4 eexists. split; [done|]. split; [done|]. left.
    destruct (sys_recv _ _ _ _ _ _ Es Hr). auto.
  - rewrite Hr. do 4 eexists. split; [done|]. split; [done|]. right. eauto.
Qed.

(** What reading from a stream gives: data, the end, or an error; a blocking
    socket never says that it would block. *)
Definition stream_read (state room : Z) (bytes : Z) (data : list byte) (ec : error_code) : Prop :=
  bytes = vlen data /\
  (ec = error_code_new /\ 0 < bytes <= room \/
   ec = eof /\ bytes = 0 \/
   category ec = system_category /\ ec_bool ec = true /\ bytes = 0 /\
     (flag_set state user_set_non_blocking = false -> ec <> would_block)).

Lemma sync_recv_returns fuel s state bufs count flags (w : world K) :
  s <> invalid_socket -> flag_set state stream_oriented = true ->
  (patience (kernel w) < fuel)%nat ->
  exists bytes data ec w',
    sync_recv_loop fuel s state bufs count flags w = (Some (bytes, data, ec), w') /\
    (patience (kernel w') <= patience (kernel w))%nat /\
    stream_read state (room (msg_iov bufs count)) bytes data ec.
Proof.
  intros Hs Hst. revert w. induction fuel as [|fuel IH]; intros w Hf; [lia|]. cbn [sync_recv_loop].
  destruct (recv_cases s bufs count flags w) as (bytes & data & ec & w1 & E & Hp & Hc). io_run. rewrite E. io_run.
  rewrite Hst. cbn [andb].
  destruct Hc as [(Hb & Hl & Hr & ->)|(-> & e & -> & He & Hre)].
  - destruct (Z.ltb_spec 0 bytes); [do 4 eexists; split; [done|]; split; [done|]; split; [done|]; left; auto|].
    rewrite (proj2 (Z.eqb_eq bytes 0)) by lia. do 4 eexists. split; [done|]. split; [done|].
    split; [done|]. by right; left.
  - change (0 <? -1) with false. change (-1 =? 0) with false. cbv iota.
    rewrite ec_not_would_block. destruct (flag_set state user_set_non_blocking) eqn:Enb; cbn [orb].
    { do 4 eexists. split; [done|]. split; [done|]. split; [done|]. right; right.
      split_and!; [done|by apply ec_bool_pos|done|congruence]. }
    destruct (Z.eqb_spec e EAGAIN) as [->|Hne]; cbn [negb].
    + destruct (poll_read_blocking s w1 Hs) as (r & ec & w2 & E2 & Hp2 & Hr). rewrite E2. io_run.
      assert (patience (kernel w1) < patience (kernel w))%nat by (apply Hre; unfold retry_errno; auto).
      destruct (Z.ltb_spec r 0).
      * do 4 eexists. split; [done|]. split; [lia|]. split; [done|]. right; right.
        destruct Hr as [?|(_ & e2 & -> & He2)]; [lia|]. split_and!; [done|by apply ec_bool_pos, poll_errno_pos|done|].
        intros _ [= ->]. by apply poll_errno_not_again.
      * destruct (IH w2) as (b & d & ec' & w3 & -> & ? & ?); [lia|]. do 4 eexists. split; [done|]. split; [lia|done].
    + do 4 eexists. split; [done|]. split; [done|]. split; [done|]. right; right.
      split_and!; [done|by apply ec_bool_pos|done|]. intros _ [= ?]. done.
Qed.

(** ** Sending *)
Lemma send_cases mem s bufs count flags (w : world K) :
  let data := concat (iov_bytes mem <$> msg_iov bufs count) in
  exists bytes ec w', send mem s bufs count flags w = ((bytes, ec), w') /\
    (patience (kernel w') <= patience (kernel w))%nat /\
    (0 <= bytes <= vlen data /\ (bytes = 0 -> data = []) /\ ec = error_code_new /\
       sent (kernel w') s = sent (kernel w) s ++ take (Z.to_nat bytes) data \/
     bytes = -1 /\ sent (kernel w') s = sent (kernel w) s /\
       exists e, ec = ErrorCode e system_category /\ 0 < e /\
       (retry_errno e -> (patience (kernel w') < patience (kernel w))%nat)).
Proof.
  intros data. unfold send, clear_last_error. io_run.
  destruct (transfer_cases (SysSendmsg s data (Z.lor flags MSG_NOSIGNAL)) w)
    as (a & k & e & Ec & Es & Hp & Hr); [done|]. fold data. rewrite Ec.
  unfold error_wrapper. io_run. destruct (sys_send _ _ _ _ _ _ Es) as [Hok Hs].
  destruct Hr as [Hr|(Hr & He & Hre)].
  - destruct (Hok Hr) as [Hle Hz]. rewrite (proj2 (Z.leb_le 0 _) Hr). do 3 eexists.
    split; [done|]. split; [done|]. left. auto.
  - rewrite Hr in *. do 3 eexists. split; [done|]. split; [done|]. right. split; [done|].
    split; [by cbn [kernel]; rewrite Hs, app_nil_r|eauto].
Qed.

(** What writing to a stream gives: some of the data, or an error and none of it. *)
Definition stream_written (state : Z) (data : list byte) (bytes : Z) (ec : error_code) : Prop :=
  0 <= bytes <= vlen data /\
  (ec = error_code_new /\ (bytes = 0 -> data = []) \/
   category ec = system_category /\ ec_bool ec = true /\ bytes = 0 /\
     (flag_set state user_set_non_blocking = false -> ec <> would_block)).

Lemma sync_send_returns fuel mem s state bufs count flags (w : world K) :
  s <> invalid_socket -> (patience (kernel w) < fuel)%nat ->
  let data := concat (iov_bytes mem <$> msg_iov bufs count) in
  exists bytes ec w', sync_send_loop fuel mem s state bufs count flags w = (Some (bytes, ec), w') /\
    (patience (kernel w') <= patience (kernel w))%nat /\
    stream_written state data bytes ec /\
    sent (kernel w') s = sent (kernel w) s ++ take (Z.to_nat bytes) data.
Proof.
  intros Hs Hf data. revert w Hf. induction fuel as [|fuel IH]; intros w Hf; [lia|].
  cbn [sync_send_loop]. pose proof (vlen_nonneg data).
  destruct (send_cases mem s bufs count flags w) as (bytes & ec & w1 & E & Hp & Hc). io_run. rewrite E. io_run.
  fold data in Hc. destruct Hc as [(Hb & Hz & -> & Hsent)|(-> & Hsent & e & -> & He & Hre)].
  - rewrite (proj2 (Z.leb_le 0 _)) by lia. do 3 eexists. split; [done|]. split; [done|].
    split; [|done]. split; [done|]. by left.
  - change (0 <=? -1) with false. cbv iota. rewrite ec_not_would_block.
    destruct (flag_set state user_set_non_blocking) eqn:Enb; cbn [orb].
    { do 3 eexists. split; [done|]. split; [done|]. split; [|by rewrite Hsent, app_nil_r].
      split; [lia|]. right. split_and!; [done|by apply ec_bool_pos|done|congruence]. }
    destruct (Z.eqb_spec e EAGAIN) as [->|Hne]; cbn [negb].
    + destruct (poll_write_blocking s w1 Hs) as (r & ec & w2 & E2 & Hp2 & Hs2 & Hr). rewrite E2. io_run.
      assert (patience (kernel w1) < patience (kernel w))%nat by (apply Hre; unfold retry_errno; auto).
      destruct (Z.ltb_spec r 0).
      * do 3 eexists. split; [done|]. split; [lia|]. split; [|by rewrite Hs2, Hsent, app_nil_r].
        split; [lia|]. right. destruct Hr as [?|(_ & e2 & -> & He2)]; [lia|]. split_and!; [done|by apply ec_bool_pos, poll_errno_pos|done|].
        intros _ [= ->]. by apply poll_errno_not_again.
      * destruct (IH w2) as (b & ec' & w3 & -> & ? & ? & Hs3); [lia|]. do 3 eexists. split; [done|].
        split; [lia|]. split; [done|]. by rewrite Hs3, Hs2, Hsent.
    + do 3 eexists. split; [done|]. split; [done|]. split; [|by rewrite Hsent, app_nil_r].
      split; [lia|]. right. split_and!; [done|by apply ec_bool_pos|done|]. intros _ [= ?]. done.
Qed.

(** ** Accepting *)
Lemma accept_cases s addrlen (w : world K) :
  s <> invalid_socket ->
  exists new_s addr ec w', accept s addrlen w = ((new_s, addr, ec), w') /\
    (patience (kernel w') <= patience (kernel w))%nat /\
    (0 <= new_s /\ ec = error_code_new \/
     new_s = invalid_socket /\ exists e, ec = ErrorCode e system_category /\ 0 < e /\
       (retry_errno e -> (patience (kernel w') < patience (kernel w))%nat)).
Proof.
  intros Hs. unfold accept. rewrite (proj2 (Z.eqb_neq _ _) Hs). unfold clear_last_error, call_accept. io_run.
  destruct (transfer_cases (SysAccept s (u32 <$> addrlen)) w) as (a & k & e & -> & Es & Hp & Hr); [done|].
  unfold error_wrapper. io_run. destruct Hr as [Hr|(Hr & He & Hre)].
  - rewrite (proj2 (Z.eqb_neq _ _)) by (unfold invalid_socket; lia). do 4 eexists. eauto.
  - rewrite Hr. do 4 eexists. split; [done|]. split; [done|]. right. eauto.
Qed.

(** The errors that [accept] keeps to itself *)
Lemma accept_retries_errno state e :
  accept_retries state (ErrorCode e system_category) = true -> retry_errno e.
Proof.
  unfold accept_retries, retry_errno. rewrite ec_would_block. unfold connection_aborted.
  rewrite ec_eqb_system. cbn [value]. zcases; auto.
Qed.

Lemma accept_retries_poll state e :
  poll_errno e -> accept_retries state (ErrorCode e system_category) = false.
Proof.
  unfold accept_retries, poll_errno. rewrite ec_would_block. unfold connection_aborted.
  rewrite ec_eqb_system. cbn [value]. intros He.
  assert (e <> EAGAIN /\ e <> ECONNABORTED /\ e <> EPROTO) as (? & ? & ?)
    by (unfold EINTR, ENOMEM, EFAULT, EINVAL, EAGAIN, ECONNABORTED, EPROTO in *; lia).
  zcases.
Qed.

(** What [accept] gives: a socket, or an error that is not one of those. *)
Definition accepted_ok (state new_s : Z) (ec : error_code) : Prop :=
  0 <= new_s /\ ec = error_code_new \/
  new_s = invalid_socket /\ category ec = system_category /\ ec_bool ec = true /\
    accept_retries state ec = false.

Lemma sync_accept_returns fuel s state addrlen (w : world K) :
  s <> invalid_socket -> (patience (kernel w) < fuel)%nat ->
  exists new_s addr ec w', sync_accept fuel s state addrlen w = (Some (new_s, addr, ec), w') /\
    (patience (kernel w') <= patience (kernel w))%nat /\ accepted_ok state new_s ec.
Proof.
  intros Hs. revert w addrlen. induction fuel as [|fuel IH]; intros w addrlen Hf; [lia|].
  cbn [sync_accept].
  destruct (accept_cases s addrlen w Hs) as (new_s & addr & ec & w1 & E & Hp & Hc). io_run. rewrite E. io_run.
  destruct Hc as [(Hn & ->)|(-> & e & -> & He & Hre)].
  - rewrite (proj2 (Z.eqb_neq _ _)) by (unfold invalid_socket; lia). cbn [negb].
    do 4 eexists. split; [done|]. split; [done|]. by left.
  - cbn [negb]. change (invalid_socket =? invalid_socket) with true. cbn [negb].
    destruct (accept_retries state (ErrorCode e system_category)) eqn:Er; cbn [negb].
    + specialize (Hre (accept_retries_errno _ _ Er)).
      destruct (poll_read_blocking s w1 Hs) as (r & ec & w2 & E2 & Hp2 & Hr). rewrite E2. io_run.
      destruct (Z.ltb_spec r 0).
      * do 4 eexists. split; [done|]. split; [lia|]. right. destruct Hr as [?|(_ & e2 & -> & He2)]; [lia|].
        split_and!; [done|done|by apply ec_bool_pos, poll_errno_pos|by apply accept_retries_poll].
      * destruct (IH w2 (snd addr)) as (n & ad & ec' & w3 & -> & ? & ?); [lia|]. do 4 eexists. split; [done|].
        split; [lia|done].
    + do 4 eexists. split; [done|]. split; [done|]. right.
      split_and!; [done|done|by apply ec_bool_pos|auto].
Qed.

(** ** Operations for the reactor: complete unless the socket is not ready *)
Lemma ec_interrupted e : ec_eqb (ErrorCode e system_category) interrupted = (e =? EINTR).
Proof. apply ec_eqb_system. Qed.

Lemma non_blocking_send_returns fuel mem s bufs count flags n0 (w : world K) :
  (patience (kernel w) < fuel)%nat ->
  let data := concat (iov_bytes mem <$> msg_iov bufs count) in
  exists complete bytes ec w',
    non_blocking_send fuel mem s bufs count flags n0 w = (Some (complete, bytes, ec), w') /\
    ec <> interrupted /\ (complete = false <-> ec = would_block) /\
    if complete then 0 <= bytes <= vlen data /\
        sent (kernel w') s = sent (kernel w) s ++ take (Z.to_nat bytes) data
    else bytes = n0 /\ sent (kernel w') s = sent (kernel w) s.
Proof.
  intros Hf data. revert w Hf. induction fuel as [|fuel IH]; intros w Hf; [lia|].
  cbn [non_blocking_send]. pose proof (vlen_nonneg data).
  destruct (send_cases mem s bufs count flags w) as (bytes & ec & w1 & E & Hp & Hc). io_run. rewrite E. io_run.
  fold data in Hc. destruct Hc as [(Hb & Hz & -> & Hsent)|(-> & Hsent & e & -> & He & Hre)].
  - change (ec_eqb error_code_new interrupted) with false.
    change (ec_eqb error_code_new would_block || ec_eqb error_code_new try_again) with false. cbv iota.
    rewrite (proj2 (Z.leb_le 0 _)) by lia. do 4 eexists. split; [done|]. split; [done|].
    split; [split; done|done].
  - rewrite ec_interrupted, ec_would_block. destruct (Z.eqb_spec e EINTR) as [->|Hi].
    + assert (patience (kernel w1) < patience (kernel w))%nat by (apply Hre; unfold retry_errno; auto).
      destruct (IH w1) as (c & b & ec & w2 & -> & Hi & Hw & Hcase); [lia|].
      do 4 eexists. split; [done|]. split; [done|]. split; [done|]. by rewrite <- Hsent.
    + destruct (Z.eqb_spec e EAGAIN) as [->|Ha].
      * do 4 eexists. split; [done|]. split; [done|]. done.
      * change (0 <=? -1) with false. do 4 eexists. split; [done|].
        split; [intros [= ?]; done|]. split; [|split; [lia|by rewrite Hsent, app_nil_r]].
        split; [done|intros [= ?]; done].
Qed.

Lemma non_blocking_recv_returns fuel s bufs count flags is_stream n0 (w : world K) :
  (patience (kernel w) < fuel)%nat ->
  exists complete bytes data ec w',
    non_blocking_recv fuel s bufs count flags is_stream n0 w = (Some (complete, bytes, data, ec), w') /\
    ec <> interrupted /\ (complete = false <-> ec = would_block) /\
    (ec = error_code_new -> bytes = vlen data /\ (if is_stream then 0 < bytes else 0 <= bytes) /\
       bytes <= room (msg_iov bufs count)) /\
    (ec <> error_code_new -> data = [] /\ if complete && negb (ec_eqb ec eof) then bytes = 0 else bytes = n0).
Proof.
  revert n0. intros n0 Hf. revert w Hf. induction fuel as [|fuel IH]; intros w Hf; [lia|].
  cbn [non_blocking_recv].
  destruct (recv_cases s bufs count flags w) as (bytes & data & ec & w1 & E & Hp & Hc). io_run. rewrite E. io_run.
  destruct Hc as [(Hb & Hl & Hr & ->)|(-> & e & -> & He & Hre)].
  - destruct (is_stream && (bytes =? 0)) eqn:Eof.
    { do 5 eexists. split; [done|]. split_and!; try done. }
    change (ec_eqb error_code_new interrupted) with false.
    change (ec_eqb error_code_new would_block || ec_eqb error_code_new try_again) with false. cbv iota.
    rewrite (proj2 (Z.leb_le 0 _)) by lia. do 5 eexists. split; [done|]. split; [done|].
    split; [split; done|]. split; [intros _; split; [done|]|done].
    apply andb_false_iff in Eof. destruct is_stream; [|done]. destruct Eof as [|Hz%Z.eqb_neq]; [done|]. lia.
  - change (-1 =? 0) with false. rewrite andb_false_r, ec_interrupted, ec_would_block.
    destruct (Z.eqb_spec e EINTR) as [->|Hi].
    + assert (patience (kernel w1) < patience (kernel w))%nat by (apply Hre; unfold retry_errno; auto).
      apply IH. lia.
    + destruct (Z.eqb_spec e EAGAIN) as [->|Ha].
      * do 5 eexists. split; [done|]. split; [done|]. split; [done|]. split; [done|]. done.
      * change (0 <=? -1) with false. do 5 eexists. split; [done|].
        split; [intros [= ?]; done|]. split; [split; [done|intros [= ?]; done]|].
        split; [intros [= ->]; lia|]. intros _. split; [done|].
        assert (ec_eqb (ErrorCode e system_category) eof = false) as ->; [|done].
        apply not_true_iff_false. by rewrite ec_eqb_spec.
Qed.

(** ** Blocking modes *)
Lemma flag_set_lor state f g : flag_set state (Z.lor f g) = flag_set state f || flag_set state g.
Proof.
  unfold flag_set. rewrite Z.land_lor_distr_r, <- negb_andb. f_equal.
  apply eq_true_iff_eq. by rewrite andb_true_iff, !Z.eqb_eq, Z.lor_eq_0_iff.
Qed.

Lemma flag_off_other state f g : Z.land f g = 0 -> flag_set (flag_off state f) g = flag_set state g.
Proof.
  intros Hfg. unfold flag_set, flag_off. do 2 f_equal. apply Z.bits_inj'. intros i Hi.
  rewrite !Z.land_spec, Z.ldiff_spec.
  assert (Z.testbit (Z.land f g) i = false) as E by by rewrite Hfg, Z.bits_0.
  rewrite Z.land_spec in E. destruct (Z.testbit state i), (Z.testbit f i), (Z.testbit g i); done.
Qed.

(** The state says what mode the descriptor is in. *)
Definition mode_ok (s : Z) (x : Z * world K) : Prop :=
  nonblock (kernel x.2) s = flag_set x.1 non_blocking.

(** The operations that change a socket's state *)
Inductive mode_step (s : Z) : Z * world K -> Z * world K -> Prop :=
  | step_user v ok state state' ec w w' :
      set_user_non_blocking s state v w = ((ok, state', ec), w') -> mode_step s (state, w) (state', w')
  | step_internal v ok state state' ec w w' :
      set_internal_non_blocking s state v w = ((ok, state', ec), w') -> mode_step s (state, w) (state', w')
  | step_ioctl cmd arg r arg' state state' ec w w' :
      ioctl s state cmd arg w = ((r, state', arg', ec), w') -> mode_step s (state, w) (state', w')
  | step_option level optname v len r state state' ec w w' :
      setsockopt s state level optname v len w = ((r, state', ec), w') -> mode_step s (state, w) (state', w').

Lemma set_user_spec s state v (w : world K) : mode_ok s (state, w) ->
  exists ok state' ec w', set_user_non_blocking s state v w = ((ok, state', ec), w') /\
    mode_ok s (state', w') /\
    (ok = true -> ec = error_code_new /\ flag_set state' non_blocking = v /\
                  flag_set state' user_set_non_blocking = v) /\ (ok = false -> state' = state).
Proof.
  unfold mode_ok. cbn [fst snd]. intros Hm. unfold set_user_non_blocking.
  destruct (Z.eqb_spec s invalid_socket); [by repeat eexists|].
  unfold clear_last_error, call, error_wrapper. io_run.
  destruct (sys _ (kernel w)) as [k a] eqn:E. apply sys_ioctl in E. io_run.
  change (FIONBIO =? FIONBIO) with true in E. rewrite andb_true_r in E.
  destruct (0 <=? a_ret a) eqn:Er; do 4 eexists; (split; [done|]); cbn [kernel]; rewrite E;
    [|by rewrite Hm]. unfold non_blocking. destruct v.
  - by rewrite flag_set_lor, !flag_on_spec, orb_true_r.
  - rewrite !flag_off_spec by done. done.
Qed.

Lemma set_internal_spec s state v (w : world K) : mode_ok s (state, w) ->
  exists ok state' ec w', set_internal_non_blocking s state v w = ((ok, state', ec), w') /\
    mode_ok s (state', w') /\
    (ok = true -> ec = error_code_new /\ flag_set state' non_blocking = v) /\ (ok = false -> state' = state) /\
    flag_set state' user_set_non_blocking = flag_set state user_set_non_blocking.
Proof.
  unfold mode_ok. cbn [fst snd]. intros Hm. unfold set_internal_non_blocking.
  destruct (Z.eqb_spec s invalid_socket); [by repeat eexists|].
  destruct (negb v && flag_set state user_set_non_blocking) eqn:Ev; [by repeat eexists|].
  unfold clear_last_error, call, error_wrapper. io_run.
  destruct (sys _ (kernel w)) as [k a] eqn:E. apply sys_ioctl in E. io_run.
  change (FIONBIO =? FIONBIO) with true in E. rewrite andb_true_r in E.
  destruct (0 <=? a_ret a) eqn:Er; do 4 eexists; (split; [done|]); cbn [kernel]; rewrite E;
    [|by rewrite Hm]. unfold non_blocking. rewrite !flag_set_lor. destruct v.
  - rewrite !flag_on_spec. change (flag_set internal_non_blocking internal_non_blocking) with true.
    change (flag_set internal_non_blocking user_set_non_blocking) with false.
    by rewrite orb_false_r, !orb_true_r.
  - cbn [negb andb] in Ev. rewrite flag_off_other by done. rewrite flag_off_spec by done. by rewrite Ev.
Qed.

Lemma ioctl_spec s state cmd arg (w : world K) : mode_ok s (state, w) ->
  exists r state' arg' ec w', ioctl s state cmd arg w = ((r, state', arg', ec), w') /\
    mode_ok s (state', w') /\ (r < 0 -> state' = state).
Proof.
  unfold mode_ok. cbn [fst snd]. intros Hm. unfold ioctl.
  destruct (Z.eqb_spec s invalid_socket); [by repeat eexists|].
  unfold clear_last_error, call, error_wrapper. io_run.
  destruct (sys _ (kernel w)) as [k a] eqn:E. apply sys_ioctl in E. io_run.
  destruct (Z.leb_spec 0 (a_ret a)); cbn [andb] in E; [|repeat eexists; cbn [kernel]; congruence].
  do 5 eexists; split; [done|]. split; [|lia]. cbn [kernel]. rewrite E.
  destruct (cmd =? FIONBIO); [|done]. unfold non_blocking. destruct (arg =? 0); cbn [negb].
  - by rewrite !flag_off_spec by done.
  - by rewrite flag_set_lor, !flag_on_spec, orb_true_r.
Qed.

Lemma setsockopt_spec s state level optname v len (w : world K) : mode_ok s (state, w) ->
  exists r state' ec w', setsockopt s state level optname v len w = ((r, state', ec), w') /\
    mode_ok s (state', w').
Proof.
  unfold mode_ok. cbn [fst snd]. intros Hm. unfold setsockopt.
  destruct (Z.eqb_spec s invalid_socket); [by repeat eexists|].
  destruct ((level =? _) && _); [by repeat eexists|]. destruct ((level =? _) && _).
  - destruct (negb _); [by repeat eexists|]. do 4 eexists. split; [done|]. rewrite Hm.
    destruct (negb _); [|by rewrite flag_off_other].
    rewrite flag_on_spec. change (flag_set enable_connection_aborted non_blocking) with false.
    by rewrite orb_false_r.
  - unfold clear_last_error, call_setsockopt, call, error_wrapper. io_run.
    destruct (sys _ (kernel w)) as [k a] eqn:E. apply sys_option in E. io_run.
    do 4 eexists. split; [done|]. cbn [kernel]. rewrite E, Hm.
    destruct (_ && _); [|done]. rewrite flag_on_spec.
    change (flag_set user_set_linger non_blocking) with false. by rewrite orb_false_r.
Qed.

Lemma mode_step_ok s x y : mode_step s x y -> mode_ok s x -> mode_ok s y.
Proof.
  intros [v ok st st' ec w w' E|v ok st st' ec w w' E|cmd arg r arg' st st' ec w w' E
    |level optname v len r st st' ec w w' E] Hm.
  - destruct (set_user_spec s st v w Hm) as (? & ? & ? & ? & E' & ? & _). rewrite E in E'. by simplify_eq.
  - destruct (set_internal_spec s st v w Hm) as (? & ? & ? & ? & E' & ? & _). rewrite E in E'. by simplify_eq.
  - destruct (ioctl_spec s st cmd arg w Hm) as (? & ? & ? & ? & ? & E' & ? & _). rewrite E in E'. by simplify_eq.
  - destruct (setsockopt_spec s st level optname v len w Hm) as (? & ? & ? & ? & E' & ?). rewrite E in E'.
    by simplify_eq.
Qed.
End Lemmas.

Lemma int_of_bytes z : in_i32 z -> int_of (int_bytes z) = z.
Proof.
  intros Hz. unfold int_of, int_bytes. pose proof (u32_range z) as Hu.
  set (u := u32 z) in *. cbn [take le_val foldr].
  assert (forall x, uchar (of_uchar x) = x mod 256) as Hmod.
  { intros x. rewrite <- (uchar_of_uchar (x mod 256)) by (apply Z.mod_pos_bound; lia).
    f_equal. unfold of_uchar. by rewrite Z.mod_mod by lia. }
  rewrite !Hmod.
  assert (u mod 256 + 256 * ((u / 2 ^ 8) mod 256 + 256 * ((u / 2 ^ 16) mod 256 +
    256 * ((u / 2 ^ 24) mod 256 + 256 * 0))) = u) as ->.
  { rewrite (Z.mod_small (u / 2 ^ 24)) by (split; [apply Z.div_pos|apply Z.div_lt_upper_bound]; lia).
    change (2 ^ 16) with (2 ^ 8 * 256). change (2 ^ 24) with (2 ^ 8 * 256 * 256).
    rewrite <- !Z.div_div by lia. change (2 ^ 8) with 256.
    pose proof (Z.div_mod u 256). pose proof (Z.div_mod (u / 256) 256).
    pose proof (Z.div_mod (u / 256 / 256) 256). lia. }
  unfold u, i32, u32, in_i32 in *. rewrite Z.add_mod_idemp_l by lia. rewrite Z.mod_small; lia.
Qed.

(** ** A kernel that follows a script

    Each transfer takes the next number: -e fails with error e, n moves n bytes
    (as far as there are, at least one) or accepts the descriptor n; at the end
    of the script transfers fail with [EPIPE]. *)
Record script := Script { todo : list Z; script_sent : gmap Z (list byte); script_modes : gset Z }.
Definition script_pop (k : script) : script * Z :=
  match todo k with
  | v :: l => (Script l (script_sent k) (script_modes k), v)
  | [] => (k, -32)
  end.
#[export] Instance script_kernel : Kernel script := fun c k =>
  match c with
  | SysSendmsg s data _ =>
    let '(k, v) := script_pop k in
    if v <? 0 then (k, Answer (-1) (Some (- v)) [] 0) else
    let n := Z.min (vlen data) (Z.max 1 v) in
    (Script (todo k) (<[s := default [] (script_sent k !! s) ++ take (Z.to_nat n) data]> (script_sent k))
       (script_modes k), Answer n None [] 0)
  | SysRecvmsg s iov _ =>
    if room iov <? 0 then (k, Answer (-1) (Some EFAULT) [] 0) else
    let '(k, v) := script_pop k in
    if v <? 0 then (k, Answer (-1) (Some (- v)) [] 0) else
    let n := Z.min (room iov) v in (k, Answer n None (replicate (Z.to_nat n) Byte.x41) 0)
  | SysAccept s _ =>
    let '(k, v) := script_pop k in
    if v <? 0 then (k, Answer (-1) (Some (- v)) [] 0) else (k, Answer v None [] 0)
  | SysPoll _ _ _ => (k, Answer 1 None [] 0)
  | SysIoctl s cmd arg =>
    (if cmd =? FIONBIO
     then Script (todo k) (script_sent k)
            (if negb (arg =? 0) then {[s]} ∪ script_modes k else script_modes k ∖ {[s]})
     else k, Answer 0 None [] 0)
  | _ => (k, Answer 0 None [] 0)
  end.

Lemma script_pop_spec k k' v : script_pop k = (k', v) ->
  script_sent k' = script_sent k /\ script_modes k' = script_modes k /\
  ((length (todo k') < length (todo k))%nat \/ k' = k /\ v = -32).
Proof.
  unfold script_pop. destruct (todo k) eqn:E; intros [= <- <-]; cbn; [auto|].
  split_and!; [done|done|left; lia].
Qed.

Ltac script_cases E :=
  cbn [sys script_kernel] in E; unfold sys, script_kernel in E; repeat case_match;
  repeat match goal with H : script_pop _ = _ |- _ => apply script_pop_spec in H as (? & ? & ?) end;
  simplify_eq; cbn [a_ret a_errno a_data a_int todo script_sent script_modes] in *.

#[export] Program Instance script_laws : KernelLaws script := {
  patience k := length (todo k);
  sent k s := default [] (script_sent k !! s);
  nonblock k s := bool_decide (s ∈ script_modes k)
}.
Next Obligation.
  intros c k k' a E Hr. destruct c as [| | | | | | | | | |s data fl| | | |];
    try pose proof (vlen_nonneg data); script_cases E; try lia;
    (split; [done|eexists; split; [reflexivity|unfold EFAULT; lia]]).
Qed.
Next Obligation. intros c k k' a E. destruct c; script_cases E; intuition (subst; lia). Qed.
Next Obligation.
  intros c k k' a e E Ht Hr He Hre. unfold retry_errno, EINTR, EAGAIN, ECONNABORTED, EPROTO in Hre.
  destruct c; try done; script_cases E; try done; unfold EFAULT in *;
    repeat match goal with H : _ \/ _ /\ _ |- _ => destruct H as [?|[? ?]] end; simplify_eq; lia.
Qed.
Next Obligation. intros s ev k k' a E. script_cases E. split; [lia|done]. Qed.
Next Obligation.
  intros s iov fl k k' a E Hr. script_cases E; try lia. unfold vlen. rewrite length_replicate. lia.
Qed.
Next Obligation.
  intros s data fl k k' a E. pose proof (vlen_nonneg data). script_cases E.
  - split; [lia|]. rewrite app_nil_r. congruence.
  - rewrite lookup_insert_eq. cbn. split; [|congruence]. intros _. split; [lia|]. intros Hz.
    apply length_zero_iff_nil. unfold vlen in *. lia.
Qed.
Next Obligation. intros s ev t k k' a E. by script_cases E. Qed.
Next Obligation.
  intros s cmd arg k k' a E. script_cases E; cbn [andb Z.leb Z.compare]; try done.
  - apply bool_decide_eq_true. set_solver.
  - apply bool_decide_eq_false. set_solver.
Qed.
Next Obligation. intros s l o v n k k' a E. by script_cases E. Qed.

(** ** Properties *)

(** A synchronous read returns: on a stream socket it gives between one byte
    and the room of the buffers, or the end of the stream, or an error of the
    system with no data; a socket the user left blocking never reports that it
    would block, however often the kernel says so.  An invalid descriptor and a
    read into empty buffers end at once, without a system call. *)
Theorem sync_recv_correct {K} `{KernelLaws K} fuel s state bufs count flags all_empty (w : world K) :
  flag_set state stream_oriented = true -> (patience (kernel w) < fuel)%nat ->
  exists bytes data ec w',
    sync_recv fuel s state bufs count flags all_empty w = (Some (bytes, data, ec), w') /\
    if s =? invalid_socket then bytes = 0 /\ data = [] /\ ec = bad_descriptor /\ w' = w
    else if all_empty then bytes = 0 /\ data = [] /\ ec = error_code_new /\ w' = w
    else stream_read state (room (msg_iov bufs count)) bytes data ec.
Proof.
  intros Hst Hf. unfold sync_recv. rewrite Hst.
  destruct (Z.eqb_spec s invalid_socket); [by do 4 eexists|].
  destruct all_empty; cbn [andb]; [by do 4 eexists|].
  destruct (sync_recv_returns fuel s state bufs count flags w) as (? & ? & ? & ? & ? & _ & ?); [done..|eauto 10].
Qed.

(** Two refusals, then five bytes into room for three *)
Lemma sync_recv_correct_witness :
  exists bytes data ec w',
    sync_recv 10 4 stream_oriented [Iovec 100 2; Iovec 200 1] 2 0 false
      (World (Script [-11; -11; 5] ∅ ∅) 0) = (Some (bytes, data, ec), w') /\
    stream_read stream_oriented 3 bytes data ec.
Proof.
  apply (sync_recv_correct (K := script) 10 4 stream_oriented [Iovec 100 2; Iovec 200 1] 2 0 false);
    [reflexivity|vm_compute; lia].
Defined.

(** A synchronous write returns and accounts for every byte: what it says it
    has written is what the peer is given, in order, and it is not zero unless
    there was nothing to write; on an error nothing has been written, and a
    socket the user left blocking never reports that it would block. *)
Theorem sync_send_correct {K} `{KernelLaws K} fuel mem s state bufs count flags (w : world K) :
  s <> invalid_socket -> (patience (kernel w) < fuel)%nat ->
  let data := concat (iov_bytes mem <$> msg_iov bufs count) in
  exists bytes ec w',
    sync_send fuel mem s state bufs count flags (bool_decide (data = [])) w = (Some (bytes, ec), w') /\
    stream_written state data bytes ec /\
    sent (kernel w') s = sent (kernel w) s ++ take (Z.to_nat bytes) data.
Proof.
  intros Hs Hf data. unfold sync_send. rewrite (proj2 (Z.eqb_neq _ _) Hs).
  destruct (bool_decide_reflect (data = [])) as [E|E]; cbn [andb].
  - destruct (flag_set state stream_oriented).
    + do 3 eexists. split; [done|]. rewrite E, app_nil_r. split; [|done]. split; [done|]. by left.
    + destruct (sync_send_returns fuel mem s state bufs count flags w Hs Hf) as (? & ? & ? & ? & _ & ? & ?).
      do 3 eexists. split; [done|split; done].
  - destruct (sync_send_returns fuel mem s state bufs count flags w Hs Hf) as (? & ? & ? & ? & _ & ? & ?).
      do 3 eexists. split; [done|split; done].
Qed.

Definition text_memory (a : Z) : byte := of_uchar a.
Lemma sync_send_correct_witness :
  exists bytes ec w',
    sync_send 10 text_memory 4 stream_oriented [Iovec 65 3; Iovec 97 2] 2 0 false
      (World (Script [-11; 4] ∅ ∅) 0) = (Some (bytes, ec), w') /\
    sent (kernel w') 4 = take (Z.to_nat bytes) (lit "ABCab").
Proof.
  destruct (sync_send_correct (K := script) 10 text_memory 4 stream_oriented [Iovec 65 3; Iovec 97 2] 2 0
    (World (Script [-11; 4] ∅ ∅) 0)) as (bytes & ec & w' & E & _ & Hs); [discriminate|vm_compute; lia|].
  exists bytes, ec, w'. split; [exact E|exact Hs].
Defined.

(** A synchronous accept returns: a new descriptor, or an error that is none
    of those it is told to keep to itself (a connection that is gone, and on a
    socket the user left blocking that there is none yet). *)
Theorem sync_accept_correct {K} `{KernelLaws K} fuel s state addrlen (w : world K) :
  (patience (kernel w) < fuel)%nat ->
  exists new_s addr ec w', sync_accept fuel s state addrlen w = (Some (new_s, addr, ec), w') /\
    accepted_ok state new_s ec /\ (s = invalid_socket -> ec = bad_descriptor /\ w' = w).
Proof.
  intros Hf. destruct (Z.eq_dec s invalid_socket) as [->|Hs].
  - destruct fuel as [|fuel]; [lia|]. do 4 eexists. split; [reflexivity|]. split; [|done]. by right.
  - destruct (sync_accept_returns fuel s state addrlen w Hs Hf) as (? & ? & ? & ? & ? & _ & ?).
    do 4 eexists. split; [done|]. split; [done|]. intros E. by destruct (Hs E).
Qed.

Lemma sync_accept_correct_witness :
  exists new_s addr ec w',
    sync_accept 10 3 0 None (World (Script [-103; -11; -71; 7] ∅ ∅) 0) = (Some (new_s, addr, ec), w') /\
    accepted_ok 0 new_s ec.
Proof.
  destruct (sync_accept_correct (K := script) 10 3 0 None (World (Script [-103; -11; -71; 7] ∅ ∅) 0))
    as (n & a & ec & w' & E & Ha & _); [vm_compute; lia|].
  exists n, a, ec, w'. split; [exact E|exact Ha].
Defined.

(** The operations the reactor runs complete exactly when the socket is
    ready: they never report an interruption, they are incomplete exactly when
    the kernel would block, and then no byte has moved.  A read that meets the
    end of the stream is complete and leaves the count of the caller alone. *)
Theorem non_blocking_correct {K} `{KernelLaws K} fuel mem s bufs count flags n0 (w : world K) :
  (patience (kernel w) < fuel)%nat ->
  let data := concat (iov_bytes mem <$> msg_iov bufs count) in
  (exists complete bytes ec w',
    non_blocking_send fuel mem s bufs count flags n0 w = (Some (complete, bytes, ec), w') /\
    ec <> interrupted /\ (complete = false <-> ec = would_block) /\
    if complete then 0 <= bytes <= vlen data /\
        sent (kernel w') s = sent (kernel w) s ++ take (Z.to_nat bytes) data
    else bytes = n0 /\ sent (kernel w') s = sent (kernel w) s) /\
  (exists complete bytes read ec w',
    non_blocking_recv fuel s bufs count flags true n0 w = (Some (complete, bytes, read, ec), w') /\
    ec <> interrupted /\ (complete = false <-> ec = would_block) /\
    (ec = error_code_new -> bytes = vlen read /\ 0 < bytes <= room (msg_iov bufs count)) /\
    (ec <> error_code_new -> read = [] /\ if complete && negb (ec_eqb ec eof) then bytes = 0 else bytes = n0)).
Proof.
  intros Hf. split; [by apply non_blocking_send_returns|].
  destruct (non_blocking_recv_returns fuel s bufs count flags true n0 w Hf) as (c & b & d & ec & w' & E & ? & ? & Hok & ?).
  exists c, b, d, ec, w'. split_and!; try done.
Qed.

Lemma non_blocking_correct_witness :
  exists complete bytes ec w',
    non_blocking_send 10 text_memory 4 [Iovec 65 3] 1 0 0 (World (Script [-4; -11] ∅ ∅) 0)
      = (Some (complete, bytes, ec), w') /\ (complete = false <-> ec = would_block).
Proof.
  destruct (non_blocking_correct (K := script) 10 text_memory 4 [Iovec 65 3] 1 0 0
    (World (Script [-4; -11] ∅ ∅) 0)) as [(c & b & ec & w' & E & _ & Hc & _) _]; [vm_compute; lia|].
  exists c, b, ec, w'. split; [exact E|exact Hc].
Defined.

(** The state of a socket always says whether its descriptor is non-blocking:
    whatever sequence of mode changes, io controls and options, some of them
    failing, the two flags together are the [O_NONBLOCK] of the kernel.  Turning
    the user's mode off turns the internal one off with it; the internal one
    cannot be turned off against the user's. *)
Theorem blocking_modes_agree {K} `{KernelLaws K} s x y :
  rtc (mode_step (K := K) s) x y -> mode_ok s x ->
  mode_ok s y /\
  (forall v, exists ok state' ec w', set_user_non_blocking s y.1 v y.2 = ((ok, state', ec), w') /\
    (ok = true -> nonblock (kernel w') s = v /\ flag_set state' user_set_non_blocking = v)) /\
  (flag_set y.1 user_set_non_blocking = true -> s <> invalid_socket ->
   set_internal_non_blocking s y.1 false y.2 = ((false, y.1, invalid_argument), y.2)).
Proof.
  intros Hr Hx. assert (mode_ok s y) as Hy by (induction Hr; [done|eauto using mode_step_ok]).
  split; [done|]. split.
  - intros v. destruct y as [st w]. destruct (set_user_spec s st v w Hy) as (ok & st' & ec & w' & E & Hm & Hok & _).
    do 4 eexists. split; [done|]. intros Ht. destruct (Hok Ht) as (_ & E1 & E2).
    unfold mode_ok in Hm. cbn [fst snd] in Hm. by rewrite Hm.
  - intros Hu Hs. unfold set_internal_non_blocking. by rewrite (proj2 (Z.eqb_neq _ _) Hs), Hu.
Qed.

Lemma blocking_modes_agree_witness :
  mode_ok 4 (flag_on stream_oriented user_set_non_blocking,
             World (Script [] ∅ {[4]}) 0).
Proof.
  refine (proj1 (blocking_modes_agree (K := script) 4 (stream_oriented, World (Script [] ∅ ∅) 0) _ _ _)).
  - eapply rtc_l; [|apply rtc_refl]. eapply (step_user 4 true). vm_compute. reflexivity.
  - vm_compute. reflexivity.
Defined.

(** A socket option set is the option read: asio's own option reads back what
    was set, without a system call, and decides whether an accept reports aborted
    connections; a buffer size reads back as half of what the kernel tells. *)
Theorem option_roundtrip {K} `{KernelLaws K} s state v optval (w : world K) :
  s <> invalid_socket -> in_i32 v -> length optval = 4%nat ->
  exists state', setsockopt s state custom_socket_option_level enable_connection_aborted_option
                   (int_bytes v) sizeof_int w = ((0, state', error_code_new), w) /\
    getsockopt s state' custom_socket_option_level enable_connection_aborted_option optval sizeof_int w =
      ((0, int_bytes (if v =? 0 then 0 else 1), sizeof_int, error_code_new), w) /\
    accept_retries state' connection_aborted = (v =? 0) /\
    (forall opt, opt = SO_SNDBUF \/ opt = SO_RCVBUF -> forall k a,
       sys (SysGetsockopt s SOL_SOCKET opt sizeof_int) (kernel w) = (k, a) ->
       a_ret a = 0 -> a_int a = sizeof_int -> a_data a = int_bytes v ->
       exists w', getsockopt s state SOL_SOCKET opt optval sizeof_int w =
         ((0, int_bytes (Z.quot v 2), sizeof_int, error_code_new), w')).
Proof.
  intros Hs Hv Hl.
  assert (forall z, overwrite optval (int_bytes z) = int_bytes z) as Hov
    by (intros z; unfold overwrite; rewrite drop_ge by (cbn; lia); by rewrite app_nil_r).
  eexists. split_and!.
  - unfold setsockopt. rewrite (proj2 (Z.eqb_neq _ _) Hs), int_of_bytes by done. reflexivity.
  - unfold getsockopt. rewrite (proj2 (Z.eqb_neq _ _) Hs). cbn [andb Z.eqb negb]. rewrite Hov.
    unfold mret, io_ret. do 4 f_equal. destruct (Z.eqb_spec v 0); cbn [negb].
    + by rewrite flag_off_spec.
    + by rewrite flag_on_spec, orb_true_r.
  - change (accept_retries ?st connection_aborted) with (negb (flag_set st enable_connection_aborted)).
    destruct (Z.eqb_spec v 0); cbn [negb].
    + by rewrite flag_off_spec.
    + by rewrite flag_on_spec, orb_true_r.
  - intros opt Hopt k a E Hr Hi Hd. eexists. unfold getsockopt. rewrite (proj2 (Z.eqb_neq _ _) Hs).
    change (SOL_SOCKET =? custom_socket_option_level) with false. cbn [andb].
    unfold clear_last_error, call_getsockopt, call, error_wrapper. io_run.
    change (u32 sizeof_int) with sizeof_int. rewrite E. io_run. rewrite Hr, Hi, Hd, Hov.
    change (u32 sizeof_int) with sizeof_int. rewrite int_of_bytes by done.
    unfold overwrite. rewrite drop_ge by (cbn; lia). rewrite app_nil_r.
    destruct Hopt as [->| ->]; reflexivity.
Qed.

Lemma option_roundtrip_witness :
  exists state', setsockopt 3 0 custom_socket_option_level enable_connection_aborted_option
                   (int_bytes 1) sizeof_int (World (Script [] ∅ ∅) 0)
                 = ((0, state', error_code_new), World (Script [] ∅ ∅) 0) /\
    accept_retries state' connection_aborted = false.
Proof.
  destruct (option_roundtrip (K := script) 3 0 1 (int_bytes 0) (World (Script [] ∅ ∅) 0))
    as (st & E & _ & Ha & _); [discriminate|vm_compute; split; congruence|reflexivity|].
  exists st. split; [exact E|exact Ha].
Defined.
