(* ===== verification/Address.v ===== *)
(** * IP addresses and endpoints (asio/ip/impl/address_v4.ipp, address_v6.ipp,
    address.ipp, the inline members of ip/address_v4.hpp, address_v6.hpp and
    address.hpp, ip/detail/impl/endpoint.ipp, and the conversions to and from text in
    detail/impl/socket_ops.ipp)

    A 32-bit address is kept as the integer whose bytes in memory are in network
    order; the machine stores integers with the low byte first.  The functions of
    the C library that know the texts of addresses and the names of interfaces are
    the class [Inet], with what POSIX says of them as [InetLaws]. *)
From S2P Require Import Prelude Iobuf Stdio Socketops.

(** ** Integers in memory *)
Fixpoint store_le (n : nat) (v : Z) : list byte :=
  match n with O => [] | S n' => of_uchar v :: store_le n' (v / 256) end.
Fixpoint load_le (l : list byte) : Z := match l with [] => 0 | b :: l' => uchar b + 256 * load_le l' end.
Definition load_be (l : list byte) : Z := load_le (reverse l).
Definition store_be (n : nat) (v : Z) : list byte := reverse (store_le n v).

(** [ntohl], [htonl], [ntohs], [htons] *)
Definition network_to_host_long (value : Z) : Z := load_be (store_le 4 value).
Definition host_to_network_long (value : Z) : Z := load_le (store_be 4 value).
Definition network_to_host_short (value : Z) : Z := load_be (store_le 2 value).
Definition host_to_network_short (value : Z) : Z := load_le (store_be 2 value).

(** ** address_v4 *)
Record address_v4 := AddressV4 { s_addr : Z }.

Definition v4_any : address_v4 := AddressV4 0.
Definition v4_of_bytes (bytes : list byte) : address_v4 := AddressV4 (load_le bytes).
Definition v4_of_ulong (addr : Z) : outcome address_v4 :=
  if 0xFFFFFFFF <? addr then Throws (LogicError (lit "address_v4 from unsigned long"))
  else Ok (AddressV4 (host_to_network_long (u32 addr))).
Definition v4_to_bytes (a : address_v4) : list byte := store_le 4 (s_addr a).
Definition v4_to_ulong (a : address_v4) : Z := network_to_host_long (s_addr a).

Definition v4_is_loopback (a : address_v4) : bool := Z.land (v4_to_ulong a) 0xFF000000 =? 0x7F000000.
Definition v4_is_unspecified (a : address_v4) : bool := v4_to_ulong a =? 0.
Definition is_class_a (a : address_v4) : bool := Z.land (v4_to_ulong a) 0x80000000 =? 0.
Definition is_class_b (a : address_v4) : bool := Z.land (v4_to_ulong a) 0xC0000000 =? 0x80000000.
Definition is_class_c (a : address_v4) : bool := Z.land (v4_to_ulong a) 0xE0000000 =? 0xC0000000.
Definition v4_is_multicast (a : address_v4) : bool := Z.land (v4_to_ulong a) 0xF0000000 =? 0xE0000000.

Definition broadcast (addr mask : address_v4) : outcome address_v4 :=
  v4_of_ulong (Z.lor (v4_to_ulong addr) (Z.lxor (v4_to_ulong mask) 0xFFFFFFFF)).
Definition netmask (addr : address_v4) : outcome address_v4 :=
  if is_class_a addr then v4_of_ulong 0xFF000000
  else if is_class_b addr then v4_of_ulong 0xFFFF0000
  else if is_class_c addr then v4_of_ulong 0xFFFFFF00
  else v4_of_ulong 0xFFFFFFFF.

Definition v4_eqb (a1 a2 : address_v4) : bool := s_addr a1 =? s_addr a2.
Definition v4_ltb (a1 a2 : address_v4) : bool := v4_to_ulong a1 <? v4_to_ulong a2.
Definition v4_leb (a1 a2 : address_v4) : bool := v4_to_ulong a1 <=? v4_to_ulong a2.

(** ** address_v6 *)
Record address_v6 := AddressV6 { s6_addr : list byte; scope_id_ : Z }.

Definition v6_any : address_v6 := AddressV6 (replicate 16 Byte.x00) 0.
Definition v6_of_bytes (bytes : list byte) (scope : Z) : address_v6 := AddressV6 bytes scope.
Definition v6_to_bytes (a : address_v6) : list byte := s6_addr a.
Definition scope_id (a : address_v6) : Z := scope_id_ a.
Definition set_scope_id (id : Z) (a : address_v6) : address_v6 := AddressV6 (s6_addr a) id.

(** [s6_addr[i]], and whether the bytes from [i] to [j] are zero *)
Definition s6 (a : address_v6) (i : nat) : Z := uchar (s6_addr a !!! i).
Definition zeros (a : address_v6) (i j : nat) : bool := forallb (fun k => s6 a k =? 0) (seq i (S j - i)).

Definition v6_is_loopback (a : address_v6) : bool := zeros a 0 14 && (s6 a 15 =? 1).
Definition v6_is_unspecified (a : address_v6) : bool := zeros a 0 15.
Definition is_link_local (a : address_v6) : bool := (s6 a 0 =? 0xfe) && (Z.land (s6 a 1) 0xc0 =? 0x80).
Definition is_site_local (a : address_v6) : bool := (s6 a 0 =? 0xfe) && (Z.land (s6 a 1) 0xc0 =? 0xc0).
Definition is_v4_mapped (a : address_v6) : bool := zeros a 0 9 && (s6 a 10 =? 0xff) && (s6 a 11 =? 0xff).
Definition is_v4_compatible (a : address_v6) : bool :=
  zeros a 0 11 && negb (zeros a 12 14 && ((s6 a 15 =? 0) || (s6 a 15 =? 1))).
Definition v6_is_multicast (a : address_v6) : bool := s6 a 0 =? 0xff.
Definition is_multicast_global (a : address_v6) : bool := (s6 a 0 =? 0xff) && (Z.land (s6 a 1) 0x0f =? 0x0e).
Definition is_multicast_link_local (a : address_v6) : bool := (s6 a 0 =? 0xff) && (Z.land (s6 a 1) 0x0f =? 0x02).
Definition is_multicast_node_local (a : address_v6) : bool := (s6 a 0 =? 0xff) && (Z.land (s6 a 1) 0x0f =? 0x01).
Definition is_multicast_org_local (a : address_v6) : bool := (s6 a 0 =? 0xff) && (Z.land (s6 a 1) 0x0f =? 0x08).
Definition is_multicast_site_local (a : address_v6) : bool := (s6 a 0 =? 0xff) && (Z.land (s6 a 1) 0x0f =? 0x05).

Definition v6_to_v4 (a : address_v6) : outcome address_v4 :=
  if negb (is_v4_mapped a) && negb (is_v4_compatible a) then Throws BadCast
  else Ok (v4_of_bytes [s6_addr a !!! 12%nat; s6_addr a !!! 13%nat; s6_addr a !!! 14%nat; s6_addr a !!! 15%nat]).
Definition v6_loopback : address_v6 := AddressV6 (replicate 15 Byte.x00 ++ [Byte.x01]) 0.
Definition v4_mapped (addr : address_v4) : address_v6 :=
  v6_of_bytes (replicate 10 Byte.x00 ++ [Byte.xff; Byte.xff] ++ v4_to_bytes addr) 0.
Definition v4_compatible (addr : address_v4) : address_v6 :=
  v6_of_bytes (replicate 12 Byte.x00 ++ v4_to_bytes addr) 0.

Definition v6_eqb (a1 a2 : address_v6) : bool := (memcmp (s6_addr a1) (s6_addr a2) =? 0) && (scope_id_ a1 =? scope_id_ a2).
Definition v6_ltb (a1 a2 : address_v6) : bool :=
  let memcmp_result := memcmp (s6_addr a1) (s6_addr a2) in
  if memcmp_result <? 0 then true else if 0 <? memcmp_result then false else scope_id_ a1 <? scope_id_ a2.

(** ** address *)
Inductive address_type := ipv4 | ipv6.
Record address := Address { type_ : address_type; ipv4_address_ : address_v4; ipv6_address_ : address_v6 }.

Definition address_new : address := Address ipv4 v4_any v6_any.
Definition address_of_v4 (a : address_v4) : address := Address ipv4 a v6_any.
Definition address_of_v6 (a : address_v6) : address := Address ipv6 v4_any a.
Definition is_v4 (a : address) : bool := match type_ a with ipv4 => true | ipv6 => false end.
Definition is_v6 (a : address) : bool := match type_ a with ipv6 => true | ipv4 => false end.
Definition to_v4 (a : address) : outcome address_v4 := if negb (is_v4 a) then Throws BadCast else Ok (ipv4_address_ a).
Definition to_v6 (a : address) : outcome address_v6 := if negb (is_v6 a) then Throws BadCast else Ok (ipv6_address_ a).
Definition is_loopback (a : address) : bool :=
  if is_v4 a then v4_is_loopback (ipv4_address_ a) else v6_is_loopback (ipv6_address_ a).
Definition is_unspecified (a : address) : bool :=
  if is_v4 a then v4_is_unspecified (ipv4_address_ a) else v6_is_unspecified (ipv6_address_ a).
Definition is_multicast (a : address) : bool :=
  if is_v4 a then v4_is_multicast (ipv4_address_ a) else v6_is_multicast (ipv6_address_ a).

Definition address_eqb (a1 a2 : address) : bool :=
  match type_ a1, type_ a2 with
  | ipv6, ipv6 => v6_eqb (ipv6_address_ a1) (ipv6_address_ a2)
  | ipv4, ipv4 => v4_eqb (ipv4_address_ a1) (ipv4_address_ a2)
  | _, _ => false
  end.
Definition address_ltb (a1 a2 : address) : bool :=
  match type_ a1, type_ a2 with
  | ipv4, ipv6 => true
  | ipv6, ipv4 => false
  | ipv6, ipv6 => v6_ltb (ipv6_address_ a1) (ipv6_address_ a2)
  | ipv4, ipv4 => v4_ltb (ipv4_address_ a1) (ipv4_address_ a2)
  end.

(** ** endpoint: the union [data_], which [sa_family] tells apart *)
Inductive ip_endpoint :=
  | SockaddrIn (sin_port sin_addr : Z)
  | SockaddrIn6 (sin6_port sin6_flowinfo : Z) (sin6_addr : list byte) (sin6_scope_id : Z).

Definition sockaddr_storage_size := 128.

Definition endpoint_new : ip_endpoint := SockaddrIn 0 0.
Definition endpoint_of_family (family port_num : Z) : ip_endpoint :=
  if family =? AF_INET then SockaddrIn (host_to_network_short port_num) 0
  else SockaddrIn6 (host_to_network_short port_num) 0 (replicate 16 Byte.x00) 0.
Definition endpoint_of_address (addr : address) (port_num : Z) : outcome ip_endpoint :=
  if is_v4 addr then
    a ← to_v4 addr;
    Ok (SockaddrIn (host_to_network_short port_num) (host_to_network_long (u32 (v4_to_ulong a))))
  else
    v6_addr ← to_v6 addr;
    Ok (SockaddrIn6 (host_to_network_short port_num) 0 (v6_to_bytes v6_addr) (u32 (scope_id v6_addr))).
Definition endpoint_is_v4 (e : ip_endpoint) : bool := match e with SockaddrIn _ _ => true | _ => false end.
(** [data()]: the bytes of the [sockaddr] *)
Definition endpoint_data (e : ip_endpoint) : list byte :=
  match e with
  | SockaddrIn p a => store_le 2 AF_INET ++ store_le 2 p ++ store_le 4 a ++ replicate 8 Byte.x00
  | SockaddrIn6 p f a s => store_le 2 AF_INET6 ++ store_le 2 p ++ store_le 4 f ++ a ++ store_le 4 s
  end.
Definition endpoint_size (e : ip_endpoint) : Z := if endpoint_is_v4 e then 16 else 28.
Definition endpoint_resize (new_size : Z) : outcome unit :=
  if sockaddr_storage_size <? new_size then Throws (SystemError (value invalid_argument)) else Ok tt.
Definition port (e : ip_endpoint) : Z :=
  match e with SockaddrIn p _ => network_to_host_short p | SockaddrIn6 p _ _ _ => network_to_host_short p end.
Definition set_endpoint_port (port_num : Z) (e : ip_endpoint) : ip_endpoint :=
  match e with
  | SockaddrIn _ a => SockaddrIn (host_to_network_short port_num) a
  | SockaddrIn6 _ f a s => SockaddrIn6 (host_to_network_short port_num) f a s
  end.
Definition endpoint_address (e : ip_endpoint) : outcome address :=
  match e with
  | SockaddrIn _ a => address_of_v4 <$> v4_of_ulong (network_to_host_long a)
  | SockaddrIn6 _ _ a s => Ok (address_of_v6 (v6_of_bytes a s))
  end.
Definition set_address (addr : address) (e : ip_endpoint) : outcome ip_endpoint := endpoint_of_address addr (port e).
Definition endpoint_eqb (e1 e2 : ip_endpoint) : outcome bool :=
  a1 ← endpoint_address e1; a2 ← endpoint_address e2; Ok (address_eqb a1 a2 && (port e1 =? port e2)).
Definition endpoint_ltb (e1 e2 : ip_endpoint) : outcome bool :=
  a1 ← endpoint_address e1; a2 ← endpoint_address e2;
  if address_ltb a1 a2 then Ok true
  else if negb (address_eqb a1 a2) then Ok false
  else Ok (port e1 <? port e2).

(** ** Text *)
Definition INET_ADDRSTRLEN := 16.
Definition INET6_ADDRSTRLEN := 46.
Definition IF_NAMESIZE := 16.
Definition max_addr_v4_str_len := INET_ADDRSTRLEN.
Definition max_addr_v6_str_len := INET6_ADDRSTRLEN + 1 + IF_NAMESIZE.

(** [c_inet_ntop af src length]: the text, or [None], and [errno];
    [c_inet_pton af src]: the result, the bytes and [errno]; an interface that has no
    name or no index gives [None] or 0. *)
Class Inet := {
  c_inet_ntop : Z -> list byte -> Z -> option (list byte) * Z;
  c_inet_pton : Z -> list byte -> Z * list byte * Z;
  if_indextoname : Z -> option (list byte);
  if_nametoindex : list byte -> Z
}.

(** [strchr(src, c)], as the number of bytes before [c] *)
Definition strchr (src : list byte) (c : byte) : option nat := fst <$> list_find (fun b => b = c) src.

(** [atoi]; a value that is no [int] has no meaning. *)
Definition isspace (b : byte) : bool := (uchar b =? 32) || ((9 <=? uchar b) && (uchar b <=? 13)).
Definition isdigit (b : byte) : bool := (48 <=? uchar b) && (uchar b <=? 57).
Fixpoint span {A} (p : A -> bool) (l : list A) : list A * list A :=
  match l with
  | [] => ([], [])
  | b :: l' => if p b then let '(l1, l2) := span p l' in (b :: l1, l2) else ([], l)
  end.
Definition atoi (s : list byte) : outcome Z :=
  let s := snd (span isspace s) in
  let '(negative, s) := match s with
    | b :: s' => if uchar b =? 45 then (true, s') else if uchar b =? 43 then (false, s') else (false, s)
    | [] => (false, s)
    end in
  let n := read_digits (fst (span isdigit s)) in
  let z := if negative then - n else n in
  if (- 2 ^ 31 <=? z) && (z <? 2 ^ 31) then Ok z else Crash SignedOverflow.

Section Text.
Context `{Inet}.

(** The scope after the address: [if_name], of [IF_NAMESIZE + 1] bytes *)
Definition scope_text (a : address_v6) (scope : Z) : outcome (list byte) :=
  match (if negb (is_link_local a) && negb (is_multicast_link_local a) then None else if_indextoname (u32 scope)) with
  | Some name => Ok (lit "%" ++ name)
  | None =>
    let digits := dec scope in
    if vlen digits + 1 <=? IF_NAMESIZE then Ok (lit "%" ++ digits) else Crash OutOfBounds
  end.

(** [dest] is of [length] bytes. *)
Definition inet_ntop (af : Z) (src : list byte) (length scope_id : Z) : outcome (option (list byte) * error_code) :=
  let '(result, errno) := c_inet_ntop af src length in
  let ec := basic_error errno in
  match result with
  | None => Ok (None, if ec_not ec then invalid_argument else ec)
  | Some dest =>
    if (af =? AF_INET6) && negb (scope_id =? 0) then
      if_name ← scope_text (AddressV6 src 0) scope_id;
      if vlen dest + vlen if_name + 1 <=? length then Ok (Some (dest ++ if_name), ec) else Crash OutOfBounds
    else Ok (Some dest, ec)
  end.

(** The result, the bytes, the scope and the error *)
Definition inet_pton (af : Z) (src : list byte) : outcome (Z * list byte * Z * error_code) :=
  let is_v6 := af =? AF_INET6 in
  let if_name := if is_v6 then strchr src (of_uchar 37) else None in
  match if_name with
  | Some n =>
    if max_addr_v6_str_len <? Z.of_nat n then Ok (0, [], 0, invalid_argument) else
    let '(result, dest, errno) := c_inet_pton af (take n src) in
    let ec := basic_error errno in
    let ec := if (result <=? 0) && ec_not ec then invalid_argument else ec in
    if 0 <? result then
      let a := AddressV6 dest 0 in
      let scope_id := if is_link_local a || is_multicast_link_local a then if_nametoindex (drop (S n) src) else 0 in
      scope_id ← (if scope_id =? 0 then i ← atoi (drop (S n) src); Ok (u64 i) else Ok scope_id);
      Ok (result, dest, scope_id, ec)
    else Ok (result, dest, 0, ec)
  | None =>
    let '(result, dest, errno) := c_inet_pton af src in
    let ec := basic_error errno in
    let ec := if (result <=? 0) && ec_not ec then invalid_argument else ec in
    Ok (result, dest, 0, ec)
  end.

Definition v4_to_string (a : address_v4) : outcome (list byte * error_code) :=
  '(addr, ec) ← inet_ntop AF_INET (store_le 4 (s_addr a)) max_addr_v4_str_len 0;
  Ok (default [] addr, ec).
Definition v4_from_string (str : list byte) : outcome (address_v4 * error_code) :=
  '(result, dest, _, ec) ← inet_pton AF_INET str;
  Ok (if result <=? 0 then v4_any else AddressV4 (load_le dest), ec).
Definition v6_to_string (a : address_v6) : outcome (list byte * error_code) :=
  '(addr, ec) ← inet_ntop AF_INET6 (s6_addr a) max_addr_v6_str_len (scope_id_ a);
  Ok (default [] addr, ec).
Definition v6_from_string (str : list byte) : outcome (address_v6 * error_code) :=
  '(result, dest, scope, ec) ← inet_pton AF_INET6 str;
  Ok (if result <=? 0 then v6_any else AddressV6 dest scope, ec).

Definition to_string (a : address) : outcome (list byte * error_code) :=
  if is_v6 a then v6_to_string (ipv6_address_ a) else v4_to_string (ipv4_address_ a).
Definition from_string (str : list byte) : outcome (address * error_code) :=
  '(ipv6_address, ec) ← v6_from_string str;
  if ec_not ec then Ok (Address ipv6 (ipv4_address_ address_new) ipv6_address, ec)
  else
    '(ipv4_address, ec) ← v4_from_string str;
    if ec_not ec then Ok (Address ipv4 ipv4_address (ipv6_address_ address_new), ec) else Ok (address_new, ec).

(** [to_string(ec)] of an endpoint *)
Definition endpoint_to_string (e : ip_endpoint) : outcome (list byte * error_code) :=
  addr ← endpoint_address e;
  '(a, ec) ← to_string addr;
  if ec_bool ec then Ok ([], ec)
  else
    Ok ((if endpoint_is_v4 e then a else lit "[" ++ a ++ lit "]") ++ lit ":" ++ dec (port e), ec).

(** The overloads that throw *)
Definition throwing {A} (m : outcome (A * error_code)) : outcome A :=
  '(a, ec) ← m; if ec_bool ec then Throws (SystemError (value ec)) else Ok a.
End Text.

(** What POSIX says of them: a text that was written is read again, and only as an
    address of its family; names of interfaces are short and belong to one index. *)
Class InetLaws `{Inet} := {
  ntop_v4 bytes : length bytes = 4%nat -> exists t, c_inet_ntop AF_INET bytes max_addr_v4_str_len = (Some t, 0) /\
    vlen t < INET_ADDRSTRLEN /\ (of_uchar 37 ∉ t) /\
    c_inet_pton AF_INET t = (1, bytes, 0) /\ exists d, c_inet_pton AF_INET6 t = (0, d, 0);
  ntop_v6 bytes : length bytes = 16%nat -> exists t, c_inet_ntop AF_INET6 bytes max_addr_v6_str_len = (Some t, 0) /\
    vlen t < INET6_ADDRSTRLEN /\ (of_uchar 37 ∉ t) /\ c_inet_pton AF_INET6 t = (1, bytes, 0);
  if_name_ok i name : if_indextoname i = Some name -> vlen name < IF_NAMESIZE /\ if_nametoindex name = i /\ 0 < i
}.

(** ** Integers in memory and back *)
Lemma length_store_le n v : length (store_le n v) = n.
Proof. revert v. induction n as [|n IH]; intros v; cbn; auto. Qed.
Lemma length_store_be n v : length (store_be n v) = n.
Proof. unfold store_be. by rewrite length_reverse, length_store_le. Qed.

Lemma load_store n v : load_le (store_le n v) = v mod 256 ^ Z.of_nat n.
Proof.
  revert v. induction n as [|n IH]; intros v; [cbn; by rewrite Z.mod_1_r|].
  cbn [store_le load_le]. rewrite IH, Nat2Z.inj_succ, Z.pow_succ_r by lia.
  assert (uchar (of_uchar v) = v mod 256) as ->.
  { pose proof (Z.mod_pos_bound v 256 ltac:(lia)) as Hm. rewrite <- (uchar_of_uchar (v mod 256)) by done.
    f_equal. unfold of_uchar. by rewrite Z.mod_mod by lia. }
  rewrite Z.rem_mul_r by lia. lia.
Qed.

Lemma load_le_range l : 0 <= load_le l < 256 ^ Z.of_nat (length l).
Proof.
  induction l as [|b l IH]; [cbn; lia|]. cbn [load_le length]. rewrite Nat2Z.inj_succ, Z.pow_succ_r by lia.
  pose proof (uchar_range b). nia.
Qed.

Lemma store_load l : store_le (length l) (load_le l) = l.
Proof.
  induction l as [|b l IH]; [done|]. cbn [load_le length store_le]. pose proof (uchar_range b) as Hb.
  assert (uchar b + 256 * load_le l = uchar b + load_le l * 256) as -> by lia.
  rewrite Z.div_add, Z.div_small, Z.add_0_l, IH by lia. f_equal.
  unfold of_uchar. rewrite Z.mod_add by lia. fold (of_uchar (uchar b)). apply of_uchar_uchar.
Qed.

Lemma load_be_store n v : 0 <= v < 256 ^ Z.of_nat n -> load_be (store_be n v) = v.
Proof. intros Hv. unfold load_be, store_be. rewrite reverse_involutive, load_store. by apply Z.mod_small. Qed.

Lemma store_be_load l n : length l = n -> store_be n (load_be l) = l.
Proof.
  intros <-. unfold load_be, store_be. rewrite <- (length_reverse l), store_load. apply reverse_involutive.
Qed.

Lemma load_be_range l : 0 <= load_be l < 256 ^ Z.of_nat (length l).
Proof. unfold load_be. rewrite <- (length_reverse l). apply load_le_range. Qed.

(** The conversions are inverse to each other, for any number of bytes. *)
Lemma swap_swap n v : 0 <= v < 256 ^ Z.of_nat n -> load_be (store_le n (load_le (store_be n v))) = v.
Proof. intros Hv. rewrite <- (length_store_be n v) at 1. by rewrite store_load, load_be_store. Qed.

Lemma swap_swap' n v : 0 <= v < 256 ^ Z.of_nat n -> load_le (store_be n (load_be (store_le n v))) = v.
Proof. intros Hv. rewrite store_be_load by apply length_store_le. rewrite load_store. by apply Z.mod_small. Qed.

Lemma long_round v : 0 <= v < 2 ^ 32 -> network_to_host_long (host_to_network_long v) = v.
Proof. apply (swap_swap 4). Qed.
Lemma long_round' v : 0 <= v < 2 ^ 32 -> host_to_network_long (network_to_host_long v) = v.
Proof. apply (swap_swap' 4). Qed.
Lemma short_round v : 0 <= v < 2 ^ 16 -> network_to_host_short (host_to_network_short v) = v.
Proof. apply (swap_swap 2). Qed.

Lemma network_to_host_range v : 0 <= network_to_host_long v < 2 ^ 32.
Proof. pose proof (load_be_range (store_le 4 v)) as Hr. by rewrite length_store_le in Hr. Qed.
Lemma host_to_network_range v : 0 <= host_to_network_long v < 2 ^ 32.
Proof. pose proof (load_le_range (store_be 4 v)) as Hr. by rewrite length_store_be in Hr. Qed.

Lemma host_to_network_short_range v : 0 <= host_to_network_short v < 2 ^ 16.
Proof. pose proof (load_le_range (store_be 2 v)) as Hr. by rewrite length_store_be in Hr. Qed.

(** ** Well-formed addresses: what the types of the members say *)
Definition v4_ok (a : address_v4) : Prop := 0 <= s_addr a < 2 ^ 32.
Definition v6_ok (a : address_v6) : Prop := length (s6_addr a) = 16%nat /\ in_u64 (scope_id_ a).
Definition address_ok (a : address) : Prop := v4_ok (ipv4_address_ a) /\ v6_ok (ipv6_address_ a).

Lemma v6_any_ok : v6_ok v6_any.
Proof. done. Qed.
Lemma v4_any_ok : v4_ok v4_any.
Proof. done. Qed.
#[local] Hint Resolve v6_any_ok v4_any_ok network_to_host_range host_to_network_range : core.

Lemma v4_ulong_range a : 0 <= v4_to_ulong a < 2 ^ 32.
Proof. unfold v4_to_ulong. auto. Qed.

Lemma v4_of_ulong_spec u : 0 <= u < 2 ^ 32 -> exists a, v4_of_ulong u = Ok a /\ v4_ok a /\ v4_to_ulong a = u.
Proof.
  intros Hu. unfold v4_of_ulong. rewrite (proj2 (Z.ltb_ge 0xFFFFFFFF u)), u32_id by lia.
  eexists. split; [done|]. split; [apply host_to_network_range|by apply long_round].
Qed.

Lemma v4_ulong_inj a b : v4_ok a -> v4_ok b -> v4_to_ulong a = v4_to_ulong b -> a = b.
Proof.
  destruct a as [a], b as [b]. unfold v4_ok, v4_to_ulong. cbn [s_addr]. intros Ha Hb Hu. f_equal.
  by rewrite <- (long_round' a), <- (long_round' b), Hu.
Qed.

Lemma v4_round a : v4_ok a -> v4_of_ulong (v4_to_ulong a) = Ok a.
Proof.
  intros Ha. destruct (v4_of_ulong_spec (v4_to_ulong a) (v4_ulong_range a)) as (b & -> & Hb & Hu).
  f_equal. by apply v4_ulong_inj.
Qed.

Lemma v4_bytes_round a : v4_ok a -> v4_of_bytes (v4_to_bytes a) = a.
Proof.
  destruct a as [a]. unfold v4_ok, v4_of_bytes, v4_to_bytes. cbn [s_addr]. intros Ha. rewrite load_store.
  f_equal. by apply Z.mod_small.
Qed.

(** ** Classes and networks *)

Lemma mask_bits k i : 0 <= k <= 32 -> 0 <= i -> Z.testbit (2 ^ 32 - 2 ^ k) i = (k <=? i) && (i <? 32).
Proof.
  intros Hk Hi. assert (2 ^ 32 - 2 ^ k = Z.shiftl (Z.ones (32 - k)) k) as ->.
  { rewrite Z.shiftl_mul_pow2, Z.ones_equiv by lia.
    assert (2 ^ 32 = 2 ^ (32 - k) * 2 ^ k) as -> by (rewrite <- Z.pow_add_r by lia; f_equal; lia). lia. }
  rewrite Z.shiftl_spec by lia. destruct (Z.leb_spec k i); [|by apply Z.testbit_neg_r; lia].
  rewrite Z.testbit_ones_nonneg by lia. zcases.
Qed.

(** [u & mask] and [u | (mask ^ 0xFFFFFFFF)] for a mask with [k] zeros *)
Lemma land_high u k : 0 <= u < 2 ^ 32 -> 0 <= k <= 32 -> Z.land u (2 ^ 32 - 2 ^ k) = u - u mod 2 ^ k.
Proof.
  intros Hu Hk. assert (Z.land u (2 ^ 32 - 2 ^ k) = Z.ldiff u (Z.ones k)) as ->.
  { apply Z.bits_inj'. intros i Hi. rewrite Z.land_spec, Z.ldiff_spec, mask_bits, Z.testbit_ones_nonneg by lia.
    destruct (Z.lt_ge_cases i 32); [by destruct (Z.testbit u i); zcases|].
    by rewrite <- (Z.mod_small u (2 ^ 32)), Z.mod_pow2_bits_high by lia. }
  rewrite Z.ldiff_ones_r, Z.shiftl_mul_pow2, Z.shiftr_div_pow2 by lia.
  pose proof (Z.div_mod u (2 ^ k)). lia.
Qed.

(** The number of host bits of an address, by its leading bits (RFC 791, RFC 1112) *)
Definition host_bits (u : Z) : Z :=
  if u <? 2 ^ 31 then 24 else if u <? 3 * 2 ^ 30 then 16 else if u <? 7 * 2 ^ 29 then 8 else 0.

Lemma class_tests a :
  is_class_a a = (v4_to_ulong a <? 2 ^ 31) /\
  is_class_b a = (2 ^ 31 <=? v4_to_ulong a) && (v4_to_ulong a <? 3 * 2 ^ 30) /\
  is_class_c a = (3 * 2 ^ 30 <=? v4_to_ulong a) && (v4_to_ulong a <? 7 * 2 ^ 29) /\
  v4_is_multicast a = (7 * 2 ^ 29 <=? v4_to_ulong a) && (v4_to_ulong a <? 15 * 2 ^ 28) /\
  v4_is_loopback a = (127 * 2 ^ 24 <=? v4_to_ulong a) && (v4_to_ulong a <? 128 * 2 ^ 24).
Proof.
  pose proof (v4_ulong_range a) as Hu.
  unfold is_class_a, is_class_b, is_class_c, v4_is_multicast, v4_is_loopback. set (u := v4_to_ulong a) in *.
  change 0x80000000 with (2 ^ 32 - 2 ^ 31). change 0xC0000000 with (2 ^ 32 - 2 ^ 30).
  change 0xE0000000 with (2 ^ 32 - 2 ^ 29). change 0xF0000000 with (2 ^ 32 - 2 ^ 28).
  change 0xFF000000 with (2 ^ 32 - 2 ^ 24). rewrite !land_high by lia.
  split_and!; apply eq_true_iff_eq; rewrite ?andb_true_iff, ?Z.eqb_eq, ?Z.leb_le, ?Z.ltb_lt;
    Z.to_euclidean_division_equations; lia.
Qed.

Lemma host_bits_range u : 0 <= host_bits u <= 24.
Proof. unfold host_bits. zcases. Qed.

Lemma netmask_spec a : exists m, netmask a = Ok m /\ v4_ok m /\ v4_to_ulong m = 2 ^ 32 - 2 ^ host_bits (v4_to_ulong a).
Proof.
  pose proof (v4_ulong_range a) as Hu. destruct (class_tests a) as (Ha & Hb & Hc & _).
  unfold netmask, host_bits. rewrite Ha, Hb, Hc.
  destruct (Z.ltb_spec (v4_to_ulong a) (2 ^ 31)); [by apply v4_of_ulong_spec|].
  rewrite (proj2 (Z.leb_le (2 ^ 31) _)) by done. cbn [andb].
  destruct (Z.ltb_spec (v4_to_ulong a) (3 * 2 ^ 30)); [by apply v4_of_ulong_spec|].
  rewrite (proj2 (Z.leb_le (3 * 2 ^ 30) _)) by done. cbn [andb].
  destruct (Z.ltb_spec (v4_to_ulong a) (7 * 2 ^ 29)); by apply v4_of_ulong_spec.
Qed.

(** A network mask with [k] host bits: the host bits become ones. *)
Lemma broadcast_spec a m k : 0 <= k <= 32 -> v4_to_ulong m = 2 ^ 32 - 2 ^ k ->
  exists b, broadcast a m = Ok b /\ v4_ok b /\ v4_to_ulong b = v4_to_ulong a - v4_to_ulong a mod 2 ^ k + (2 ^ k - 1).
Proof.
  intros Hk Hm. unfold broadcast. rewrite Hm. pose proof (v4_ulong_range a) as Hu. set (u := v4_to_ulong a) in *.
  assert (0 < 2 ^ k) as Hp by lia. assert (2 ^ k <= 2 ^ 32) as Hp' by (apply Z.pow_le_mono_r; lia).
  assert (Z.lxor (2 ^ 32 - 2 ^ k) 0xFFFFFFFF = Z.ones k) as ->.
  { change 0xFFFFFFFF with (Z.ones 32). apply Z.bits_inj'. intros i Hi.
    rewrite Z.lxor_spec, mask_bits, !Z.testbit_ones_nonneg by lia. zcases. }
  pose proof (Z.add_lor_land u (Z.ones k)) as Hl. rewrite Z.land_ones, Z.ones_equiv in Hl by lia.
  pose proof (Z.mod_pos_bound u (2 ^ k) Hp). rewrite Z.ones_equiv.
  assert (Z.lor u (Z.pred (2 ^ k)) = u - u mod 2 ^ k + (2 ^ k - 1)) as -> by lia.
  apply v4_of_ulong_spec. split; [lia|]. pose proof (Z.div_mod u (2 ^ k) ltac:(lia)) as Hd.
  assert (2 ^ 32 = 2 ^ (32 - k) * 2 ^ k) as Hs by (rewrite <- Z.pow_add_r by lia; f_equal; lia).
  assert (u / 2 ^ k < 2 ^ (32 - k)) by (apply Z.div_lt_upper_bound; lia). nia.
Qed.

(** ** Order *)
(** What [<], [>], [==] decide between *)
Definition v6_compare (a b : address_v6) : comparison :=
  match memcmp (s6_addr a) (s6_addr b) ?= 0 with Eq => scope_id_ a ?= scope_id_ b | r => r end.
Definition address_compare (a b : address) : comparison :=
  match type_ a, type_ b with
  | ipv4, ipv6 => Lt
  | ipv6, ipv4 => Gt
  | ipv4, ipv4 => v4_to_ulong (ipv4_address_ a) ?= v4_to_ulong (ipv4_address_ b)
  | ipv6, ipv6 => v6_compare (ipv6_address_ a) (ipv6_address_ b)
  end.

Lemma address_ltb_compare a b : address_ltb a b = match address_compare a b with Lt => true | _ => false end.
Proof.
  unfold address_ltb, address_compare, v4_ltb, v6_ltb, v6_compare. destruct (type_ a), (type_ b); try done.
  destruct (Z.compare_spec (memcmp (s6_addr (ipv6_address_ a)) (s6_addr (ipv6_address_ b))) 0) as [E|E|E].
  - by rewrite E.
  - by rewrite (proj2 (Z.ltb_lt _ _) E).
  - by rewrite (proj2 (Z.ltb_ge _ _)), (proj2 (Z.ltb_lt _ _) E) by lia.
Qed.

Lemma address_eqb_compare a b : address_ok a -> address_ok b ->
  address_eqb a b = match address_compare a b with Eq => true | _ => false end.
Proof.
  intros [Ha _] [Hb _]. unfold address_eqb, address_compare, v4_eqb, v6_eqb, v6_compare.
  destruct (type_ a), (type_ b); try done.
  - destruct (Z.compare_spec (v4_to_ulong (ipv4_address_ a)) (v4_to_ulong (ipv4_address_ b))) as [E|E|E];
      [apply v4_ulong_inj in E; try done; rewrite E; apply Z.eqb_refl|apply Z.eqb_neq; intros Hs..];
      unfold v4_to_ulong in E; rewrite Hs in E; lia.
  - destruct (Z.compare_spec (memcmp (s6_addr (ipv6_address_ a)) (s6_addr (ipv6_address_ b))) 0) as [E|E|E];
      [rewrite E|by rewrite (proj2 (Z.eqb_neq _ _)) by lia..].
    destruct (Z.compare_spec (scope_id_ (ipv6_address_ a)) (scope_id_ (ipv6_address_ b))); zcases.
Qed.

(** Equal addresses: the member of the other family has no meaning. *)
Definition same_address (a b : address) : Prop :=
  match type_ a, type_ b with
  | ipv4, ipv4 => ipv4_address_ a = ipv4_address_ b
  | ipv6, ipv6 => ipv6_address_ a = ipv6_address_ b
  | _, _ => False
  end.

#[export] Instance same_address_equivalence : Equivalence same_address.
Proof.
  unfold same_address. split.
  - intros a. by destruct (type_ a).
  - intros a b. destruct (type_ a), (type_ b); done.
  - intros a b c. destruct (type_ a), (type_ b), (type_ c); try done; congruence.
Qed.

(** The operations do not see the difference. *)
Ltac same := intros [] [] ?; unfold same_address in *; cbn in *; repeat case_match; try done; by subst.
#[export] Instance is_loopback_proper : Proper (same_address ==> eq) is_loopback.
Proof. same. Qed.
#[export] Instance is_unspecified_proper : Proper (same_address ==> eq) is_unspecified.
Proof. same. Qed.
#[export] Instance is_multicast_proper : Proper (same_address ==> eq) is_multicast.
Proof. same. Qed.
#[export] Instance to_string_proper `{Inet} : Proper (same_address ==> eq) to_string.
Proof. intros [[]] [[]] Hs; try done; cbn in Hs; by subst. Qed.
#[export] Instance endpoint_of_address_proper : Proper (same_address ==> eq ==> eq) endpoint_of_address.
Proof. intros [[]] [[]] Hs ? ? ->; try done; cbn in Hs; by subst. Qed.
#[export] Instance address_compare_proper : Proper (same_address ==> same_address ==> eq) address_compare.
Proof. intros [[]] [[]] Hs [[]] [[]] Ht; try done; cbn in Hs, Ht; by subst. Qed.

Lemma address_compare_Eq a b : address_ok a -> address_ok b -> address_compare a b = Eq <-> same_address a b.
Proof.
  intros [Ha [Ha' _]] [Hb [Hb' _]]. unfold address_compare, same_address, v6_compare.
  destruct (type_ a), (type_ b); try done.
  - rewrite Z.compare_eq_iff. split; [by apply v4_ulong_inj|by intros ->].
  - destruct (ipv6_address_ a) as [x i], (ipv6_address_ b) as [y j]. cbn in *. split.
    + destruct (Z.compare_spec (memcmp x y) 0) as [E| |]; try done. intros ->%Z.compare_eq.
      apply memcmp_zero in E; [by subst|congruence].
    + intros [= -> ->]. rewrite memcmp_refl. apply Z.compare_refl.
Qed.

Lemma address_compare_sym a b : address_compare b a = CompOpp (address_compare a b).
Proof.
  unfold address_compare, v6_compare. destruct (type_ a), (type_ b); try done; [apply Z.compare_antisym|].
  rewrite (memcmp_opp (s6_addr (ipv6_address_ a)) (s6_addr (ipv6_address_ b))).
  destruct (memcmp _ _) as [| |]; cbn; [apply Z.compare_antisym|done..].
Qed.

Lemma address_compare_trans a b c : address_ok a -> address_ok b -> address_ok c ->
  address_compare a b = Lt -> address_compare b c = Lt -> address_compare a c = Lt.
Proof.
  intros [_ [Ha _]] [_ [Hb _]] [_ [Hc _]]. unfold address_compare, v6_compare.
  destruct (type_ a), (type_ b), (type_ c); try done.
  { rewrite !Z.compare_lt_iff. lia. }
  destruct (ipv6_address_ a) as [x i], (ipv6_address_ b) as [y j], (ipv6_address_ c) as [z k]. cbn in *.
  assert (length x = length y) as H1 by congruence. assert (length y = length z) as H2 by congruence.
  destruct (Z.compare_spec (memcmp x y) 0) as [E1|E1|E1]; try done;
    destruct (Z.compare_spec (memcmp y z) 0) as [E2|E2|E2]; try done;
    [apply (memcmp_zero _ _ H1) in E1|apply (memcmp_zero _ _ H1) in E1|apply (memcmp_zero _ _ H2) in E2
    |pose proof (memcmp_trans x y z H1 H2 E1 E2)]; subst;
    [apply (memcmp_zero _ _ H2) in E2; subst; rewrite memcmp_refl; cbn|by rewrite (proj2 (Z.compare_lt_iff _ _) E2)
    |by rewrite (proj2 (Z.compare_lt_iff _ _) E1)|by rewrite (proj2 (Z.compare_lt_iff _ _) H)].
  rewrite !Z.compare_lt_iff. lia.
Qed.

(** ** Decimal scopes *)
Lemma vlen_cons {A} (x : A) l : vlen (x :: l) = vlen l + 1.
Proof. unfold vlen. cbn [length]. lia. Qed.

Lemma digits_vlen fuel n acc k : 0 <= n -> (fuel <> 0)%nat -> 0 <= k ->
  (n < 10 ^ (k + 1) -> vlen (digits fuel n acc) <= vlen acc + k + 1) /\
  (10 ^ k <= n -> k < Z.of_nat fuel -> vlen acc + k + 1 <= vlen (digits fuel n acc)).
Proof.
  revert n acc k. induction fuel as [|fuel IH]; intros n acc k Hn Hf Hk; [done|].
  cbn [digits]. set (d := of_uchar (48 + n mod 10)). destruct (Z.eqb_spec (n / 10) 0) as [E|E].
  - rewrite vlen_cons. assert (n < 10) by (apply Z.div_small_iff in E; lia). split; [lia|]. intros Hp _.
    destruct (Z.eq_dec k 0) as [->|]; [lia|]. assert (10 ^ 1 <= 10 ^ k) by (apply Z.pow_le_mono_r; lia). lia.
  - assert (10 <= n) by (destruct (Z.lt_ge_cases n 10); [by rewrite Z.div_small in E by lia|done]).
    pose proof (Z.mul_div_le n 10 ltac:(lia)) as Hd. pose proof (Z.mul_succ_div_gt n 10 ltac:(lia)) as Hd'.
    assert (0 <= n / 10) by lia.
    destruct fuel as [|fuel]; [split; intros|].
    + cbn [digits]. rewrite vlen_cons. lia.
    + cbn [digits]. rewrite vlen_cons. lia.
    + destruct (Z.eq_dec k 0) as [->|Hk0].
      { split; [cbn; lia|]. intros _ _. pose proof (proj2 (IH (n / 10) (d :: acc) 0 ltac:(lia) ltac:(done) ltac:(lia))) as H1.
        rewrite vlen_cons in H1. change (10 ^ 0) with 1 in H1. lia. }
      destruct (IH (n / 10) (d :: acc) (k - 1)) as [H1 H2]; [done..|lia|]. rewrite vlen_cons in *.
      replace (k + 1) with (Z.succ k) by lia. replace (k - 1 + 1) with k in * by lia.
      assert (10 ^ k = 10 * 10 ^ (k - 1)) as Hp by (rewrite <- Z.pow_succ_r by lia; f_equal; lia).
      rewrite Z.pow_succ_r by lia. split; intros; [apply Z.le_trans with (vlen acc + 1 + (k - 1) + 1); [apply H1|]|]; lia.
Qed.

Lemma dec_vlen z k : 0 <= z -> 0 <= k < 20 ->
  (z < 10 ^ (k + 1) -> vlen (dec z) <= k + 1) /\ (10 ^ k <= z -> k + 1 <= vlen (dec z)).
Proof.
  intros Hz Hk. unfold dec. rewrite (proj2 (Z.ltb_ge z 0)) by done.
  destruct (digits_vlen 20 z [] k) as [H1 H2]; [done|done|lia|]. change (vlen (A := byte) []) with 0 in *.
  split; [done|]. intros. apply H2; lia.
Qed.

Lemma digits_isdigit fuel n acc : 0 <= n -> Forall (fun b => isdigit b = true) acc ->
  Forall (fun b => isdigit b = true) (digits fuel n acc).
Proof.
  revert n acc. induction fuel as [|fuel IH]; intros n acc Hn Ha; [done|].
  pose proof (Z.mod_pos_bound n 10 ltac:(lia)).
  assert (isdigit (of_uchar (48 + n mod 10)) = true) by (unfold isdigit; rewrite uchar_of_uchar by lia; zcases).
  cbn [digits]. case_match; [by constructor|]. apply IH; [by apply Z.div_pos|by constructor].
Qed.

Lemma dec_isdigit z : 0 <= z -> Forall (fun b => isdigit b = true) (dec z).
Proof. intros Hz. unfold dec. rewrite (proj2 (Z.ltb_ge z 0)) by done. by apply digits_isdigit. Qed.

Lemma span_all {A} (p : A -> bool) l : Forall (fun b => p b = true) l -> span p l = (l, []).
Proof. induction 1 as [|b l Hb _ IH]; [done|]. cbn. by rewrite Hb, IH. Qed.

Lemma atoi_dec z : 0 <= z < 2 ^ 31 -> atoi (dec z) = Ok z.
Proof.
  intros Hz. pose proof (dec_isdigit z ltac:(lia)) as Hd. pose proof (read_dec z) as Hr. unfold atoi.
  assert (1 <= vlen (dec z)) as Hl.
  { destruct (Z.eq_dec z 0) as [->|]; [done|]. apply (proj2 (dec_vlen z 0 ltac:(lia) ltac:(lia))). lia. }
  destruct (dec z) as [|b l]; [done|]. apply Forall_cons in Hd as [Hb Hd].
  assert (isspace b = false /\ uchar b <> 45 /\ uchar b <> 43) as (Hs & H1 & H2).
  { unfold isdigit, isspace in *. rewrite andb_true_iff, !Z.leb_le in Hb. split; [zcases|lia]. }
  cbn [span snd]. rewrite Hs. cbn [snd]. rewrite (proj2 (Z.eqb_neq _ _) H1), (proj2 (Z.eqb_neq _ _) H2).
  rewrite span_all by by constructor. cbn [fst]. rewrite Hr by lia.
  by rewrite (proj2 (Z.leb_le _ _)), (proj2 (Z.ltb_lt _ _)) by lia.
Qed.

(** ** Text and back *)
Lemma strchr_None l c : c ∉ l -> strchr l c = None.
Proof.
  intros Hc. unfold strchr. rewrite (proj2 (list_find_None _ _)); [done|].
  apply Forall_forall. intros x Hx ->. done.
Qed.

Lemma strchr_app l c k : c ∉ l -> strchr (l ++ c :: k) c = Some (length l).
Proof.
  intros Hc. unfold strchr. rewrite (list_find_app_r _ l) by (apply list_find_None, Forall_forall; intros x Hx ->; done).
  cbn. rewrite decide_True by done. cbn. by f_equal.
Qed.

Section TextLaws.
Context `{InetLaws}.

(** Texts of scopes are read again: below [2 ^ 31], and when no interface has the
    digits of a nameless index as its name. *)
Definition scope_readable (a : address_v6) : Prop :=
  scope_id_ a < 2 ^ 31 /\
  (if_indextoname (scope_id_ a) = None -> if_nametoindex (dec (scope_id_ a)) = 0).

Lemma scope_text_round a : v6_ok a -> scope_readable a -> scope_id_ a <> 0 -> exists name,
  scope_text (AddressV6 (s6_addr a) 0) (scope_id_ a) = Ok (lit "%" ++ name) /\ vlen name < IF_NAMESIZE /\
  (scope_id ← Ok (if is_link_local (AddressV6 (s6_addr a) 0) || is_multicast_link_local (AddressV6 (s6_addr a) 0)
                  then if_nametoindex name else 0);
   if scope_id =? 0 then i ← atoi name; Ok (u64 i) else Ok scope_id) = Ok (scope_id_ a).
Proof.
  intros [_ Hs] [Hlt Hn] Hz. unfold in_u64 in Hs. set (z := scope_id_ a) in *. unfold scope_text.
  assert (vlen (dec z) < IF_NAMESIZE) as Hv.
  { apply Z.le_lt_trans with (9 + 1); [|done]. apply (proj1 (dec_vlen z 9 ltac:(lia) ltac:(lia))). lia. }
  assert ((i ← atoi (dec z); Ok (u64 i)) = Ok z) as Ha.
  { rewrite atoi_dec by lia. cbn. by rewrite u64_id by ulia. }
  assert ((vlen (dec z) + 1 <=? IF_NAMESIZE) = true) as Hle by (apply Z.leb_le; unfold IF_NAMESIZE in *; lia).
  set (b := AddressV6 (s6_addr a) 0). rewrite <- negb_orb. destruct (is_link_local b || is_multicast_link_local b); cbn [negb].
  - rewrite u32_id by lia. destruct (if_indextoname z) as [name|] eqn:E.
    + destruct (if_name_ok _ _ E) as (Hl & Hi & Hp). exists name. split; [done|]. split; [done|]. cbn.
      rewrite Hi. by rewrite (proj2 (Z.eqb_neq _ _) Hz).
    + rewrite Hle. exists (dec z). split; [done|]. split; [done|]. cbn [mbind outcome_bind].
      rewrite Hn by done. done.
  - rewrite Hle. exists (dec z). done.
Qed.

Lemma v6_text_round a : v6_ok a -> scope_readable a -> exists t,
  v6_to_string a = Ok (t, error_code_new) /\ v6_from_string t = Ok (a, error_code_new).
Proof.
  intros Ha Hr. destruct Ha as [Hl Hs] eqn:E. clear E. unfold v6_to_string, inet_ntop.
  destruct (ntop_v6 _ Hl) as (t & Ht & Hv & Hp & Hpt). rewrite Ht. cbn [andb Z.eqb Pos.eqb AF_INET6].
  destruct (Z.eqb_spec (scope_id_ a) 0) as [E|E]; cbn [negb].
  - exists t. split; [done|]. unfold v6_from_string, inet_pton. cbn [Z.eqb Pos.eqb AF_INET6].
    rewrite strchr_None, Hpt by done. cbn. destruct a as [x i]; cbn in *. by subst.
  - destruct (scope_text_round a Ha Hr E) as (name & -> & Hn & Hi). cbn [mbind outcome_bind].
    rewrite vlen_app. change (vlen (lit "%")) with 1.
    assert ((vlen t + (1 + vlen name) + 1 <=? max_addr_v6_str_len) = true) as ->.
    { apply Z.leb_le. unfold max_addr_v6_str_len, INET6_ADDRSTRLEN, IF_NAMESIZE in *. lia. }
    exists (t ++ of_uchar 37 :: name). split; [done|]. unfold v6_from_string, inet_pton. cbn [Z.eqb Pos.eqb AF_INET6].
    rewrite strchr_app by done.
    fold (vlen t). rewrite (proj2 (Z.ltb_ge _ _)) by (unfold max_addr_v6_str_len, INET6_ADDRSTRLEN, IF_NAMESIZE in *; lia).
    rewrite take_app_length, Hpt. cbn [Z.leb Z.ltb Z.compare andb].
    assert (drop (S (length t)) (t ++ of_uchar 37 :: name) = name) as ->.
    { change (of_uchar 37 :: name) with ([of_uchar 37] ++ name). rewrite app_assoc. apply drop_app_length'.
      rewrite length_app. cbn. lia. }
    cbn [mbind outcome_bind] in Hi. rewrite Hi. cbn. by destruct a.
Qed.

Lemma v4_text_round a : v4_ok a -> exists t,
  v4_to_string a = Ok (t, error_code_new) /\ v4_from_string t = Ok (a, error_code_new) /\
  exists b ec, v6_from_string t = Ok (b, ec) /\ ec_not ec = false.
Proof.
  intros Ha. unfold v4_to_string, inet_ntop.
  destruct (ntop_v4 _ (length_store_le 4 (s_addr a))) as (t & Ht & Hv & Hp & Hpt & d & Hp6). rewrite Ht.
  exists t. split; [done|]. unfold v4_from_string, v6_from_string, inet_pton. cbn [Z.eqb Pos.eqb AF_INET6 AF_INET].
  rewrite strchr_None, Hpt, Hp6 by done. cbn [Z.leb Z.ltb Z.compare andb mbind outcome_bind]. split.
  - fold (v4_to_bytes a). fold (v4_of_bytes (v4_to_bytes a)). by rewrite v4_bytes_round.
  - by eexists _, _.
Qed.
End TextLaws.

(** ** Endpoints *)
Definition ip_endpoint_ok (e : ip_endpoint) : Prop :=
  match e with
  | SockaddrIn p a => 0 <= p < 2 ^ 16 /\ 0 <= a < 2 ^ 32
  | SockaddrIn6 p f a s => 0 <= p < 2 ^ 16 /\ 0 <= f < 2 ^ 32 /\ length a = 16%nat /\ 0 <= s < 2 ^ 32
  end.

Lemma endpoint_address_ok e : ip_endpoint_ok e -> exists a, endpoint_address e = Ok a /\ address_ok a.
Proof.
  destruct e as [p a|p f a s]; cbn [ip_endpoint_ok endpoint_address]; intros He.
  - destruct (v4_of_ulong_spec (network_to_host_long a)) as (b & -> & Hb & _); [auto|].
    eexists. split; [done|]. by split.
  - eexists. split; [done|]. destruct He as (_ & _ & Hl & Hs). split; [done|]. split; [done|].
    unfold in_u64. cbn [scope_id_ ipv6_address_ address_of_v6 v6_of_bytes]. lia.
Qed.

Definition same_endpoint (e1 e2 : ip_endpoint) : Prop := exists a1 a2,
  endpoint_address e1 = Ok a1 /\ endpoint_address e2 = Ok a2 /\ same_address a1 a2 /\ port e1 = port e2.

(** [lt] is a strict order in which two values are unrelated when they are the same. *)
Definition strict_total_order {A} (ok : A -> Prop) (same lt : relation A) : Prop :=
  (forall a b, ok a -> ok b ->
     (same a b /\ ~ lt a b /\ ~ lt b a) \/ (~ same a b /\ lt a b /\ ~ lt b a) \/ (~ same a b /\ ~ lt a b /\ lt b a)) /\
  (forall a b c, ok a -> ok b -> ok c -> lt a b -> lt b c -> lt a c).

Lemma compare_total {A} (ok : A -> Prop) (same : relation A) (cmp : A -> A -> comparison) :
  (forall a b, ok a -> ok b -> cmp a b = Eq <-> same a b) ->
  (forall a b, cmp b a = CompOpp (cmp a b)) ->
  (forall a b c, ok a -> ok b -> ok c -> cmp a b = Lt -> cmp b c = Lt -> cmp a c = Lt) ->
  strict_total_order ok same (fun a b => cmp a b = Lt).
Proof.
  intros Heq Hsym Htr. split; [|done]. intros a b Ha Hb. rewrite <- (Heq a b) by done. rewrite (Hsym a b).
  destruct (cmp a b); naive_solver.
Qed.

Definition endpoint_compare (e1 e2 : ip_endpoint) : comparison :=
  match endpoint_address e1, endpoint_address e2 with
  | Ok a1, Ok a2 => match address_compare a1 a2 with Eq => port e1 ?= port e2 | r => r end
  | _, _ => Eq
  end.

Lemma endpoint_compare_Eq e1 e2 : ip_endpoint_ok e1 -> ip_endpoint_ok e2 -> endpoint_compare e1 e2 = Eq <-> same_endpoint e1 e2.
Proof.
  intros H1 H2. unfold endpoint_compare, same_endpoint.
  destruct (endpoint_address_ok _ H1) as (a1 & -> & Ha1), (endpoint_address_ok _ H2) as (a2 & -> & Ha2).
  pose proof (address_compare_Eq a1 a2 Ha1 Ha2) as He. split.
  - destruct (address_compare a1 a2) eqn:E; try done. intros Hp%Z.compare_eq. exists a1, a2. naive_solver.
  - intros (b1 & b2 & [= <-] & [= <-] & Hs & Hp). rewrite (proj2 He Hs), Hp. apply Z.compare_refl.
Qed.

Lemma endpoint_compare_total : strict_total_order ip_endpoint_ok same_endpoint (fun a b => endpoint_compare a b = Lt).
Proof.
  apply compare_total; [apply endpoint_compare_Eq|..].
  - intros e1 e2. unfold endpoint_compare. destruct (endpoint_address e1) as [a1| |], (endpoint_address e2) as [a2| |]; try done.
    rewrite (address_compare_sym a1 a2). destruct (address_compare a1 a2); cbn; [apply Z.compare_antisym|done..].
  - intros e1 e2 e3 H1 H2 H3. unfold endpoint_compare.
    destruct (endpoint_address_ok _ H1) as (a1 & -> & Ha1), (endpoint_address_ok _ H2) as (a2 & -> & Ha2),
      (endpoint_address_ok _ H3) as (a3 & -> & Ha3).
    destruct (address_compare a1 a2) eqn:E1; try done; destruct (address_compare a2 a3) eqn:E2; try done;
      rewrite ?(address_compare_trans a1 a2 a3 Ha1 Ha2 Ha3 E1 E2); try done;
      [apply address_compare_Eq in E1; [|done..]|apply address_compare_Eq in E1; [|done..]
      |apply address_compare_Eq in E2; [|done..]].
    + rewrite E1, E2. rewrite !Z.compare_lt_iff. lia.
    + by rewrite E1, E2.
    + by rewrite <- E2, E1.
Qed.

Lemma endpoint_ltb_compare e1 e2 : ip_endpoint_ok e1 -> ip_endpoint_ok e2 ->
  endpoint_ltb e1 e2 = Ok (match endpoint_compare e1 e2 with Lt => true | _ => false end) /\
  endpoint_eqb e1 e2 = Ok (match endpoint_compare e1 e2 with Eq => true | _ => false end).
Proof.
  intros H1 H2. unfold endpoint_ltb, endpoint_eqb, endpoint_compare.
  destruct (endpoint_address_ok _ H1) as (a1 & -> & Ha1), (endpoint_address_ok _ H2) as (a2 & -> & Ha2).
  cbn [mbind outcome_bind]. rewrite address_ltb_compare, address_eqb_compare by done.
  destruct (address_compare a1 a2); cbn; try done.
  destruct (Z.compare_spec (port e1) (port e2)); zcases.
Qed.

Lemma strict_total_order_iff {A} (ok : A -> Prop) (same lt lt' : relation A) :
  (forall a b, ok a -> ok b -> lt a b <-> lt' a b) -> strict_total_order ok same lt -> strict_total_order ok same lt'.
Proof.
  intros Hlt [H1 H2]. split.
  - intros a b Ha Hb. rewrite <- !Hlt by done. auto.
  - intros a b c Ha Hb Hc. rewrite <- !Hlt by done. eauto.
Qed.

(** ** The properties *)

(** C27. An address is written as text and read back the same, with its scope, for the
    IPv4 addresses, and for the IPv6 addresses whose scope is below [2 ^ 31] (a nameless
    index must not be the name of another interface).  An IPv4 text, which is first tried
    as an IPv6 address, is not taken for one. *)
Theorem address_text_roundtrip `{InetLaws} (a : address) :
  address_ok a -> (is_v6 a = true -> scope_readable (ipv6_address_ a)) ->
  exists t a', to_string a = Ok (t, error_code_new) /\ from_string t = Ok (a', error_code_new) /\ same_address a' a.
Proof.
  intros [H4 H6] Hs. unfold to_string, from_string. destruct (is_v6 a) eqn:E.
  - destruct (v6_text_round _ H6 (Hs eq_refl)) as (t & Ht & Hf). exists t. rewrite Ht, Hf. eexists.
    split; [done|]. split; [done|]. unfold is_v6, same_address in *. by destruct (type_ a).
  - destruct (v4_text_round _ H4) as (t & Ht & Hf & b & ec & H6t & Hec). exists t. rewrite Ht, H6t, Hf.
    cbn [mbind outcome_bind]. rewrite Hec. eexists. split; [done|]. split; [done|].
    unfold is_v6, same_address in *. by destruct (type_ a).
Qed.

(** A scope of 16 digits or more, which is no name of an interface, is printed past
    the end of [if_name] (17 bytes), for every address: [to_string] is undefined. *)
Theorem scope_overrun `{InetLaws} (a : address_v6) :
  v6_ok a -> 10 ^ 15 <= scope_id_ a ->
  (is_link_local a || is_multicast_link_local a = true -> if_indextoname (u32 (scope_id_ a)) = None) ->
  to_string (address_of_v6 a) = Crash OutOfBounds.
Proof.
  intros [Hl Hs] Hd Hn. unfold to_string, v6_to_string, inet_ntop. cbn [is_v6 type_ address_of_v6 ipv6_address_].
  destruct (ntop_v6 _ Hl) as (t & -> & _). cbn [andb Z.eqb Pos.eqb AF_INET6].
  rewrite (proj2 (Z.eqb_neq _ _)) by lia. cbn [negb]. unfold scope_text. rewrite <- negb_orb.
  change (is_link_local (AddressV6 (s6_addr a) 0)) with (is_link_local a).
  change (is_multicast_link_local (AddressV6 (s6_addr a) 0)) with (is_multicast_link_local a).
  assert ((if negb (is_link_local a || is_multicast_link_local a) then None else if_indextoname (u32 (scope_id_ a))) = None)
    as -> by (destruct (_ || _); [by apply Hn|done]).
  pose proof (proj2 (dec_vlen (scope_id_ a) 15 ltac:(lia) ltac:(lia)) Hd). by rewrite (proj2 (Z.leb_gt _ _)) by (unfold IF_NAMESIZE; lia).
Qed.

(** An endpoint made of an address and a port gives them back, except that the
    system keeps 32 bits of an IPv6 scope, though [scope_id] is an [unsigned long]: the
    address comes back the same exactly when its scope is below [2 ^ 32].  Setting the port
    or the address keeps the other. *)
Theorem endpoint_roundtrip (a : address) (p : Z) :
  address_ok a -> 0 <= p < 2 ^ 16 ->
  exists e, endpoint_of_address a p = Ok e /\ ip_endpoint_ok e /\ port e = p /\
    (exists b, endpoint_address e = Ok b /\ type_ b = type_ a /\
       (same_address b a <-> (is_v6 a = true -> scope_id_ (ipv6_address_ a) < 2 ^ 32))) /\
    (forall q, 0 <= q < 2 ^ 16 -> port (set_endpoint_port q e) = q /\ endpoint_address (set_endpoint_port q e) = endpoint_address e) /\
    (forall c, address_ok c -> set_address c e = endpoint_of_address c p).
Proof.
  intros [H4 [H6 Hs]] Hp. unfold endpoint_of_address, is_v4, to_v4, to_v6, is_v4, is_v6. destruct a as [[] a4 [x i]].
  - cbn [type_ negb mbind outcome_bind ipv4_address_] in *. rewrite u32_id by apply v4_ulong_range. unfold v4_to_ulong.
    rewrite long_round' by done. eexists. split; [done|]. cbn [ip_endpoint_ok port set_endpoint_port endpoint_address].
    rewrite short_round by done. split_and!; try apply host_to_network_short_range; try apply H4; [done|..].
    + change (network_to_host_long (s_addr a4)) with (v4_to_ulong a4). rewrite v4_round by done.
      eexists. split; [done|]. by split.
    + intros q Hq. by rewrite short_round.
    + intros c Hc. unfold set_address. cbn [port]. by rewrite short_round.
  - cbn [type_ negb mbind outcome_bind ipv6_address_] in *. eexists. split; [done|].
    cbn [ip_endpoint_ok port set_endpoint_port endpoint_address]. rewrite short_round by done.
    pose proof (u32_range (scope_id (AddressV6 x i))) as Hu.
    split_and!; try apply host_to_network_short_range; try apply Hu; [done..| | |].
    + eexists. split; [done|]. split; [done|]. unfold same_address, v6_of_bytes, v6_to_bytes, scope_id in *. cbn in *.
      unfold in_u64 in Hs. split; [intros [= Hi] _; lia|intros Hi; by rewrite u32_id by (specialize (Hi eq_refl); lia)].
    + intros q Hq. by rewrite short_round.
    + intros c Hc. unfold set_address. cbn [port]. by rewrite short_round.
Qed.

(** [<] on addresses is a strict order, and two addresses are unrelated by it
    exactly when [==] holds, which is exactly when they are of one family and have the
    same value there; likewise on endpoints, by address and then by port. *)
Theorem addresses_ordered :
  strict_total_order address_ok same_address (fun a b => address_ltb a b = true) /\
  (forall a b, address_ok a -> address_ok b -> address_eqb a b = true <-> same_address a b) /\
  strict_total_order ip_endpoint_ok same_endpoint (fun e f => endpoint_ltb e f = Ok true) /\
  (forall e f, ip_endpoint_ok e -> ip_endpoint_ok f ->
     exists b, endpoint_eqb e f = Ok b /\ (b = true <-> same_endpoint e f)).
Proof.
  split_and!.
  - eapply strict_total_order_iff; [|apply compare_total;
      [apply address_compare_Eq|apply address_compare_sym|apply address_compare_trans]].
    intros a b _ _. cbn. rewrite address_ltb_compare. by destruct (address_compare a b).
  - intros a b Ha Hb. rewrite address_eqb_compare, <- address_compare_Eq by done. by destruct (address_compare a b).
  - eapply strict_total_order_iff; [|apply endpoint_compare_total].
    intros e f He Hf. cbn. rewrite (proj1 (endpoint_ltb_compare e f He Hf)). by destruct (endpoint_compare e f).
  - intros e f He Hf. eexists. split; [apply (endpoint_ltb_compare e f He Hf)|].
    rewrite <- endpoint_compare_Eq by done. by destruct (endpoint_compare e f).
Qed.

Lemma host_bits_network u v : 0 <= u < 2 ^ 32 -> 0 <= v < 2 ^ 32 -> v / 2 ^ host_bits u = u / 2 ^ host_bits u -> host_bits v = host_bits u.
Proof.
  intros Hu Hv. unfold host_bits. destruct (Z.ltb_spec u (2 ^ 31)); [|destruct (Z.ltb_spec u (3 * 2 ^ 30));
    [|destruct (Z.ltb_spec u (7 * 2 ^ 29))]]; intros E; zcases; Z.to_euclidean_division_equations; lia.
Qed.

(** The network of an IPv4 address by its class: [netmask] and [broadcast] never
    throw, the mask has a one for each bit of the network, and the broadcast address is
    the last one of the network and has the same mask; at most one of the class tests
    holds, and one does below 240.0.0.0. *)
Theorem v4_networks (a : address_v4) :
  exists m b k, netmask a = Ok m /\ broadcast a m = Ok b /\ 0 <= k <= 24 /\
    v4_to_ulong m = 2 ^ 32 - 2 ^ k /\
    v4_to_ulong b / 2 ^ k = v4_to_ulong a / 2 ^ k /\ v4_to_ulong b mod 2 ^ k = 2 ^ k - 1 /\
    netmask b = Ok m /\
    Z.b2z (is_class_a a) + Z.b2z (is_class_b a) + Z.b2z (is_class_c a) + Z.b2z (v4_is_multicast a) =
      Z.b2z (v4_to_ulong a <? 240 * 2 ^ 24).
Proof.
  pose proof (host_bits_range (v4_to_ulong a)) as Hk.
  destruct (netmask_spec a) as (m & Hm & Hmo & Hmu).
  destruct (broadcast_spec a m (host_bits (v4_to_ulong a)) ltac:(lia) Hmu) as (b & Hb & Hbo & Hbu).
  set (k := host_bits (v4_to_ulong a)) in *. exists m, b, k.
  assert (0 < 2 ^ k) as Hp by lia. pose proof (Z.div_mod (v4_to_ulong a) (2 ^ k) ltac:(lia)) as Hd.
  assert (v4_to_ulong b = v4_to_ulong a / 2 ^ k * 2 ^ k + (2 ^ k - 1)) as Hbu' by lia.
  assert (v4_to_ulong b / 2 ^ k = v4_to_ulong a / 2 ^ k) as Hn.
  { rewrite Hbu', Z.div_add_l, (Z.div_small (2 ^ k - 1)) by lia. lia. }
  split_and!; try done; try lia.
  - rewrite Hbu', Z.add_comm, Z.mod_add, Z.mod_small by lia. lia.
  - destruct (netmask_spec b) as (m' & -> & Hmo' & Hmu'). f_equal. apply v4_ulong_inj; [done..|].
    by rewrite Hmu', Hmu, (host_bits_network (v4_to_ulong a)) by auto using v4_ulong_range.
  - destruct (class_tests a) as (-> & -> & -> & -> & _). pose proof (v4_ulong_range a). zcases.
Qed.

(** An IPv4 address inside an IPv6 one is found again: [v4_mapped] always, and
    [v4_compatible] unless it is 0.0.0.0 or 0.0.0.1, of which [to_v4] throws [bad_cast];
    the two embeddings are never confused, and these two are the unspecified and the
    loopback address. *)
Theorem v4_in_v6 (a : address_v4) :
  v4_ok a ->
  v6_to_v4 (v4_mapped a) = Ok a /\ is_v4_mapped (v4_mapped a) = true /\ is_v4_compatible (v4_mapped a) = false /\
  is_v4_mapped (v4_compatible a) = false /\
  v6_to_v4 (v4_compatible a) = (if v4_to_ulong a <=? 1 then Throws BadCast else Ok a) /\
  v6_is_loopback (v4_compatible a) = (v4_to_ulong a =? 1) /\
  v6_is_unspecified (v4_compatible a) = (v4_to_ulong a =? 0).
Proof.
  intros Ha. unfold v6_to_v4, v4_mapped, v4_compatible, v4_to_ulong, network_to_host_long.
  pose proof (v4_bytes_round a Ha) as Hr. unfold v4_to_bytes in *. pose proof (length_store_le 4 (s_addr a)) as Hl.
  destruct (store_le 4 (s_addr a)) as [|b0 [|b1 [|b2 [|b3 [|]]]]]; try done.
  unfold is_v4_compatible, is_v4_mapped, v6_is_loopback, v6_is_unspecified, zeros, s6. cbn -[uchar v4_of_bytes].
  change (uchar Byte.x00) with 0. change (uchar Byte.xff) with 255. cbn -[uchar v4_of_bytes].
  pose proof (uchar_range b0). pose proof (uchar_range b1). pose proof (uchar_range b2). pose proof (uchar_range b3).
  rewrite Hr, negb_involutive, !andb_true_r.
  split_and!; [done..|match goal with |- (if ?b then _ else _) = (if ?c then _ else _) =>
    assert (b = c) as ->; [zcases|done] end|zcases|zcases].
Qed.

Lemma v4_in_v6_witness : v6_to_v4 (v4_mapped (v4_of_bytes [Byte.x7f; Byte.x00; Byte.x00; Byte.x01])) =
  Ok (v4_of_bytes [Byte.x7f; Byte.x00; Byte.x00; Byte.x01]).
Proof. apply (v4_in_v6 (v4_of_bytes [Byte.x7f; Byte.x00; Byte.x00; Byte.x01])). vm_compute. split; congruence. Defined.

(** ** A library on which the witnesses compute: an address is the letters of its
    nibbles, of [a] to [p]; one interface, eth0, has the index 3. *)
Definition nibbles (bytes : list byte) : list byte := bytes ≫= fun b => [of_uchar (97 + uchar b / 16); of_uchar (97 + uchar b mod 16)].
Fixpoint of_nibbles (t : list byte) : list byte :=
  match t with x :: y :: t' => of_uchar (16 * (uchar x - 97) + (uchar y - 97)) :: of_nibbles t' | _ => [] end.
Definition toy_length (af : Z) : Z := if af =? AF_INET then 8 else 32.
#[export] Instance toy_inet : Inet := {|
  c_inet_ntop af src _ := (Some (nibbles src), 0);
  c_inet_pton af t := if vlen t =? toy_length af then (1, of_nibbles t, 0) else (0, [], 0);
  if_indextoname i := if i =? 3 then Some (lit "eth0") else None;
  if_nametoindex name := if bool_decide (name = lit "eth0") then 3 else 0
|}.

Lemma of_nibbles_nibbles l : of_nibbles (nibbles l) = l.
Proof.
  induction l as [|b l IH]; [done|]. change (nibbles (b :: l)) with
    (of_uchar (97 + uchar b / 16) :: of_uchar (97 + uchar b mod 16) :: nibbles l).
  cbn [of_nibbles]. rewrite IH. f_equal. pose proof (uchar_range b). pose proof (Z.mod_pos_bound (uchar b) 16 ltac:(lia)).
  assert (0 <= uchar b / 16 < 16) by (split; [apply Z.div_pos|apply Z.div_lt_upper_bound]; lia).
  rewrite !uchar_of_uchar by lia. rewrite <- (of_uchar_uchar b) at 3. f_equal.
  pose proof (Z.div_mod (uchar b) 16 ltac:(lia)). lia.
Qed.

Lemma nibbles_length l : vlen (nibbles l) = 2 * vlen l.
Proof. induction l as [|b l IH]; [done|]. cbn. rewrite !vlen_cons. fold (nibbles l). rewrite IH. lia. Qed.

Lemma nibbles_percent l : of_uchar 37 ∉ nibbles l.
Proof.
  induction l as [|b l IH]; [by apply not_elem_of_nil|]. change (nibbles (b :: l)) with
    (of_uchar (97 + uchar b / 16) :: of_uchar (97 + uchar b mod 16) :: nibbles l).
  pose proof (uchar_range b). pose proof (Z.mod_pos_bound (uchar b) 16 ltac:(lia)).
  assert (0 <= uchar b / 16 < 16) by (split; [apply Z.div_pos|apply Z.div_lt_upper_bound]; lia).
  rewrite !not_elem_of_cons. split_and!; [intros E%(f_equal uchar)..|done]; rewrite !uchar_of_uchar in E by lia; lia.
Qed.

#[export] Instance toy_inet_laws : InetLaws.
Proof.
  split.
  - intros bytes Hb. exists (nibbles bytes). assert (vlen bytes = 4) as Hv by (unfold vlen; lia).
    cbn [c_inet_ntop c_inet_pton toy_inet]. rewrite nibbles_length, of_nibbles_nibbles, Hv.
    split_and!; [done|done|apply nibbles_percent|done|by eexists].
  - intros bytes Hb. exists (nibbles bytes). assert (vlen bytes = 16) as Hv by (unfold vlen; lia).
    cbn [c_inet_ntop c_inet_pton toy_inet]. rewrite nibbles_length, of_nibbles_nibbles, Hv.
    split_and!; [done|done|apply nibbles_percent|done].
  - intros i name. cbn. destruct (Z.eqb_spec i 3) as [->|]; [|done]. by intros [= <-].
Qed.

(** fe80::1%eth0, with the index 3 *)
Definition link_local_1 : address_v6 := AddressV6 ([Byte.xfe; Byte.x80] ++ replicate 13 Byte.x00 ++ [Byte.x01]) 3.

Lemma address_text_roundtrip_witness :
  address_ok (address_of_v6 link_local_1) /\
  to_string (address_of_v6 link_local_1) = Ok (lit "poiaaaaaaaaaaaaaaaaaaaaaaaaaaaab%eth0", error_code_new) /\
  exists t a', to_string (address_of_v6 link_local_1) = Ok (t, error_code_new) /\ from_string t = Ok (a', error_code_new) /\
    same_address a' (address_of_v6 link_local_1).
Proof.
  assert (address_ok (address_of_v6 link_local_1)) as Ha by (split; [done|split; [done|vm_compute; split; congruence]]).
  split; [done|]. split; [vm_compute; reflexivity|].
  apply (address_text_roundtrip (address_of_v6 link_local_1) Ha). intros _. split; [done|]. intros Hn. discriminate Hn.
Defined.

Definition far_scope : address_v6 := AddressV6 ([Byte.xfe; Byte.x80] ++ replicate 13 Byte.x00 ++ [Byte.x01]) (10 ^ 15).
Lemma scope_overrun_witness : to_string (address_of_v6 far_scope) = Crash OutOfBounds.
Proof.
  apply (scope_overrun far_scope); [split; [done|vm_compute; split; congruence]|done|intros _; vm_compute; reflexivity].
Defined.

Lemma endpoint_roundtrip_witness : exists e, endpoint_of_address (address_of_v6 far_scope) 80 = Ok e /\ port e = 80 /\
  ~ exists b, endpoint_address e = Ok b /\ same_address b (address_of_v6 far_scope).
Proof.
  destruct (endpoint_roundtrip (address_of_v6 far_scope) 80) as (e & He & _ & Hp & (b & Hb & _ & Hiff) & _);
    [split; [done|split; [done|vm_compute; split; congruence]]|lia|].
  exists e. split; [exact He|]. split; [exact Hp|]. intros (b' & Hb' & Hs). rewrite Hb in Hb'. injection Hb' as <-.
  apply Hiff in Hs; [|reflexivity]. vm_compute in Hs. discriminate Hs.
Defined.
