(* ===== verification/Asiobuf.v ===== *)
(** * Buffer sequences (asio/buffer.hpp, detail/consuming_buffers.hpp,
    detail/buffer_sequence_adapter.hpp, completion_condition.hpp)

    A buffer is an address and a size; its contents are those of a memory
    [Z -> byte].  [consuming_buffers] is the part of a sequence still to be
    transferred; iterators into the underlying sequence are indices.  The
    theorems read a sequence as its bytes: consuming drops, preparing limits. *)
From S2P Require Import Prelude Socketops.

(** ** mutable_buffer and const_buffer *)
Record buffer := Buffer { data_ : Z; size_ : Z }.
Definition buffer_new : buffer := Buffer 0 0.
Definition buffer_cast (b : buffer) : Z := data_ b.
Definition buffer_size (b : buffer) : Z := size_ b.

(** [buffer_size] of a sequence *)
Definition buffers_size (l : list buffer) : Z := fold_left (fun n b => u64 (n + buffer_size b)) l 0.

(** [operator+] *)
Definition buffer_add (b : buffer) (start : Z) : buffer :=
  if buffer_size b <? start then buffer_new
  else Buffer (buffer_cast b + start) (u64 (buffer_size b - start)).

(** [buffer(b, max_size_in_bytes)] *)
Definition buffer_max (b : buffer) (max_size_in_bytes : Z) : buffer :=
  Buffer (buffer_cast b) (if buffer_size b <? max_size_in_bytes then buffer_size b else max_size_in_bytes).

(** ** consuming_buffers_iterator *)
Record cb_iterator := CbIterator {
  it_at_end_ : bool; it_first_ : buffer; it_begin_remainder_ : nat; it_end_remainder_ : nat;
  it_offset_ : Z; it_max_size_ : Z
}.
Definition cb_end : cb_iterator := CbIterator true buffer_new 0 0 0 0.
Definition cb_iterator_new (at_end : bool) (first : buffer) (begin_remainder end_remainder : nat)
    (max_size : Z) : cb_iterator :=
  CbIterator (if 0 <? max_size then at_end else true) (buffer_max first max_size)
    begin_remainder end_remainder 0 max_size.

(** [*it] in the sequence [l]; an iterator is only read before its end. *)
Definition deref (l : list buffer) (i : nat) : buffer := default buffer_new (l !! i).

Definition cb_increment (l : list buffer) (it : cb_iterator) : cb_iterator :=
  if it_at_end_ it then it else
  if bool_decide (it_begin_remainder_ it = it_end_remainder_ it)
     || (it_max_size_ it <=? u64 (it_offset_ it + buffer_size (it_first_ it)))
  then CbIterator true (it_first_ it) (it_begin_remainder_ it) (it_end_remainder_ it)
         (it_offset_ it) (it_max_size_ it)
  else
    let offset := u64 (it_offset_ it + buffer_size (it_first_ it)) in
    CbIterator false (buffer_max (deref l (it_begin_remainder_ it)) (u64 (it_max_size_ it - offset)))
      (S (it_begin_remainder_ it)) (it_end_remainder_ it) offset (it_max_size_ it).

Definition cb_equal (a b : cb_iterator) : bool :=
  (it_at_end_ a && it_at_end_ b) ||
  negb (it_at_end_ a) && negb (it_at_end_ b)
  && (buffer_cast (it_first_ a) =? buffer_cast (it_first_ b))
  && (buffer_size (it_first_ a) =? buffer_size (it_first_ b))
  && bool_decide (it_begin_remainder_ a = it_begin_remainder_ b)
  && bool_decide (it_end_remainder_ a = it_end_remainder_ b).

(** ** consuming_buffers *)
Record consuming_buffers := ConsumingBuffers {
  buffers_ : list buffer; at_end_ : bool; first_ : buffer; begin_remainder_ : nat; max_size_ : Z
}.

Definition consuming_buffers_new (buffers : list buffer) : consuming_buffers :=
  match buffers with
  | [] => ConsumingBuffers buffers true buffer_new 0 SIZE_MAX
  | b :: _ => ConsumingBuffers buffers false b 1 SIZE_MAX
  end.

Definition cb_begin (c : consuming_buffers) : cb_iterator :=
  cb_iterator_new (at_end_ c) (first_ c) (begin_remainder_ c) (length (buffers_ c)) (max_size_ c).

Definition prepare (max_size : Z) (c : consuming_buffers) : consuming_buffers :=
  ConsumingBuffers (buffers_ c) (at_end_ c) (first_ c) (begin_remainder_ c) max_size.

(** [first_ = *begin_remainder_++], at the end of the sequence [at_end_ = true] *)
Definition cb_next (c : consuming_buffers) : consuming_buffers :=
  if bool_decide (begin_remainder_ c = length (buffers_ c))
  then ConsumingBuffers (buffers_ c) true (first_ c) (begin_remainder_ c) (max_size_ c)
  else ConsumingBuffers (buffers_ c) false (deref (buffers_ c) (begin_remainder_ c))
         (S (begin_remainder_ c)) (max_size_ c).

(** The two loops of [consume]; each round moves on in the sequence, except the
    last of the first loop. *)
Fixpoint consume_bytes (fuel : nat) (size : Z) (c : consuming_buffers) : consuming_buffers :=
  match fuel with
  | O => c
  | S fuel' =>
    if (0 <? size) && negb (at_end_ c) then
      if buffer_size (first_ c) <=? size
      then consume_bytes fuel' (u64 (size - buffer_size (first_ c))) (cb_next c)
      else consume_bytes fuel' 0
             (ConsumingBuffers (buffers_ c) (at_end_ c) (buffer_add (first_ c) size)
                (begin_remainder_ c) (max_size_ c))
    else c
  end.

Fixpoint consume_empty (fuel : nat) (c : consuming_buffers) : consuming_buffers :=
  match fuel with
  | O => c
  | S fuel' =>
    if negb (at_end_ c) && (buffer_size (first_ c) =? 0) then consume_empty fuel' (cb_next c) else c
  end.

Definition consume (size : Z) (c : consuming_buffers) : consuming_buffers :=
  let rounds := S (length (buffers_ c)) in
  consume_empty rounds (consume_bytes rounds size c).

(** The buffers from [begin()] to [end()] *)
Fixpoint cb_range (fuel : nat) (l : list buffer) (it : cb_iterator) : list buffer :=
  match fuel with
  | O => []
  | S fuel' => if cb_equal it cb_end then [] else it_first_ it :: cb_range fuel' l (cb_increment l it)
  end.
Definition cb_elements (c : consuming_buffers) : list buffer :=
  cb_range (S (length (buffers_ c))) (buffers_ c) (cb_begin c).

(** ** buffer_sequence_adapter: at most 64 native buffers, their total size *)
Definition max_buffers : nat := 64.
Definition init_native_buffer (b : buffer) : iovec := Iovec (buffer_cast b) (buffer_size b).
Record adapter := Adapter { native : list iovec; count_ : nat; total_buffer_size_ : Z }.

Fixpoint adapt (l : list buffer) (a : adapter) : adapter :=
  match l with
  | [] => a
  | b :: l' =>
    if (count_ a <? max_buffers)%nat
    then adapt l' (Adapter (native a ++ [init_native_buffer b]) (S (count_ a))
                     (u64 (total_buffer_size_ a + buffer_size b)))
    else a
  end.
Definition buffer_sequence_adapter (l : list buffer) : adapter := adapt l (Adapter [] 0 0).
Definition all_empty (a : adapter) : bool := total_buffer_size_ a =? 0.

(** The static [all_empty] and [first] *)
Fixpoint all_empty_seq (i : nat) (l : list buffer) : bool :=
  match l with
  | [] => true
  | b :: l' =>
    if (i <? max_buffers)%nat then if 0 <? buffer_size b then false else all_empty_seq (S i) l' else true
  end.
Fixpoint first_nonempty (l : list buffer) : buffer :=
  match l with
  | [] => buffer_new
  | b :: l' => if negb (buffer_size b =? 0) then b else first_nonempty l'
  end.

(** ** Completion conditions *)
Definition default_max_transfer_size := 65536.
Definition adapt_old_result (result : bool) : Z := if result then 0 else default_max_transfer_size.
Definition transfer_all (err : error_code) (bytes_transferred : Z) : Z :=
  if ec_bool err then 0 else default_max_transfer_size.
Definition transfer_at_least (minimum : Z) (err : error_code) (bytes_transferred : Z) : Z :=
  if ec_bool err || (minimum <=? bytes_transferred) then 0 else default_max_transfer_size.
Definition transfer_exactly (size : Z) (err : error_code) (bytes_transferred : Z) : Z :=
  if ec_bool err || (size <=? bytes_transferred) then 0
  else if u64 (size - bytes_transferred) <? default_max_transfer_size
       then u64 (size - bytes_transferred) else default_max_transfer_size.

(** ** Copying: [memcpy] between buffers that do not overlap *)
Definition memcpy (mem : Z -> byte) (target source n : Z) : Z -> byte := fun a =>
  if (target <=? a) && (a <? target + n) then mem (source + (a - target)) else mem a.

Definition buffer_copy (mem : Z -> byte) (target source : buffer) : (Z -> byte) * Z :=
  let n := if buffer_size target <? buffer_size source then buffer_size target else buffer_size source in
  (memcpy mem (buffer_cast target) (buffer_cast source) n, n).

(** The loop over two sequences; the offsets are into their first buffers. *)
Fixpoint buffers_copy_loop (fuel : nat) (mem : Z -> byte) (target source : list buffer)
    (target_offset source_offset total : Z) : (Z -> byte) * Z :=
  match fuel, target, source with
  | S fuel', t :: target', s :: source' =>
    let t' := buffer_add t target_offset in
    let s' := buffer_add s source_offset in
    let '(mem, n) := buffer_copy mem t' s' in
    let '(target, target_offset) :=
      if n =? buffer_size t' then (target', 0) else (target, u64 (target_offset + n)) in
    let '(source, source_offset) :=
      if n =? buffer_size s' then (source', 0) else (source, u64 (source_offset + n)) in
    buffers_copy_loop fuel' mem target source target_offset source_offset (u64 (total + n))
  | _, _, _ => (mem, total)
  end.
Definition buffers_copy (mem : Z -> byte) (target source : list buffer) : (Z -> byte) * Z :=
  buffers_copy_loop (length target + length source) mem target source 0 0 0.

(** ** Lemmas: the bytes of a sequence *)
Section Bytes.
Context (mem : Z -> byte).

Definition buf_bytes (b : buffer) : list byte := iov_bytes mem (init_native_buffer b).
Definition seq_bytes (l : list buffer) : list byte := concat (buf_bytes <$> l).
Definition sizes_ok (l : list buffer) : Prop := Forall (fun b => 0 <= size_ b) l.

Lemma vlen_buf_bytes b : 0 <= size_ b -> vlen (buf_bytes b) = size_ b.
Proof.
  intros Hb. unfold vlen, buf_bytes, iov_bytes. rewrite length_fmap, length_seqZ. cbn.
  unfold buffer_size. lia.
Qed.

Lemma buf_bytes_empty b : size_ b = 0 -> buf_bytes b = [].
Proof. intros Hb. apply length_zero_iff_nil. pose proof (vlen_buf_bytes b). unfold vlen in *. lia. Qed.

Lemma buf_bytes_max b m : 0 <= size_ b -> 0 <= m -> buf_bytes (buffer_max b m) = take (Z.to_nat m) (buf_bytes b).
Proof.
  intros Hb Hm. pose proof (vlen_buf_bytes b Hb) as Hl. unfold vlen in Hl.
  unfold buffer_max, buffer_size, buffer_cast. destruct (Z.ltb_spec (size_ b) m).
  - rewrite take_ge by lia. by destruct b.
  - unfold buf_bytes, iov_bytes. cbn. unfold buffer_size, buffer_cast. cbn. rewrite <- fmap_take.
    f_equal. replace (size_ b) with (m + (size_ b - m)) by lia.
    rewrite seqZ_app by lia. by rewrite take_app_length' by (rewrite length_seqZ; lia).
Qed.

Lemma buf_bytes_add b n : 0 <= n -> n <= size_ b -> size_ b < 2 ^ 64 ->
  buf_bytes (buffer_add b n) = drop (Z.to_nat n) (buf_bytes b) /\ size_ (buffer_add b n) = size_ b - n.
Proof.
  intros Hn Hb Hm. unfold buffer_add, buffer_size, buffer_cast. rewrite (proj2 (Z.ltb_ge _ _)) by lia.
  rewrite u64_id by ulia. cbn. split; [|done].
  unfold buf_bytes, iov_bytes. cbn. unfold buffer_size, buffer_cast. cbn. rewrite <- fmap_drop. f_equal.
  replace (size_ b) with (n + (size_ b - n)) at 2 by lia.
  rewrite seqZ_app by lia. by rewrite drop_app_length' by (rewrite length_seqZ; lia).
Qed.

Lemma vlen_seq_bytes_cons b l : 0 <= size_ b -> vlen (seq_bytes (b :: l)) = size_ b + vlen (seq_bytes l).
Proof. intros Hb. unfold seq_bytes. cbn. by rewrite vlen_app, vlen_buf_bytes. Qed.

Lemma seq_bytes_nil : seq_bytes [] = [].
Proof. done. Qed.
Lemma seq_bytes_cons b l : seq_bytes (b :: l) = buf_bytes b ++ seq_bytes l.
Proof. done. Qed.

Lemma take_app_lt {A} (k l : list A) n : n <= vlen k -> take (Z.to_nat n) (k ++ l) = take (Z.to_nat n) k.
Proof. intros Hn. unfold vlen in *. rewrite take_app_le by lia. done. Qed.
Lemma take_app_gt {A} (k l : list A) n : vlen k <= n ->
  take (Z.to_nat n) (k ++ l) = k ++ take (Z.to_nat (n - vlen k)) l.
Proof.
  intros Hn. unfold vlen in *. rewrite take_app_ge by lia. do 2 f_equal. lia.
Qed.
Lemma drop_app_gt {A} (k l : list A) n : vlen k <= n ->
  drop (Z.to_nat n) (k ++ l) = drop (Z.to_nat (n - vlen k)) l.
Proof. intros Hn. unfold vlen in *. rewrite drop_app_ge by lia. f_equal. lia. Qed.
Lemma drop_app_lt {A} (k l : list A) n : n <= vlen k ->
  drop (Z.to_nat n) (k ++ l) = drop (Z.to_nat n) k ++ l.
Proof. intros Hn. unfold vlen in *. rewrite drop_app_le by lia. done. Qed.

Lemma deref_drop l i : (i < length l)%nat -> drop i l = deref l i :: drop (S i) l.
Proof. intros Hi. unfold deref. destruct (lookup_lt_is_Some_2 l i Hi) as [x Hx]. rewrite Hx. by apply drop_S. Qed.

(** ** Lemmas: iterating *)
Lemma cb_range_spec fuel l it f :
  it_at_end_ it = false -> (it_begin_remainder_ it <= length l)%nat -> it_end_remainder_ it = length l ->
  sizes_ok (f :: drop (it_begin_remainder_ it) l) ->
  0 <= it_offset_ it < it_max_size_ it -> it_max_size_ it < 2 ^ 64 ->
  it_first_ it = buffer_max f (it_max_size_ it - it_offset_ it) ->
  (length l - it_begin_remainder_ it < fuel)%nat ->
  seq_bytes (cb_range fuel l it) =
    take (Z.to_nat (it_max_size_ it - it_offset_ it)) (seq_bytes (f :: drop (it_begin_remainder_ it) l)).
Proof.
  revert it f. induction fuel as [|fuel IH]; intros [e first b en o M] f; cbn [it_at_end_ it_first_
    it_begin_remainder_ it_end_remainder_ it_offset_ it_max_size_]; [lia|].
  intros -> Hb -> Hok Ho HM -> Hf. apply Forall_cons in Hok as [Hfs Hok].
  cbn [cb_range cb_equal cb_end it_at_end_ it_first_ andb orb negb].
  set (first := buffer_max f (M - o)). rewrite seq_bytes_cons.
  assert (buf_bytes first = take (Z.to_nat (M - o)) (buf_bytes f)) as Hfirst by (apply buf_bytes_max; lia).
  assert (size_ first = Z.min (size_ f) (M - o)) as Hsz.
  { unfold first, buffer_max, buffer_size. cbn. destruct (Z.ltb_spec (size_ f) (M - o)); lia. }
  assert (forall a c, seq_bytes (cb_range a l (CbIterator true c b (length l) o M)) = []) as Hend
    by (intros [|a] c; done).
  pose proof (vlen_buf_bytes f Hfs) as Hvf. rewrite seq_bytes_cons.
  unfold cb_increment. cbn [it_at_end_ it_first_ it_begin_remainder_ it_end_remainder_ it_offset_ it_max_size_].
  unfold buffer_size. rewrite u64_id by ulia.
  destruct (bool_decide_reflect (b = length l)) as [Eb|Eb]; cbn [orb].
  { rewrite Hend, app_nil_r, Hfirst. rewrite drop_ge by lia. unfold seq_bytes. cbn. by rewrite app_nil_r. }
  destruct (Z.leb_spec M (o + size_ first)).
  { rewrite Hend, app_nil_r, Hfirst. by rewrite take_app_lt by lia. }
  assert (size_ first = size_ f) as Esz by lia. rewrite Esz in *.
  rewrite (deref_drop l b) in * by lia. apply Forall_cons in Hok as [Hd Hok].
  rewrite u64_id by ulia. rewrite take_app_gt by lia. rewrite Hfirst, take_ge by (unfold vlen in *; lia).
  f_equal. rewrite (IH _ (deref l b)); cbn [it_at_end_ it_first_ it_begin_remainder_ it_end_remainder_
    it_offset_ it_max_size_]; try done; try lia.
  - do 2 f_equal. lia.
  - by constructor.
Qed.

(** What is left of a sequence *)
Definition cb_view (c : consuming_buffers) : list buffer :=
  if at_end_ c then [] else first_ c :: drop (begin_remainder_ c) (buffers_ c).
Record cb_wf (c : consuming_buffers) : Prop := {
  cb_position : (begin_remainder_ c <= length (buffers_ c))%nat;
  cb_rest : at_end_ c = false -> (0 < begin_remainder_ c)%nat;
  cb_sizes : sizes_ok (cb_view c);
  cb_total : vlen (seq_bytes (cb_view c)) < 2 ^ 64;
  cb_max : in_u64 (max_size_ c)
}.

Lemma elements_bytes c : cb_wf c ->
  seq_bytes (cb_elements c) = take (Z.to_nat (max_size_ c)) (seq_bytes (cb_view c)).
Proof.
  intros [Hp Hr Hs _ Hm]. unfold cb_elements, cb_view in *.
  destruct (at_end_ c) eqn:E.
  { unfold cb_begin, cb_iterator_new. rewrite E.
    destruct (0 <? max_size_ c); cbn; by rewrite take_nil. }
  destruct (Z.ltb_spec 0 (max_size_ c)) as [Hpos|Hz].
  - rewrite (cb_range_spec _ _ _ (first_ c)); unfold cb_begin, cb_iterator_new;
      cbn [it_at_end_ it_first_ it_begin_remainder_ it_end_remainder_ it_offset_ it_max_size_];
      rewrite ?(proj2 (Z.ltb_lt 0 _) Hpos), ?Z.sub_0_r; try done; [ulia|specialize (Hr eq_refl); lia].
  - unfold cb_begin, cb_iterator_new. rewrite (proj2 (Z.ltb_ge 0 _) Hz). cbn.
    by rewrite Z2Nat.nonpos by lia.
Qed.

Lemma begin_end c : cb_equal (cb_begin c) cb_end = at_end_ c || (max_size_ c <=? 0).
Proof.
  unfold cb_begin, cb_iterator_new, cb_equal. cbn. rewrite andb_true_r, andb_false_r, orb_false_r.
  rewrite Z.ltb_antisym. destruct (max_size_ c <=? 0), (at_end_ c); done.
Qed.

Lemma size_buffer_max b m : 0 <= size_ b -> 0 <= m -> 0 <= size_ (buffer_max b m).
Proof. intros. unfold buffer_max, buffer_size. cbn. zcases. Qed.

Lemma cb_range_sizes fuel l it :
  sizes_ok (drop (it_begin_remainder_ it) l) -> (it_begin_remainder_ it <= length l)%nat ->
  it_end_remainder_ it = length l ->
  0 <= size_ (it_first_ it) -> sizes_ok (cb_range fuel l it).
Proof.
  revert it. induction fuel as [|fuel IH]; intros it Hs Hb He Hf; cbn [cb_range]; [constructor|].
  destruct (cb_equal it cb_end); constructor; [done|]. unfold cb_increment.
  destruct (it_at_end_ it); [by apply IH|].
  destruct (bool_decide_reflect (it_begin_remainder_ it = it_end_remainder_ it)) as [E|E]; cbn [orb].
  { by apply IH. }
  rewrite (deref_drop l (it_begin_remainder_ it)) in Hs by lia. apply Forall_cons in Hs as [Hd Hs].
  destruct (_ <=? _); apply IH; cbn [it_begin_remainder_ it_end_remainder_ it_first_]; try done; try lia.
  - rewrite (deref_drop l (it_begin_remainder_ it)) by lia. by constructor.
  - apply size_buffer_max; [done|apply u64_nonneg].
Qed.

Lemma elements_ok c : cb_wf c -> sizes_ok (cb_elements c).
Proof.
  intros [Hp Hr Hs _ Hm]. unfold cb_elements, cb_view in *. destruct (at_end_ c) eqn:E.
  { unfold cb_begin, cb_iterator_new. rewrite E. destruct (0 <? max_size_ c); constructor. }
  apply Forall_cons in Hs as [Hf Hs]. apply cb_range_sizes; try done.
  apply size_buffer_max; [done|ulia].
Qed.

(** A first buffer with bytes in it is what the iteration starts with. *)
Definition first_ok (c : consuming_buffers) : bool := at_end_ c || (0 <? size_ (first_ c)).

Lemma elements_first c : cb_wf c -> first_ok c = true -> at_end_ c = false -> 0 < max_size_ c ->
  seq_bytes (take max_buffers (cb_elements c)) <> [].
Proof.
  intros Hc Hf E Hm. unfold first_ok in Hf. rewrite E in Hf. apply Z.ltb_lt in Hf.
  assert (exists k, cb_elements c = buffer_max (first_ c) (max_size_ c) :: k) as [k ->].
  { unfold cb_elements, cb_begin, cb_iterator_new. rewrite E, (proj2 (Z.ltb_lt _ _) Hm). cbn. by eexists. }
  unfold max_buffers. cbn [take]. rewrite seq_bytes_cons. intros [Hb _]%app_eq_nil.
  assert (vlen (buf_bytes (buffer_max (first_ c) (max_size_ c))) = 0) as Hz by by rewrite Hb.
  rewrite vlen_buf_bytes in Hz by (apply size_buffer_max; lia).
  unfold buffer_max, buffer_size in Hz. cbn in Hz. revert Hz. zcases.
Qed.

(** ** Lemmas: consuming *)
Lemma cb_next_spec c : cb_wf c -> at_end_ c = false ->
  cb_wf (cb_next c) /\ cb_view (cb_next c) = drop (begin_remainder_ c) (buffers_ c) /\
  max_size_ (cb_next c) = max_size_ c.
Proof.
  intros [Hp Hr Hs Ht Hm] E. unfold cb_view in *. rewrite E in *. specialize (Hr eq_refl).
  apply Forall_cons in Hs as [Hf Hs]. rewrite vlen_seq_bytes_cons in Ht by done.
  unfold cb_next. destruct (bool_decide_reflect (begin_remainder_ c = length (buffers_ c))) as [Eb|Eb].
  - cbn [at_end_ begin_remainder_ buffers_ first_ max_size_]. split; [|by rewrite drop_ge by lia].
    split; unfold cb_view; cbn [at_end_ begin_remainder_ buffers_ first_ max_size_]; try done; constructor.
  - rewrite (deref_drop (buffers_ c) (begin_remainder_ c)) in * by lia. split; [|done].
    split; unfold cb_view; cbn [at_end_ begin_remainder_ buffers_ first_ max_size_]; [lia..|done|lia|done].
Qed.

Lemma consume_bytes_spec fuel size c : cb_wf c -> in_u64 size -> (length (cb_view c) <= fuel)%nat ->
  cb_wf (consume_bytes fuel size c) /\
  seq_bytes (cb_view (consume_bytes fuel size c)) = drop (Z.to_nat size) (seq_bytes (cb_view c)) /\
  (length (cb_view (consume_bytes fuel size c)) <= length (cb_view c))%nat /\
  max_size_ (consume_bytes fuel size c) = max_size_ c.
Proof.
  revert size c. induction fuel as [|fuel IH]; intros size c Hc Hsz Hf.
  { cbn [consume_bytes]. destruct (cb_view c) eqn:E; [|cbn in Hf; lia].
    rewrite seq_bytes_nil, drop_nil. auto. }
  cbn [consume_bytes]. destruct (Z.ltb_spec 0 size) as [Hpos|Hz]; cbn [andb]; cycle 1.
  { rewrite Z2Nat.nonpos by lia. done. }
  destruct (at_end_ c) eqn:E; cbn [negb].
  { unfold cb_view. rewrite E, seq_bytes_nil, drop_nil. auto. }
  pose proof Hc as [Hp Hr Hs Ht Hm]. assert (cb_view c = first_ c :: drop (begin_remainder_ c) (buffers_ c)) as Ev
    by (unfold cb_view; by rewrite E). rewrite Ev in *. apply Forall_cons in Hs as [Hfs Hs].
  rewrite vlen_seq_bytes_cons in Ht by done. pose proof (vlen_nonneg (seq_bytes (drop (begin_remainder_ c) (buffers_ c)))).
  rewrite seq_bytes_cons. pose proof (vlen_buf_bytes (first_ c) Hfs) as Hv. unfold buffer_size.
  destruct (Z.leb_spec (size_ (first_ c)) size) as [Hle|Hgt].
  - destruct (cb_next_spec c Hc E) as (Hc' & Ev' & Hm'). rewrite u64_id by ulia. cbn [length] in *.
    destruct (IH (size - size_ (first_ c)) (cb_next c)) as (Hw & Hb & Hl & Hm2); [done|ulia|rewrite Ev'; lia|].
    split; [done|]. rewrite Hb, Ev', Hm2, Hm'. rewrite drop_app_gt by lia. rewrite Hv. split; [done|].
    split; [rewrite Ev' in Hl; lia|done].
  - destruct (buf_bytes_add (first_ c) size) as [Hba Hbs]; [lia..|].
    set (c' := ConsumingBuffers _ _ _ _ _).
    assert (cb_view c' = buffer_add (first_ c) size :: drop (begin_remainder_ c) (buffers_ c)) as Ev'
      by (unfold cb_view, c'; by cbn).
    assert (cb_wf c') as Hc'.
    { split; [exact Hp|intros _; exact (Hr E)| | |exact Hm]; rewrite Ev'; [constructor; [lia|done]|].
      rewrite vlen_seq_bytes_cons by lia. lia. }
    assert (consume_bytes fuel 0 c' = c') as -> by by destruct fuel.
    split; [done|]. rewrite Ev', seq_bytes_cons, Hba. rewrite drop_app_lt by lia. done.
Qed.

Lemma consume_empty_spec fuel c : cb_wf c -> (length (cb_view c) <= fuel)%nat ->
  cb_wf (consume_empty fuel c) /\
  seq_bytes (cb_view (consume_empty fuel c)) = seq_bytes (cb_view c) /\
  max_size_ (consume_empty fuel c) = max_size_ c /\
  (at_end_ (consume_empty fuel c) = false -> 0 < size_ (first_ (consume_empty fuel c))).
Proof.
  revert c. induction fuel as [|fuel IH]; intros c Hc Hf; cbn [consume_empty].
  { split_and!; try done. intros E. unfold cb_view in Hf. rewrite E in Hf. cbn in Hf. lia. }
  destruct (at_end_ c) eqn:E; cbn [negb andb]; [by rewrite E|].
  pose proof Hc as [_ _ Hs _ _].
  assert (cb_view c = first_ c :: drop (begin_remainder_ c) (buffers_ c)) as Ev
    by (unfold cb_view; by rewrite E). rewrite Ev in *. apply Forall_cons in Hs as [Hfs Hs].
  unfold buffer_size. destruct (Z.eqb_spec (size_ (first_ c)) 0) as [Hz|Hz].
  - destruct (cb_next_spec c Hc E) as (Hc' & Ev' & Hm'). cbn [length] in Hf.
    destruct (IH (cb_next c)) as (Hw & Hb & Hm2 & Hend); [done|rewrite Ev'; lia|].
    split; [done|]. rewrite Hb, Ev', Hm2, Hm', seq_bytes_cons, buf_bytes_empty by done. done.
  - rewrite Ev. split_and!; [done..|]. intros _. lia.
Qed.

Lemma consume_spec size c : cb_wf c -> in_u64 size ->
  cb_wf (consume size c) /\
  seq_bytes (cb_view (consume size c)) = drop (Z.to_nat size) (seq_bytes (cb_view c)) /\
  max_size_ (consume size c) = max_size_ c /\
  (at_end_ (consume size c) = false -> 0 < size_ (first_ (consume size c))).
Proof.
  intros Hc Hs. unfold consume.
  assert (length (cb_view c) <= S (length (buffers_ c)))%nat as Hl.
  { unfold cb_view. destruct (at_end_ c); cbn; [lia|]. rewrite length_drop. lia. }
  destruct (consume_bytes_spec _ size c Hc Hs Hl) as (Hw & Hb & Hl' & Hm).
  destruct (consume_empty_spec (S (length (buffers_ c))) _ Hw) as (Hw' & Hb' & Hm' & He); [lia|].
  split; [done|]. by rewrite Hb', Hb, Hm', Hm.
Qed.

Lemma consuming_buffers_new_spec l : sizes_ok l -> vlen (seq_bytes l) < 2 ^ 64 ->
  cb_wf (consuming_buffers_new l) /\ cb_view (consuming_buffers_new l) = l.
Proof.
  intros Hs Ht. assert (in_u64 SIZE_MAX) by (unfold SIZE_MAX; ulia).
  destruct l as [|b l]; cbn; split; try done; split; cbn; try done; lia.
Qed.

Lemma prepare_spec n c : cb_wf c -> in_u64 n ->
  cb_wf (prepare n c) /\ cb_view (prepare n c) = cb_view c /\ max_size_ (prepare n c) = n.
Proof. intros [? ? ? ? ?] Hn. split; [by split|done]. Qed.

(** ** Lemmas: the adapter *)
Lemma adapt_spec l a :
  native (adapt l a) = native a ++ (init_native_buffer <$> take (max_buffers - count_ a) l) /\
  count_ (adapt l a) = (count_ a + length (take (max_buffers - count_ a) l))%nat.
Proof.
  revert a. induction l as [|b l IH]; intros a; cbn [adapt].
  - rewrite take_nil. cbn. rewrite app_nil_r. split; [done|lia].
  - destruct (Nat.ltb_spec (count_ a) max_buffers).
    + destruct (IH (Adapter (native a ++ [init_native_buffer b]) (S (count_ a))
        (u64 (total_buffer_size_ a + buffer_size b)))) as [-> ->]. cbn [native count_].
      replace (max_buffers - count_ a)%nat with (S (max_buffers - S (count_ a))) by lia.
      cbn [take fmap list_fmap length]. rewrite <- app_assoc. split; [done|lia].
    + replace (max_buffers - count_ a)%nat with 0%nat by lia. cbn. rewrite app_nil_r. split; [done|lia].
Qed.

Lemma adapt_total l a : sizes_ok l -> 0 <= total_buffer_size_ a ->
  total_buffer_size_ a + vlen (seq_bytes l) < 2 ^ 64 ->
  total_buffer_size_ (adapt l a) = total_buffer_size_ a + vlen (seq_bytes (take (max_buffers - count_ a) l)).
Proof.
  revert a. induction l as [|b l IH]; intros a Hs Ha Ht; cbn [adapt].
  - rewrite take_nil. change (vlen (seq_bytes [])) with 0. lia.
  - apply Forall_cons in Hs as [Hb Hs]. rewrite vlen_seq_bytes_cons in Ht by done.
    pose proof (vlen_nonneg (seq_bytes l)).
    destruct (Nat.ltb_spec (count_ a) max_buffers).
    + unfold buffer_size. rewrite u64_id by ulia. rewrite IH; cbn [total_buffer_size_ count_]; [|done|lia..].
      replace (max_buffers - count_ a)%nat with (S (max_buffers - S (count_ a))) by lia.
      cbn [take]. rewrite vlen_seq_bytes_cons by done. lia.
    + replace (max_buffers - count_ a)%nat with 0%nat by lia. cbn [take].
      change (vlen (seq_bytes [])) with 0. lia.
Qed.

Lemma adapter_spec l : sizes_ok l -> vlen (seq_bytes l) < 2 ^ 64 ->
  let a := buffer_sequence_adapter l in
  let data := seq_bytes (take max_buffers l) in
  msg_iov (native a) (Z.of_nat (count_ a)) = init_native_buffer <$> take max_buffers l /\
  concat (iov_bytes mem <$> msg_iov (native a) (Z.of_nat (count_ a))) = data /\
  all_empty a = bool_decide (data = []) /\ (count_ a <= max_buffers)%nat.
Proof.
  intros Hs Ht. cbn zeta. unfold buffer_sequence_adapter.
  destruct (adapt_spec l (Adapter [] 0 0)) as [En Ec]. cbn [native count_] in En, Ec.
  rewrite Nat.sub_0_r in En, Ec. cbn [app Nat.add] in En, Ec.
  assert (msg_iov (native (adapt l (Adapter [] 0 0))) (Z.of_nat (count_ (adapt l (Adapter [] 0 0)))) =
    init_native_buffer <$> take max_buffers l) as Em.
  { unfold msg_iov. rewrite En, Ec. rewrite length_take.
    rewrite i32_id by (unfold in_i32, max_buffers; lia). rewrite take_ge; [done|].
    rewrite length_fmap, length_take. lia. }
  split; [done|]. rewrite Em. split; [unfold seq_bytes; by rewrite <- list_fmap_compose|].
  split; [|rewrite Ec, length_take; lia].
  unfold all_empty. rewrite adapt_total by (cbn; (done || lia)). cbn [total_buffer_size_ count_].
  rewrite Nat.sub_0_r, Z.add_0_l. apply eq_true_iff_eq. rewrite Z.eqb_eq, bool_decide_eq_true.
  unfold vlen. split; [intros E; apply length_zero_iff_nil; lia|by intros ->].
Qed.
End Bytes.

(** ** Lemmas: copying *)
Definition addrs (l : list buffer) : list Z := concat ((fun b => seqZ (data_ b) (size_ b)) <$> l).
(** A sequence from an offset into its first buffer on *)
Definition offset_view (l : list buffer) (o : Z) : list buffer :=
  match l with [] => [] | b :: l' => buffer_add b o :: l' end.
Definition offset_ok (l : list buffer) (o : Z) : Prop :=
  Forall (fun b => in_u64 (size_ b)) l /\ match l with [] => True | b :: _ => 0 <= o <= size_ b end.

Lemma seq_bytes_addrs mem l : seq_bytes mem l = mem <$> addrs l.
Proof.
  induction l as [|b l IH]; [done|]. rewrite seq_bytes_cons, IH. unfold addrs. cbn. by rewrite fmap_app.
Qed.
Lemma addrs_cons b l : addrs (b :: l) = seqZ (data_ b) (size_ b) ++ addrs l.
Proof. done. Qed.

Lemma buffer_add_in b o : 0 <= o <= size_ b -> in_u64 (size_ b) ->
  buffer_add b o = Buffer (data_ b + o) (size_ b - o).
Proof.
  intros Ho Hs. unfold buffer_add, buffer_size, buffer_cast.
  rewrite (proj2 (Z.ltb_ge _ _)), u64_id by ulia. done.
Qed.

(** Moving on by [n] of the bytes of the first buffer: an offset or the next buffer *)
Definition advance (l : list buffer) (o n : Z) : list buffer * Z :=
  match l with
  | [] => ([], o)
  | b :: l' => if n =? buffer_size (buffer_add b o) then (l', 0) else (l, u64 (o + n))
  end.

Lemma advance_spec b l o n : offset_ok (b :: l) o -> 0 <= n <= size_ b - o ->
  let '(l2, o2) := advance (b :: l) o n in
  offset_ok l2 o2 /\
  addrs (offset_view (b :: l) o) = seqZ (data_ b + o) n ++ addrs (offset_view l2 o2) /\
  (length l2 <= S (length l))%nat /\ (n = size_ b - o -> length l2 = length l).
Proof.
  intros [Hs Ho] Hn. pose proof Hs as [Hb Hl]%Forall_cons. cbn [advance offset_view].
  rewrite buffer_add_in by done. unfold buffer_size. cbn [size_]. rewrite addrs_cons. cbn [data_ size_].
  destruct (Z.eqb_spec n (size_ b - o)) as [->|Hne].
  - split_and!; [|f_equal|lia|done].
    + split; [done|]. destruct l as [|b' l]; [done|]. apply Forall_cons in Hl as [? _]. ulia.
    + destruct l as [|b' l]; [done|]. apply Forall_cons in Hl as [? _]. cbn [offset_view].
      rewrite buffer_add_in by ulia. rewrite !addrs_cons. cbn [data_ size_]. by rewrite Z.add_0_r, Z.sub_0_r.
  - rewrite u64_id by ulia. split_and!; [split; [done|lia]| |cbn; lia|done].
    cbn [offset_view]. rewrite buffer_add_in by lia || done. rewrite addrs_cons. cbn [data_ size_].
    rewrite app_assoc. f_equal. replace (size_ b - o) with (n + (size_ b - (o + n))) by lia.
    rewrite seqZ_app by lia. by rewrite Z.add_assoc.
Qed.

Lemma memcpy_in mem t s n : memcpy mem t s n <$> seqZ t n = mem <$> seqZ s n.
Proof.
  apply list_eq. intros i. rewrite !list_lookup_fmap.
  destruct (decide (Z.of_nat i < n)) as [Hi|Hi].
  - rewrite !lookup_seqZ_lt by done. cbn. f_equal. unfold memcpy.
    rewrite (proj2 (Z.leb_le _ _)), (proj2 (Z.ltb_lt _ _)) by lia. cbn. f_equal. lia.
  - by rewrite !lookup_seqZ_ge by lia.
Qed.
Lemma memcpy_out mem t s n a : a ∉ seqZ t n -> memcpy mem t s n a = mem a.
Proof.
  intros Ha. rewrite elem_of_seqZ in Ha. unfold memcpy.
  destruct (Z.leb_spec t a), (Z.ltb_spec a (t + n)); cbn; (lia || done).
Qed.

(** What a copy from the addresses [S] to the addresses [T] leaves *)
Record copied (mem mem' : Z -> byte) (T S : list Z) : Prop := {
  copied_target : mem' <$> T = take (length T) (mem <$> S) ++ drop (length S) (mem <$> T);
  copied_rest a : a ∉ T -> mem' a = mem a
}.

Lemma copied_nil mem T S : T = [] \/ S = [] -> copied mem mem T S.
Proof. intros [->| ->]; split; cbn; rewrite ?take_nil, ?drop_nil, ?drop_0; done. Qed.

Lemma fmap_same (mem mem' : Z -> byte) (l : list Z) : (forall a, a ∈ l -> mem' a = mem a) -> mem' <$> l = mem <$> l.
Proof. intros Hl. by apply list_fmap_ext; intros i a Ha%list_elem_of_lookup_2; apply Hl. Qed.

(** A [memcpy] between the first [n] addresses, then a copy between the others *)
Lemma copied_app mem mem' t s n T S :
  NoDup (seqZ t n ++ T) -> (forall a, a ∈ seqZ t n ++ T -> a ∉ seqZ s n ++ S) ->
  copied (memcpy mem t s n) mem' T S -> copied mem mem' (seqZ t n ++ T) (seqZ s n ++ S).
Proof.
  intros Hnd Hdis [Ht Hr]. apply NoDup_app in Hnd as (_ & HTt & _).
  assert (memcpy mem t s n <$> S = mem <$> S) as ES.
  { apply fmap_same. intros a Ha. apply memcpy_out. intros Hin. apply (Hdis a); rewrite elem_of_app; auto. }
  assert (memcpy mem t s n <$> T = mem <$> T) as ET.
  { apply fmap_same. intros a Ha. apply memcpy_out. intros Hin. by apply (HTt a). }
  split.
  - rewrite fmap_app, Ht, ES, ET, !fmap_app, !length_app. rewrite (fmap_same (memcpy mem t s n)) by auto.
    rewrite memcpy_in.
    rewrite !length_seqZ. replace (Z.to_nat n) with (length (mem <$> seqZ s n)) at 1
      by (by rewrite length_fmap, length_seqZ).
    replace (Z.to_nat n) with (length (mem <$> seqZ t n)) by (by rewrite length_fmap, length_seqZ).
    by rewrite take_app_add, drop_app_add, app_assoc.
  - intros a Ha. rewrite elem_of_app in Ha. rewrite Hr by auto. apply memcpy_out. auto.
Qed.

Lemma vlen_addrs mem l : vlen (seq_bytes mem l) = Z.of_nat (length (addrs l)).
Proof. unfold vlen. by rewrite seq_bytes_addrs, length_fmap. Qed.

Lemma buffers_copy_loop_eq fuel mem t T s S to so total :
  buffers_copy_loop (Datatypes.S fuel) mem (t :: T) (s :: S) to so total =
  let t' := buffer_add t to in
  let s' := buffer_add s so in
  let n := Z.min (size_ t') (size_ s') in
  let '(T2, to2) := advance (t :: T) to n in
  let '(S2, so2) := advance (s :: S) so n in
  buffers_copy_loop fuel (memcpy mem (data_ t') (data_ s') n) T2 S2 to2 so2 (u64 (total + n)).
Proof.
  cbn [buffers_copy_loop advance]. unfold buffer_copy, buffer_size, buffer_cast.
  replace (if size_ (buffer_add t to) <? size_ (buffer_add s so) then _ else _)
    with (Z.min (size_ (buffer_add t to)) (size_ (buffer_add s so))).
  - cbn zeta. by destruct (_ =? size_ (buffer_add t to)), (_ =? size_ (buffer_add s so)).
  - destruct (Z.ltb_spec (size_ (buffer_add t to)) (size_ (buffer_add s so))); lia.
Qed.

Lemma buffers_copy_loop_spec fuel mem T S to so total :
  offset_ok T to -> offset_ok S so -> (length T + length S <= fuel)%nat ->
  NoDup (addrs (offset_view T to)) ->
  (forall a, a ∈ addrs (offset_view T to) -> a ∉ addrs (offset_view S so)) ->
  0 <= total -> total + Z.of_nat (length (addrs (offset_view T to))) < 2 ^ 64 ->
  let '(mem', n) := buffers_copy_loop fuel mem T S to so total in
  n = total + Z.min (Z.of_nat (length (addrs (offset_view T to)))) (Z.of_nat (length (addrs (offset_view S so)))) /\
  copied mem mem' (addrs (offset_view T to)) (addrs (offset_view S so)).
Proof.
  revert mem T S to so total. induction fuel as [|fuel IH]; intros mem T S to so total HT HS Hf Hnd Hdis Hto Htot.
  { destruct T, S; cbn in Hf; try lia. cbn. split; [lia|]. apply copied_nil. by left. }
  destruct T as [|t T]; [cbn; split; [lia|]; apply copied_nil; by left|].
  destruct S as [|s S]; [cbn [buffers_copy_loop]; split; [cbn; lia|]; apply copied_nil; by right|].
  rewrite buffers_copy_loop_eq. pose proof HT as [[Ht _]%Forall_cons Ho]. pose proof HS as [[Hs _]%Forall_cons Hso].
  rewrite !buffer_add_in by done. cbn [size_ data_].
  set (n := Z.min (size_ t - to) (size_ s - so)).
  pose proof (advance_spec t T to n HT ltac:(lia)) as AT. pose proof (advance_spec s S so n HS ltac:(lia)) as AS.
  destruct (advance (t :: T) to n) as [T2 to2], (advance (s :: S) so n) as [S2 so2].
  destruct AT as (HT2 & ET & HlT & HeT), AS as (HS2 & ES & HlS & HeS).
  rewrite ET, ES in *. rewrite !length_app, !length_seqZ in *.
  assert (0 <= n) by lia. pose proof Hnd as (_ & _ & Hnd2)%NoDup_app. rewrite u64_id by ulia.
  pose proof (IH (memcpy mem (data_ t + to) (data_ s + so) n) T2 S2 to2 so2 (total + n) HT2 HS2) as IH'.
  destruct (buffers_copy_loop fuel _ _ _ _ _ _) as [mem' m]. destruct IH' as [-> Hc].
  - cbn [length] in Hf. destruct (Z.le_gt_cases (size_ t - to) (size_ s - so)); [rewrite HeT by lia|rewrite HeS by lia]; lia.
  - done.
  - intros a Ha Hb. apply (Hdis a); rewrite elem_of_app; auto.
  - lia.
  - lia.
  - split; [lia|]. by apply copied_app.
Qed.

Lemma addrs_offset_0 l : Forall (fun b => in_u64 (size_ b)) l -> addrs (offset_view l 0) = addrs l.
Proof.
  destruct l as [|b l]; [done|]. intros [Hb _]%Forall_cons. cbn [offset_view].
  rewrite buffer_add_in by ulia. rewrite !addrs_cons. cbn. by rewrite Z.add_0_r, Z.sub_0_r.
Qed.

(** ** A sequence being consumed, as a list of bytes *)
Inductive cb_op := OpConsume (n : Z) | OpPrepare (n : Z).
Definition cb_arg (o : cb_op) : Z := match o with OpConsume n | OpPrepare n => n end.
Definition cb_run (c : consuming_buffers) (o : cb_op) : consuming_buffers :=
  match o with OpConsume n => consume n c | OpPrepare n => prepare n c end.

(** The specification: the bytes that are left and the limit *)
Definition bytes_run (x : list byte * Z) (o : cb_op) : list byte * Z :=
  match o with OpConsume n => (drop (Z.to_nat n) x.1, x.2) | OpPrepare n => (x.1, n) end.

Lemma cb_run_spec mem c ops : cb_wf mem c -> Forall (fun o => in_u64 (cb_arg o)) ops ->
  let c' := fold_left cb_run ops c in
  cb_wf mem c' /\ (seq_bytes mem (cb_view c'), max_size_ c') =
    fold_left bytes_run ops (seq_bytes mem (cb_view c), max_size_ c).
Proof.
  revert c. induction ops as [|o ops IH]; intros c Hc Ho; [done|].
  apply Forall_cons in Ho as [Hn Ho]. cbn [fold_left].
  destruct o as [n|n]; cbn [cb_run bytes_run cb_arg fst snd] in *.
  - destruct (consume_spec mem n c Hc Hn) as (Hc' & <- & <- & _). by apply IH.
  - destruct (prepare_spec mem n c Hc Hn) as (Hc' & <- & Hm). pose proof (IH _ Hc' Ho) as IH'. by rewrite Hm in IH'.
Qed.

(** ** Properties *)

(** A [consuming_buffers] is the list of the bytes it has left: after any
    consuming and preparing, iterating over it visits the first [max_size_] of the
    bytes that have not been consumed, whatever the cuts between the buffers; the
    system call made with it passes at most 64 buffers, a prefix of these
    bytes, and is skipped only when that prefix is empty. *)
Theorem consuming_refines mem l ops :
  sizes_ok l -> vlen (seq_bytes mem l) < 2 ^ 64 -> Forall (fun o => in_u64 (cb_arg o)) ops ->
  let c := fold_left cb_run ops (consuming_buffers_new l) in
  let '(rest, limit) := fold_left bytes_run ops (seq_bytes mem l, SIZE_MAX) in
  let data := take (Z.to_nat limit) rest in
  let a := buffer_sequence_adapter (cb_elements c) in
  let passed := concat (iov_bytes mem <$> msg_iov (native a) (Z.of_nat (count_ a))) in
  seq_bytes mem (cb_elements c) = data /\
  passed `prefix_of` data /\ (count_ a <= 64)%nat /\ all_empty a = bool_decide (passed = []).
Proof.
  intros Hs Ht Ho c. destruct (consuming_buffers_new_spec mem l Hs Ht) as [Hc0 Hv].
  destruct (cb_run_spec mem _ ops Hc0 Ho) as [Hc Er]. fold c in Hc, Er. rewrite Hv in Er.
  replace (max_size_ (consuming_buffers_new l)) with SIZE_MAX in Er by by destruct l.
  destruct (fold_left bytes_run ops _) as [rest limit]. injection Er as <- <-.
  cbv zeta. rewrite <- (elements_bytes mem c Hc).
  destruct (adapter_spec mem (cb_elements c) (elements_ok mem c Hc)) as (_ & Ep & Ea & Hn).
  { rewrite (elements_bytes mem c Hc). unfold vlen. rewrite length_take.
    pose proof (cb_total _ _ Hc). unfold vlen in *. lia. }
  rewrite Ep, Ea. split_and!; try done. exists (seq_bytes mem (drop max_buffers (cb_elements c))).
  unfold seq_bytes. by rewrite <- concat_app, <- fmap_app, take_drop.
Qed.

Definition letters (a : Z) : byte := of_uchar a.
Lemma consuming_refines_witness :
  seq_bytes letters (cb_elements (fold_left cb_run [OpConsume 1; OpPrepare 3]
    (consuming_buffers_new [Buffer 65 2; Buffer 0 0; Buffer 97 3]))) = lit "Bab".
Proof.
  destruct (consuming_refines letters [Buffer 65 2; Buffer 0 0; Buffer 97 3] [OpConsume 1; OpPrepare 3])
    as [E _]; [repeat (constructor; [vm_compute; discriminate|]); constructor|vm_compute; reflexivity
    |repeat (constructor; [vm_compute; split; (reflexivity || discriminate)|]); constructor|].
  exact E.
Defined.

(** [buffer_copy] between sequences of any shapes copies as if both were
    one buffer: as many bytes as the shorter has, to the front of the target, in
    order; the rest of the target and of the memory is untouched. *)
Theorem buffers_copy_correct mem target source :
  Forall (fun b => in_u64 (size_ b)) target -> Forall (fun b => in_u64 (size_ b)) source ->
  NoDup (addrs target) -> (forall a, a ∈ addrs target -> a ∉ addrs source) ->
  vlen (seq_bytes mem target) < 2 ^ 64 ->
  let '(mem', n) := buffers_copy mem target source in
  n = Z.min (vlen (seq_bytes mem target)) (vlen (seq_bytes mem source)) /\
  seq_bytes mem' target =
    take (Z.to_nat n) (seq_bytes mem source) ++ drop (Z.to_nat n) (seq_bytes mem target) /\
  (forall a, a ∉ addrs target -> mem' a = mem a).
Proof.
  intros Ht Hs Hnd Hdis Hl. unfold buffers_copy.
  pose proof (buffers_copy_loop_spec (length target + length source) mem target source 0 0 0) as Hc.
  rewrite !addrs_offset_0 in Hc by done. rewrite !vlen_addrs in *.
  assert (forall l, Forall (fun b => in_u64 (size_ b)) l -> offset_ok l 0) as Hok.
  { intros [|b l] Hf; split; try done. apply Forall_cons in Hf as [? _]. ulia. }
  destruct (buffers_copy_loop _ _ _ _ _ _ _) as [mem' n].
  destruct Hc as (-> & Hcopied & Hrest); [auto|auto|lia|done|done|lia|lia|].
  rewrite Z.add_0_l. split; [done|]. split; [|done]. rewrite !seq_bytes_addrs, Hcopied.
  rewrite <- Nat2Z.inj_min, Nat2Z.id. rewrite Nat.min_comm. f_equal.
  - rewrite <- (firstn_all (mem <$> addrs source)) at 1. rewrite take_take, length_fmap. f_equal. lia.
  - destruct (Nat.le_gt_cases (length (addrs source)) (length (addrs target))).
    + f_equal. lia.
    + rewrite !drop_ge; rewrite ?length_fmap; (done || lia).
Qed.

Lemma buffers_copy_correct_witness :
  let '(mem', n) := buffers_copy letters [Buffer 200 1; Buffer 300 3] [Buffer 65 2; Buffer 97 1] in
  n = 3 /\ take 3 (seq_bytes mem' [Buffer 200 1; Buffer 300 3]) = lit "ABa".
Proof.
  pose proof (buffers_copy_correct letters [Buffer 200 1; Buffer 300 3] [Buffer 65 2; Buffer 97 1]) as Hc.
  destruct (buffers_copy letters [Buffer 200 1; Buffer 300 3] [Buffer 65 2; Buffer 97 1]) as [mem' n].
  destruct Hc as (Hn & Hb & _).
  - repeat (constructor; [vm_compute; split; (reflexivity || discriminate)|]). constructor.
  - repeat (constructor; [vm_compute; split; (reflexivity || discriminate)|]). constructor.
  - apply (bool_decide_unpack _). vm_compute. exact I.
  - apply Forall_forall. apply (bool_decide_unpack _). vm_compute. exact I.
  - vm_compute. reflexivity.
  - split; [exact Hn|]. rewrite Hb, Hn. vm_compute. reflexivity.
Defined.
