(* ===== verification/Asiorw.v ===== *)
(** * Reading and writing streams (asio/impl/write.hpp, impl/read.hpp,
    detail/reactive_socket_service_base.hpp)

    [write] and [read] repeat the operation of a stream until the completion
    condition is content, with a [consuming_buffers] for what is left;
    [write_op] and [read_op] do the same as a chain of completion handlers.  The
    stream is an argument, as it is a template parameter in the source; the
    stream of a connected socket is [socket_write_some] and [socket_read_some].
    The [fuel] of a loop bounds its rounds. *)
From S2P Require Import Prelude Socketops Asiobuf.

(** ** Sockets (reactive_socket_service_base) *)
Record base_implementation := BaseImpl { socket_ : Z; state_ : Z }.
Definition is_open (impl : base_implementation) : bool := negb (socket_ impl =? invalid_socket).

Section Rw.
Context {K : Type} `{Kernel K}.

Definition service_send (fuel : nat) (mem : Z -> byte) (impl : base_implementation)
    (buffers : list buffer) (flags : Z) : io K (option (Z * error_code)) :=
  let bufs := buffer_sequence_adapter buffers in
  sync_send fuel mem (socket_ impl) (state_ impl) (native bufs) (Z.of_nat (count_ bufs)) flags
    (all_empty bufs).

Definition service_receive (fuel : nat) (impl : base_implementation) (buffers : list buffer) (flags : Z)
    : io K (option (Z * list byte * error_code)) :=
  let bufs := buffer_sequence_adapter buffers in
  sync_recv fuel (socket_ impl) (state_ impl) (native bufs) (Z.of_nat (count_ bufs)) flags
    (all_empty bufs).

(** basic_stream_socket *)
Definition socket_write_some (fuel : nat) (mem : Z -> byte) (impl : base_implementation)
    (buffers : list buffer) : io K (option (Z * error_code)) := service_send fuel mem impl buffers 0.
Definition socket_read_some (fuel : nat) (impl : base_implementation)
    (buffers : list buffer) : io K (option (Z * list byte * error_code)) := service_receive fuel impl buffers 0.

(** ** write *)
Definition write_stream : Type := list buffer -> io K (option (Z * error_code)).
Definition condition : Type := error_code -> Z -> Z.

Fixpoint write_loop (fuel : nat) (write_some : write_stream) (completion_condition : condition)
    (tmp : consuming_buffers) (total_transferred : Z) (ec : error_code) : io K (option (Z * error_code)) :=
  match fuel with
  | O => mret None
  | S fuel' =>
    if negb (cb_equal (cb_begin tmp) cb_end) then
      r ← write_some (cb_elements tmp);
      match r with
      | None => mret None
      | Some (bytes_transferred, ec) =>
        let tmp := consume bytes_transferred tmp in
        let total_transferred := u64 (total_transferred + bytes_transferred) in
        let tmp := prepare (completion_condition ec total_transferred) tmp in
        write_loop fuel' write_some completion_condition tmp total_transferred ec
      end
    else mret (Some (total_transferred, ec))
  end.

Definition write (fuel : nat) (write_some : write_stream) (buffers : list buffer)
    (completion_condition : condition) : io K (option (Z * error_code)) :=
  let ec := error_code_new in
  let tmp := prepare (completion_condition ec 0) (consuming_buffers_new buffers) in
  write_loop fuel write_some completion_condition tmp 0 ec.

(** The overloads with a default condition *)
Definition write_all (fuel : nat) (write_some : write_stream) (buffers : list buffer)
    : io K (option (Z * error_code)) := write fuel write_some buffers transfer_all.

(** ... and those that throw *)
Definition throw_error (ec : error_code) : outcome unit :=
  if ec_bool ec then Throws (SystemError (value ec)) else Ok tt.
Definition write_throws (fuel : nat) (write_some : write_stream) (buffers : list buffer)
    (completion_condition : condition) : io K (option (outcome Z)) :=
  r ← write fuel write_some buffers completion_condition;
  mret (fmap (M := option) (fun x => '(n, ec) ← Ok x; throw_error ec ;; Ok n) r).

(** ** read: what was stored, from the start of the sequence *)
Definition read_stream : Type := list buffer -> io K (option (Z * list byte * error_code)).

Fixpoint read_loop (fuel : nat) (read_some : read_stream) (completion_condition : condition)
    (tmp : consuming_buffers) (total_transferred : Z) (stored : list byte) (ec : error_code)
    : io K (option (Z * list byte * error_code)) :=
  match fuel with
  | O => mret None
  | S fuel' =>
    if negb (cb_equal (cb_begin tmp) cb_end) then
      r ← read_some (cb_elements tmp);
      match r with
      | None => mret None
      | Some (bytes_transferred, data, ec) =>
        let tmp := consume bytes_transferred tmp in
        let total_transferred := u64 (total_transferred + bytes_transferred) in
        let tmp := prepare (completion_condition ec total_transferred) tmp in
        read_loop fuel' read_some completion_condition tmp total_transferred (stored ++ data) ec
      end
    else mret (Some (total_transferred, stored, ec))
  end.

Definition read (fuel : nat) (read_some : read_stream) (buffers : list buffer)
    (completion_condition : condition) : io K (option (Z * list byte * error_code)) :=
  let ec := error_code_new in
  let tmp := prepare (completion_condition ec 0) (consuming_buffers_new buffers) in
  read_loop fuel read_some completion_condition tmp 0 [] ec.

(** ** write_op: the operation as a chain of handlers

    [write_op_start] is the call with [start = 1], [write_op_step] the one with
    the result of [async_write_some]: either the operation goes on or its
    handler is called. *)
Record write_op := WriteOp { op_buffers : consuming_buffers; op_total : Z }.

Definition write_op_start (completion_condition : condition) (ec : error_code) (op : write_op) : write_op :=
  WriteOp (prepare (completion_condition ec (op_total op)) (op_buffers op)) (op_total op).

Definition write_op_step (completion_condition : condition) (ec : error_code) (bytes_transferred : Z)
    (op : write_op) : write_op * option (error_code * Z) :=
  let total := u64 (op_total op + bytes_transferred) in
  let buffers := consume bytes_transferred (op_buffers op) in
  let buffers := prepare (completion_condition ec total) buffers in
  let op := WriteOp buffers total in
  if (ec_not ec && (bytes_transferred =? 0)) || cb_equal (cb_begin buffers) cb_end
  then (op, Some (ec, total)) else (op, None).

Fixpoint write_op_run (fuel : nat) (write_some : write_stream) (completion_condition : condition)
    (op : write_op) : io K (option (error_code * Z)) :=
  match fuel with
  | O => mret None
  | S fuel' =>
    r ← write_some (cb_elements (op_buffers op));
    match r with
    | None => mret None
    | Some (n, ec) =>
      match write_op_step completion_condition ec n op with
      | (_, Some result) => mret (Some result)
      | (op, None) => write_op_run fuel' write_some completion_condition op
      end
    end
  end.

Definition async_write (fuel : nat) (write_some : write_stream) (buffers : list buffer)
    (completion_condition : condition) : io K (option (error_code * Z)) :=
  write_op_run fuel write_some completion_condition
    (write_op_start completion_condition error_code_new (WriteOp (consuming_buffers_new buffers) 0)).
End Rw.

(** ** What a stream and a condition promise *)
Section Contracts.
Context {K : Type} `{Kernel K} (mem : Z -> byte).

(** A stream moves a prefix of the bytes it is offered ([moved]); it takes none only when the buffers it looks at are empty, and then it does
    not fail; when it fails it has taken none. *)
Record write_stream_ok (inv : world K -> Prop) (moved : list byte -> relation (world K))
    (write_some : write_stream (K := K)) : Prop := {
  moved_nil w : moved [] w w;
  moved_app u v w1 w2 w3 : moved u w1 w2 -> moved v w2 w3 -> moved (u ++ v) w1 w3;
  ws_returns l w : sizes_ok l -> vlen (seq_bytes mem l) < 2 ^ 64 -> inv w ->
    exists n ec w', write_some l w = (Some (n, ec), w') /\ inv w' /\
      0 <= n <= vlen (seq_bytes mem l) /\
      moved (take (Z.to_nat n) (seq_bytes mem l)) w w' /\
      (ec_bool ec = false -> n = 0 -> seq_bytes mem (take max_buffers l) = []) /\
      (ec_bool ec = true -> n = 0 /\ seq_bytes mem l <> [])
}.

(** The condition asks for nothing after an error or when [lo] bytes have been
    moved, and never for more than [hi] bytes in all. *)
Record condition_ok (cond : condition) (lo hi : Z) : Prop := {
  cond_error ec t : ec_bool ec = true -> cond ec t = 0;
  cond_range ec t : 0 <= t < 2 ^ 64 -> in_u64 (cond ec t);
  cond_done ec t : ec_bool ec = false -> 0 <= t < 2 ^ 64 -> cond ec t = 0 <-> lo <= t;
  cond_hi ec t : 0 <= t < 2 ^ 64 -> 0 < cond ec t -> t + cond ec t <= hi
}.

Lemma transfer_all_ok : condition_ok transfer_all (2 ^ 64) (2 ^ 65).
Proof.
  unfold transfer_all, default_max_transfer_size. split; intros ec t; destruct (ec_bool ec); ulia || done.
Qed.
Lemma transfer_at_least_ok m : condition_ok (transfer_at_least m) m (2 ^ 65).
Proof.
  unfold transfer_at_least, default_max_transfer_size.
  split; intros ec t; destruct (ec_bool ec); cbn [orb]; try done; try ulia; destruct (Z.leb_spec m t); ulia || done.
Qed.
Lemma transfer_exactly_ok n : in_u64 n -> condition_ok (transfer_exactly n) n n.
Proof.
  intros Hn. unfold transfer_exactly, default_max_transfer_size.
  split; intros ec t; destruct (ec_bool ec); cbn [orb]; intros; try done; try ulia;
    destruct (Z.leb_spec n t); try ulia; rewrite u64_id by ulia; destruct (Z.ltb_spec (n - t) 65536); ulia.
Qed.

Context (inv : world K -> Prop) (moved : list byte -> relation (world K)) (ws : write_stream (K := K)).
Context (Hws : write_stream_ok inv moved ws) (cond : condition) (lo hi : Z) (Hcond : condition_ok cond lo hi).

(** What the loop gives from [t] bytes on, with [rest] still to go *)
Definition write_result (t : Z) (rest : list byte) (w : world K) (r : option (Z * error_code)) (w' : world K) : Prop :=
  exists n ec', r = Some (t + n, ec') /\ inv w' /\ 0 <= n <= vlen rest /\
    moved (take (Z.to_nat n) rest) w w' /\ t + n <= Z.max t hi /\
    (ec_bool ec' = false -> Z.min lo (t + vlen rest) <= t + n) /\
    (ec_bool ec' = true -> t + n < Z.min lo (t + vlen rest)).

Lemma write_result_stop t rest ec w : inv w -> ec_bool ec = false -> Z.min lo (t + vlen rest) <= t ->
  write_result t rest w (Some (t, ec)) w.
Proof.
  intros Hi He Hl. exists 0, ec. rewrite Z.add_0_r. pose proof (vlen_nonneg rest).
  split_and!; try done; try lia; [apply (moved_nil _ _ _ Hws)|congruence].
Qed.

Lemma write_loop_stops fuel c t ec w :
  at_end_ c = true \/ max_size_ c <= 0 -> write_loop (S fuel) ws cond c t ec w = (Some (t, ec), w).
Proof.
  intros Hs. cbn [write_loop]. rewrite begin_end. destruct Hs as [->|Hs]; [done|].
  by rewrite (proj2 (Z.leb_le _ _) Hs), orb_true_r.
Qed.

(** After a step the first buffer has bytes in it. *)
Lemma consumed_first_ok n m c : cb_wf mem c -> in_u64 n -> first_ok (prepare m (consume n c)) = true.
Proof.
  intros Hc Hn. destruct (consume_spec mem n c Hc Hn) as (_ & _ & _ & Hf). unfold first_ok.
  change (at_end_ (prepare m (consume n c))) with (at_end_ (consume n c)).
  change (first_ (prepare m (consume n c))) with (first_ (consume n c)).
  destruct (at_end_ (consume n c)); [done|]. by apply Z.ltb_lt, Hf.
Qed.

(** One step of the stream, from a point where there is something to ask for *)
Lemma write_step c t ec w :
  cb_wf mem c -> inv w -> 0 <= t -> t + vlen (seq_bytes mem (cb_view c)) < 2 ^ 64 ->
  max_size_ c = cond ec t -> ec_bool ec = false -> at_end_ c = false -> 0 < max_size_ c ->
  let V := seq_bytes mem (cb_view c) in
  exists n ec1 w1, ws (cb_elements c) w = (Some (n, ec1), w1) /\ inv w1 /\
    0 <= n <= vlen V /\ t < lo /\ t + n <= hi /\ moved (take (Z.to_nat n) V) w w1 /\
    (ec_bool ec1 = true -> n = 0 /\ 0 < vlen V) /\
    (ec_bool ec1 = false -> n = 0 -> first_ok c = false).
Proof.
  intros Hc Hi Ht Htot Hmax He Ee Hpos V. pose proof (elements_bytes mem c Hc) as Eb. fold V in Htot, Eb.
  pose proof (vlen_nonneg V) as Hv.
  assert (t < lo) as Hlo.
  { destruct (Z.lt_ge_cases t lo) as [|Hge]; [done|].
    apply (cond_done _ _ _ Hcond ec t) in Hge; [lia|done|ulia]. }
  assert (t + max_size_ c <= hi) as Hhi by (rewrite Hmax in *; apply (cond_hi _ _ _ Hcond); ulia).
  assert (vlen (seq_bytes mem (cb_elements c)) = Z.min (max_size_ c) (vlen V)) as El
    by (rewrite Eb; unfold vlen in *; rewrite length_take; lia).
  destruct (ws_returns _ _ _ Hws (cb_elements c) w (elements_ok mem c Hc)) as
    (n & ec1 & w1 & E1 & Hi1 & Hn & Hg & Hzero & Herr); [rewrite El; lia|done|].
  rewrite El in Hn. rewrite Eb, take_take in Hg.
  replace (Z.to_nat n `min` Z.to_nat (max_size_ c))%nat with (Z.to_nat n) in Hg by lia.
  exists n, ec1, w1. split_and!; try done; try lia.
  - intros E. destruct (Herr E) as [-> Hne]. split; [done|]. destruct V; [|unfold vlen; cbn; lia].
    by rewrite Eb, take_nil in Hne.
  - intros E ->. apply not_true_iff_false. intros Hfo1. by apply (elements_first mem c Hc Hfo1 Ee Hpos), Hzero.
Qed.

Lemma write_loop_spec fuel c t ec w :
  cb_wf mem c -> inv w -> 0 <= t -> t + vlen (seq_bytes mem (cb_view c)) < 2 ^ 64 ->
  max_size_ c = cond ec t -> ec_bool ec = false ->
  vlen (seq_bytes mem (cb_view c)) + (if first_ok c then 0 else 1) < Z.of_nat fuel ->
  exists r w', write_loop fuel ws cond c t ec w = (r, w') /\
    write_result t (seq_bytes mem (cb_view c)) w r w'.
Proof.
  revert c t ec w. induction fuel as [|fuel IH]; intros c t ec w Hc Hi Ht Htot Hmax He Hf;
    pose proof (vlen_nonneg (seq_bytes mem (cb_view c))) as Hv; [destruct (first_ok c); lia|].
  destruct (at_end_ c) eqn:Ee.
  { do 2 eexists. split; [apply write_loop_stops; by left|]. apply write_result_stop; [done..|].
    unfold cb_view. rewrite Ee. change (vlen (seq_bytes mem [])) with 0. lia. }
  destruct (Z.le_gt_cases (max_size_ c) 0) as [Hz|Hpos].
  { do 2 eexists. split; [apply write_loop_stops; by right|]. apply write_result_stop; [done..|].
    assert (lo <= t); [|lia]. apply (cond_done _ _ _ Hcond ec t); [done|ulia|].
    pose proof (cond_range _ _ _ Hcond ec t). rewrite <- Hmax in *. ulia. }
  destruct (write_step c t ec w Hc Hi Ht Htot Hmax He Ee ltac:(lia))
    as (n & ec1 & w1 & E1 & Hi1 & Hn & Hlo & Hhi & Hg & Herr & Hzero).
  set (V := seq_bytes mem (cb_view c)) in *. cbn [write_loop].
  rewrite begin_end, Ee, (proj2 (Z.leb_gt _ _)) by lia. cbn [orb negb]. io_run. rewrite E1.
  rewrite (u64_id (t + n)) by ulia.
  destruct (consume_spec mem n c Hc) as (Hc1 & Hb1 & _ & _); [ulia|].
  destruct (prepare_spec mem (cond ec1 (t + n)) (consume n c) Hc1) as (Hc2 & Hv2 & Hm2);
    [apply (cond_range _ _ _ Hcond); ulia|].
  pose proof (consumed_first_ok n (cond ec1 (t + n)) c Hc ltac:(ulia)) as Hfo.
  set (c2 := prepare _ (consume n c)) in *. fold V in Hb1.
  assert (vlen (drop (Z.to_nat n) V) = vlen V - n) as Hd by (unfold vlen in *; rewrite length_drop; lia).
  destruct (ec_bool ec1) eqn:Ee1.
  - destruct (Herr eq_refl) as [-> HV]. destruct fuel as [|fuel]; [destruct (first_ok c); lia|].
    rewrite write_loop_stops by (right; rewrite Hm2; by rewrite (cond_error _ _ _ Hcond)).
    do 2 eexists. split; [done|]. exists 0, ec1. split_and!; try done; try lia. congruence.
  - destruct (IH c2 (t + n) ec1 w1) as (r & w2 & -> & m & ec2 & -> & Hi2 & Hm & Hg2 & Hh2 & Hok2 & Her2);
      try done; try lia.
    { rewrite Hv2, Hb1, Hd. lia. }
    { rewrite Hv2, Hb1, Hd, Hfo. destruct (Z.eq_dec n 0) as [E0|]; [|destruct (first_ok c); lia].
      rewrite (Hzero eq_refl E0) in Hf. lia. }
    rewrite Hv2, Hb1, Hd in *. do 2 eexists. split; [done|]. exists (n + m), ec2.
    rewrite Z.add_assoc. split_and!; try done; try lia.
    + replace (Z.to_nat (n + m)) with (Z.to_nat n + Z.to_nat m)%nat by lia.
      rewrite <- take_take_drop. by eapply (moved_app _ _ _ Hws).
    + intros E. specialize (Hok2 E). lia.
    + intros E. specialize (Her2 E). lia.
Qed.

Lemma write_spec fuel l w :
  sizes_ok l -> vlen (seq_bytes mem l) < 2 ^ 64 -> inv w -> vlen (seq_bytes mem l) + 1 < Z.of_nat fuel ->
  exists r w', write fuel ws l cond w = (r, w') /\ write_result 0 (seq_bytes mem l) w r w'.
Proof.
  intros Hs Ht Hi Hf. unfold write.
  destruct (consuming_buffers_new_spec mem l Hs Ht) as [Hc Hv].
  destruct (prepare_spec mem (cond error_code_new 0) _ Hc) as (Hc1 & Hv1 & Hm1);
    [apply (cond_range _ _ _ Hcond); lia|].
  destruct (write_loop_spec fuel _ 0 error_code_new w Hc1) as (r & w' & -> & Hr);
    rewrite ?Hv1, ?Hv in *; try done; [destruct (first_ok _); lia|eauto].
Qed.

(** ** The chain of handlers does what the loop does. *)
Lemma write_op_agrees fuel c t ec w :
  cb_wf mem c -> inv w -> 0 <= t -> t + vlen (seq_bytes mem (cb_view c)) < 2 ^ 64 ->
  max_size_ c = cond ec t -> ec_bool ec = false -> at_end_ c = false -> 0 < max_size_ c ->
  first_ok c = true -> vlen (seq_bytes mem (cb_view c)) < Z.of_nat fuel ->
  write_op_run fuel ws cond (WriteOp c t) w =
  let '(r, w') := write_loop (S fuel) ws cond c t ec w in ((fun x => (x.2, x.1)) <$> r, w').
Proof.
  revert c t ec w. induction fuel as [|fuel IH]; intros c t ec w Hc Hi Ht Htot Hmax He Ee Hpos Hfirst Hf;
    pose proof (vlen_nonneg (seq_bytes mem (cb_view c))) as Hv; [lia|].
  destruct (write_step c t ec w Hc Hi Ht Htot Hmax He Ee Hpos)
    as (n & ec1 & w1 & E1 & Hi1 & Hn & Hlo & Hhi & Hg & Herr & Hzero).
  set (V := seq_bytes mem (cb_view c)) in *.
  remember (S fuel) as fuel1 eqn:Ef. cbn [write_loop]. subst fuel1. cbn [write_op_run op_buffers].
  rewrite begin_end, Ee, (proj2 (Z.leb_gt _ _)) by lia. cbn [orb negb]. io_run. rewrite E1.
  unfold write_op_step. cbn [op_buffers op_total]. rewrite (u64_id (t + n)) by ulia.
  destruct (consume_spec mem n c Hc) as (Hc1 & Hb1 & _ & _); [ulia|].
  destruct (prepare_spec mem (cond ec1 (t + n)) (consume n c) Hc1) as (Hc2 & Hv2 & Hm2);
    [apply (cond_range _ _ _ Hcond); ulia|].
  pose proof (consumed_first_ok n (cond ec1 (t + n)) c Hc ltac:(ulia)) as Hfo.
  set (c2 := prepare _ (consume n c)) in *. fold V in Hb1.
  assert (vlen (drop (Z.to_nat n) V) = vlen V - n) as Hd by (unfold vlen in *; rewrite length_drop; lia).
  assert (ec_not ec1 && (n =? 0) = false) as ->.
  { replace (ec_not ec1) with (negb (ec_bool ec1)) by (unfold ec_not, ec_bool; by destruct (value ec1 =? 0)).
    destruct (ec_bool ec1) eqn:Ee1; [done|]. cbn. apply Z.eqb_neq. intros E0.
    by rewrite (Hzero eq_refl E0) in Hfirst. }
  cbn [orb]. rewrite begin_end. destruct (at_end_ c2) eqn:Ee2; cbn [orb].
  { by rewrite write_loop_stops by by left. }
  destruct (Z.leb_spec (max_size_ c2) 0) as [Hz|Hp2].
  { by rewrite write_loop_stops by by right. }
  assert (ec_bool ec1 = false) as Ee1.
  { apply not_true_iff_false. intros E. rewrite (cond_error _ _ _ Hcond) in Hm2 by done. lia. }
  apply IH; try done; try lia; rewrite Hv2, Hb1, Hd; try lia.
  destruct (Z.eq_dec n 0) as [E0|]; [|lia]. by rewrite (Hzero Ee1 E0) in Hfirst.
Qed.
Lemma async_write_spec fuel b l w : inv w -> 0 < lo -> 0 < size_ b -> sizes_ok l ->
  vlen (seq_bytes mem (b :: l)) < 2 ^ 64 -> vlen (seq_bytes mem (b :: l)) < Z.of_nat fuel ->
  async_write fuel ws (b :: l) cond w =
  let '(r, w') := write (S fuel) ws (b :: l) cond w in ((fun x => (x.2, x.1)) <$> r, w').
Proof.
  intros Hi Hlo Hb Hl Ht Hf. assert (sizes_ok (b :: l)) as Hbl by (constructor; [lia|done]).
  destruct (consuming_buffers_new_spec mem (b :: l) Hbl Ht) as [Hc Hv].
  destruct (prepare_spec mem (cond error_code_new 0) _ Hc) as (Hc1 & Hv1 & Hm1);
    [apply (cond_range _ _ _ Hcond); lia|].
  assert (0 < cond error_code_new 0) as Hpos.
  { destruct (Z.le_gt_cases (cond error_code_new 0) 0) as [Hz|]; [|lia].
    pose proof (cond_range _ _ _ Hcond error_code_new 0 ltac:(lia)).
    pose proof (proj1 (cond_done _ _ _ Hcond error_code_new 0 eq_refl ltac:(lia))). ulia. }
  unfold async_write, write_op_start, write. cbn [op_total op_buffers] in *.
  rewrite (write_op_agrees fuel _ 0 error_code_new w Hc1); rewrite ?Hv1, ?Hv, ?Hm1; try done.
  unfold first_ok. cbn. by apply Z.ltb_lt.
Qed.
End Contracts.

(** [read_loop] is [write_loop] over a stream that keeps what it has stored next
    to the kernel. *)
Section Ghost.
Context {K : Type}.
Definition ghost_world (w : world K) (stored : list byte) : world (K * list byte) :=
  World (kernel w, stored) (errno_ w).
Definition ghost_stream (rs : read_stream (K := K)) : write_stream (K := K * list byte) := fun l w =>
  let '(r, w') := rs l (World (kernel w).1 (errno_ w)) in
  match r with
  | None => (None, ghost_world w' (kernel w).2)
  | Some (n, data, ec) => (Some (n, ec), ghost_world w' ((kernel w).2 ++ data))
  end.
Definition ghost_result (r : option (Z * error_code)) (w : world (K * list byte))
    : option (Z * list byte * error_code) * world K :=
  ((fun x => (x.1, (kernel w).2, x.2)) <$> r, World (kernel w).1 (errno_ w)).

Lemma read_loop_ghost fuel (rs : read_stream (K := K)) cond c t stored ec w :
  read_loop fuel rs cond c t stored ec w =
  let '(r, w') := write_loop fuel (ghost_stream rs) cond c t ec (ghost_world w stored) in ghost_result r w'.
Proof.
  revert c t stored ec w. induction fuel as [|fuel IH]; intros c t stored ec [k e]; [done|].
  cbn [read_loop write_loop]. destruct (negb _); [|done]. io_run. unfold ghost_stream at 1, ghost_world at 2 3 4. io_run.
  cbn [kernel errno_ fst snd ghost_world]. destruct (rs (cb_elements c) (World k e)) as [[[[n data] ec1]|] [k1 e1]]; [|done]. apply IH.
Qed.
End Ghost.

(** ** The stream of a connected socket *)
Section Sockets.
Context {K : Type} `{KernelLaws K} (mem : Z -> byte) (pfuel : nat) (impl : base_implementation).
Definition patient (w : world K) : Prop := (patience (kernel w) < pfuel)%nat.
Definition given (u : list byte) (w w' : world K) : Prop :=
  sent (kernel w') (socket_ impl) = sent (kernel w) (socket_ impl) ++ u.

Lemma socket_write_some_ok : is_open impl = true -> flag_set (state_ impl) stream_oriented = true ->
  write_stream_ok mem patient given (socket_write_some pfuel mem impl).
Proof.
  intros Ho Hst. assert (socket_ impl <> invalid_socket) as Hs.
  { unfold is_open in Ho. by destruct (Z.eqb_spec (socket_ impl) invalid_socket). }
  split.
  - intros w. unfold given. by rewrite app_nil_r.
  - unfold given. intros u v w1 w2 w3 E1 E2. by rewrite E2, E1, app_assoc.
  - intros l w Hl Ht Hp. destruct (adapter_spec mem l Hl Ht) as (_ & Eb & Ea & _).
    unfold socket_write_some, service_send, sync_send. cbn zeta in *.
    rewrite (proj2 (Z.eqb_neq _ _) Hs), Hst, andb_true_r, Ea.
    destruct (bool_decide_reflect (seq_bytes mem (take max_buffers l) = [])) as [E|E].
    { exists 0, error_code_new, w. split_and!; try done; [apply vlen_nonneg|].
      unfold given. by rewrite app_nil_r. }
    destruct (sync_send_returns pfuel mem (socket_ impl) (state_ impl) (native (buffer_sequence_adapter l))
      (Z.of_nat (count_ (buffer_sequence_adapter l))) 0 w Hs Hp) as (n & ec & w' & E1 & Hp' & [Hn Hec] & Hg).
    rewrite Eb in *. exists n, ec, w'.
    assert (exists k, seq_bytes mem l = seq_bytes mem (take max_buffers l) ++ k) as [k Ek].
    { exists (seq_bytes mem (drop max_buffers l)). unfold seq_bytes.
      by rewrite <- concat_app, <- fmap_app, take_drop. }
    rewrite Ek, vlen_app, take_app_lt by lia. pose proof (vlen_nonneg k).
    split_and!; try done; try lia; [unfold patient in *; lia|..].
    + intros He Hz. destruct Hec as [[_ He0]|(_ & He' & _)]; [auto|congruence].
    + intros He. destruct Hec as [[-> _]|(_ & _ & ? & _)]; [done|]. split; [done|].
      destruct (seq_bytes mem (take max_buffers l)); [done|done].
Qed.
Definition stored_more (u : list byte) (w w' : world (K * list byte)) : Prop :=
  exists v, (kernel w').2 = (kernel w).2 ++ v /\ vlen v = vlen u.
Definition patient_ghost (w : world (K * list byte)) : Prop := (patience (kernel w).1 < pfuel)%nat.

Lemma room_seq_bytes l : sizes_ok l -> room (init_native_buffer <$> l) = vlen (seq_bytes mem l).
Proof.
  induction l as [|b l IH]; intros Hs; [done|]. apply Forall_cons in Hs as [Hb Hs].
  rewrite vlen_seq_bytes_cons by done. cbn. by rewrite <- IH.
Qed.

Lemma socket_read_some_ok : is_open impl = true -> flag_set (state_ impl) stream_oriented = true ->
  write_stream_ok mem patient_ghost stored_more (ghost_stream (socket_read_some pfuel impl)).
Proof.
  intros Ho Hst. assert (socket_ impl <> invalid_socket) as Hs.
  { unfold is_open in Ho. by destruct (Z.eqb_spec (socket_ impl) invalid_socket). }
  split.
  - intros w. exists []. by rewrite app_nil_r.
  - intros u v w1 w2 w3 (x & Ex & Hx) (y & Ey & Hy). exists (x ++ y).
    split; [by rewrite Ey, Ex, app_assoc|]. by rewrite !vlen_app, Hx, Hy.
  - intros l [[k st] e] Hl Ht Hp. destruct (adapter_spec mem l Hl Ht) as (Em & _ & Ea & _).
    unfold ghost_stream, socket_read_some, service_receive, sync_recv. cbn [kernel errno_ fst snd].
    cbn zeta in *. rewrite (proj2 (Z.eqb_neq _ _) Hs), Hst, andb_true_r, Ea.
    destruct (bool_decide_reflect (seq_bytes mem (take max_buffers l) = [])) as [E|E].
    { do 3 eexists. split; [reflexivity|]. split_and!; try done; [apply vlen_nonneg|].
      exists []. by rewrite take_0. }
    destruct (sync_recv_returns pfuel (socket_ impl) (state_ impl) (native (buffer_sequence_adapter l))
      (Z.of_nat (count_ (buffer_sequence_adapter l))) 0 (World k e) Hs Hst Hp)
      as (n & data & ec & w' & -> & Hp' & Hn & Hec).
    assert (seq_bytes mem l = seq_bytes mem (take max_buffers l) ++ seq_bytes mem (drop max_buffers l)) as Ek.
    { unfold seq_bytes. by rewrite <- concat_app, <- fmap_app, take_drop. }
    rewrite Em, room_seq_bytes in Hec by by apply Forall_take.
    rewrite Ek, vlen_app. pose proof (vlen_nonneg (seq_bytes mem (drop max_buffers l))).
    pose proof (vlen_nonneg data). pose proof (vlen_nonneg (seq_bytes mem (take max_buffers l))).
    do 3 eexists. split; [reflexivity|].
    assert (0 <= n <= vlen (seq_bytes mem (take max_buffers l))) as Hle
      by (destruct Hec as [[_ ?]|[[_ ?]|(_ & _ & ? & _)]]; lia).
    split_and!; try done; try lia.
    + unfold patient_ghost in *. cbn in *. lia.
    + exists data. split; [done|]. rewrite take_app_lt by lia. unfold vlen in *. rewrite length_take. lia.
    + intros He Hz. destruct Hec as [[? ?]|[[-> _]|(_ & ? & _)]]; [lia|done|congruence].
    + intros He. assert (n = 0) as -> by (destruct Hec as [[-> _]|[[_ ?]|(_ & _ & ? & _)]]; done).
      split; [done|]. by destruct (seq_bytes mem (take max_buffers l)).
Qed.
End Sockets.

(** ** Properties *)

(** C17. [write] on a connected socket returns for every kernel and accounts for
    every byte: it gives the peer a prefix of the sequence, in order and without
    gaps, never more than the condition allows; without an error the condition is
    met or the whole sequence has been sent, and with one neither is. *)
Theorem write_correct {K} `{KernelLaws K} fuel pfuel mem impl l cond lo hi (w : world K) :
  is_open impl = true -> flag_set (state_ impl) stream_oriented = true ->
  condition_ok cond lo hi -> sizes_ok l -> vlen (seq_bytes mem l) < 2 ^ 64 ->
  vlen (seq_bytes mem l) + 1 < Z.of_nat fuel -> (patience (kernel w) < pfuel)%nat ->
  let data := seq_bytes mem l in
  exists n ec w', write fuel (socket_write_some pfuel mem impl) l cond w = (Some (n, ec), w') /\
    0 <= n <= vlen data /\ n <= Z.max 0 hi /\
    sent (kernel w') (socket_ impl) = sent (kernel w) (socket_ impl) ++ take (Z.to_nat n) data /\
    (ec_bool ec = false <-> Z.min lo (vlen data) <= n).
Proof.
  intros Ho Hst Hcond Hl Ht Hf Hp data.
  destruct (write_spec mem _ _ _ (socket_write_some_ok mem pfuel impl Ho Hst) cond lo hi Hcond fuel l w)
    as (r & w' & E & n & ec & -> & _ & Hn & Hg & Hhi & Hok & Her); try done.
  unfold data in *. rewrite !Z.add_0_l in *. exists n, ec, w'. split; [done|]. split; [done|]. split; [done|].
  split; [done|]. split; [done|].
  intros Hge. apply not_true_iff_false. intros Ee. specialize (Her Ee). lia.
Qed.

(** Five bytes in three buffers, after a refusal and by pieces *)
Definition text_buffers : list buffer := [Buffer 65 2; Buffer 0 0; Buffer 97 3].
Lemma write_correct_witness :
  exists n ec w', write 9 (socket_write_some 10 text_memory (BaseImpl 4 stream_oriented)) text_buffers
      transfer_all (World (Script [-11; 1; 3; 9] ∅ ∅) 0) = (Some (n, ec), w') /\
    sent (kernel w') 4 = take (Z.to_nat n) (lit "ABabc") /\
    (ec_bool ec = false <-> 5 <= n).
Proof.
  destruct (write_correct (K := script) 9 10 text_memory (BaseImpl 4 stream_oriented) text_buffers
    transfer_all (2 ^ 64) (2 ^ 65) (World (Script [-11; 1; 3; 9] ∅ ∅) 0))
    as (n & ec & w' & E & _ & _ & Hs & He);
    [reflexivity|reflexivity|exact transfer_all_ok|repeat (constructor; [vm_compute; discriminate|]); constructor
    |vm_compute; reflexivity|vm_compute; reflexivity|vm_compute; lia|].
  exists n, ec, w'. split; [exact E|]. split; [exact Hs|exact He].
Defined.

(** The chain of completion handlers of [async_write] does what the loop of
    [write] does: for a sequence that starts with a buffer that is not empty and
    a condition that asks for something, it calls its handler with the same
    error and count, after the same calls of the stream. *)
Theorem async_write_agrees {K} `{KernelLaws K} fuel pfuel mem impl b l cond lo hi (w : world K) :
  is_open impl = true -> flag_set (state_ impl) stream_oriented = true ->
  condition_ok cond lo hi -> 0 < lo -> 0 < size_ b -> sizes_ok l -> vlen (seq_bytes mem (b :: l)) < 2 ^ 64 ->
  vlen (seq_bytes mem (b :: l)) < Z.of_nat fuel -> (patience (kernel w) < pfuel)%nat ->
  let stream := socket_write_some pfuel mem impl in
  exists n ec w', async_write fuel stream (b :: l) cond w = (Some (ec, n), w') /\
    write (S fuel) stream (b :: l) cond w = (Some (n, ec), w').
Proof.
  intros Ho Hst Hcond Hlo Hb Hl Ht Hf Hp stream.
  pose proof (socket_write_some_ok mem pfuel impl Ho Hst) as Hws.
  destruct (write_spec mem _ _ _ Hws cond lo hi Hcond (S fuel) (b :: l) w)
    as (r & w' & E & n & ec & -> & _); try done; [constructor; [lia|done]|lia|].
  exists n, ec, w'. split; [|done]. unfold stream in *.
  rewrite (async_write_spec mem _ _ _ Hws cond lo hi Hcond) by done. by rewrite E.
Qed.

Lemma async_write_agrees_witness :
  exists n ec w', async_write 9 (socket_write_some 10 text_memory (BaseImpl 4 stream_oriented)) text_buffers
      transfer_all (World (Script [-11; 1; 3; 9] ∅ ∅) 0) = (Some (ec, n), w') /\
    write 10 (socket_write_some 10 text_memory (BaseImpl 4 stream_oriented)) text_buffers
      transfer_all (World (Script [-11; 1; 3; 9] ∅ ∅) 0) = (Some (n, ec), w').
Proof.
  apply (async_write_agrees (K := script) 9 10 text_memory (BaseImpl 4 stream_oriented) (Buffer 65 2)
    [Buffer 0 0; Buffer 97 3] transfer_all (2 ^ 64) (2 ^ 65));
    [reflexivity|reflexivity|exact transfer_all_ok|lia|vm_compute; reflexivity
    |repeat (constructor; [vm_compute; discriminate|]); constructor
    |vm_compute; reflexivity|vm_compute; reflexivity|vm_compute; lia].
Defined.

(** [read] on a connected socket returns for every kernel: what it has stored,
    in the order it came, is as long as it says and fits the sequence and the
    condition; without an error the condition is met or the sequence is full, and
    with one (the end of the stream is one) neither is. *)
Theorem read_correct {K} `{KernelLaws K} fuel pfuel mem impl l cond lo hi (w : world K) :
  is_open impl = true -> flag_set (state_ impl) stream_oriented = true ->
  condition_ok cond lo hi -> sizes_ok l -> vlen (seq_bytes mem l) < 2 ^ 64 ->
  vlen (seq_bytes mem l) + 1 < Z.of_nat fuel -> (patience (kernel w) < pfuel)%nat ->
  exists data ec w', read fuel (socket_read_some pfuel impl) l cond w = (Some (vlen data, data, ec), w') /\
    vlen data <= vlen (seq_bytes mem l) /\ vlen data <= Z.max 0 hi /\
    (ec_bool ec = false <-> Z.min lo (vlen (seq_bytes mem l)) <= vlen data).
Proof.
  intros Ho Hst Hcond Hl Ht Hf Hp.
  destruct (write_spec mem _ _ _ (socket_read_some_ok mem pfuel impl Ho Hst) cond lo hi Hcond fuel l
    (ghost_world w [])) as (r & w' & E & n & ec & -> & _ & Hn & (data & Ed & Hd) & Hhi & Hok & Her); try done.
  unfold write in E. unfold read. rewrite !Z.add_0_l in *. rewrite read_loop_ghost, E. unfold ghost_result.
  cbn [ghost_world kernel fst snd app] in Ed. unfold vlen in Hd at 2. rewrite length_take in Hd.
  assert (vlen data = n) as <- by (unfold vlen in *; lia).
  exists data, ec. eexists. split; [cbn; by rewrite Ed|]. split; [lia|]. split; [lia|]. split; [done|].
  intros Hge. apply not_true_iff_false. intros Ee. specialize (Her Ee). lia.
Qed.

Lemma read_correct_witness :
  exists data ec w', read 9 (socket_read_some 10 (BaseImpl 4 stream_oriented)) text_buffers
      (transfer_exactly 4) (World (Script [-11; 1; 3; 9] ∅ ∅) 0) = (Some (vlen data, data, ec), w') /\
    (ec_bool ec = false <-> 4 <= vlen data).
Proof.
  destruct (read_correct (K := script) 9 10 text_memory (BaseImpl 4 stream_oriented) text_buffers
    (transfer_exactly 4) 4 4 (World (Script [-11; 1; 3; 9] ∅ ∅) 0)) as (data & ec & w' & E & _ & _ & He);
    [reflexivity|reflexivity|apply transfer_exactly_ok; vm_compute; split; (reflexivity || discriminate)
    |repeat (constructor; [vm_compute; discriminate|]); constructor
    |vm_compute; reflexivity|vm_compute; reflexivity|vm_compute; lia|].
  exists data, ec, w'. split; [exact E|exact He].
Defined.

(** A sequence that starts with as many empty buffers as one call passes on: the
    chain of handlers ends without an error before the rest is sent. *)
Definition empty_head : list buffer := replicate max_buffers (Buffer 0 0) ++ [Buffer 65 3].
Lemma async_write_empty_head :
  let w := World (Script [3] ∅ ∅) 0 in
  let stream := socket_write_some 10 text_memory (BaseImpl 4 stream_oriented) in
  async_write 9 stream empty_head transfer_all w = (Some (error_code_new, 0), w) /\
  (write 9 stream empty_head transfer_all w).1 = Some (3, error_code_new).
Proof. split; vm_compute; reflexivity. Qed.
