(* ===== verification/Bufstream.v ===== *)
(** * Buffered streams (asio/buffered_write_stream.hpp, buffered_read_stream.hpp,
    their impl/ files, detail/buffered_stream_storage.hpp,
    detail/buffer_resize_guard.hpp)

    A stream that keeps what is written to it in a buffer until the buffer is
    full or flushed, and one that reads ahead.  The storage is a range of the
    memory with two offsets; the memory is an argument, because the next layer
    reads the storage out of it and the caller's buffers lie in it too.  The next
    layer of a [buffered_write_stream] is a [write_stream] for each memory.  A
    completion handler is an operation of its own; [async_flush] and
    [async_write_some] are the calls followed by their handlers, since the
    program must start no other operation of the stream in between. *)
From S2P Require Import Prelude Socketops Asiobuf Asiorw.

Definition memory : Type := Z -> byte.

(** ** buffer_copy between a buffer and a sequence (asio/buffer.hpp) *)
Fixpoint gather_loop (mem : memory) (target : buffer) (source : list buffer) (total : Z) : memory * Z :=
  match source with
  | s :: source' =>
    if negb (buffer_size target =? 0) then
      let '(mem, n) := buffer_copy mem target s in
      gather_loop mem (buffer_add target n) source' (u64 (total + n))
    else (mem, total)
  | [] => (mem, total)
  end.
Definition buffer_gather (mem : memory) (target : buffer) (source : list buffer) : memory * Z :=
  gather_loop mem target source 0.
Definition buffer_gather_max (mem : memory) (target : buffer) (source : list buffer) (max : Z) : memory * Z :=
  buffer_gather mem (buffer_max target max) source.

Fixpoint scatter_loop (mem : memory) (target : list buffer) (source : buffer) (total : Z) : memory * Z :=
  match target with
  | t :: target' =>
    if negb (buffer_size source =? 0) then
      let '(mem, n) := buffer_copy mem t source in
      scatter_loop mem target' (buffer_add source n) (u64 (total + n))
    else (mem, total)
  | [] => (mem, total)
  end.
Definition buffer_scatter (mem : memory) (target : list buffer) (source : buffer) : memory * Z :=
  scatter_loop mem target source 0.
Definition buffer_scatter_max (mem : memory) (target : list buffer) (source : buffer) (max : Z) : memory * Z :=
  buffer_scatter mem target (buffer_max source max).

(** ** buffered_stream_storage *)
Record buffered_stream_storage := BufferedStreamStorage {
  begin_offset_ : Z; end_offset_ : Z; buffer_ : buffer
}.
Definition bss_new (b : buffer) : buffered_stream_storage := BufferedStreamStorage 0 0 b.
Definition bss_clear (st : buffered_stream_storage) : buffered_stream_storage :=
  BufferedStreamStorage 0 0 (buffer_ st).
Definition bss_data (st : buffered_stream_storage) : buffer := buffer_add (buffer_ st) (begin_offset_ st).
Definition bss_empty (st : buffered_stream_storage) : bool := begin_offset_ st =? end_offset_ st.
Definition bss_size (st : buffered_stream_storage) : Z := u64 (end_offset_ st - begin_offset_ st).
Definition bss_capacity (st : buffered_stream_storage) : Z := buffer_size (buffer_ st).

Definition bss_resize (length : Z) (mem : memory) (st : buffered_stream_storage)
    : outcome (memory * buffered_stream_storage) :=
  assert_ (length <=? bss_capacity st) ;;
  if u64 (begin_offset_ st + length) <=? bss_capacity st then
    Ok (mem, BufferedStreamStorage (begin_offset_ st) (u64 (begin_offset_ st + length)) (buffer_ st))
  else
    let mem := memcpy mem (buffer_cast (buffer_ st)) (buffer_cast (buffer_ st) + begin_offset_ st) (bss_size st) in
    Ok (mem, BufferedStreamStorage 0 length (buffer_ st)).

Definition bss_consume (count : Z) (st : buffered_stream_storage) : outcome buffered_stream_storage :=
  assert_ (u64 (begin_offset_ st + count) <=? end_offset_ st) ;;
  let st := BufferedStreamStorage (u64 (begin_offset_ st + count)) (end_offset_ st) (buffer_ st) in
  Ok (if bss_empty st then bss_clear st else st).

(** ** buffered_write_stream *)
(** [copy], also the end of the handler of [async_write_some] *)
Definition bw_copy (mem : memory) (st : buffered_stream_storage) (buffers : list buffer)
    : outcome (memory * buffered_stream_storage * Z) :=
  let orig_size := bss_size st in
  let space_avail := u64 (bss_capacity st - orig_size) in
  let bytes_avail := buffers_size buffers in
  let length := if bytes_avail <? space_avail then bytes_avail else space_avail in
  '(mem, st) ← bss_resize (u64 (orig_size + length)) mem st;
  let '(mem, n) := buffer_gather_max mem (buffer_add (bss_data st) orig_size) buffers length in
  Ok (mem, st, n).

(** What the handlers are called with *)
Definition buffered_flush_handler (st : buffered_stream_storage) (ec : error_code) (bytes_written : Z)
    : outcome (buffered_stream_storage * (error_code * Z)) :=
  st ← bss_consume bytes_written st;
  Ok (st, (ec, bytes_written)).

Definition buffered_write_some_handler (mem : memory) (st : buffered_stream_storage) (buffers : list buffer)
    (ec : error_code) : outcome (memory * buffered_stream_storage * (error_code * Z)) :=
  if ec_bool ec then Ok (mem, st, (ec, 0))
  else '(mem, st, bytes_copied) ← bw_copy mem st buffers; Ok (mem, st, (ec, bytes_copied)).

Section WriteStream.
Context {K : Type} `{Kernel K} (next_layer : memory -> write_stream (K := K)) (fuel : nat).

(** [buffer(storage_.data(), storage_.size())] *)
Definition bss_pending (st : buffered_stream_storage) : list buffer := [buffer_max (bss_data st) (bss_size st)].

Definition bw_flush (mem : memory) (st : buffered_stream_storage)
    : io K (option (outcome (buffered_stream_storage * Z * error_code))) :=
  r ← write fuel (next_layer mem) (bss_pending st) transfer_all;
  mret ((fun '(bytes_written, ec) => st ← bss_consume bytes_written st; Ok (st, bytes_written, ec)) <$> r).

(** The overload that throws, with the storage it leaves *)
Definition bw_flush_throws (mem : memory) (st : buffered_stream_storage)
    : io K (option (buffered_stream_storage * outcome Z)) :=
  r ← write_throws fuel (next_layer mem) (bss_pending st) transfer_all;
  mret ((fun o => match o with
    | Ok bytes_written =>
      match bss_consume bytes_written st with
      | Ok st' => (st', Ok bytes_written)
      | Throws e => (st, Throws e)
      | Crash f => (st, Crash f)
      end
    | Throws e => (st, Throws e)
    | Crash f => (st, Crash f)
    end) <$> r).

Definition bw_write_some (mem : memory) (st : buffered_stream_storage) (buffers : list buffer)
    : io K (option (outcome (memory * buffered_stream_storage * (error_code * Z)))) :=
  if buffers_size buffers =? 0 then mret (Some (Ok (mem, st, (error_code_new, 0)))) else
  if bss_size st =? bss_capacity st then
    r ← bw_flush mem st;
    mret ((fun o : outcome _ => '(st, flushed, ec) ← o;
      if flushed =? 0 then Ok (mem, st, (ec, 0))
      else '(mem, st, n) ← bw_copy mem st buffers; Ok (mem, st, (ec, n))) <$> r)
  else mret (Some ('(mem, st, n) ← bw_copy mem st buffers; Ok (mem, st, (error_code_new, n)))).

Definition bw_async_flush (mem : memory) (st : buffered_stream_storage)
    : io K (option (outcome (buffered_stream_storage * (error_code * Z)))) :=
  r ← async_write fuel (next_layer mem) (bss_pending st) transfer_all;
  mret ((fun '(ec, bytes_written) => buffered_flush_handler st ec bytes_written) <$> r).

Definition bw_async_write_some (mem : memory) (st : buffered_stream_storage) (buffers : list buffer)
    : io K (option (outcome (memory * buffered_stream_storage * (error_code * Z)))) :=
  if (buffers_size buffers =? 0) || (bss_size st <? bss_capacity st) then
    r ← next_layer mem [Buffer 0 0];
    mret ((fun '(_, ec) => buffered_write_some_handler mem st buffers ec) <$> r)
  else
    r ← bw_async_flush mem st;
    mret ((fun o : outcome _ => '(st, (ec, _)) ← o; buffered_write_some_handler mem st buffers ec) <$> r).

(** [write_some] that throws *)
Definition bw_write_some_throws (mem : memory) (st : buffered_stream_storage) (buffers : list buffer)
    : io K (option (memory * buffered_stream_storage * outcome Z)) :=
  let copy (st : buffered_stream_storage) :=
    match bw_copy mem st buffers with
    | Ok (mem', st', n) => (mem', st', Ok n)
    | Throws e => (mem, st, Throws e)
    | Crash f => (mem, st, Crash f)
    end in
  if buffers_size buffers =? 0 then mret (Some (mem, st, Ok 0)) else
  if bss_size st =? bss_capacity st then
    r ← bw_flush_throws mem st;
    mret ((fun '(st, o) => match o with Ok _ => copy st | Throws e => (mem, st, Throws e) | Crash f => (mem, st, Crash f) end) <$> r)
  else mret (Some (copy st)).
End WriteStream.

(** ** buffered_read_stream *)
(** What a read of the next layer has put into memory *)
Definition store_bytes (mem : memory) (a : Z) (data : list byte) : memory := fun x =>
  if a <=? x then default (mem x) (data !! Z.to_nat (x - a)) else mem x.

Definition br_peek_copy (mem : memory) (st : buffered_stream_storage) (buffers : list buffer) : memory * Z :=
  buffer_scatter_max mem buffers (bss_data st) (bss_size st).
Definition br_copy (mem : memory) (st : buffered_stream_storage) (buffers : list buffer)
    : outcome (memory * buffered_stream_storage * Z) :=
  let '(mem, bytes_copied) := br_peek_copy mem st buffers in
  st ← bss_consume bytes_copied st;
  Ok (mem, st, bytes_copied).
Definition br_in_avail (st : buffered_stream_storage) : Z := bss_size st.

Definition buffered_fill_handler (mem : memory) (st : buffered_stream_storage) (previous_size : Z)
    (ec : error_code) (bytes_transferred : Z) : outcome (memory * buffered_stream_storage * (error_code * Z)) :=
  '(mem, st) ← bss_resize (u64 (previous_size + bytes_transferred)) mem st;
  Ok (mem, st, (ec, bytes_transferred)).

Definition buffered_read_some_handler (mem : memory) (st : buffered_stream_storage) (buffers : list buffer)
    (ec : error_code) : outcome (memory * buffered_stream_storage * (error_code * Z)) :=
  if ec_bool ec || bss_empty st then Ok (mem, st, (ec, 0))
  else '(mem, st, bytes_copied) ← br_copy mem st buffers; Ok (mem, st, (ec, bytes_copied)).

Section ReadStream.
Context {K : Type} (next_layer : read_stream (K := K)).

(** Goes on with the result of an operation of the storage *)
Definition with_outcome {A B} (o : outcome A) (f : A -> io K (option (outcome B))) : io K (option (outcome B)) :=
  match o with
  | Ok a => f a
  | Throws e => mret (Some (Throws e))
  | Crash x => mret (Some (Crash x))
  end.

(** The storage at its full size, and the part of it behind what is pending *)
Definition free_space (st : buffered_stream_storage) (previous_size : Z) : buffer :=
  buffer_max (buffer_add (bss_data st) previous_size) (u64 (bss_size st - previous_size)).

Definition br_fill (mem : memory) (st : buffered_stream_storage)
    : io K (option (outcome (memory * buffered_stream_storage * (error_code * Z)))) :=
  let previous_size := bss_size st in
  with_outcome (bss_resize (bss_capacity st) mem st) (fun '(mem, st) =>
    r ← next_layer [free_space st previous_size];
    mret ((fun '(n, data, ec) =>
      let mem := store_bytes mem (buffer_cast (free_space st previous_size)) data in
      '(mem, st) ← bss_resize (u64 (previous_size + n)) mem st;
      Ok (mem, st, (ec, u64 (bss_size st - previous_size)))) <$> r)).

(** The overload that throws: when it does, the guard restores the size. *)
Definition br_fill_throws (mem : memory) (st : buffered_stream_storage)
    : io K (option (outcome (memory * buffered_stream_storage * outcome Z))) :=
  let previous_size := bss_size st in
  with_outcome (bss_resize (bss_capacity st) mem st) (fun '(mem, st) =>
    r ← next_layer [free_space st previous_size];
    mret ((fun '(n, data, ec) =>
      let mem := store_bytes mem (buffer_cast (free_space st previous_size)) data in
      if ec_bool ec then
        '(mem, st) ← bss_resize previous_size mem st; Ok (mem, st, Throws (SystemError (value ec)))
      else
        '(mem, st) ← bss_resize (u64 (previous_size + n)) mem st;
        Ok (mem, st, Ok (u64 (bss_size st - previous_size)))) <$> r)).

Definition br_read_some (mem : memory) (st : buffered_stream_storage) (buffers : list buffer)
    : io K (option (outcome (memory * buffered_stream_storage * (error_code * Z)))) :=
  if buffers_size buffers =? 0 then mret (Some (Ok (mem, st, (error_code_new, 0)))) else
  if bss_empty st then
    r ← br_fill mem st;
    mret ((fun o : outcome _ => '(mem, st, (ec, filled)) ← o;
      if filled =? 0 then Ok (mem, st, (ec, 0))
      else '(mem, st, n) ← br_copy mem st buffers; Ok (mem, st, (ec, n))) <$> r)
  else mret (Some ('(mem, st, n) ← br_copy mem st buffers; Ok (mem, st, (error_code_new, n)))).

Definition br_peek (mem : memory) (st : buffered_stream_storage) (buffers : list buffer)
    : io K (option (outcome (memory * buffered_stream_storage * (error_code * Z)))) :=
  if bss_empty st then
    r ← br_fill mem st;
    mret ((fun o : outcome _ => '(mem, st, (ec, filled)) ← o;
      if filled =? 0 then Ok (mem, st, (ec, 0))
      else let '(mem, n) := br_peek_copy mem st buffers in Ok (mem, st, (ec, n))) <$> r)
  else let '(mem, n) := br_peek_copy mem st buffers in mret (Some (Ok (mem, st, (error_code_new, n)))).

Definition br_async_fill (mem : memory) (st : buffered_stream_storage)
    : io K (option (outcome (memory * buffered_stream_storage * (error_code * Z)))) :=
  let previous_size := bss_size st in
  with_outcome (bss_resize (bss_capacity st) mem st) (fun '(mem, st) =>
    r ← next_layer [free_space st previous_size];
    mret ((fun '(n, data, ec) =>
      buffered_fill_handler (store_bytes mem (buffer_cast (free_space st previous_size)) data) st
        previous_size ec n) <$> r)).

Definition br_async_read_some (mem : memory) (st : buffered_stream_storage) (buffers : list buffer)
    : io K (option (outcome (memory * buffered_stream_storage * (error_code * Z)))) :=
  if (buffers_size buffers =? 0) || negb (bss_empty st) then
    r ← next_layer [Buffer 0 0];
    mret ((fun '(_, _, ec) => buffered_read_some_handler mem st buffers ec) <$> r)
  else
    r ← br_async_fill mem st;
    mret ((fun o : outcome _ => '(mem, st, (ec, _)) ← o; buffered_read_some_handler mem st buffers ec) <$> r).

(** [read_some] and [peek] that throw *)
Definition br_filled_throws (mem : memory) (st : buffered_stream_storage)
    (copy : memory -> buffered_stream_storage -> outcome (memory * buffered_stream_storage * Z))
    : io K (option (outcome (memory * buffered_stream_storage * outcome Z))) :=
  let copy mem st := '(mem, st, n) ← copy mem st; Ok (mem, st, Ok n) in
  if bss_empty st then
    r ← br_fill_throws mem st;
    mret ((fun o : outcome _ => '(mem, st, o) ← o;
      match o with Ok _ => copy mem st | Throws e => Ok (mem, st, Throws e) | Crash f => Crash f end) <$> r)
  else mret (Some (copy mem st)).
Definition br_read_some_throws (mem : memory) (st : buffered_stream_storage) (buffers : list buffer)
    : io K (option (outcome (memory * buffered_stream_storage * outcome Z))) :=
  if buffers_size buffers =? 0 then mret (Some (Ok (mem, st, Ok 0)))
  else br_filled_throws mem st (fun mem st => br_copy mem st buffers).
Definition br_peek_throws (mem : memory) (st : buffered_stream_storage) (buffers : list buffer)
    : io K (option (outcome (memory * buffered_stream_storage * outcome Z))) :=
  br_filled_throws mem st (fun mem st => let '(mem, n) := br_peek_copy mem st buffers in Ok (mem, st, n)).
End ReadStream.

(** ** Lemmas: copying *)
Lemma copied_nil_l mem mem' S S' : copied mem mem' [] S -> copied mem mem' [] S'.
Proof. intros [_ Hr]. split; [cbn; by rewrite drop_nil|done]. Qed.
Lemma copied_nil_r mem mem' T T' : copied mem mem' T [] -> copied mem mem' T' [].
Proof.
  intros [Ht Hr]. cbn in Ht. rewrite take_nil in Ht. assert (forall a, mem' a = mem a) as He.
  { intros a. destruct (decide (a ∈ T)) as [Ha|Ha]; [|by apply Hr].
    apply list_elem_of_lookup in Ha as [i Hi]. assert ((mem' <$> T) !! i = (mem <$> T) !! i) as E by by rewrite Ht.
    rewrite !list_lookup_fmap, Hi in E. by injection E. }
  split; [|done]. cbn. rewrite take_nil, drop_0. cbn. apply fmap_same. intros a _. apply He.
Qed.

Lemma seqZ_split a n m : 0 <= n -> 0 <= m -> seqZ a (n + m) = seqZ a n ++ seqZ (a + n) m.
Proof. intros Hn Hm. by apply seqZ_app. Qed.

Lemma elem_seqZ_disjoint a n b m : a + n <= b \/ b + m <= a -> forall x, x ∈ seqZ a n -> x ∉ seqZ b m.
Proof. intros Hab x. rewrite !elem_of_seqZ. lia. Qed.

(** The first step of either loop, [n] bytes between the fronts *)
Lemma copied_step mem mem' t s n Tn Sm T S :
  0 <= n -> 0 <= Tn -> 0 <= Sm -> n = Z.min (n + Tn) (n + Sm) ->
  NoDup (seqZ t (n + Tn) ++ T) -> (forall a, a ∈ seqZ t (n + Tn) ++ T -> a ∉ seqZ s (n + Sm) ++ S) ->
  copied (memcpy mem t s n) mem' (seqZ (t + n) Tn ++ T) (seqZ (s + n) Sm ++ S) ->
  copied mem mem' (seqZ t (n + Tn) ++ T) (seqZ s (n + Sm) ++ S).
Proof.
  intros Hn HT HS _ Hnd Hdis Hc. rewrite !seqZ_split, <- !app_assoc in * by done. by apply copied_app.
Qed.

Lemma buffer_copy_eq mem t s :
  buffer_copy mem t s = (memcpy mem (data_ t) (data_ s) (Z.min (size_ t) (size_ s)), Z.min (size_ t) (size_ s)).
Proof.
  unfold buffer_copy, buffer_size, buffer_cast. destruct (Z.ltb_spec (size_ t) (size_ s));
    [by rewrite Z.min_l by lia|by rewrite Z.min_r by lia].
Qed.

Lemma gather_loop_spec mem t S total :
  in_u64 (size_ t) -> Forall (fun b => in_u64 (size_ b)) S ->
  (forall a, a ∈ seqZ (data_ t) (size_ t) -> a ∉ addrs S) -> 0 <= total -> total + size_ t < 2 ^ 64 ->
  let '(mem', n) := gather_loop mem t S total in
  n = total + Z.min (size_ t) (Z.of_nat (length (addrs S))) /\ copied mem mem' (seqZ (data_ t) (size_ t)) (addrs S).
Proof.
  revert mem t total. induction S as [|s S IH]; intros mem t total Ht HS Hdis Hto Htot.
  { cbn. split; [ulia|]. apply copied_nil. by right. }
  apply Forall_cons in HS as [Hs HS]. cbn [gather_loop]. unfold buffer_size at 1.
  destruct (Z.eqb_spec (size_ t) 0) as [E|E]; cbn [negb].
  { rewrite E. split; [lia|]. apply copied_nil. by left. }
  unfold in_u64 in Ht, Hs. rewrite buffer_copy_eq, addrs_cons in *. set (n := Z.min (size_ t) (size_ s)).
  rewrite buffer_add_in, u64_id by ulia. rewrite length_app, length_seqZ.
  pose proof (IH (memcpy mem (data_ t) (data_ s) n) (Buffer (data_ t + n) (size_ t - n)) (total + n)) as IH'.
  cbn [data_ size_] in IH'. destruct (gather_loop _ _ _ _) as [mem' m]. destruct IH' as [-> Hc]; [ulia|done| |ulia|ulia|].
  { intros a Ha Hin. apply (Hdis a); [rewrite elem_of_seqZ in *; lia|rewrite elem_of_app; auto]. }
  split; [lia|]. rewrite <- (app_nil_r (seqZ (data_ t) (size_ t))) in Hdis |- *.
  replace (size_ t) with (n + (size_ t - n)) in Hdis |- * by lia.
  replace (size_ s) with (n + (size_ s - n)) in Hdis |- * by lia.
  apply copied_step; try done; try ulia; [rewrite app_nil_r; apply NoDup_seqZ|]. rewrite app_nil_r.
  destruct (Z.le_gt_cases (size_ s) (size_ t)).
  - by replace (size_ s - n) with 0 by lia.
  - replace (size_ t - n) with 0 in * by lia. cbn [seqZ] in *. by eapply copied_nil_l.
Qed.

Lemma scatter_loop_spec mem T s total :
  in_u64 (size_ s) -> Forall (fun b => in_u64 (size_ b)) T -> NoDup (addrs T) ->
  (forall a, a ∈ addrs T -> a ∉ seqZ (data_ s) (size_ s)) -> 0 <= total -> total + size_ s < 2 ^ 64 ->
  let '(mem', n) := scatter_loop mem T s total in
  n = total + Z.min (size_ s) (Z.of_nat (length (addrs T))) /\ copied mem mem' (addrs T) (seqZ (data_ s) (size_ s)).
Proof.
  revert mem s total. induction T as [|t T IH]; intros mem s total Hs HT Hnd Hdis Hto Htot.
  { cbn. split; [ulia|]. apply copied_nil. by left. }
  apply Forall_cons in HT as [Ht HT]. cbn [scatter_loop]. unfold buffer_size at 1.
  destruct (Z.eqb_spec (size_ s) 0) as [E|E]; cbn [negb].
  { rewrite E. split; [lia|]. apply copied_nil. by right. }
  unfold in_u64 in Ht, Hs. rewrite buffer_copy_eq, addrs_cons in *. set (n := Z.min (size_ t) (size_ s)).
  rewrite buffer_add_in, u64_id by ulia. rewrite length_app, length_seqZ.
  pose proof Hnd as (_ & _ & Hnd2)%NoDup_app.
  pose proof (IH (memcpy mem (data_ t) (data_ s) n) (Buffer (data_ s + n) (size_ s - n)) (total + n)) as IH'.
  cbn [data_ size_] in IH'. destruct (scatter_loop _ _ _ _) as [mem' m].
  destruct IH' as [-> Hc]; [ulia|done|done| |ulia|ulia|].
  { intros a Ha Hin. apply (Hdis a); [rewrite elem_of_app; auto|rewrite elem_of_seqZ in *; lia]. }
  split; [lia|]. rewrite <- (app_nil_r (seqZ (data_ s) (size_ s))) in Hdis |- *.
  replace (size_ t) with (n + (size_ t - n)) in Hdis, Hnd |- * by lia.
  replace (size_ s) with (n + (size_ s - n)) in Hdis |- * by lia.
  apply copied_step; try done; try ulia. rewrite app_nil_r.
  destruct (Z.le_gt_cases (size_ t) (size_ s)).
  - by replace (size_ t - n) with 0 by lia.
  - replace (size_ s - n) with 0 in * by lia. cbn [seqZ] in *. by eapply copied_nil_r.
Qed.

Lemma store_bytes_out mem a data x : x ∉ seqZ a (vlen data) -> store_bytes mem a data x = mem x.
Proof.
  intros Hx. unfold store_bytes. destruct (Z.leb_spec a x); [|done]. rewrite lookup_ge_None_2; [done|].
  rewrite elem_of_seqZ in Hx. unfold vlen in Hx. lia.
Qed.

(** ** Lemmas: the storage as a queue of bytes *)
Definition region (st : buffered_stream_storage) : list Z := seqZ (data_ (buffer_ st)) (size_ (buffer_ st)).
Definition bss_bytes (mem : memory) (st : buffered_stream_storage) : list byte :=
  mem <$> seqZ (data_ (buffer_ st) + begin_offset_ st) (end_offset_ st - begin_offset_ st).
Record bss_ok (st : buffered_stream_storage) : Prop := {
  ok_offsets : 0 <= begin_offset_ st <= end_offset_ st;
  ok_end : end_offset_ st <= size_ (buffer_ st);
  ok_capacity : 0 < size_ (buffer_ st) < 2 ^ 63
}.

Lemma vlen_bss_bytes mem st : bss_ok st -> vlen (bss_bytes mem st) = end_offset_ st - begin_offset_ st.
Proof. intros [? ? ?]. unfold vlen, bss_bytes. rewrite length_fmap, length_seqZ. lia. Qed.
Lemma bss_size_eq mem st : bss_ok st -> bss_size st = vlen (bss_bytes mem st).
Proof. intros Hok. rewrite vlen_bss_bytes by done. destruct Hok as [? ? ?]. unfold bss_size. by rewrite u64_id by ulia. Qed.
Lemma bss_empty_eq mem st : bss_ok st -> bss_empty st = bool_decide (bss_bytes mem st = []).
Proof.
  intros Hok. pose proof (vlen_bss_bytes mem st Hok) as Hv. unfold bss_empty. apply eq_true_iff_eq.
  rewrite Z.eqb_eq, bool_decide_eq_true. split; [intros E; apply vlen_zero; lia|]. intros E. rewrite E in Hv.
  change (vlen (@nil byte)) with 0 in Hv. lia.
Qed.
Lemma contents_le mem st : bss_ok st -> 0 <= vlen (bss_bytes mem st) <= bss_capacity st.
Proof. intros Hok. rewrite vlen_bss_bytes by done. destruct Hok. unfold bss_capacity, buffer_size. lia. Qed.
Lemma bss_data_eq st : bss_ok st ->
  bss_data st = Buffer (data_ (buffer_ st) + begin_offset_ st) (size_ (buffer_ st) - begin_offset_ st).
Proof. intros [? ? ?]. unfold bss_data. by rewrite buffer_add_in by ulia. Qed.

Lemma contents_region st a : bss_ok st -> a ∈ seqZ (data_ (buffer_ st) + begin_offset_ st)
  (end_offset_ st - begin_offset_ st) -> a ∈ region st.
Proof. intros [? ? ?]. unfold region. rewrite !elem_of_seqZ. lia. Qed.
Lemma contents_same mem mem' st : bss_ok st -> (forall a, a ∈ region st -> mem' a = mem a) ->
  bss_bytes mem' st = bss_bytes mem st.
Proof. intros Hok Hm. apply fmap_same. intros a Ha. by apply Hm, contents_region. Qed.

Lemma bss_pending_bytes mem st : bss_ok st ->
  seq_bytes mem (bss_pending st) = bss_bytes mem st /\ sizes_ok (bss_pending st).
Proof.
  intros Hok. pose proof (bss_size_eq mem st Hok) as Es. rewrite vlen_bss_bytes in Es by done. unfold bss_pending.
  rewrite bss_data_eq, Es by done. destruct Hok as [? ? ?]. unfold buffer_max, buffer_size, buffer_cast. cbn [data_ size_].
  destruct (Z.ltb_spec (size_ (buffer_ st) - begin_offset_ st) (end_offset_ st - begin_offset_ st)); [lia|].
  split; [|constructor; [cbn; lia|done]]. rewrite seq_bytes_addrs, addrs_cons. cbn [data_ size_]. cbn. by rewrite app_nil_r.
Qed.

Lemma bss_consume_spec n st : bss_ok st -> 0 <= n <= end_offset_ st - begin_offset_ st ->
  exists st', bss_consume n st = Ok st' /\ bss_ok st' /\ buffer_ st' = buffer_ st /\
    forall mem, bss_bytes mem st' = drop (Z.to_nat n) (bss_bytes mem st).
Proof.
  intros [? ? ?] Hn. unfold bss_consume. rewrite u64_id by ulia. rewrite (proj2 (Z.leb_le _ _)) by lia. run.
  unfold bss_empty, bss_bytes. cbn [begin_offset_ end_offset_ buffer_]. eexists. split; [done|].
  destruct (Z.eqb_spec (begin_offset_ st + n) (end_offset_ st)) as [E|E]; cbn [bss_clear begin_offset_ end_offset_ buffer_].
  - split; [split; cbn; lia|]. split; [done|]. intros mem. cbn. rewrite drop_ge; [done|].
    rewrite length_fmap, length_seqZ. lia.
  - split; [split; cbn; lia|]. split; [done|]. intros mem. rewrite <- fmap_drop. f_equal.
    replace (end_offset_ st - begin_offset_ st) with (n + (end_offset_ st - (begin_offset_ st + n))) by lia.
    rewrite seqZ_split, drop_app_length' by (rewrite ?length_seqZ; lia). f_equal. lia.
Qed.

Lemma bss_resize_spec len mem st : bss_ok st -> 0 <= len <= size_ (buffer_ st) ->
  let keep := Z.to_nat (Z.min len (end_offset_ st - begin_offset_ st)) in
  exists mem' st', bss_resize len mem st = Ok (mem', st') /\ bss_ok st' /\ buffer_ st' = buffer_ st /\
    end_offset_ st' - begin_offset_ st' = len /\
    take keep (bss_bytes mem' st') = take keep (bss_bytes mem st) /\
    (forall a, a ∉ region st -> mem' a = mem a) /\
    (begin_offset_ st = 0 \/ len <= end_offset_ st - begin_offset_ st -> mem' = mem /\ begin_offset_ st' = begin_offset_ st).
Proof.
  intros Hok Hlen keep. pose proof (bss_size_eq mem st Hok) as Es. rewrite vlen_bss_bytes in Es by done.
  pose proof Hok as [? ? ?]. unfold bss_resize. unfold bss_capacity, buffer_size.
  rewrite (proj2 (Z.leb_le len _)) by lia. run.
  rewrite u64_id, Es by ulia. destruct (Z.leb_spec (begin_offset_ st + len) (size_ (buffer_ st))) as [Hle|Hgt].
  - do 2 eexists. split; [done|]. split; [split; cbn; lia|]. cbn. split; [done|]. split; [lia|]. split; [|done].
    unfold bss_bytes, keep. cbn [begin_offset_ end_offset_ buffer_]. rewrite <- !fmap_take. f_equal.
    set (k := Z.min _ _). replace (begin_offset_ st + len - begin_offset_ st) with (k + (len - k)) by lia.
    replace (end_offset_ st - begin_offset_ st) with (k + (end_offset_ st - begin_offset_ st - k)) by lia.
    rewrite !seqZ_split by lia. rewrite !take_app_length' by (rewrite length_seqZ; lia). done.
  - do 2 eexists. split; [done|]. split; [split; cbn; lia|]. cbn. split; [done|]. split; [lia|]. split; [|split].
    + unfold bss_bytes, keep, buffer_cast. cbn [begin_offset_ end_offset_ buffer_].
      set (size := end_offset_ st - begin_offset_ st). rewrite Z.min_r by lia. replace (len - 0) with (size + (len - size)) by lia.
      rewrite seqZ_split, fmap_app, Z.add_0_r, memcpy_in by lia.
      rewrite take_app_length' by (rewrite length_fmap, length_seqZ; lia).
      by rewrite take_ge by (rewrite length_fmap, length_seqZ; lia).
    + intros a Ha. apply memcpy_out. intros Hin. apply Ha. unfold region, buffer_cast in *. rewrite !elem_of_seqZ in *. lia.
    + lia.
Qed.

Lemma fold_buffers_size mem l n : Forall (fun b => in_u64 (size_ b)) l -> 0 <= n -> n + vlen (seq_bytes mem l) < 2 ^ 64 ->
  fold_left (fun n b => u64 (n + buffer_size b)) l n = n + vlen (seq_bytes mem l).
Proof.
  revert n. induction l as [|b l IH]; intros n Hl Hn Ht; [unfold vlen; cbn; lia|]. apply Forall_cons in Hl as [Hb Hl].
  cbn [fold_left]. unfold in_u64 in Hb. rewrite vlen_seq_bytes_cons in * by lia. unfold buffer_size at 2.
  pose proof (vlen_nonneg (seq_bytes mem l)). rewrite u64_id, IH; (done || ulia).
Qed.
Lemma buffers_size_spec mem l : Forall (fun b => in_u64 (size_ b)) l -> vlen (seq_bytes mem l) < 2 ^ 64 ->
  buffers_size l = vlen (seq_bytes mem l).
Proof. intros Hl Ht. unfold buffers_size. by rewrite (fold_buffers_size mem) by (done || lia). Qed.

(** Buffers a caller may use with a storage: apart from it, of one memory *)
Record caller_ok (st : buffered_stream_storage) (l : list buffer) : Prop := {
  co_sizes : Forall (fun b => in_u64 (size_ b)) l;
  co_apart a : a ∈ addrs l -> a ∉ region st;
  co_total : Z.of_nat (length (addrs l)) < 2 ^ 64
}.
Lemma caller_same mem mem' st l : caller_ok st l -> (forall a, a ∉ region st -> mem' a = mem a) ->
  seq_bytes mem' l = seq_bytes mem l.
Proof. intros Hc Hm. rewrite !seq_bytes_addrs. apply fmap_same. intros a Ha. by apply Hm, (co_apart _ _ Hc). Qed.
Lemma caller_buffer_eq st st' l : buffer_ st' = buffer_ st -> caller_ok st l -> caller_ok st' l.
Proof. intros E [? ? ?]. split; [done| |done]. unfold region. by rewrite E. Qed.

Lemma bw_copy_spec mem st l : bss_ok st -> caller_ok st l ->
  let data := seq_bytes mem l in
  let n := Z.min (vlen data) (bss_capacity st - vlen (bss_bytes mem st)) in
  exists mem' st', bw_copy mem st l = Ok (mem', st', n) /\ bss_ok st' /\ buffer_ st' = buffer_ st /\
    bss_bytes mem' st' = bss_bytes mem st ++ take (Z.to_nat n) data /\ (forall a, a ∉ region st -> mem' a = mem a).
Proof.
  intros Hok Hc data n. pose proof (contents_le mem st Hok) as Hle. pose proof (vlen_nonneg data) as Hd.
  pose proof Hok as [_ _ Hcap]. pose proof (co_total _ _ Hc) as Ht. rewrite <- (vlen_addrs mem) in Ht. fold data in Ht.
  unfold bw_copy. rewrite (buffers_size_spec mem), (bss_size_eq mem st) by (done || apply Hc). fold data.
  unfold bss_capacity, buffer_size in *. rewrite (u64_id (_ - _)) by ulia.
  set (size := vlen (bss_bytes mem st)) in *.
  replace (if vlen data <? _ then _ else _) with n by (unfold n; destruct (Z.ltb_spec (vlen data) (size_ (buffer_ st) - size)); lia).
  rewrite u64_id by ulia. pose proof (vlen_bss_bytes mem st Hok) as Hsz. fold size in Hsz.
  destruct (bss_resize_spec (size + n) mem st Hok ltac:(lia)) as (mem1 & st1 & -> & Hok1 & Eb & El & Ek & Ho & _). run.
  rewrite bss_data_eq, buffer_add_in, Eb by first [done | cbn [size_]; destruct Hok1; rewrite Eb in *; ulia].
  cbn [data_ size_]. unfold buffer_gather_max, buffer_gather, buffer_max, buffer_size, buffer_cast. cbn [data_ size_].
  replace (if _ <? n then _ else n) with n
    by (destruct (Z.ltb_spec (size_ (buffer_ st) - begin_offset_ st1 - size) n); [destruct Hok1; rewrite Eb in *; lia|done]).
  set (t := Buffer _ n).
  assert (forall a, a ∈ seqZ (data_ t) (size_ t) -> a ∈ region st) as Htr.
  { intros a. unfold region, t. destruct Hok1; rewrite Eb in *. rewrite !elem_of_seqZ. cbn [data_ size_]. lia. }
  pose proof (gather_loop_spec mem1 t l 0) as Hg. destruct (gather_loop _ _ _ _) as [mem2 m].
  destruct Hg as [-> [Hct Hcr]]; [cbn; ulia|apply Hc| |lia|cbn; lia|].
  { intros a Ha Hin. by apply (co_apart _ _ Hc a Hin), Htr. }
  rewrite <- (vlen_addrs mem). fold data. cbn [size_] in *.
  replace (0 + Z.min (size_ t) (vlen data)) with n by (unfold t; cbn [size_]; lia). do 2 eexists. split; [done|]. split; [done|]. split; [done|].
  assert (forall a, a ∉ region st -> mem2 a = mem a) as Ho2.
  { intros a Ha. rewrite Hcr, Ho; [done|done|]. intros Hin. by apply Ha, Htr. }
  split; [|done]. unfold bss_bytes at 1. rewrite El, Eb, seqZ_split, fmap_app by lia. f_equal.
  - transitivity (take (Z.to_nat size) (bss_bytes mem1 st1)).
    + unfold bss_bytes. rewrite El, Eb, seqZ_split, fmap_app, take_app_length' by (rewrite ?length_fmap, ?length_seqZ; lia).
      apply fmap_same. intros a Ha. apply Hcr. unfold t. cbn [data_]. rewrite !elem_of_seqZ in *. lia.
    + rewrite Hsz, Z.min_r in Ek by lia. rewrite <- Hsz in Ek. rewrite Ek. apply take_ge. unfold size, vlen. lia.
  - unfold t in Hct. cbn [data_ size_] in Hct. rewrite Hct, length_seqZ, <- seq_bytes_addrs.
    rewrite (caller_same mem mem1 st) by done. rewrite drop_ge, app_nil_r; [done|].
    rewrite length_fmap, length_seqZ. unfold n, data, vlen. rewrite seq_bytes_addrs, length_fmap. lia.
Qed.

(** ** The specification of a buffered write stream: a queue of at most [cap] bytes *)
Inductive bw_call :=
  | CallWrite (data : list byte) | CallFlush | CallAsyncWrite (data : list byte) | CallAsyncFlush.

(** [bw_spec cap c (ec, n) p p' u]: the call [c] finds [p] pending, gives [ec] and
    [n], leaves [p'] and has passed [u] on. *)
Inductive bw_spec (cap : Z) : bw_call -> error_code * Z -> list byte -> list byte -> list byte -> Prop :=
  | SpecCopy c data p n ec :
      c = CallWrite data \/ c = CallAsyncWrite data -> data = [] \/ vlen p < cap ->
      n = Z.min (vlen data) (cap - vlen p) -> ec_bool ec = false ->
      bw_spec cap c (ec, n) p (p ++ take (Z.to_nat n) data) []
  | SpecFull data p k n ec :
      vlen p = cap -> data <> [] -> 0 < k <= cap -> n = Z.min (vlen data) k -> ec_bool ec = (k <? cap) ->
      bw_spec cap (CallWrite data) (ec, n) p
        (drop (Z.to_nat k) p ++ take (Z.to_nat n) data) (take (Z.to_nat k) p)
  | SpecFail data p ec :
      vlen p = cap -> data <> [] -> ec_bool ec = true -> bw_spec cap (CallWrite data) (ec, 0) p p []
  | SpecFullAsync data p n ec :
      vlen p = cap -> data <> [] -> n = Z.min (vlen data) cap -> ec_bool ec = false ->
      bw_spec cap (CallAsyncWrite data) (ec, n) p (take (Z.to_nat n) data) p
  | SpecFailAsync data p k ec :
      vlen p = cap -> data <> [] -> 0 <= k < cap -> ec_bool ec = true ->
      bw_spec cap (CallAsyncWrite data) (ec, 0) p (drop (Z.to_nat k) p) (take (Z.to_nat k) p)
  | SpecFlush c p k ec :
      c = CallFlush \/ c = CallAsyncFlush -> 0 <= k <= vlen p -> ec_bool ec = (k <? vlen p) ->
      bw_spec cap c (ec, k) p (drop (Z.to_nat k) p) (take (Z.to_nat k) p).

Inductive bw_trace (cap : Z) : list (bw_call * (error_code * Z)) -> list byte -> list byte -> list byte -> Prop :=
  | TraceNil p : bw_trace cap [] p p []
  | TraceCons c r l p1 p2 p3 u v :
      bw_spec cap c r p1 p2 u -> bw_trace cap l p2 p3 v -> bw_trace cap ((c, r) :: l) p1 p3 (u ++ v).

(** The bytes a call took from its caller *)
Definition taken_bytes (x : bw_call * (error_code * Z)) : list byte :=
  match x.1 with
  | CallWrite data | CallAsyncWrite data => take (Z.to_nat x.2.2) data
  | CallFlush | CallAsyncFlush => []
  end.

Lemma bw_spec_conserves cap c r p p' u : bw_spec cap c r p p' u -> u ++ p' = p ++ taken_bytes (c, r).
Proof.
  destruct 1 as [c data p n ec [-> | ->]|data p k n ec|data p ec|data p n ec|data p k ec|c p k ec [-> | ->]];
    cbn [taken_bytes fst snd]; rewrite ?app_assoc, ?take_drop, ?take_0, ?app_nil_r; done.
Qed.
Lemma bw_trace_conserves cap l p p' u : bw_trace cap l p p' u -> u ++ p' = p ++ concat (taken_bytes <$> l).
Proof.
  induction 1 as [p|c r l p1 p2 p3 u v Hs _ IH]; [by rewrite app_nil_r|].
  rewrite <- app_assoc, IH, app_assoc, (bw_spec_conserves _ _ _ _ _ _ Hs), <- app_assoc. done.
Qed.

(** ** The operations of a program that writes: it may reuse its buffers between calls. *)
Inductive bw_op :=
  | BwWrite (buffers : list buffer) | BwFlush | BwAsyncWrite (buffers : list buffer) | BwAsyncFlush
  | BwStore (a : Z) (data : list byte).
Definition bw_op_ok (st : buffered_stream_storage) (o : bw_op) : Prop :=
  match o with
  | BwWrite l | BwAsyncWrite l => caller_ok st l
  | BwFlush | BwAsyncFlush => True
  | BwStore a data => forall x, x ∈ seqZ a (vlen data) -> x ∉ region st
  end.

Section WriteRun.
Context {K : Type} `{Kernel K} (next_layer : memory -> write_stream (K := K)) (fuel : nat).
Definition write_state : Type := memory * buffered_stream_storage.
Definition bw_step (o : bw_op) (s : write_state)
    : io K (option (outcome (write_state * list (bw_call * (error_code * Z))))) :=
  let '(mem, st) := s in
  match o with
  | BwWrite l =>
    r ← bw_write_some next_layer fuel mem st l;
    mret ((fmap (M := outcome) (fun '(s, r) => (s, [(CallWrite (seq_bytes mem l), r)]))) <$> r)
  | BwAsyncWrite l =>
    r ← bw_async_write_some next_layer fuel mem st l;
    mret ((fmap (M := outcome) (fun '(s, r) => (s, [(CallAsyncWrite (seq_bytes mem l), r)]))) <$> r)
  | BwFlush =>
    r ← bw_flush next_layer fuel mem st;
    mret ((fmap (M := outcome) (fun '(st, n, ec) => ((mem, st), [(CallFlush, (ec, n))]))) <$> r)
  | BwAsyncFlush =>
    r ← bw_async_flush next_layer fuel mem st;
    mret ((fmap (M := outcome) (fun '(st, r) => ((mem, st), [(CallAsyncFlush, r)]))) <$> r)
  | BwStore a data => mret (Some (Ok ((store_bytes mem a data, st), [])))
  end.

Fixpoint bw_run (ops : list bw_op) (s : write_state)
    : io K (option (outcome (write_state * list (bw_call * (error_code * Z))))) :=
  match ops with
  | [] => mret (Some (Ok (s, [])))
  | o :: ops' =>
    r ← bw_step o s;
    match r with
    | Some (Ok (s, l)) =>
      r ← bw_run ops' s;
      mret ((fmap (M := outcome) (fun '(s, l') => (s, l ++ l'))) <$> r)
    | r => mret r
    end
  end.
End WriteRun.

(** ** Lemmas: each operation is a call of the specification *)
Section WriteProofs.
Context {K : Type} `{Kernel K} (next_layer : memory -> write_stream (K := K)) (fuel : nat).
Context (inv : world K -> Prop) (moved : list byte -> relation (world K)).
Context (Hws : forall mem, write_stream_ok mem inv moved (next_layer mem)).
Implicit Types (mem : memory) (st : buffered_stream_storage) (w : world K).

(** What a write of the pending bytes has done when its count has been consumed *)
Record flushed mem st w st' (k : Z) (ec : error_code) w' : Prop := {
  fl_inv : inv w';
  fl_ok : bss_ok st';
  fl_buffer : buffer_ st' = buffer_ st;
  fl_range : 0 <= k <= vlen (bss_bytes mem st);
  fl_left mem' : bss_bytes mem' st' = drop (Z.to_nat k) (bss_bytes mem' st);
  fl_moved : moved (take (Z.to_nat k) (bss_bytes mem st)) w w';
  fl_error : ec_bool ec = (k <? vlen (bss_bytes mem st))
}.

Lemma write_pending g mem st w : bss_ok st -> inv w -> bss_capacity st + 1 < Z.of_nat g ->
  exists k ec w' st', write g (next_layer mem) (bss_pending st) transfer_all w = (Some (k, ec), w') /\
    bss_consume k st = Ok st' /\ flushed mem st w st' k ec w'.
Proof.
  intros Hok Hi Hf. destruct (bss_pending_bytes mem st Hok) as [Eb Es].
  pose proof (contents_le mem st Hok) as Hle. pose proof (ok_capacity _ Hok).
  unfold bss_capacity, buffer_size in *.
  destruct (write_spec mem _ _ _ (Hws mem) _ _ _ transfer_all_ok g (bss_pending st) w Es)
    as (r & w' & E & k & ec & -> & Hi' & Hk & Hm & _ & Hgood & Hbad); rewrite ?Eb in *; try done; [lia|lia|].
  rewrite Z.add_0_l in *.
  destruct (bss_consume_spec k st Hok) as (st' & Ec & Hok' & Eb' & Hc); [by rewrite <- (vlen_bss_bytes mem)|].
  exists k, ec, w', st'. split; [done|]. split; [done|]. split; try done. destruct (ec_bool ec) eqn:Ee.
  - symmetry. apply Z.ltb_lt. specialize (Hbad eq_refl). lia.
  - symmetry. apply Z.ltb_ge. specialize (Hgood eq_refl). lia.
Qed.

Lemma bw_flush_spec mem st w : bss_ok st -> inv w -> bss_capacity st + 1 < Z.of_nat fuel ->
  exists st' k ec w', bw_flush next_layer fuel mem st w = (Some (Ok (st', k, ec)), w') /\
    flushed mem st w st' k ec w'.
Proof.
  intros Hok Hi Hf. destruct (write_pending fuel mem st w Hok Hi Hf) as (k & ec & w' & st' & E & Ec & Hfl).
  exists st', k, ec, w'. unfold bw_flush. io_run. rewrite E. cbn [fmap option_fmap option_map]. rewrite Ec. by run.
Qed.

(** An asynchronous write of nothing is one call of the stream. *)
Lemma async_write_empty mem b w : size_ b = 0 -> inv w -> (0 < fuel)%nat ->
  exists ec w', async_write fuel (next_layer mem) [b] transfer_all w = (Some (ec, 0), w') /\ inv w' /\
    moved [] w w' /\ ec_bool ec = false.
Proof.
  intros Hb Hi Hf. assert (sizes_ok [b]) as Hs by (constructor; [lia|done]).
  assert (vlen (seq_bytes mem [b]) = 0) as Hv by (rewrite vlen_seq_bytes_cons, Hb by lia; done).
  destruct (consuming_buffers_new_spec mem [b] Hs) as [Hc Ev]; [lia|].
  destruct (prepare_spec mem (transfer_all error_code_new 0) _ Hc) as (Hc1 & Ev1 & _); [done|].
  unfold async_write, write_op_start. cbn [op_total op_buffers]. set (c := prepare _ _) in *.
  pose proof (elements_bytes mem c Hc1) as Ee. rewrite Ev1, Ev in Ee. rewrite (vlen_zero _ Hv), take_nil in Ee.
  destruct fuel as [|fuel']; [lia|]. cbn [write_op_run op_buffers].
  destruct (ws_returns mem _ _ _ (Hws mem) (cb_elements c) w (elements_ok mem c Hc1)) as
    (n & ec & w' & E & Hi' & Hn & Hm & _ & Her); [by rewrite Ee|done|].
  rewrite Ee in *. assert (n = 0) as -> by (change (vlen (@nil byte)) with 0 in Hn; lia).
  io_run. rewrite E. unfold write_op_step. cbn [op_total op_buffers].
  assert (ec_bool ec = false) as Ef by (destruct (ec_bool ec); [by destruct (Her eq_refl)|done]).
  replace (ec_not ec) with true by (unfold ec_not, ec_bool in *; by destruct (value ec =? 0)).
  cbn [andb orb Z.eqb]. exists ec, w'. split; [done|]. by rewrite take_nil in Hm.
Qed.

Lemma async_write_pending mem st w : bss_ok st -> inv w -> bss_capacity st + 1 < Z.of_nat fuel ->
  exists k ec w' st', async_write fuel (next_layer mem) (bss_pending st) transfer_all w = (Some (ec, k), w') /\
    bss_consume k st = Ok st' /\ flushed mem st w st' k ec w'.
Proof.
  intros Hok Hi Hf. destruct (bss_pending_bytes mem st Hok) as [Eb Es].
  pose proof (contents_le mem st Hok) as Hle. pose proof (ok_capacity _ Hok) as Hcap.
  unfold bss_capacity, buffer_size in *. unfold bss_pending in *.
  set (b := buffer_max _ _) in *. pose proof Es as [Hb _]%Forall_cons.
  pose proof (vlen_seq_bytes_cons mem b [] Hb) as Hv. rewrite Eb in Hv.
  change (vlen (seq_bytes mem [])) with 0 in Hv. rewrite Z.add_0_r in Hv.
  destruct (Z.eq_dec (size_ b) 0) as [Ez|Hnz].
  - destruct (async_write_empty mem b w Ez Hi) as (ec & w' & E & Hi' & Hm & He); [lia|].
    destruct (bss_consume_spec 0 st Hok) as (st' & Ec & Hok' & Eb' & Hd); [pose proof (vlen_bss_bytes mem st Hok); lia|].
    exists 0, ec, w', st'. split; [done|]. split; [done|]. split; try done; [lia|].
    rewrite He. symmetry. apply Z.ltb_ge. lia.
  - rewrite (async_write_spec mem _ _ _ (Hws mem) _ _ _ transfer_all_ok); rewrite ?Eb; try done; try lia; [|constructor].
    destruct (write_pending (S fuel) mem st w Hok Hi) as (k & ec & w' & st' & E & Ec & Hfl);
      [unfold bss_capacity, buffer_size; lia|].
    unfold bss_pending in E. fold b in E. rewrite E. by exists k, ec, w', st'.
Qed.

(** The state after a call, and what has been passed on meanwhile *)
Definition did (c : bw_call) mem st w (r : error_code * Z) (s : write_state) w' : Prop :=
  inv w' /\ bss_ok s.2 /\ buffer_ s.2 = buffer_ st /\
  exists u, bw_spec (bss_capacity st) c r (bss_bytes mem st) (bss_bytes s.1 s.2) u /\ moved u w w'.

Lemma moved_none w : moved [] w w.
Proof. apply (moved_nil (fun _ => Byte.x00) _ _ _ (Hws _)). Qed.
Lemma full_capacity st st' : buffer_ st' = buffer_ st -> bss_capacity st' = bss_capacity st.
Proof. intros E. unfold bss_capacity. by rewrite E. Qed.

Lemma nil_size (l : list byte) : (vlen l =? 0) = bool_decide (l = []).
Proof.
  apply eq_true_iff_eq. rewrite Z.eqb_eq, bool_decide_eq_true. split; [apply vlen_zero|by intros ->].
Qed.

Lemma spec_nothing cap c p ec : c = CallWrite [] \/ c = CallAsyncWrite [] -> vlen p <= cap ->
  ec_bool ec = false -> bw_spec cap c (ec, 0) p p [].
Proof.
  intros Hc Hp He. rewrite <- (app_nil_r p) at 2. eapply (SpecCopy cap c [] p 0); [done|by left| |done].
  change (vlen (@nil byte)) with 0. lia.
Qed.

(** Copying into a storage that has room *)
Lemma did_copy mem st l w c ec : bss_ok st -> inv w -> caller_ok st l -> ec_bool ec = false ->
  c = CallWrite (seq_bytes mem l) \/ c = CallAsyncWrite (seq_bytes mem l) ->
  seq_bytes mem l = [] \/ vlen (bss_bytes mem st) < bss_capacity st ->
  exists mem' st' n, bw_copy mem st l = Ok (mem', st', n) /\ did c mem st w (ec, n) (mem', st') w.
Proof.
  intros Hok Hi Hc He Hcall Hroom. destruct (bw_copy_spec mem st l Hok Hc) as (mem' & st' & -> & Hok' & Eb & Ec & _).
  do 3 eexists. split; [done|]. split; [done|]. split; [done|]. split; [done|]. exists []. cbn [fst snd]. rewrite Ec.
  split; [|apply moved_none]. by eapply SpecCopy.
Qed.

Lemma bw_write_some_spec mem st l w : bss_ok st -> inv w -> bss_capacity st + 1 < Z.of_nat fuel -> caller_ok st l ->
  exists s r w', bw_write_some next_layer fuel mem st l w = (Some (Ok (s, r)), w') /\
    did (CallWrite (seq_bytes mem l)) mem st w r s w'.
Proof.
  intros Hok Hi Hf Hc. pose proof (co_total _ _ Hc) as Ht. rewrite <- (vlen_addrs mem) in Ht.
  pose proof (contents_le mem st Hok) as Hle. pose proof (ok_capacity _ Hok) as Hcap.
  unfold bw_write_some. rewrite (buffers_size_spec mem), (bss_size_eq mem), nil_size by (done || apply Hc).
  destruct (bool_decide_reflect (seq_bytes mem l = [])) as [Ed|Ed].
  { do 3 eexists. split; [done|]. split; [done|]. split; [done|]. split; [done|]. exists [].
    split; [|apply moved_none]. rewrite Ed. apply spec_nothing; [by left|apply Hle|done]. }
  destruct (Z.eqb_spec (vlen (bss_bytes mem st)) (bss_capacity st)) as [Ef|Ef].
  2:{ destruct (did_copy mem st l w (CallWrite (seq_bytes mem l)) error_code_new Hok Hi Hc eq_refl)
        as (mem' & st' & n & -> & Hdid); [by left|right; lia|]. by do 3 eexists. }
  destruct (bw_flush_spec mem st w Hok Hi Hf) as (st1 & k & ec & w1 & E & [Hi1 Hok1 Eb1 Hk Hl Hm He]).
  io_run. rewrite E. cbn [fmap option_fmap option_map]. run. destruct (Z.eqb_spec k 0) as [->|Hk0].
  { do 3 eexists. split; [done|]. split; [done|]. split; [done|]. split; [done|]. exists [].
    cbn [fst snd]. rewrite Hl. split; [|done]. apply SpecFail; [done|done|]. rewrite He. apply Z.ltb_lt.
    unfold bss_capacity, buffer_size in *. lia. }
  destruct (bw_copy_spec mem st1 l Hok1 (caller_buffer_eq _ _ _ Eb1 Hc)) as (mem2 & st2 & -> & Hok2 & Eb2 & Ec2 & _).
  run. do 3 eexists. split; [done|]. split; [done|]. split; [done|]. split; [cbn [snd]; congruence|].
  exists (take (Z.to_nat k) (bss_bytes mem st)). split; [|done]. cbn [fst snd]. rewrite Ec2, Hl.
  rewrite (full_capacity _ _ Eb1). apply SpecFull; try done; try lia.
  - f_equal. unfold vlen in *. rewrite length_drop. lia.
  - by rewrite He, Ef.
Qed.

Lemma did_flush c mem st w st' k ec w' : c = CallFlush \/ c = CallAsyncFlush ->
  flushed mem st w st' k ec w' -> did c mem st w (ec, k) (mem, st') w'.
Proof.
  intros Hc [Hi Hok Eb Hk Hl Hm He]. split; [done|]. split; [done|]. split; [done|].
  exists (take (Z.to_nat k) (bss_bytes mem st)). split; [|done]. cbn [fst snd]. rewrite Hl. by apply SpecFlush.
Qed.

Lemma bw_async_flush_spec mem st w : bss_ok st -> inv w -> bss_capacity st + 1 < Z.of_nat fuel ->
  exists st' k ec w', bw_async_flush next_layer fuel mem st w = (Some (Ok (st', (ec, k))), w') /\
    flushed mem st w st' k ec w'.
Proof.
  intros Hok Hi Hf. destruct (async_write_pending mem st w Hok Hi Hf) as (k & ec & w' & st' & E & Ec & Hfl).
  exists st', k, ec, w'. unfold bw_async_flush, buffered_flush_handler. io_run. rewrite E.
  cbn [fmap option_fmap option_map]. rewrite Ec. by run.
Qed.

(** The call the operation makes when there is room: a write of no bytes *)
Lemma next_layer_nothing mem w : inv w ->
  exists n ec w', next_layer mem [Buffer 0 0] w = (Some (n, ec), w') /\ inv w' /\ moved [] w w' /\ ec_bool ec = false.
Proof.
  intros Hi. destruct (ws_returns mem _ _ _ (Hws mem) [Buffer 0 0] w) as (n & ec & w' & E & Hi' & _ & Hm & _ & He);
    [constructor; [cbn; lia|done]|done|done|].
  exists n, ec, w'. split; [done|]. split; [done|]. change (seq_bytes mem [Buffer 0 0]) with (@nil byte) in *.
  rewrite take_nil in Hm. split; [done|]. destruct (ec_bool ec); [by destruct (He eq_refl)|done].
Qed.

Lemma did_moved c mem st w w' r s : moved [] w w' -> did c mem st w' r s w' -> did c mem st w r s w'.
Proof.
  intros Hm (Hi & Hok & Eb & u & Hs & Hu). split; [done|]. split; [done|]. split; [done|]. exists u. split; [done|].
  change u with ([] ++ u). by eapply (moved_app (fun _ => Byte.x00) _ _ _ (Hws _)).
Qed.

Lemma bw_async_write_some_spec mem st l w : bss_ok st -> inv w -> bss_capacity st + 1 < Z.of_nat fuel -> caller_ok st l ->
  exists s r w', bw_async_write_some next_layer fuel mem st l w = (Some (Ok (s, r)), w') /\
    did (CallAsyncWrite (seq_bytes mem l)) mem st w r s w'.
Proof.
  intros Hok Hi Hf Hc. pose proof (co_total _ _ Hc) as Ht. rewrite <- (vlen_addrs mem) in Ht.
  pose proof (contents_le mem st Hok) as Hle. unfold bw_async_write_some, buffered_write_some_handler.
  rewrite (buffers_size_spec mem), (bss_size_eq mem), nil_size by (done || apply Hc).
  set (data := seq_bytes mem l) in *.
  destruct (bool_decide (data = []) || _) eqn:Eroom.
  - destruct (next_layer_nothing mem w Hi) as (n & ec & w1 & E & Hi1 & Hm & He).
    io_run. rewrite E. cbn [fmap option_fmap option_map]. rewrite He.
    destruct (did_copy mem st l w1 (CallAsyncWrite data) ec Hok Hi1 Hc He) as (mem' & st' & m & -> & Hdid); [by right| |].
    { apply orb_true_iff in Eroom as [E1%bool_decide_eq_true|E1%Z.ltb_lt]; auto. }
    run. do 3 eexists. split; [done|]. by eapply did_moved.
  - apply orb_false_iff in Eroom as [Ed%bool_decide_eq_false Ef%Z.ltb_ge].
    destruct (bw_async_flush_spec mem st w Hok Hi Hf) as (st1 & k & ec & w1 & E & [Hi1 Hok1 Eb1 Hk Hl Hm He]).
    io_run. rewrite E. cbn [fmap option_fmap option_map]. run. destruct (ec_bool ec) eqn:Ee.
    { symmetry in He. apply Z.ltb_lt in He. do 3 eexists. split; [done|]. split; [done|]. split; [done|]. split; [done|].
      exists (take (Z.to_nat k) (bss_bytes mem st)). split; [|done]. cbn [fst snd]. rewrite Hl.
      apply SpecFailAsync; try done; lia. }
    symmetry in He. apply Z.ltb_ge in He. assert (k = vlen (bss_bytes mem st)) as -> by lia.
    unfold vlen in Hl, Hm. rewrite Nat2Z.id, firstn_all in Hm.
    destruct (bw_copy_spec mem st1 l Hok1 (caller_buffer_eq _ _ _ Eb1 Hc)) as (mem2 & st2 & -> & Hok2 & Eb2 & Ec2 & _).
    run. do 3 eexists. split; [done|]. split; [done|]. split; [done|]. split; [cbn [snd]; congruence|].
    exists (bss_bytes mem st). split; [|done]. cbn [fst snd]. rewrite Ec2, Hl, Nat2Z.id, drop_all.
    rewrite (full_capacity _ _ Eb1). change (vlen (@nil byte)) with 0. rewrite app_nil_l, Z.sub_0_r.
    apply SpecFullAsync; try done; lia.
Qed.

Lemma bw_step_spec o mem st w : bss_ok st -> inv w -> bss_capacity st + 1 < Z.of_nat fuel -> bw_op_ok st o ->
  exists mem' st' l u w', bw_step next_layer fuel o (mem, st) w = (Some (Ok ((mem', st'), l)), w') /\
    inv w' /\ bss_ok st' /\ buffer_ st' = buffer_ st /\
    bw_trace (bss_capacity st) l (bss_bytes mem st) (bss_bytes mem' st') u /\ moved u w w'.
Proof.
  intros Hok Hi Hf Ho. assert (forall c s r w', did c mem st w r s w' ->
    exists u, inv w' /\ bss_ok s.2 /\ buffer_ s.2 = buffer_ st /\
      bw_trace (bss_capacity st) [(c, r)] (bss_bytes mem st) (bss_bytes s.1 s.2) u /\ moved u w w') as Hdid.
  { intros c s r w' (Hi' & Hok' & Eb & u & Hs & Hm). exists u. split_and!; try done. rewrite <- (app_nil_r u).
    by econstructor; [|constructor]. }
  destruct o as [l| |l| |a data]; cbn [bw_step bw_op_ok] in *.
  - destruct (bw_write_some_spec mem st l w Hok Hi Hf Ho) as ([mem' st'] & r & w' & E & [u Hu]%Hdid).
    io_run. rewrite E. do 5 eexists. split; [reflexivity|done].
  - destruct (bw_flush_spec mem st w Hok Hi Hf) as (st' & k & ec & w' & E & Hfl).
    apply (did_flush CallFlush) in Hfl as [u Hu]%Hdid; [|by left].
    io_run. rewrite E. do 5 eexists. split; [reflexivity|done].
  - destruct (bw_async_write_some_spec mem st l w Hok Hi Hf Ho) as ([mem' st'] & r & w' & E & [u Hu]%Hdid).
    io_run. rewrite E. do 5 eexists. split; [reflexivity|done].
  - destruct (bw_async_flush_spec mem st w Hok Hi Hf) as (st' & k & ec & w' & E & Hfl).
    apply (did_flush CallAsyncFlush) in Hfl as [u Hu]%Hdid; [|by right].
    io_run. rewrite E. do 5 eexists. split; [reflexivity|done].
  - do 5 eexists. split; [reflexivity|]. split; [done|]. split; [done|]. split; [done|].
    rewrite (contents_same mem (store_bytes mem a data)) by (try done; intros x Hx; apply store_bytes_out; intros Hin; by apply (Ho x)).
    split; [constructor|apply moved_none].
Qed.

Lemma bw_trace_app cap l1 l2 p1 p2 p3 u v :
  bw_trace cap l1 p1 p2 u -> bw_trace cap l2 p2 p3 v -> bw_trace cap (l1 ++ l2) p1 p3 (u ++ v).
Proof.
  induction 1 as [|c r l q1 q2 q3 u1 u2 Hs _ IH]; intros H2; [done|]. rewrite <- app_comm_cons, <- app_assoc.
  econstructor; [done|by apply IH].
Qed.

Lemma bw_op_ok_eq st st' o : buffer_ st' = buffer_ st -> bw_op_ok st o -> bw_op_ok st' o.
Proof.
  intros E. destruct o; cbn; try done; try by apply caller_buffer_eq. unfold region. by rewrite E.
Qed.

Lemma bw_run_spec ops mem st w : bss_ok st -> inv w -> bss_capacity st + 1 < Z.of_nat fuel -> Forall (bw_op_ok st) ops ->
  exists mem' st' l u w', bw_run next_layer fuel ops (mem, st) w = (Some (Ok ((mem', st'), l)), w') /\
    inv w' /\ bss_ok st' /\ buffer_ st' = buffer_ st /\
    bw_trace (bss_capacity st) l (bss_bytes mem st) (bss_bytes mem' st') u /\ moved u w w'.
Proof.
  revert mem st w. induction ops as [|o ops IH]; intros mem st w Hok Hi Hf Ho.
  { do 5 eexists. split; [reflexivity|]. split_and!; try done; [constructor|apply moved_none]. }
  apply Forall_cons in Ho as [Ho Hops].
  destruct (bw_step_spec o mem st w Hok Hi Hf Ho) as (mem1 & st1 & l1 & u1 & w1 & E1 & Hi1 & Hok1 & Eb1 & Ht1 & Hm1).
  destruct (IH mem1 st1 w1 Hok1 Hi1) as (mem2 & st2 & l2 & u2 & w2 & E2 & Hi2 & Hok2 & Eb2 & Ht2 & Hm2).
  { by rewrite (full_capacity _ _ Eb1). }
  { eapply Forall_impl; [done|]. intros o'. by apply bw_op_ok_eq. }
  cbn [bw_run]. io_run. rewrite E1. io_run. rewrite E2. do 5 eexists. split; [reflexivity|].
  split; [done|]. split; [done|]. split; [congruence|]. rewrite (full_capacity _ _ Eb1) in Ht2.
  split; [by eapply bw_trace_app|]. by eapply (moved_app (fun _ => Byte.x00) _ _ _ (Hws _)).
Qed.
End WriteProofs.

(** ** The specification of a buffered read stream: what has been read ahead *)
Inductive br_call := CallRead (room : Z) | CallAsyncRead (room : Z) | CallPeek (room : Z) | CallFill | CallAsyncFill.
Definition reads (c : br_call) (room : Z) : Prop := c = CallRead room \/ c = CallAsyncRead room.

(** [br_spec cap c ec data p p' g]: the call [c] finds [p] read ahead, gives [ec]
    and [data], leaves [p'] and has got [g] from the next layer. *)
Inductive br_spec (cap : Z) : br_call -> error_code -> list byte -> list byte -> list byte -> list byte -> Prop :=
  | SpecBuffered c room p ec :
      reads c room -> p <> [] \/ room = 0 -> ec_bool ec = false ->
      br_spec cap c ec (take (Z.to_nat room) p) p (drop (Z.to_nat room) p) []
  | SpecRefill c room g ec :
      reads c room -> room <> 0 -> g <> [] -> vlen g <= cap -> ec_bool ec = false ->
      br_spec cap c ec (take (Z.to_nat room) g) [] (drop (Z.to_nat room) g) g
  | SpecNoMore c room ec :
      reads c room \/ c = CallPeek room -> br_spec cap c ec [] [] [] []
  | SpecPeek room p ec :
      p <> [] -> ec_bool ec = false -> br_spec cap (CallPeek room) ec (take (Z.to_nat room) p) p p []
  | SpecPeekRefill room g ec :
      g <> [] -> vlen g <= cap -> ec_bool ec = false ->
      br_spec cap (CallPeek room) ec (take (Z.to_nat room) g) [] g g
  | SpecFill c p g ec :
      c = CallFill \/ c = CallAsyncFill -> vlen p + vlen g <= cap -> (ec_bool ec = true -> g = []) ->
      br_spec cap c ec [] p (p ++ g) g.

(** What a call removed from the stream *)
Definition removed (x : br_call * list byte) : list byte :=
  match x.1 with CallRead _ | CallAsyncRead _ => x.2 | CallPeek _ | CallFill | CallAsyncFill => [] end.

Lemma br_spec_conserves cap c ec data p p' g : br_spec cap c ec data p p' g -> removed (c, data) ++ p' = p ++ g.
Proof.
  destruct 1 as [c room p ec [-> | ->]|c room g ec [-> | ->]|c room ec [[-> | ->]| ->]|room p ec|room g ec|c p g ec [-> | ->]];
    cbn [removed fst snd]; rewrite ?take_drop, ?app_nil_r; done.
Qed.

(** What the next layer promises: it stores a piece of its input in the buffers
    it is given, nothing on an error, and a read of no bytes succeeds. *)
Record read_stream_ok {K} (inv : world K -> Prop) (got : list byte -> relation (world K)) (rs : read_stream (K := K)) : Prop := {
  got_nil w : got [] w w;
  got_app u v w1 w2 w3 : got u w1 w2 -> got v w2 w3 -> got (u ++ v) w1 w3;
  rs_returns l w : sizes_ok l -> Z.of_nat (length (addrs l)) < 2 ^ 64 -> inv w ->
    exists data ec w', rs l w = (Some (vlen data, data, ec), w') /\ inv w' /\
      vlen data <= Z.of_nat (length (addrs l)) /\ got data w w' /\
      (ec_bool ec = true -> data = [] /\ addrs l <> [])
}.

(** ** Lemmas: copying out *)
Lemma store_bytes_in mem a data : store_bytes mem a data <$> seqZ a (vlen data) = data.
Proof.
  apply list_eq. intros i. rewrite list_lookup_fmap. destruct (decide (Z.of_nat i < vlen data)) as [Hi|Hi].
  - rewrite lookup_seqZ_lt by done. cbn. unfold store_bytes. rewrite (proj2 (Z.leb_le _ _)) by lia.
    replace (Z.to_nat (a + Z.of_nat i - a)) with i by lia.
    destruct (lookup_lt_is_Some_2 data i) as [x ->]; [unfold vlen in *; lia|done].
  - rewrite lookup_seqZ_ge by lia. symmetry. apply lookup_ge_None_2. unfold vlen in *. lia.
Qed.

(** Buffers a caller may read into *)
Record target_ok (st : buffered_stream_storage) (l : list buffer) : Prop := {
  ro_caller : caller_ok st l;
  ro_nodup : NoDup (addrs l)
}.
Definition room_of (l : list buffer) : Z := Z.of_nat (length (addrs l)).

Lemma buffers_size_room st l : caller_ok st l -> buffers_size l = room_of l.
Proof.
  intros Hc. unfold room_of. rewrite <- (vlen_addrs (fun _ => Byte.x00)). apply buffers_size_spec; [apply Hc|].
  rewrite vlen_addrs. apply Hc.
Qed.

Lemma br_peek_copy_spec mem st l : bss_ok st -> target_ok st l ->
  let n := Z.min (room_of l) (vlen (bss_bytes mem st)) in
  exists mem', br_peek_copy mem st l = (mem', n) /\ bss_bytes mem' st = bss_bytes mem st /\
    take (Z.to_nat n) (seq_bytes mem' l) = take (Z.to_nat (room_of l)) (bss_bytes mem st).
Proof.
  intros Hok [Hc Hnd] n. pose proof (contents_le mem st Hok) as Hle. pose proof (ok_capacity _ Hok).
  pose proof (vlen_bss_bytes mem st Hok) as Hv. pose proof Hok as [? ? _].
  unfold br_peek_copy, buffer_scatter_max, buffer_scatter. rewrite bss_data_eq, (bss_size_eq mem) by done.
  unfold bss_capacity, buffer_max, buffer_size, buffer_cast in *. cbn [data_ size_].
  replace (if _ <? vlen (bss_bytes mem st) then _ else _) with (vlen (bss_bytes mem st))
    by (destruct (Z.ltb_spec (size_ (buffer_ st) - begin_offset_ st) (vlen (bss_bytes mem st))); lia).
  set (s := Buffer _ _).
  assert (seqZ (data_ s) (size_ s) = seqZ (data_ (buffer_ st) + begin_offset_ st) (end_offset_ st - begin_offset_ st)) as Es
    by (unfold s; cbn [data_ size_]; by rewrite Hv).
  assert (size_ s = vlen (bss_bytes mem st)) as Ez by done.
  pose proof (scatter_loop_spec mem l s 0) as Hs. rewrite Es in Hs. destruct (scatter_loop _ _ _ _) as [mem' m].
  destruct Hs as [-> [Ht Hr]]; [rewrite Ez; ulia|apply Hc|done| |lia|lia|].
  { intros a Ha Hin. by apply (co_apart _ _ Hc a Ha), contents_region. }
  replace (0 + _) with n by (unfold n, room_of; lia). exists mem'. split; [done|].
  assert (bss_bytes mem' st = bss_bytes mem st) as Ec.
  { apply contents_same; [done|]. intros a Ha. apply Hr. intros Hin. by apply (co_apart _ _ Hc a Hin). }
  split; [done|]. rewrite seq_bytes_addrs, Ht. change (mem <$> seqZ _ (end_offset_ st - _)) with (bss_bytes mem st).
  unfold room_of in *. rewrite Nat2Z.id. unfold n, vlen. rewrite <- Nat2Z.inj_min, Nat2Z.id.
  rewrite take_app_le by (rewrite length_take; lia). rewrite take_take.
  destruct (Nat.le_gt_cases (length (addrs l)) (length (bss_bytes mem st))).
  - f_equal. lia.
  - rewrite !take_ge; (done || lia).
Qed.

Lemma br_copy_spec mem st l : bss_ok st -> target_ok st l ->
  let n := Z.min (room_of l) (vlen (bss_bytes mem st)) in
  exists mem' st', br_copy mem st l = Ok (mem', st', n) /\ bss_ok st' /\ buffer_ st' = buffer_ st /\
    bss_bytes mem' st' = drop (Z.to_nat (room_of l)) (bss_bytes mem st) /\
    take (Z.to_nat n) (seq_bytes mem' l) = take (Z.to_nat (room_of l)) (bss_bytes mem st).
Proof.
  intros Hok Hr n. destruct (br_peek_copy_spec mem st l Hok Hr) as (mem' & E & Ec & Et). fold n in E, Et.
  pose proof (contents_le mem st Hok) as Hle. pose proof (vlen_bss_bytes mem st Hok) as Hv.
  destruct (bss_consume_spec n st Hok) as (st' & Es & Hok' & Eb & Hd); [unfold n, room_of; lia|].
  exists mem', st'. unfold br_copy. rewrite E, Es. run. split; [done|]. split; [done|]. split; [done|]. split; [|done].
  rewrite Hd, Ec. unfold n, room_of, vlen. rewrite <- Nat2Z.inj_min, !Nat2Z.id.
  destruct (Nat.le_gt_cases (length (addrs l)) (length (bss_bytes mem st))).
  - f_equal. lia.
  - rewrite !drop_ge; (done || lia).
Qed.

Section ReadProofs.
Context {K : Type} (next_layer : read_stream (K := K)) (inv : world K -> Prop) (got : list byte -> relation (world K)).
Context (Hrs : read_stream_ok inv got next_layer).
Implicit Types (mem : memory) (st : buffered_stream_storage) (w : world K).

(** What a fill that got [g] has done *)
Record filled mem st w mem' st' (g : list byte) (ec : error_code) w' : Prop := {
  fi_inv : inv w';
  fi_ok : bss_ok st';
  fi_buffer : buffer_ st' = buffer_ st;
  fi_contents : bss_bytes mem' st' = bss_bytes mem st ++ g;
  fi_got : got g w w';
  fi_error : ec_bool ec = true -> g = []
}.

Lemma fill_steps mem st w : bss_ok st -> inv w ->
  exists mem1 st1 g ec w' st2,
    bss_resize (bss_capacity st) mem st = Ok (mem1, st1) /\
    next_layer [free_space st1 (bss_size st)] w = (Some (vlen g, g, ec), w') /\
    let mem2 := store_bytes mem1 (buffer_cast (free_space st1 (bss_size st))) g in
    bss_resize (u64 (bss_size st + vlen g)) mem2 st1 = Ok (mem2, st2) /\
    u64 (bss_size st2 - bss_size st) = vlen g /\ filled mem st w mem2 st2 g ec w'.
Proof.
  intros Hok Hi. pose proof (contents_le mem st Hok) as Hle. pose proof (ok_capacity _ Hok) as Hcap.
  pose proof (vlen_bss_bytes mem st Hok) as Hv. rewrite !(bss_size_eq mem st) by done.
  unfold bss_capacity, buffer_size in *. set (size := vlen (bss_bytes mem st)) in *.
  destruct (bss_resize_spec (size_ (buffer_ st)) mem st Hok ltac:(lia)) as (mem1 & st1 & E1 & Hok1 & Eb1 & El1 & Ek1 & _).
  rewrite Z.min_r in Ek1 by lia. rewrite (take_ge (bss_bytes mem st)) in Ek1 by (unfold size, vlen in *; lia).
  pose proof Hok1 as [Ho1 He1 _]. rewrite Eb1 in He1. assert (begin_offset_ st1 = 0) as Eb0 by lia.
  assert (free_space st1 size = Buffer (data_ (buffer_ st) + size) (size_ (buffer_ st) - size)) as Ef.
  { unfold free_space. rewrite bss_data_eq, buffer_add_in, Eb1, Eb0, (bss_size_eq mem1), vlen_bss_bytes, El1
      by first [done | cbn [size_]; rewrite ?Eb1; ulia].
    cbn [data_ size_]. unfold buffer_max, buffer_size, buffer_cast. cbn [data_ size_]. rewrite u64_id by ulia.
    rewrite (proj2 (Z.ltb_ge _ _)) by lia. f_equal; lia. }
  set (b := Buffer _ _) in Ef.
  assert (addrs [b] = seqZ (data_ b) (size_ b)) as Ea by (rewrite addrs_cons; apply app_nil_r).
  destruct (rs_returns _ _ _ Hrs [b] w) as (g & ec & w' & E & Hi' & Hg & Hgot & Hec);
    [constructor; [cbn; lia|constructor]|rewrite Ea, length_seqZ; cbn; lia|done|].
  rewrite Ea, length_seqZ in Hg. unfold b in Hg. cbn [size_] in Hg. pose proof (vlen_nonneg g).
  set (mem2 := store_bytes mem1 (buffer_cast b) g).
  destruct (bss_resize_spec (size + vlen g) mem2 st1 Hok1) as (mem3 & st2 & E2 & Hok2 & Eb2 & El2 & _ & _ & Hsame);
    [rewrite Eb1; lia|]. destruct Hsame as [-> Ebeg]; [by left|].
  exists mem1, st1, g, ec, w', st2. rewrite Ef. fold mem2. rewrite (u64_id (size + _)) by ulia.
  split; [done|]. split; [done|]. split; [done|].
  rewrite (bss_size_eq mem2), vlen_bss_bytes, El2 by done. split; [rewrite u64_id by ulia; lia|].
  split; try done; [congruence| |by intros Ht; apply Hec].
  unfold bss_bytes at 1. rewrite El2, Ebeg, Eb0, Eb2, Eb1, Z.add_0_r, seqZ_split, fmap_app by lia. f_equal.
  - rewrite <- Ek1. unfold bss_bytes. rewrite El1, Eb1, Eb0, Z.add_0_r, Hv.
    replace (size_ (buffer_ st)) with (size + (size_ (buffer_ st) - size)) by lia.
    rewrite Hv, (seqZ_split _ (end_offset_ st - _)), fmap_app by lia.
    rewrite take_app_length' by (rewrite length_fmap, length_seqZ; lia). apply fmap_same.
    intros a Ha. apply store_bytes_out. unfold b, buffer_cast. cbn [data_]. rewrite !elem_of_seqZ in *. lia.
  - apply store_bytes_in.
Qed.

Lemma br_fill_spec mem st w : bss_ok st -> inv w ->
  exists mem' st' g ec w', br_fill next_layer mem st w = (Some (Ok (mem', st', (ec, vlen g))), w') /\
    filled mem st w mem' st' g ec w'.
Proof.
  intros Hok Hi. destruct (fill_steps mem st w Hok Hi) as (mem1 & st1 & g & ec & w' & st2 & E1 & E2 & E3 & E4 & Hf).
  unfold br_fill. rewrite E1. cbn [with_outcome]. io_run. rewrite E2. cbn [fmap option_fmap option_map]. rewrite E3.
  run. rewrite E4. by do 5 eexists.
Qed.
Lemma br_async_fill_spec mem st w : bss_ok st -> inv w ->
  exists mem' st' g ec w', br_async_fill next_layer mem st w = (Some (Ok (mem', st', (ec, vlen g))), w') /\
    filled mem st w mem' st' g ec w'.
Proof.
  intros Hok Hi. destruct (fill_steps mem st w Hok Hi) as (mem1 & st1 & g & ec & w' & st2 & E1 & E2 & E3 & _ & Hf).
  unfold br_async_fill. rewrite E1. cbn [with_outcome]. io_run. rewrite E2. cbn [fmap option_fmap option_map].
  unfold buffered_fill_handler. rewrite E3. run. by do 5 eexists.
Qed.

(** When the read fails the guard gives the storage its old size back. *)
Lemma br_fill_throws_spec mem st w : bss_ok st -> inv w ->
  exists mem' st' g ec w', filled mem st w mem' st' g ec w' /\
    br_fill_throws next_layer mem st w =
      (Some (Ok (mem', st', if ec_bool ec then Throws (SystemError (value ec)) else Ok (vlen g))), w').
Proof.
  intros Hok Hi. destruct (fill_steps mem st w Hok Hi) as (mem1 & st1 & g & ec & w' & st2 & E1 & E2 & E3 & E4 & Hf).
  do 5 eexists. split; [exact Hf|]. unfold br_fill_throws. rewrite E1. cbn [with_outcome]. io_run. rewrite E2.
  cbn [fmap option_fmap option_map]. destruct (ec_bool ec) eqn:Ee; [|rewrite E3; run; by rewrite E4].
  pose proof (fi_error _ _ _ _ _ _ _ _ Hf Ee) as ->. change (vlen []) with 0 in E3. rewrite Z.add_0_r in E3.
  rewrite u64_id in E3; [by rewrite E3|]. rewrite (bss_size_eq mem) by done.
  pose proof (contents_le mem st Hok). pose proof (ok_capacity _ Hok). unfold bss_capacity, buffer_size in *. ulia.
Qed.

Lemma fill_no_error mem st w mem' st' g ec w' : filled mem st w mem' st' g ec w' -> g <> [] -> ec_bool ec = false.
Proof. intros Hf Hg. destruct (ec_bool ec) eqn:Ee; [by destruct (Hg (fi_error _ _ _ _ _ _ _ _ Hf Ee))|done]. Qed.

(** The state after a call, and what it has got meanwhile *)
Definition br_did (c : br_call) mem st w (ec : error_code) (data : list byte) mem' st' w' : Prop :=
  inv w' /\ bss_ok st' /\ buffer_ st' = buffer_ st /\
  exists g, br_spec (bss_capacity st) c ec data (bss_bytes mem st) (bss_bytes mem' st') g /\ got g w w'.

Lemma did_fill c mem st w mem' st' g ec w' : c = CallFill \/ c = CallAsyncFill ->
  filled mem st w mem' st' g ec w' -> br_did c mem st w ec [] mem' st' w'.
Proof.
  intros Hc [Hi Hok Eb Ec Hg He]. split; [done|]. split; [done|]. split; [done|]. exists g. split; [|done].
  pose proof (contents_le mem' st' Hok) as Hle. rewrite (full_capacity _ _ Eb), Ec, vlen_app in Hle. rewrite Ec.
  by apply SpecFill; [|lia|].
Qed.

Lemma reader_buffer_eq st st' l : buffer_ st' = buffer_ st -> target_ok st l -> target_ok st' l.
Proof. intros E [Hc Hn]. split; [by eapply caller_buffer_eq|done]. Qed.

(** Reading from a storage that is not empty, or into no room *)
Lemma did_copy_out c mem st l w ec : bss_ok st -> inv w -> target_ok st l -> reads c (room_of l) -> ec_bool ec = false ->
  bss_bytes mem st <> [] \/ room_of l = 0 ->
  exists mem' st' n, br_copy mem st l = Ok (mem', st', n) /\
    br_did c mem st w ec (take (Z.to_nat n) (seq_bytes mem' l)) mem' st' w.
Proof.
  intros Hok Hi Hr Hc He Hp. destruct (br_copy_spec mem st l Hok Hr) as (mem' & st' & E & Hok' & Eb & Ec & Et).
  do 3 eexists. split; [done|]. split; [done|]. split; [done|]. split; [done|]. exists [].
  split; [|apply (got_nil _ _ _ Hrs)]. rewrite Et, Ec. by apply SpecBuffered.
Qed.

(** ... and after a fill that got something *)
Lemma did_refill c mem st l w mem1 st1 g ec w1 : bss_ok st -> bss_bytes mem st = [] -> target_ok st l ->
  reads c (room_of l) -> room_of l <> 0 -> ec_bool ec = false -> filled mem st w mem1 st1 g ec w1 -> g <> [] ->
  exists mem' st' n, br_copy mem1 st1 l = Ok (mem', st', n) /\
    br_did c mem st w ec (take (Z.to_nat n) (seq_bytes mem' l)) mem' st' w1.
Proof.
  intros Hok E0 Hr Hc Hroom He [Hi1 Hok1 Eb1 Ec1 Hg _] Hne. rewrite E0 in Ec1. cbn [app] in Ec1.
  destruct (br_copy_spec mem1 st1 l Hok1 (reader_buffer_eq _ _ _ Eb1 Hr)) as (mem' & st' & E & Hok' & Eb & Ec & Et).
  do 3 eexists. split; [done|]. split; [done|]. split; [done|]. split; [congruence|]. exists g. split; [|done].
  rewrite Et, Ec, Ec1, E0. apply SpecRefill; try done. pose proof (contents_le mem1 st1 Hok1) as Hle.
  rewrite Ec1, (full_capacity _ _ Eb1) in Hle. lia.
Qed.

Lemma did_nothing c mem st l w mem1 st1 ec w1 : bss_bytes mem st = [] -> reads c (room_of l) \/ c = CallPeek (room_of l) ->
  filled mem st w mem1 st1 [] ec w1 -> br_did c mem st w ec [] mem1 st1 w1.
Proof.
  intros E0 Hc [Hi1 Hok1 Eb1 Ec1 Hg _]. split; [done|]. split; [done|]. split; [done|]. exists []. split; [|done].
  rewrite Ec1, E0. by apply SpecNoMore with (room_of l).
Qed.

Lemma did_no_room c mem st l w w' ec : bss_ok st -> inv w' -> reads c (room_of l) -> room_of l = 0 ->
  ec_bool ec = false -> got [] w w' -> br_did c mem st w ec [] mem st w'.
Proof.
  intros Hok Hi Hc Ez He Hg. split; [done|]. split; [done|]. split; [done|]. exists []. split; [|done].
  pose proof (SpecBuffered (bss_capacity st) c (room_of l) (bss_bytes mem st) ec Hc) as Hs.
  rewrite Ez, drop_0, take_0 in Hs. apply Hs; [by right|done].
Qed.

(** An operation that delivers what it has put into the caller's buffers *)
Definition delivers (c : br_call) mem st l w (r : option (outcome (memory * buffered_stream_storage * (error_code * Z)))) w' : Prop :=
  exists mem' st' ec n, r = Some (Ok (mem', st', (ec, n))) /\
    br_did c mem st w ec (take (Z.to_nat n) (seq_bytes mem' l)) mem' st' w'.

Lemma br_read_some_spec mem st l w : bss_ok st -> inv w -> target_ok st l ->
  exists r w', br_read_some next_layer mem st l w = (r, w') /\ delivers (CallRead (room_of l)) mem st l w r w'.
Proof.
  intros Hok Hi Hr. unfold br_read_some. rewrite (buffers_size_room st) by apply Hr. rewrite (bss_empty_eq mem) by done.
  destruct (Z.eqb_spec (room_of l) 0) as [Ez|Ez].
  { do 2 eexists. split; [done|]. do 4 eexists. split; [done|].
    by eapply did_no_room; [| |by left| | |apply (got_nil _ _ _ Hrs)]. }
  case_bool_decide as Ep.
  2:{ destruct (did_copy_out (CallRead (room_of l)) mem st l w error_code_new Hok Hi Hr) as (mem' & st' & n & -> & Hd);
        [by left|done|by left|]. run. do 2 eexists. split; [done|]. by do 4 eexists. }
  destruct (br_fill_spec mem st w Hok Hi) as (mem1 & st1 & g & ec & w1 & E & Hf).
  io_run. rewrite E. cbn [fmap option_fmap option_map]. run. rewrite nil_size.
  do 2 eexists. split; [done|]. case_bool_decide as Eg.
  - subst g. do 4 eexists. split; [done|]. rewrite take_0. eapply did_nothing; [done|left; by left|done].
  - pose proof (fill_no_error _ _ _ _ _ _ _ _ Hf Eg) as He.
    destruct (did_refill (CallRead (room_of l)) mem st l w mem1 st1 g ec w1) as (mem' & st' & n & -> & Hd); try done; [by left|].
    run. by do 4 eexists.
Qed.

Lemma br_peek_spec mem st l w : bss_ok st -> inv w -> target_ok st l ->
  exists r w', br_peek next_layer mem st l w = (r, w') /\ delivers (CallPeek (room_of l)) mem st l w r w'.
Proof.
  intros Hok Hi Hr. unfold br_peek. rewrite (bss_empty_eq mem) by done. case_bool_decide as Ep.
  2:{ destruct (br_peek_copy_spec mem st l Hok Hr) as (mem' & -> & Ec & Et).
      do 2 eexists. split; [done|]. do 4 eexists. split; [done|]. split; [done|]. split; [done|]. split; [done|].
      exists []. split; [|apply (got_nil _ _ _ Hrs)]. rewrite Et, Ec. by apply SpecPeek. }
  destruct (br_fill_spec mem st w Hok Hi) as (mem1 & st1 & g & ec & w1 & E & Hf).
  io_run. rewrite E. cbn [fmap option_fmap option_map]. run. rewrite nil_size.
  do 2 eexists. split; [done|]. case_bool_decide as Eg.
  - subst g. do 4 eexists. split; [done|]. rewrite take_0. eapply did_nothing; [done|by right|done].
  - pose proof (fill_no_error _ _ _ _ _ _ _ _ Hf Eg) as He.
    destruct Hf as [Hi1 Hok1 Eb1 Ec1 Hg _]. rewrite Ep in Ec1. cbn [app] in Ec1.
    destruct (br_peek_copy_spec mem1 st1 l Hok1 (reader_buffer_eq _ _ _ Eb1 Hr)) as (mem' & -> & Ec & Et).
    do 4 eexists. split; [done|]. split; [done|]. split; [done|]. split; [done|].
    exists g. split; [|done]. rewrite Et, Ec, Ec1, Ep. apply SpecPeekRefill; try done.
    pose proof (contents_le mem1 st1 Hok1) as Hle. rewrite Ec1, (full_capacity _ _ Eb1) in Hle. lia.
Qed.

Lemma br_did_got c mem st w w' ec data mem' st' w2 : got [] w w' -> br_did c mem st w' ec data mem' st' w2 ->
  br_did c mem st w ec data mem' st' w2.
Proof.
  intros Hm (Hi & Hok & Eb & u & Hs & Hu). split; [done|]. split; [done|]. split; [done|]. exists u. split; [done|].
  change u with ([] ++ u). by eapply (got_app _ _ _ Hrs).
Qed.

Lemma br_async_read_some_spec mem st l w : bss_ok st -> inv w -> target_ok st l ->
  exists r w', br_async_read_some next_layer mem st l w = (r, w') /\
    delivers (CallAsyncRead (room_of l)) mem st l w r w'.
Proof.
  intros Hok Hi Hr. unfold br_async_read_some, buffered_read_some_handler.
  rewrite (buffers_size_room st) by apply Hr. rewrite (bss_empty_eq mem) by done.
  destruct ((room_of l =? 0) || _) eqn:Eroom.
  - destruct (rs_returns _ _ _ Hrs [Buffer 0 0] w) as (g & ec & w1 & E & Hi1 & Hg & Hgot & Hec);
      [constructor; [cbn; lia|constructor]|done|done|].
    assert (g = []) as -> by (apply vlen_zero; pose proof (vlen_nonneg g); change (length (addrs [Buffer 0 0])) with 0%nat in Hg; lia).
    assert (ec_bool ec = false) as He by (destruct (ec_bool ec); [by destruct (Hec eq_refl)|done]).
    io_run. rewrite E. cbn [fmap option_fmap option_map]. rewrite He. cbn [orb].
    do 2 eexists. split; [done|]. case_bool_decide as Ep.
    + assert (room_of l = 0) as Ez by (apply orb_true_iff in Eroom as [?%Z.eqb_eq|?]; done).
      do 4 eexists. split; [done|]. by eapply did_no_room; [| |by right| | |].
    + destruct (did_copy_out (CallAsyncRead (room_of l)) mem st l w1 ec Hok Hi1 Hr) as (mem' & st' & n & -> & Hd);
        [by right|done|by left|]. run. do 4 eexists. split; [done|]. by eapply br_did_got.
  - apply orb_false_iff in Eroom as [Ez%Z.eqb_neq Ep%negb_false_iff%bool_decide_eq_true].
    destruct (br_async_fill_spec mem st w Hok Hi) as (mem1 & st1 & g & ec & w1 & E & Hf).
    io_run. rewrite E. cbn [fmap option_fmap option_map]. run. do 2 eexists. split; [done|].
    rewrite (bss_empty_eq mem1), (fi_contents _ _ _ _ _ _ _ _ Hf), Ep by apply Hf. cbn [app].
    destruct (ec_bool ec) eqn:Ee; cbn [orb].
    { pose proof (fi_error _ _ _ _ _ _ _ _ Hf Ee) as ->. do 4 eexists. split; [done|]. rewrite take_0.
      eapply did_nothing; [done|left; by right|done]. }
    case_bool_decide as Eg.
    { subst g. do 4 eexists. split; [done|]. rewrite take_0. eapply did_nothing; [done|left; by right|done]. }
    destruct (did_refill (CallAsyncRead (room_of l)) mem st l w mem1 st1 g ec w1) as (mem' & st' & n & -> & Hd); try done; [by right|].
    run. by do 4 eexists.
Qed.

(** The overloads that throw do what the others do; after an exception the reads
    have delivered nothing. *)
Definition delivers_or_throws (c : br_call) mem st l w (r : option (outcome (memory * buffered_stream_storage * outcome Z))) w' : Prop :=
  exists mem' st' ec n, r = Some (Ok (mem', st', if ec_bool ec then Throws (SystemError (value ec)) else Ok n)) /\
    br_did c mem st w ec (if ec_bool ec then [] else take (Z.to_nat n) (seq_bytes mem' l)) mem' st' w'.

(** After a fill that got nothing *)
Lemma did_copy_nothing c mem st l w mem1 st1 ec w1 : bss_bytes mem st = [] ->
  target_ok st l -> reads c (room_of l) \/ c = CallPeek (room_of l) -> filled mem st w mem1 st1 [] ec w1 ->
  exists mem' st' n, br_copy mem1 st1 l = Ok (mem', st', n) /\ br_did c mem st w ec (take (Z.to_nat n) (seq_bytes mem' l)) mem' st' w1.
Proof.
  intros E0 Hr Hc [Hi1 Hok1 Eb1 Ec1 Hg _]. rewrite E0 in Ec1. cbn [app] in Ec1.
  destruct (br_copy_spec mem1 st1 l Hok1 (reader_buffer_eq _ _ _ Eb1 Hr)) as (mem' & st' & E & Hok' & Eb & Ec & Et).
  do 3 eexists. split; [done|]. split; [done|]. split; [done|]. split; [congruence|]. exists []. split; [|done].
  rewrite Et, Ec, Ec1, E0, take_nil, drop_nil. by apply SpecNoMore with (room_of l).
Qed.

Lemma br_read_some_throws_spec mem st l w : bss_ok st -> inv w -> target_ok st l ->
  exists r w', br_read_some_throws next_layer mem st l w = (r, w') /\ delivers_or_throws (CallRead (room_of l)) mem st l w r w'.
Proof.
  intros Hok Hi Hr. unfold br_read_some_throws, br_filled_throws.
  rewrite (buffers_size_room st), (bss_empty_eq mem) by (done || apply Hr).
  destruct (Z.eqb_spec (room_of l) 0) as [Ez|Ez].
  { do 2 eexists. split; [done|]. exists mem, st, error_code_new, 0. split; [done|].
    by eapply did_no_room; [| |by left| | |apply (got_nil _ _ _ Hrs)]. }
  case_bool_decide as Ep.
  2:{ destruct (did_copy_out (CallRead (room_of l)) mem st l w error_code_new Hok Hi Hr) as (mem' & st' & n & -> & Hd);
        [by left|done|by left|]. run. do 2 eexists. split; [done|]. by exists mem', st', error_code_new, n. }
  destruct (br_fill_throws_spec mem st w Hok Hi) as (mem1 & st1 & g & ec & w1 & Hf & E).
  io_run. rewrite E. cbn [fmap option_fmap option_map]. run. do 2 eexists. split; [done|].
  destruct (ec_bool ec) eqn:Ee.
  { pose proof (fi_error _ _ _ _ _ _ _ _ Hf Ee) as ->. exists mem1, st1, ec, 0. rewrite Ee. split; [done|].
    eapply did_nothing; [done|left; by left|done]. }
  assert (exists mem' st' n, br_copy mem1 st1 l = Ok (mem', st', n) /\
    br_did (CallRead (room_of l)) mem st w ec (take (Z.to_nat n) (seq_bytes mem' l)) mem' st' w1) as (mem' & st' & n & -> & Hd).
  { destruct (decide (g = [])) as [->|Hg]; [eapply did_copy_nothing; [done|done|left; by left|done]|].
    by eapply did_refill; [| | |left| | | |]. }
  run. exists mem', st', ec, n. by rewrite Ee.
Qed.

Lemma br_peek_throws_spec mem st l w : bss_ok st -> inv w -> target_ok st l ->
  exists r w', br_peek_throws next_layer mem st l w = (r, w') /\ delivers_or_throws (CallPeek (room_of l)) mem st l w r w'.
Proof.
  intros Hok Hi Hr. unfold br_peek_throws, br_filled_throws. rewrite (bss_empty_eq mem) by done. case_bool_decide as Ep.
  2:{ destruct (br_peek_copy_spec mem st l Hok Hr) as (mem' & -> & Ec & Et). run.
      do 2 eexists. split; [done|]. exists mem', st, error_code_new. eexists. split; [done|].
      split; [done|]. split; [done|]. split; [done|]. exists []. split; [|apply (got_nil _ _ _ Hrs)].
      cbn [error_code_new ec_bool value Z.eqb negb]. rewrite Et, Ec. by apply SpecPeek. }
  destruct (br_fill_throws_spec mem st w Hok Hi) as (mem1 & st1 & g & ec & w1 & Hf & E).
  io_run. rewrite E. cbn [fmap option_fmap option_map]. run. do 2 eexists. split; [done|].
  destruct (ec_bool ec) eqn:Ee.
  { pose proof (fi_error _ _ _ _ _ _ _ _ Hf Ee) as ->. exists mem1, st1, ec, 0. rewrite Ee. split; [done|].
    eapply did_nothing; [done|by right|done]. }
  destruct Hf as [Hi1 Hok1 Eb1 Ec1 Hg _]. rewrite Ep in Ec1. cbn [app] in Ec1.
  destruct (br_peek_copy_spec mem1 st1 l Hok1 (reader_buffer_eq _ _ _ Eb1 Hr)) as (mem' & -> & Ec & Et). run.
  exists mem', st1, ec. eexists. rewrite Ee. split; [done|]. split; [done|]. split; [done|]. split; [done|].
  exists g. split; [|done]. rewrite Et, Ec, Ec1, Ep. destruct (decide (g = [])) as [->|Hne].
  - rewrite take_nil. apply SpecNoMore with (room_of l). by right.
  - apply SpecPeekRefill; try done. pose proof (contents_le mem1 st1 Hok1) as Hle.
    rewrite Ec1, (full_capacity _ _ Eb1) in Hle. lia.
Qed.

End ReadProofs.

(** ** The operations of a program that reads *)
Inductive br_op :=
  | BrRead (buffers : list buffer) | BrAsyncRead (buffers : list buffer) | BrPeek (buffers : list buffer)
  | BrFill | BrAsyncFill.
Definition br_op_ok (st : buffered_stream_storage) (o : br_op) : Prop :=
  match o with BrRead l | BrAsyncRead l | BrPeek l => target_ok st l | BrFill | BrAsyncFill => True end.

Section ReadRun.
Context {K : Type} (next_layer : read_stream (K := K)).
Definition br_event : Type := br_call * error_code * list byte.
Definition read_state : Type := memory * buffered_stream_storage.

(** The event of a call: what it has put into the buffers of its caller *)
Definition br_log (c : br_call) (l : list buffer)
    (r : option (outcome (memory * buffered_stream_storage * (error_code * Z)))) : option (outcome (read_state * br_event)) :=
  fmap (M := outcome) (fun '(mem, st, (ec, n)) => ((mem, st), (c, ec, take (Z.to_nat n) (seq_bytes mem l)))) <$> r.

Definition br_step (o : br_op) (s : read_state) : io K (option (outcome (read_state * br_event))) :=
  let '(mem, st) := s in
  match o with
  | BrRead l => r ← br_read_some next_layer mem st l; mret (br_log (CallRead (room_of l)) l r)
  | BrAsyncRead l => r ← br_async_read_some next_layer mem st l; mret (br_log (CallAsyncRead (room_of l)) l r)
  | BrPeek l => r ← br_peek next_layer mem st l; mret (br_log (CallPeek (room_of l)) l r)
  | BrFill => r ← br_fill next_layer mem st; mret (br_log CallFill [] r)
  | BrAsyncFill => r ← br_async_fill next_layer mem st; mret (br_log CallAsyncFill [] r)
  end.

Fixpoint br_run (ops : list br_op) (s : read_state) : io K (option (outcome (read_state * list br_event))) :=
  match ops with
  | [] => mret (Some (Ok (s, [])))
  | o :: ops' =>
    r ← br_step o s;
    match r with
    | Some (Ok (s, e)) =>
      r ← br_run ops' s;
      mret ((fmap (M := outcome) (fun '(s, l) => (s, e :: l))) <$> r)
    | Some (Throws x) => mret (Some (Throws x))
    | Some (Crash x) => mret (Some (Crash x))
    | None => mret None
    end
  end.
End ReadRun.

Inductive br_trace (cap : Z) : list br_event -> list byte -> list byte -> list byte -> Prop :=
  | ReadNil p : br_trace cap [] p p []
  | ReadCons c ec data l p1 p2 p3 u v :
      br_spec cap c ec data p1 p2 u -> br_trace cap l p2 p3 v -> br_trace cap ((c, ec, data) :: l) p1 p3 (u ++ v).
Definition removed_bytes (e : br_event) : list byte := removed (e.1.1, e.2).

Lemma br_trace_conserves cap l p p' g : br_trace cap l p p' g -> concat (removed_bytes <$> l) ++ p' = p ++ g.
Proof.
  induction 1 as [p|c ec data l p1 p2 p3 u v Hs _ IH]; [by rewrite app_nil_r|].
  rewrite app_assoc, <- (br_spec_conserves _ _ _ _ _ _ _ Hs), <- app_assoc, <- IH. cbn. by rewrite app_assoc.
Qed.

Section ReadTraces.
Context {K : Type} (next_layer : read_stream (K := K)) (inv : world K -> Prop) (got : list byte -> relation (world K)).
Context (Hrs : read_stream_ok inv got next_layer).
Implicit Types (mem : memory) (st : buffered_stream_storage) (w : world K).

Lemma br_log_spec c mem st l w r w' : delivers inv got c mem st l w r w' ->
  exists mem' st' ec data, br_log c l r = Some (Ok ((mem', st'), (c, ec, data))) /\
    br_did inv got c mem st w ec data mem' st' w'.
Proof. intros (mem' & st' & ec & n & -> & Hd). by do 4 eexists. Qed.

Lemma filled_log c mem st w mem' st' g ec w' : c = CallFill \/ c = CallAsyncFill ->
  filled inv got mem st w mem' st' g ec w' ->
  delivers inv got c mem st [] w (Some (Ok (mem', st', (ec, vlen g)))) w'.
Proof.
  intros Hc Hf. do 4 eexists. split; [done|]. rewrite seq_bytes_nil, take_nil. by eapply did_fill.
Qed.

Lemma br_step_spec o mem st w : bss_ok st -> inv w -> br_op_ok st o ->
  exists mem' st' c ec data w', br_step next_layer o (mem, st) w = (Some (Ok ((mem', st'), (c, ec, data))), w') /\
    br_did inv got c mem st w ec data mem' st' w'.
Proof.
  intros Hok Hi Ho.
  assert (exists c l r w', br_step next_layer o (mem, st) w = (br_log c l r, w') /\ delivers inv got c mem st l w r w')
    as (c & l & r & w' & E & (mem' & st' & ec & data & El & Hd)%br_log_spec).
  { destruct o as [l|l|l| |]; cbn [br_step br_op_ok] in *.
    - destruct (br_read_some_spec next_layer inv got Hrs mem st l w Hok Hi Ho) as (r & w' & E & Hd).
      exists (CallRead (room_of l)), l, r, w'. io_run. by rewrite E.
    - destruct (br_async_read_some_spec next_layer inv got Hrs mem st l w Hok Hi Ho) as (r & w' & E & Hd).
      exists (CallAsyncRead (room_of l)), l, r, w'. io_run. by rewrite E.
    - destruct (br_peek_spec next_layer inv got Hrs mem st l w Hok Hi Ho) as (r & w' & E & Hd).
      exists (CallPeek (room_of l)), l, r, w'. io_run. by rewrite E.
    - destruct (br_fill_spec next_layer inv got Hrs mem st w Hok Hi) as (mem' & st' & g & ec & w' & E & Hf).
      eapply (filled_log CallFill) in Hf; [|by left]. do 4 eexists. io_run. rewrite E. by split.
    - destruct (br_async_fill_spec next_layer inv got Hrs mem st w Hok Hi) as (mem' & st' & g & ec & w' & E & Hf).
      eapply (filled_log CallAsyncFill) in Hf; [|by right]. do 4 eexists. io_run. rewrite E. by split. }
  exists mem', st', c, ec, data, w'. by rewrite E, El.
Qed.

Lemma br_op_ok_eq st st' o : buffer_ st' = buffer_ st -> br_op_ok st o -> br_op_ok st' o.
Proof. intros E. destruct o; cbn; try done; by apply reader_buffer_eq. Qed.

Lemma br_run_spec ops mem st w : bss_ok st -> inv w -> Forall (br_op_ok st) ops ->
  exists mem' st' l g w', br_run next_layer ops (mem, st) w = (Some (Ok ((mem', st'), l)), w') /\
    inv w' /\ bss_ok st' /\ buffer_ st' = buffer_ st /\
    br_trace (bss_capacity st) l (bss_bytes mem st) (bss_bytes mem' st') g /\ got g w w'.
Proof.
  revert mem st w. induction ops as [|o ops IH]; intros mem st w Hok Hi Ho.
  { do 5 eexists. split; [reflexivity|]. split_and!; try done; [constructor|apply (got_nil _ _ _ Hrs)]. }
  apply Forall_cons in Ho as [Ho Hops].
  destruct (br_step_spec o mem st w Hok Hi Ho) as (mem1 & st1 & c & ec & data & w1 & E1 & Hi1 & Hok1 & Eb1 & g1 & Hs1 & Hg1).
  destruct (IH mem1 st1 w1 Hok1 Hi1) as (mem2 & st2 & l2 & g2 & w2 & E2 & Hi2 & Hok2 & Eb2 & Ht2 & Hg2).
  { eapply Forall_impl; [done|]. intros o'. by apply br_op_ok_eq. }
  cbn [br_run]. io_run. rewrite E1. io_run. rewrite E2. do 5 eexists. split; [reflexivity|].
  split; [done|]. split; [done|]. split; [congruence|]. rewrite (full_capacity _ _ Eb1) in Ht2.
  split; [by econstructor|]. by eapply (got_app _ _ _ Hrs).
Qed.
End ReadTraces.

(** The overload that throws: on an error the bytes that have been written stay
    pending, since the exception leaves it before [consume]. *)
Lemma bw_flush_throws_spec {K} `{Kernel K} (next_layer : memory -> write_stream (K := K)) fuel inv moved mem st w :
  (forall mem, write_stream_ok mem inv moved (next_layer mem)) ->
  bss_ok st -> inv w -> bss_capacity st + 1 < Z.of_nat fuel ->
  exists k ec w' st', flushed inv moved mem st w st' k ec w' /\
    bw_flush_throws next_layer fuel mem st w =
      (Some (if ec_bool ec then (st, Throws (SystemError (value ec))) else (st', Ok k)), w').
Proof.
  intros Hws Hok Hi Hf. destruct (write_pending next_layer inv moved Hws fuel mem st w Hok Hi Hf)
    as (k & ec & w' & st' & E & Ec & Hfl). exists k, ec, w', st'. split; [done|].
  unfold bw_flush_throws, write_throws. io_run. rewrite E. cbn [fmap option_fmap option_map]. run. unfold throw_error.
  destruct (ec_bool ec); run; [done|by rewrite Ec].
Qed.

(** ... and so does [write_some], which then has taken nothing *)
Lemma bw_write_some_throws_spec {K} `{Kernel K} (next_layer : memory -> write_stream (K := K)) fuel inv moved mem st l w :
  (forall mem, write_stream_ok mem inv moved (next_layer mem)) ->
  bss_ok st -> inv w -> bss_capacity st + 1 < Z.of_nat fuel -> caller_ok st l ->
  exists s o w', bw_write_some_throws next_layer fuel mem st l w = (Some (s, o), w') /\
    ((exists n, o = Ok n /\ did inv moved (CallWrite (seq_bytes mem l)) mem st w (error_code_new, n) s w') \/
     (exists k e, o = Throws e /\ s = (mem, st) /\ inv w' /\ 0 <= k < vlen (bss_bytes mem st) /\
        moved (take (Z.to_nat k) (bss_bytes mem st)) w w')).
Proof.
  intros Hws Hok Hi Hf Hc. pose proof (co_total _ _ Hc) as Ht. rewrite <- (vlen_addrs mem) in Ht.
  pose proof (contents_le mem st Hok) as Hle. pose proof (ok_capacity _ Hok) as Hcap. unfold bw_write_some_throws.
  rewrite (buffers_size_spec mem), (bss_size_eq mem), nil_size by (done || apply Hc).
  destruct (bool_decide_reflect (seq_bytes mem l = [])) as [Ed|Ed].
  { do 3 eexists. split; [done|]. left. eexists. split; [done|]. split; [done|]. split; [done|]. split; [done|]. exists [].
    split; [|by eapply moved_none]. rewrite Ed. apply spec_nothing; [by left|apply Hle|done]. }
  destruct (Z.eqb_spec (vlen (bss_bytes mem st)) (bss_capacity st)) as [Ef|Ef].
  2:{ destruct (did_copy next_layer inv moved Hws mem st l w (CallWrite (seq_bytes mem l)) error_code_new Hok Hi Hc eq_refl)
        as (mem' & st' & n & -> & Hdid); [by left|right; lia|]. do 3 eexists. split; [done|]. left. by eexists. }
  destruct (bw_flush_throws_spec next_layer fuel inv moved mem st w Hws Hok Hi Hf)
    as (k & ec & w1 & st1 & [Hi1 Hok1 Eb1 Hk Hl Hm He] & E).
  io_run. rewrite E. cbn [fmap option_fmap option_map]. destruct (ec_bool ec) eqn:Ee; symmetry in He.
  { apply Z.ltb_lt in He. do 3 eexists. split; [done|]. right. exists k. eexists. split_and!; try done; lia. }
  apply Z.ltb_ge in He. assert (k = vlen (bss_bytes mem st)) as -> by lia.
  destruct (bw_copy_spec mem st1 l Hok1 (caller_buffer_eq _ _ _ Eb1 Hc)) as (mem2 & st2 & -> & Hok2 & Eb2 & Ec2 & _).
  do 3 eexists. split; [done|]. left. eexists. split; [done|]. split; [done|]. split; [done|].
  split; [cbn [snd]; congruence|]. eexists. split; [|exact Hm]. cbn [fst snd]. rewrite Ec2, Hl, (full_capacity _ _ Eb1).
  unfold bss_capacity, buffer_size in *. apply SpecFull; try done; [lia| |].
  - f_equal. unfold vlen in *. rewrite length_drop. lia.
  - symmetry. apply Z.ltb_ge. lia.
Qed.

(** A connected socket is such a next layer. *)
Lemma socket_reads_ok {K} `{KernelLaws K} pfuel impl : is_open impl = true -> flag_set (state_ impl) stream_oriented = true ->
  read_stream_ok (patient pfuel) (fun _ _ _ => True) (socket_read_some pfuel impl).
Proof.
  intros Ho Hst. split; [done|done|]. intros l [k e] Hl Ht Hp. set (m := fun _ : Z => Byte.x00).
  pose proof (socket_read_some_ok m pfuel impl Ho Hst) as Hs. rewrite <- (vlen_addrs m) in *.
  destruct (ws_returns m _ _ _ Hs l (World (k, []) e) Hl Ht Hp) as (n & ec & w2 & E & Hi & Hn & (v & Ev & Hv) & Hz & He).
  unfold ghost_stream in E. cbn [kernel errno_ fst snd] in E.
  destruct (socket_read_some pfuel impl l (World k e)) as [[[[n' data] ec']|] w']; [|done].
  injection E as -> -> <-. cbn in Ev, Hi. subst v. unfold vlen in Hv at 2. rewrite length_take in Hv.
  assert (n = vlen data) as -> by (unfold vlen in *; lia). exists data, ec, w'.
  split; [done|]. split; [done|]. split; [lia|]. split; [done|]. intros [E0 Hne]%He.
  split; [by apply vlen_zero|]. intros E1. apply Hne. by rewrite seq_bytes_addrs, E1.
Qed.

(** ** Properties *)

(** C33. A buffered write stream is a queue of at most as many bytes as its buffer
    has, whatever the next layer does within its contract: for any sequence of
    synchronous and asynchronous writes and flushes, while the program reuses its
    own memory in between, every call returns, no assertion fails, each does what
    [bw_spec] says, and what has been passed on followed by what is pending is
    exactly what the calls have taken from their callers, in order.  The count is
    not that of the documentation of [flush(ec)] and [write_some(ec)], "0 if an error
    occurred": a flush that fails in the middle reports the bytes it passed on
    together with the error ([SpecFlush]), and a [write_some(ec)] that needs one
    then takes bytes and returns their number with the error ([SpecFull], and
    [write_some_error_and_count] below); an asynchronous write that fails gives 0. *)
Theorem buffered_write_refines {K} `{Kernel K} (next_layer : memory -> write_stream (K := K)) inv moved fuel b ops mem w :
  (forall mem, write_stream_ok mem inv moved (next_layer mem)) -> 0 < size_ b < 2 ^ 63 ->
  size_ b + 1 < Z.of_nat fuel -> Forall (bw_op_ok (bss_new b)) ops -> inv w ->
  exists mem' st' l u w', bw_run next_layer fuel ops (mem, bss_new b) w = (Some (Ok ((mem', st'), l)), w') /\
    bw_trace (size_ b) l [] (bss_bytes mem' st') u /\ moved u w w' /\
    u ++ bss_bytes mem' st' = concat (taken_bytes <$> l) /\ vlen (bss_bytes mem' st') <= size_ b.
Proof.
  intros Hws Hb Hf Ho Hi.
  destruct (bw_run_spec next_layer fuel inv moved Hws ops mem (bss_new b) w) as
    (mem' & st' & l & u & w' & E & _ & Hok & Eb & Ht & Hm); [split; cbn; lia|done|done|done|].
  exists mem', st', l, u, w'. split; [done|]. split; [done|]. split; [done|].
  split; [apply (bw_trace_conserves _ _ _ _ _ Ht)|].
  pose proof (contents_le mem' st' Hok) as Hle. rewrite (full_capacity _ _ Eb) in Hle. apply Hle.
Qed.

(** A storage of four bytes before a socket that takes them by pieces *)
Definition small : buffer := Buffer 1000 4.
Lemma elem_of_addrs a l : a ∈ addrs l -> exists x, x ∈ l /\ data_ x <= a < data_ x + size_ x.
Proof.
  induction l as [|x l IH]; intros Ha; [by apply elem_of_nil in Ha|]. rewrite addrs_cons, elem_of_app, elem_of_seqZ in Ha.
  destruct Ha as [Ha|(y & Hy & Ha)%IH]; [exists x|exists y]; (split; [|done]); [by left|by right].
Qed.
(** Buffers of a few bytes at low addresses are apart from it. *)
Lemma caller_small l : Forall (fun x => 0 <= size_ x < 100 /\ data_ x <= 100) l ->
  Z.of_nat (length (addrs l)) < 2 ^ 64 -> caller_ok (bss_new small) l.
Proof.
  intros Hl Ht. rewrite Forall_forall in Hl. split; [apply Forall_forall; intros x Hx%Hl; ulia| |done].
  intros a (x & Hx%Hl & Ha)%elem_of_addrs. unfold region. rewrite elem_of_seqZ. cbn. lia.
Qed.
Definition socket_layer : memory -> write_stream (K := script) := fun mem =>
  socket_write_some 10 mem (BaseImpl 4 stream_oriented).
Definition some_writes : list bw_op :=
  [BwWrite [Buffer 65 2; Buffer 97 1]; BwStore 65 (lit "xy"); BwAsyncWrite [Buffer 65 3]; BwWrite [Buffer 97 2]; BwFlush].
Lemma buffered_write_refines_witness :
  exists mem' st' l u w', bw_run socket_layer 9 some_writes (text_memory, bss_new small)
      (World (Script [-11; 1; 3; 9] ∅ ∅) 0) = (Some (Ok ((mem', st'), l)), w') /\
    sent (kernel w') 4 = u /\ u ++ bss_bytes mem' st' = concat (taken_bytes <$> l).
Proof.
  destruct (buffered_write_refines (K := script) socket_layer (patient 10) (given (BaseImpl 4 stream_oriented)) 9 small
    some_writes text_memory (World (Script [-11; 1; 3; 9] ∅ ∅) 0)) as (mem' & st' & l & u & w' & E & _ & Hm & Hu & _).
  - intros mem. apply socket_write_some_ok; reflexivity.
  - vm_compute. split; reflexivity.
  - vm_compute. reflexivity.
  - unfold some_writes. repeat (apply Forall_cons; split); cbn [bw_op_ok]; try exact I; [..|constructor].
    1, 3, 4: apply caller_small; [repeat constructor; vm_compute; congruence|vm_compute; reflexivity].
    intros x Hx Hr. apply elem_of_seqZ in Hx, Hr. change (vlen (lit "xy")) with 2 in Hx. cbn in Hr. lia.
  - vm_compute. lia.
  - exists mem', st', l, u, w'. split; [exact E|]. split; [exact Hm|exact Hu].
Defined.

(** C34. A buffered read stream loses and repeats nothing, whatever the next layer
    does within its contract: for any sequence of synchronous and asynchronous
    reads, peeks and fills every call returns, no assertion fails, each does what
    [br_spec] says, and what the reads have delivered followed by what is still
    buffered is exactly what the next layer has given, in order. *)
Theorem buffered_read_refines {K} (next_layer : read_stream (K := K)) inv got b ops mem w :
  read_stream_ok inv got next_layer -> 0 < size_ b < 2 ^ 63 -> Forall (br_op_ok (bss_new b)) ops -> inv w ->
  exists mem' st' l g w', br_run next_layer ops (mem, bss_new b) w = (Some (Ok ((mem', st'), l)), w') /\
    br_trace (size_ b) l [] (bss_bytes mem' st') g /\ got g w w' /\
    concat (removed_bytes <$> l) ++ bss_bytes mem' st' = g /\ br_in_avail st' = vlen (bss_bytes mem' st').
Proof.
  intros Hrs Hb Ho Hi.
  destruct (br_run_spec next_layer inv got Hrs ops mem (bss_new b) w) as
    (mem' & st' & l & g & w' & E & _ & Hok & Eb & Ht & Hg); [split; cbn; lia|done|done|].
  exists mem', st', l, g, w'. split; [done|]. split; [done|]. split; [done|].
  split; [apply (br_trace_conserves _ _ _ _ _ Ht)|]. by apply bss_size_eq.
Qed.

(** A next layer that gives what is left of its input, three bytes at a time *)
Definition chunked : read_stream (K := list byte) := fun l w =>
  let n := Nat.min (length (addrs l)) 3 in
  let data := take n (kernel w) in
  (Some (vlen data, data, if bool_decide (data = [] /\ n <> 0%nat) then eof else error_code_new), World (drop n (kernel w)) (errno_ w)).
Lemma chunked_ok : read_stream_ok (fun _ => True) (fun u w w' => kernel w = u ++ kernel w') chunked.
Proof.
  split; [done|by intros u v w1 w2 w3 -> ->; rewrite app_assoc|]. intros l w _ _ _. unfold chunked.
  do 3 eexists. split; [done|]. split; [done|]. split; [unfold vlen; rewrite length_take; lia|].
  split; [cbn; by rewrite take_drop|]. case_bool_decide as Hd; [|done]. intros _. split; [apply Hd|]. intros El.
  apply Hd. by rewrite El.
Qed.
Definition some_reads : list br_op :=
  [BrPeek [Buffer 10 2]; BrRead [Buffer 20 1; Buffer 30 1]; BrFill; BrAsyncRead [Buffer 20 3]; BrAsyncRead [Buffer 40 4]; BrRead [Buffer 40 4]].
Lemma buffered_read_refines_witness :
  exists mem' st' l w', br_run chunked some_reads (text_memory, bss_new small) (World (lit "hello") 0) =
      (Some (Ok ((mem', st'), l)), w') /\
    lit "hello" = (concat (removed_bytes <$> l) ++ bss_bytes mem' st') ++ kernel w'.
Proof.
  destruct (buffered_read_refines chunked (fun _ => True) (fun u w w' => kernel w = u ++ kernel w') small some_reads
    text_memory (World (lit "hello") 0)) as (mem' & st' & l & g & w' & E & _ & Hg & Hu & _).
  - exact chunked_ok.
  - vm_compute. split; reflexivity.
  - unfold some_reads. repeat (apply Forall_cons; split); cbn [br_op_ok]; try exact I; [..|constructor].
    all: split; [apply caller_small; [repeat constructor; vm_compute; congruence|vm_compute; reflexivity]
      |apply (bool_decide_unpack _); vm_compute; exact I].
  - exact I.
  - exists mem', st', l, w'. split; [exact E|]. rewrite Hu. exact Hg.
Defined.

(** Four pending bytes before a socket that takes two and then fails: the flush
    that throws leaves all four pending, and the next flush sends all of them again;
    the one that reports the error leaves two. *)
Definition full_small : buffered_stream_storage := BufferedStreamStorage 0 4 (Buffer 65 4).
Lemma flush_sends_twice :
  let w := World (Script [2; -32; 9] ∅ ∅) 0 in
  let '(r1, w1) := bw_flush_throws socket_layer 9 text_memory full_small w in
  let '(r2, w2) := bw_flush_throws socket_layer 9 text_memory full_small w1 in
  r1 = Some (full_small, Throws (SystemError 32)) /\ r2 = Some (bss_new (Buffer 65 4), Ok 4) /\
  sent (kernel w2) 4 = lit "ABABCD" /\
  (bw_flush socket_layer 9 text_memory full_small w).1 =
    Some (Ok (BufferedStreamStorage 2 4 (Buffer 65 4), 2, ErrorCode 32 system_category)).
Proof. vm_compute. split_and!; reflexivity. Qed.

(** A write into a full buffer whose flush fails in the middle gives a count and an
    error; the asynchronous one gives none and takes nothing. *)
Lemma write_some_error_and_count :
  let w := World (Script [2; -32] ∅ ∅) 0 in
  let result (x : option (outcome (memory * buffered_stream_storage * (error_code * Z))) * world script) :=
    fmap (M := option) (fmap (M := outcome) snd) x.1 in
  result (bw_write_some socket_layer 9 text_memory full_small [Buffer 97 3] w) =
    Some (Ok (ErrorCode 32 system_category, 2)) /\
  result (bw_async_write_some socket_layer 9 text_memory full_small [Buffer 97 3] w) =
    Some (Ok (ErrorCode 32 system_category, 0)).
Proof. vm_compute. split; reflexivity. Qed.
