(* ===== verification/Sockservice.v ===== *)
(** * Sockets as objects (asio/detail/impl/reactive_socket_service_base.ipp,
    reactive_socket_service.hpp, socket_holder.hpp)

    An implementation owns a descriptor from [do_open], [do_assign] or [accept]
    to [close] or [destroy]; a [socket_holder] owns the one that is between the
    kernel and an implementation.  The reactor is the interface [Reactor].  The
    theorem is about ownership: no descriptor is lost or closed twice. *)
From S2P Require Import Prelude Socketops Asiobuf Asiorw.

(** ** What the service needs of a reactor; [register_descriptor] gives an
    [errno], or 0. *)
Class Reactor (K : Type) := {
  register_descriptor : Z -> io K Z;
  deregister_descriptor : Z -> bool -> io K unit;
  cancel_ops : Z -> io K unit;
  move_descriptor : Z -> io K unit
}.

Definition SOCK_STREAM := 1.
Definition SOCK_DGRAM := 2.

Section Service.
Context {K : Type} `{Kernel K} `{Reactor K}.
Implicit Types (impl peer : base_implementation).

Definition construct : base_implementation := BaseImpl invalid_socket 0.

(** The destructor of a [socket_holder] *)
Definition socket_holder_delete (s : Z) : io K unit :=
  if s =? invalid_socket then mret tt else close s 0 true ;; mret tt.

Definition state_of_type (type : Z) : Z :=
  if type =? SOCK_STREAM then stream_oriented
  else if type =? SOCK_DGRAM then datagram_oriented else 0.

Definition do_open (impl : base_implementation) (af type protocol : Z) : io K (base_implementation * error_code) :=
  if is_open impl then mret (impl, already_open) else
  '(sock, ec) ← socket af type protocol;
  if sock =? invalid_socket then mret (impl, ec) else
  err ← register_descriptor sock;
  if negb (err =? 0) then socket_holder_delete sock ;; mret (impl, ErrorCode err system_category) else
  mret (BaseImpl sock (state_of_type type), error_code_new).

Definition do_assign (impl : base_implementation) (type native_socket : Z) : io K (base_implementation * error_code) :=
  if is_open impl then mret (impl, already_open) else
  err ← register_descriptor native_socket;
  if negb (err =? 0) then mret (impl, ErrorCode err system_category) else
  mret (BaseImpl native_socket (flag_on (state_of_type type) possible_dup), error_code_new).

Definition svc_close (impl : base_implementation) : io K (base_implementation * error_code) :=
  (if is_open impl
   then deregister_descriptor (socket_ impl) (negb (flag_set (state_ impl) possible_dup))
   else mret tt) ;;
  '(_, _, ec) ← close (socket_ impl) (state_ impl) false;
  mret (construct, ec).

Definition destroy (impl : base_implementation) : io K unit :=
  if negb (socket_ impl =? invalid_socket) then
    deregister_descriptor (socket_ impl) (negb (flag_set (state_ impl) possible_dup)) ;;
    close (socket_ impl) (state_ impl) true ;;
    mret tt
  else mret tt.

Definition cancel (impl : base_implementation) : io K error_code :=
  if negb (is_open impl) then mret bad_descriptor else
  cancel_ops (socket_ impl) ;; mret error_code_new.

(** The new [impl] and what is left of the other *)
Definition base_move_construct (other_impl : base_implementation)
    : io K (base_implementation * base_implementation) :=
  move_descriptor (socket_ other_impl) ;;
  mret (BaseImpl (socket_ other_impl) (state_ other_impl), BaseImpl invalid_socket 0).

Definition base_move_assign (impl other_impl : base_implementation)
    : io K (base_implementation * base_implementation) :=
  destroy impl ;; base_move_construct other_impl.

(** reactive_socket_service::accept, with the capacity for the peer's address
    if it is wanted *)
Definition svc_accept (fuel : nat) (impl peer : base_implementation) (type : Z) (capacity : option Z)
    : io K (option (base_implementation * error_code)) :=
  if is_open peer then mret (Some (peer, already_open)) else
  r ← sync_accept fuel (socket_ impl) (state_ impl) capacity;
  match r with
  | None => mret None
  | Some (new_socket, _, ec) =>
    if new_socket =? invalid_socket then mret (Some (peer, ec)) else
    '(peer, ec) ← do_assign peer type new_socket;
    (if ec_bool ec then socket_holder_delete new_socket else mret tt) ;;
    mret (Some (peer, ec))
  end.

Definition bind_endpoint (impl : base_implementation) (addr : list byte) (size : Z) : io K error_code :=
  '(_, ec) ← bind (socket_ impl) addr size; mret ec.

Definition set_option (impl : base_implementation) (level name : Z) (data : list byte) (size : Z)
    : io K (base_implementation * error_code) :=
  '(_, state, ec) ← setsockopt (socket_ impl) (state_ impl) level name data size;
  mret (BaseImpl (socket_ impl) state, ec).

(** ** The objects of a program, by handle *)
Inductive svc_op :=
  | OpOpen (h af type protocol : Z)
  | OpAccept (l h type : Z)
  | OpAssign (h type native_socket : Z)
  | OpClose (h : Z)
  | OpCancel (h : Z)
  | OpSetOption (h level name : Z) (data : list byte) (size : Z)
  | OpMoveConstruct (h other : Z)
  | OpMoveAssign (h other : Z)
  | OpDestroy (h : Z).

Definition impl_of (m : gmap Z base_implementation) (h : Z) : base_implementation := default construct (m !! h).

(** [None]: out of fuel.  A move has two different objects; the one that is
    constructed does not exist yet. *)
Definition svc_run (fuel : nat) (o : svc_op) (m : gmap Z base_implementation)
    : io K (option (gmap Z base_implementation * error_code)) :=
  match o with
  | OpOpen h af type protocol =>
    '(impl, ec) ← do_open (impl_of m h) af type protocol; mret (Some (<[h := impl]> m, ec))
  | OpAccept l h type =>
    r ← svc_accept fuel (impl_of m l) (impl_of m h) type None;
    mret (match r with Some (peer, ec) => Some (<[h := peer]> m, ec) | None => None end)
  | OpAssign h type native_socket =>
    '(impl, ec) ← do_assign (impl_of m h) type native_socket; mret (Some (<[h := impl]> m, ec))
  | OpClose h => '(impl, ec) ← svc_close (impl_of m h); mret (Some (<[h := impl]> m, ec))
  | OpCancel h => ec ← cancel (impl_of m h); mret (Some (m, ec))
  | OpSetOption h level name data size =>
    '(impl, ec) ← set_option (impl_of m h) level name data size; mret (Some (<[h := impl]> m, ec))
  | OpMoveConstruct h other =>
    match m !! h with
    | Some _ => mret (Some (m, error_code_new))
    | None =>
      '(impl, rest) ← base_move_construct (impl_of m other);
      mret (Some (<[h := impl]> (<[other := rest]> m), error_code_new))
    end
  | OpMoveAssign h other =>
    if h =? other then mret (Some (m, error_code_new)) else
    '(impl, rest) ← base_move_assign (impl_of m h) (impl_of m other);
    mret (Some (<[h := impl]> (<[other := rest]> m), error_code_new))
  | OpDestroy h => destroy (impl_of m h) ;; mret (Some (delete h m, error_code_new))
  end.

(** The descriptor an operation is given from outside *)
Definition assigned (o : svc_op) : option Z :=
  match o with OpAssign _ _ native_socket => Some native_socket | _ => None end.

Fixpoint svc_run_all (fuel : nat) (ops : list svc_op) (m : gmap Z base_implementation)
    : io K (option (gmap Z base_implementation)) :=
  match ops with
  | [] => mret (Some m)
  | o :: ops' =>
    r ← svc_run fuel o m;
    match r with Some (m, _) => svc_run_all fuel ops' m | None => mret None end
  end.
End Service.

(** ** The descriptors of the process

    Only [socket], [accept] and [close] change them; a new one was not in use;
    [close] releases the descriptor whatever it returns, and does not ask for
    another try (close(2) of Linux).  [bad_closes] counts the calls of [close] on
    a descriptor that is not open, as the second of two would be. *)
Definition keeps_fds (c : syscall) : Prop :=
  match c with SysSocket _ _ _ | SysAccept _ _ | SysClose _ => False | _ => True end.
Class DescriptorLaws (K : Type) `{KernelLaws K} `{Reactor K} := {
  fds : K -> gset Z;
  bad_closes : K -> nat;
  fds_socket af type protocol k k' a : sys (SysSocket af type protocol) k = (k', a) ->
    bad_closes k' = bad_closes k /\
    if 0 <=? a_ret a then (a_ret a ∉ fds k) /\ fds k' = {[a_ret a]} ∪ fds k else fds k' = fds k;
  fds_accept s addrlen k k' a : sys (SysAccept s addrlen) k = (k', a) ->
    bad_closes k' = bad_closes k /\
    if 0 <=? a_ret a then (a_ret a ∉ fds k) /\ fds k' = {[a_ret a]} ∪ fds k else fds k' = fds k;
  fds_close s k k' a : sys (SysClose s) k = (k', a) ->
    fds k' = fds k ∖ {[s]} /\ a_errno a <> Some EAGAIN /\
    bad_closes k' = (bad_closes k + if bool_decide (s ∈ fds k) then 0 else 1)%nat;
  fds_other c k k' a : keeps_fds c -> sys c k = (k', a) ->
    fds k' = fds k /\ bad_closes k' = bad_closes k;
  fds_nonneg k s : s ∈ fds k -> 0 <= s;
  reactor_register s w : let '(err, w') := register_descriptor s w in
    0 <= err /\ fds (kernel w') = fds (kernel w) /\ (patience (kernel w') <= patience (kernel w))%nat /\
    bad_closes (kernel w') = bad_closes (kernel w);
  reactor_other (m : io K unit) w :
    (exists s, m = cancel_ops s \/ m = move_descriptor s \/ exists b, m = deregister_descriptor s b) ->
    fds (kernel (m w).2) = fds (kernel w) /\ (patience (kernel (m w).2) <= patience (kernel w))%nat /\
    bad_closes (kernel (m w).2) = bad_closes (kernel w)
}.

(** ** Lemmas: ownership as a function from handles to descriptors *)
Definition upd (f : Z -> Z) (h s : Z) : Z -> Z := fun h' => if decide (h = h') then s else f h'.

(** [base] are the descriptors that other parts of the process own. *)
Record owned (base : gset Z) (f : Z -> Z) (F : gset Z) : Prop := {
  owned_base h : f h <> invalid_socket -> f h ∉ base;
  owned_once h1 h2 : f h1 = f h2 -> f h1 <> invalid_socket -> h1 = h2;
  owned_all s : s ∈ F <-> s ∈ base \/ (s <> invalid_socket /\ exists h, f h = s)
}.

(** A descriptor of the others is given to an object. *)
Lemma owned_assign base f F h s : owned base f F -> f h = invalid_socket -> s ∈ base -> s <> invalid_socket ->
  owned (base ∖ {[s]}) (upd f h s) F.
Proof.
  intros [Hb Ho Ha] Hh Hs Hi. unfold upd. split.
  - intros h'. rewrite elem_of_difference, elem_of_singleton. case_decide; [tauto|]. intros Hf [Hin _]. by apply (Hb h').
  - intros h1 h2. repeat case_decide; subst; try done; [|intros E Hf|by apply Ho].
    + intros E Hf. destruct (Hb h2); [by rewrite <- E|by rewrite <- E].
    + destruct (Hb h1); [done|by rewrite E].
  - intros t. rewrite Ha, elem_of_difference, elem_of_singleton. destruct (decide (t = s)) as [->|Hne].
    + split; [|auto]. intros _. right. split; [done|]. exists h. by rewrite decide_True.
    + split; (intros [Ht|[Ht [h' E]]]; [tauto|]); right; (split; [done|]); exists h'.
      * rewrite decide_False; [done|]. intros <-. congruence.
      * case_decide; [congruence|done].
Qed.

#[export] Instance owned_proper base : Proper (pointwise_relation Z eq ==> eq ==> iff) (owned base).
Proof.
  assert (forall f g F, pointwise_relation Z eq f g -> owned base f F -> owned base g F) as Hp.
  { intros f g F E [Hb Ho Ha]. split.
    - intros h. rewrite <- E. apply Hb.
    - intros h1 h2. rewrite <- !E. apply Ho.
    - intros s. rewrite Ha. by setoid_rewrite E. }
  intros f g E F ? <-. split; apply Hp; [done|]. intros h. by rewrite E.
Qed.

Lemma owned_gain base f F h s : owned base f F -> f h = invalid_socket -> s <> invalid_socket -> s ∉ F ->
  owned base (upd f h s) ({[s]} ∪ F).
Proof.
  intros [Hb Ho Ha] Hh Hs HF.
  assert (s ∉ base) as Hsb by (intros Hin; apply HF, Ha; auto).
  assert (forall h', f h' <> s) as Hnew by (intros h' E; apply HF, Ha; eauto).
  unfold upd. split.
  - intros h'. case_decide; [done|apply Hb].
  - intros h1 h2. destruct (decide (h = h1)), (decide (h = h2)); try congruence. apply Ho.
  - intros t. rewrite elem_of_union, elem_of_singleton, Ha. split.
    + intros [->|[Ht|[Ht [h' <-]]]]; [|auto|].
      * right. split; [done|]. exists h. by rewrite decide_True.
      * right. split; [done|]. exists h'. rewrite decide_False; [done|]. by intros <-.
    + intros [Ht|[Ht [h' E]]]; [auto|]. case_decide; [by left|]. right. right. eauto.
Qed.

Lemma owned_lose base f F h : owned base f F -> f h <> invalid_socket ->
  owned base (upd f h invalid_socket) (F ∖ {[f h]}).
Proof.
  intros [Hb Ho Ha] Hh. unfold upd. split.
  - intros h'. case_decide; [done|apply Hb].
  - intros h1 h2. repeat case_decide; subst; try done; try (by intros <-). apply Ho.
  - intros t. rewrite elem_of_difference, elem_of_singleton, Ha. split.
    + intros [[Ht|[Ht [h' <-]]] Hne]; [auto|]. right. split; [done|]. exists h'. rewrite decide_False; [done|].
      by intros <-.
    + intros [Ht|[Ht [h' E]]].
      * split; [auto|]. intros ->. by apply (Hb h).
      * case_decide; [done|]. split; [eauto|]. intros E2. rewrite E2 in E. by destruct (Ho h' h E); [congruence|].
Qed.

Lemma owned_move base f F h other : owned base f F -> h <> other -> f h = invalid_socket ->
  owned base (upd (upd f other invalid_socket) h (f other)) F.
Proof.
  intros [Hb Ho Ha] Hne Hh. unfold upd. split.
  - intros h'. repeat case_decide; subst; try done; apply Hb.
  - intros h1 h2. repeat case_decide; subst; try done; intros E1 E2; try (by apply Ho); try congruence.
    + by destruct (Ho other h2 E1 E2).
    + by destruct (Ho h1 other E1 E2).
  - intros t. rewrite Ha. split; (intros [Ht|[Ht [h' E]]]; [auto|]); right; (split; [done|]).
    + destruct (decide (other = h')) as [<-|].
      * exists h. by rewrite decide_True.
      * exists h'. rewrite decide_False by (intros <-; congruence). by rewrite decide_False.
    + repeat case_decide; subst; eauto; done.
Qed.

(** ** Lemmas: what the operations do to the descriptors *)
Section Quiet.
Context {K : Type} `{DescriptorLaws K}.
Implicit Types (w : world K).

(** From [w] to [w'] the descriptors become [F], no patience is gained, and every
    [close] is of an open descriptor. *)
Definition goes (w : world K) (F : gset Z) (w' : world K) : Prop :=
  fds (kernel w') = F /\ (patience (kernel w') <= patience (kernel w))%nat /\
  bad_closes (kernel w') = bad_closes (kernel w).
Definition quiet {A} (m : io K A) : Prop := forall w, goes w (fds (kernel w)) (m w).2.

Lemma goes_refl w : goes w (fds (kernel w)) w.
Proof. by split. Qed.
Lemma goes_errno w F w' e : goes w F w' -> goes w F (World (kernel w') e).
Proof. done. Qed.
Lemma goes_trans w1 F w2 G w3 : goes w1 F w2 -> (fds (kernel w2) = F -> goes w2 G w3) -> goes w1 G w3.
Proof. intros [E1 L1] [E2 L2]; [done|]. split; [done|]. lia. Qed.

Lemma quiet_ret {A} (a : A) : quiet (mret a).
Proof. intros w. apply goes_refl. Qed.
Lemma quiet_bind {A B} (m : io K A) (f : A -> io K B) : quiet m -> (forall a, quiet (f a)) -> quiet (m ≫= f).
Proof.
  intros Hm Hf w. unfold mbind, io_bind. specialize (Hm w). destruct (m w) as [a w1]. cbn in Hm.
  eapply goes_trans; [exact Hm|]. intros <-. apply Hf.
Qed.
Lemma quiet_clear : quiet clear_last_error.
Proof. intros w. by split. Qed.
Lemma quiet_wrapper r : quiet (error_wrapper r).
Proof. intros w. by split. Qed.
Lemma quiet_if {A} (b : bool) (m1 m2 : io K A) : quiet m1 -> quiet m2 -> quiet (if b then m1 else m2).
Proof. by destruct b. Qed.

Lemma quiet_call c : keeps_fds c -> quiet (call c).
Proof.
  intros Hc w. unfold call. destruct (sys c (kernel w)) as [k a] eqn:E.
  destruct (fds_other _ _ _ _ Hc E). split; cbn; [done|]. split; [by eapply sys_patience|done].
Qed.

End Quiet.

Ltac quiet :=
  repeat match goal with
  | |- quiet (if _ then _ else _) => apply quiet_if
  | |- quiet (mret _) => apply quiet_ret
  | |- quiet clear_last_error => apply quiet_clear
  | |- quiet (error_wrapper _) => apply quiet_wrapper
  | |- quiet (_ ≫= _) => apply quiet_bind; [|intros]
  | |- quiet (let '(_, _) := ?x in _) => destruct x
  | |- quiet (call _) => apply quiet_call; exact I
  end.

Section Effects.
Context {K : Type} `{DescriptorLaws K}.
Implicit Types (w : world K).

Lemma quiet_poll_read s st : quiet (poll_read s st).
Proof. unfold poll_read. quiet. Qed.

Lemma quiet_setsockopt s st l o v n : quiet (setsockopt s st l o v n).
Proof. unfold setsockopt, call_setsockopt. quiet. Qed.

Lemma quiet_reactor (m : io K unit) :
  (exists s, m = cancel_ops s \/ m = move_descriptor s \/ exists b, m = deregister_descriptor s b) -> quiet m.
Proof. intros Hm w. by apply reactor_other. Qed.

(** A call that may give a new descriptor *)
Definition gives (s : Z) (ec : error_code) (w w' : world K) : Prop :=
  s = invalid_socket /\ ec_bool ec = true /\ goes w (fds (kernel w)) w' \/
  0 <= s /\ ec = error_code_new /\ (s ∉ fds (kernel w)) /\ goes w ({[s]} ∪ fds (kernel w)) w'.

Lemma socket_gives af type protocol w :
  exists s ec w', socket af type protocol w = ((s, ec), w') /\ gives s ec w w'.
Proof.
  unfold socket, clear_last_error, error_wrapper, call. io_run.
  destruct (sys (SysSocket af type protocol) (kernel w)) as [k a] eqn:E. io_run.
  pose proof (sys_patience _ _ _ _ E) as Hp. destruct (fds_socket _ _ _ _ _ _ E) as [Hbad Hf].
  do 3 eexists. split; [done|]. destruct (Z.leb_spec 0 (a_ret a)) as [Hr|Hr].
  - right. destruct Hf as [Hn Hf]. by split_and!.
  - left. destruct (sys_fails _ _ _ _ E Hr) as (-> & e & -> & He). split; [done|].
    split; [by apply ec_bool_pos|by split].
Qed.

Lemma accept_gives s addrlen w : s <> invalid_socket ->
  exists new_s addr ec w', accept s addrlen w = ((new_s, addr, ec), w') /\ gives new_s ec w w' /\
    (new_s = invalid_socket -> exists e, ec = ErrorCode e system_category /\
      (retry_errno e -> (patience (kernel w') < patience (kernel w))%nat)).
Proof.
  intros Hs. unfold accept. rewrite (proj2 (Z.eqb_neq _ _) Hs).
  unfold clear_last_error, error_wrapper, call_accept, call. io_run.
  destruct (sys (SysAccept s (u32 <$> addrlen)) (kernel w)) as [k a] eqn:E. io_run.
  pose proof (sys_patience _ _ _ _ E) as Hp. destruct (fds_accept _ _ _ _ _ E) as [Hbad Hf].
  destruct (Z.leb_spec 0 (a_ret a)) as [Hr|Hr].
  - rewrite (proj2 (Z.eqb_neq _ _)) by (unfold invalid_socket; lia). do 4 eexists. split; [done|].
    split; [|unfold invalid_socket; lia]. right. destruct Hf as [Hn Hf]. by split_and!.
  - destruct (sys_fails _ _ _ _ E Hr) as (Hr1 & e & He & Hpos). rewrite Hr1, He. cbn.
    do 4 eexists. split; [done|]. split; [left; split; [done|]; split; [by apply ec_bool_pos|by split]|].
    intros _. eexists. split; [done|]. intros Hre. by eapply (sys_retry (SysAccept s (u32 <$> addrlen))).
Qed.

Lemma sync_accept_gives fuel s st addrlen w : (patience (kernel w) < fuel)%nat ->
  exists new_s addr ec w', sync_accept fuel s st addrlen w = (Some (new_s, addr, ec), w') /\ gives new_s ec w w'.
Proof.
  intros Hf. destruct (Z.eq_dec s invalid_socket) as [->|Hs].
  { destruct fuel as [|fuel]; [lia|]. cbn. do 4 eexists. split; [done|]. left.
    split; [done|]. split; [done|apply goes_refl]. }
  revert w addrlen Hf. induction fuel as [|fuel IH]; intros w addrlen Hf; [lia|]. cbn [sync_accept].
  destruct (accept_gives s addrlen w Hs) as (new_s & addr & ec & w1 & E & Hg & He). io_run. rewrite E. io_run.
  destruct (Z.eqb_spec new_s invalid_socket) as [Hn|Hn]; cbn [negb]; [|by eauto 7].
  destruct (accept_retries st ec) eqn:Er; cbn [negb]; [|rewrite <- Hn; by eauto 7].
  destruct (He Hn) as (e & -> & Hre). specialize (Hre (accept_retries_errno _ _ Er)).
  destruct Hg as [(_ & Heb & Hg)|(? & _)]; [|subst; unfold invalid_socket in *; lia].
  pose proof (quiet_poll_read s 0 w1) as Hq.
  destruct (poll_read_blocking s w1 Hs) as (r & ec & w2 & E2 & Hp2 & Hr). rewrite E2 in Hq |- *. io_run.
  cbn in Hq. assert (goes w (fds (kernel w)) w2) as Hg2.
  { eapply goes_trans; [exact Hg|]. by intros <-. }
  destruct (Z.ltb_spec r 0).
  - do 4 eexists. split; [done|]. left. split; [done|]. split; [|done].
    destruct Hr as [?|(_ & e2 & -> & He2)]; [lia|]. by apply ec_bool_pos, poll_errno_pos.
  - destruct (IH w2 (snd addr)) as (n & ad & ec' & w3 & -> & Hg3); [lia|]. do 4 eexists. split; [done|].
    destruct Hg2 as [Ef2 Hl2]. unfold gives, goes in *. rewrite Ef2 in Hg3.
    destruct Hg3 as [(-> & ? & ? & ?)|(? & -> & ? & ? & ?)]; [left|right]; split_and!; try done; lia.
Qed.

(** [close] releases the descriptor, whatever it reports. *)
Lemma close_goes s st b w : s <> invalid_socket -> s ∈ fds (kernel w) ->
  goes w (fds (kernel w) ∖ {[s]}) (close s st b w).2.
Proof.
  intros Hs Hin. unfold close. rewrite (proj2 (Z.eqb_neq _ _) Hs).
  set (linger := if b && flag_set st user_set_linger then _ else _).
  assert (quiet linger) as Hq by (apply quiet_if; [apply quiet_setsockopt|apply quiet_ret]).
  specialize (Hq w). unfold mbind at 1, io_bind. destruct (linger w) as [[[r0 st1] ec0] w1]. cbn in Hq.
  unfold clear_last_error, error_wrapper, call. io_run.
  destruct (sys (SysClose s) (kernel w1)) as [k a] eqn:E. io_run.
  pose proof (sys_patience _ _ _ _ E) as Hp. destruct (fds_close _ _ _ _ E) as (Hf & Hna & Hbad).
  rewrite ec_would_block.
  assert ((default 0 (a_errno a) =? EAGAIN) = false) as ->.
  { apply Z.eqb_neq. intros Hd. destruct (a_errno a); [cbn in Hd; congruence|done]. }
  rewrite andb_false_r. cbn. destruct Hq as (Eq & Lq & Bq). rewrite Eq, bool_decide_true in Hbad by done.
  split; cbn; [by rewrite Hf, Eq|lia].
Qed.

Lemma holder_goes s w : s <> invalid_socket -> s ∈ fds (kernel w) ->
  goes w (fds (kernel w) ∖ {[s]}) (socket_holder_delete s w).2.
Proof.
  intros Hs Hin. unfold socket_holder_delete. rewrite (proj2 (Z.eqb_neq _ _) Hs). io_run.
  pose proof (close_goes s 0 true w Hs Hin) as Hc. by destruct (close s 0 true w).
Qed.

(** Opening, and closing *)
Lemma do_assign_goes impl type s w : is_open impl = false ->
  exists impl' ec w', do_assign impl type s w = ((impl', ec), w') /\ goes w (fds (kernel w)) w' /\
    (ec = error_code_new /\ socket_ impl' = s \/ ec_bool ec = true /\ impl' = impl).
Proof.
  intros Ho. unfold do_assign. rewrite Ho. io_run. pose proof (reactor_register s w) as Hr.
  destruct (register_descriptor s w) as [err w1]. destruct Hr as (He & Hg).
  destruct (Z.eqb_spec err 0) as [->|Hne]; cbn [negb]; do 3 eexists; (split; [done|]); (split; [done|]).
  - by left.
  - right. split; [apply ec_bool_pos; lia|done].
Qed.

Definition opens (impl impl' : base_implementation) (ec : error_code) (w w' : world K) : Prop :=
  (impl' = impl /\ ec_bool ec = true /\ goes w (fds (kernel w)) w') \/
  (socket_ impl = invalid_socket /\ ec = error_code_new /\ socket_ impl' <> invalid_socket /\
    (socket_ impl' ∉ fds (kernel w)) /\ goes w ({[socket_ impl']} ∪ fds (kernel w)) w').

Lemma is_open_false impl : is_open impl = false -> socket_ impl = invalid_socket.
Proof. unfold is_open. by destruct (Z.eqb_spec (socket_ impl) invalid_socket). Qed.
Lemma is_open_true impl : is_open impl = true -> socket_ impl <> invalid_socket.
Proof. unfold is_open. by destruct (Z.eqb_spec (socket_ impl) invalid_socket). Qed.

Lemma add_remove (s : Z) (F : gset Z) : s ∉ F -> ({[s]} ∪ F) ∖ {[s]} = F.
Proof.
  intros Hs. apply set_eq. intros t. rewrite elem_of_difference, elem_of_union, elem_of_singleton.
  split; [tauto|]. intros Ht. split; [auto|]. by intros ->.
Qed.

Lemma do_open_opens impl af type protocol w :
  exists impl' ec w', do_open impl af type protocol w = ((impl', ec), w') /\ opens impl impl' ec w w'.
Proof.
  unfold do_open. destruct (is_open impl) eqn:Ho.
  { do 3 eexists. split; [done|]. left. split_and!; [done..|apply goes_refl]. }
  destruct (socket_gives af type protocol w) as (s & ec & w1 & E & Hg). io_run. rewrite E. io_run.
  destruct Hg as [(-> & He & Hg)|(Hs & -> & Hn & Hg)].
  { rewrite Z.eqb_refl. do 3 eexists. split; [done|]. by left. }
  assert (s <> invalid_socket) as Hi by (unfold invalid_socket; lia).
  rewrite (proj2 (Z.eqb_neq _ _) Hi). pose proof (reactor_register s w1) as Hr.
  destruct (register_descriptor s w1) as [err w2]. destruct Hr as (He & Hf2 & Hp2).
  destruct (Z.eqb_spec err 0) as [->|Hne]; cbn [negb].
  - do 3 eexists. split; [done|]. right. split_and!; [by apply is_open_false|done..|].
    eapply goes_trans; [exact Hg|]. intros E1. split; [by rewrite Hf2, E1|done].
  - pose proof (holder_goes s w2 Hi) as Hh. destruct (socket_holder_delete s w2) as [[] w3]. cbn in Hh.
    do 3 eexists. split; [done|]. left. split; [done|]. split; [apply ec_bool_pos; lia|].
    eapply goes_trans; [exact Hg|]. intros Hf1. apply (goes_trans _ (fds (kernel w1)) w2); [by split|]. intros _.
    rewrite Hf2, Hf1, (add_remove _ _ Hn) in Hh. apply Hh. by apply elem_of_union_l, elem_of_singleton.
Qed.

(** A new socket is given to [peer], or closed. *)
Lemma accepted_opens {A} (f : base_implementation -> error_code -> io K A) peer type s w w1 :
  0 <= s -> s ∉ fds (kernel w) -> goes w ({[s]} ∪ fds (kernel w)) w1 ->
  exists peer' ec w',
    ('(peer, ec) ← do_assign peer type s; (if ec_bool ec then socket_holder_delete s else mret tt) ;; f peer ec) w1
      = f peer' ec w' /\ opens peer peer' ec w w'.
Proof.
  intros Hs Hn Hg. assert (s <> invalid_socket) as Hi by (unfold invalid_socket; lia).
  assert (exists peer' ec w2, do_assign peer type s w1 = ((peer', ec), w2) /\ goes w1 (fds (kernel w1)) w2 /\
    (is_open peer = false /\ ec = error_code_new /\ socket_ peer' = s \/ ec_bool ec = true /\ peer' = peer))
    as (peer' & ec & w2 & E2 & Hg2 & Hc).
  { destruct (is_open peer) eqn:Ho.
    - unfold do_assign. rewrite Ho. do 3 eexists. split; [done|]. split; [apply goes_refl|by right].
    - destruct (do_assign_goes peer type s w1 Ho) as (peer' & ec & w2 & E2 & Hg2 & [[? ?]|?]); eauto 10. }
  io_run. rewrite E2. io_run. destruct Hc as [(Ho & -> & Es)|(He & ->)].
  - change (ec_bool error_code_new) with false. io_run. do 3 eexists. split; [done|]. right.
    rewrite Es. split_and!; [by apply is_open_false|done..|].
    eapply goes_trans; [exact Hg|]. by intros <-.
  - rewrite He. pose proof (holder_goes s w2 Hi) as Hh. destruct (socket_holder_delete s w2) as [[] w3]. cbn in Hh.
    io_run. do 3 eexists. split; [done|]. left. split; [done|]. split; [done|].
    eapply goes_trans; [exact Hg|]. intros Hf1. eapply goes_trans; [exact Hg2|]. intros Hf2'.
    rewrite Hf2', Hf1, (add_remove _ _ Hn) in Hh. apply Hh. by apply elem_of_union_l, elem_of_singleton.
Qed.

Lemma svc_accept_opens fuel impl peer type cap w : (patience (kernel w) < fuel)%nat ->
  exists peer' ec w', svc_accept fuel impl peer type cap w = (Some (peer', ec), w') /\ opens peer peer' ec w w'.
Proof.
  intros Hf. unfold svc_accept. destruct (is_open peer) eqn:Ho.
  { do 3 eexists. split; [done|]. left. split_and!; [done..|apply goes_refl]. }
  destruct (sync_accept_gives fuel (socket_ impl) (state_ impl) cap w Hf) as (s & addr & ec & w1 & E & Hg).
  unfold mbind at 1, io_bind at 1. rewrite E. destruct Hg as [(-> & He & Hg)|(Hs & -> & Hn & Hg)].
  { rewrite Z.eqb_refl. do 3 eexists. split; [done|]. by left. }
  rewrite (proj2 (Z.eqb_neq _ _)) by (unfold invalid_socket; lia).
  destruct (accepted_opens (fun peer ec => mret (Some (peer, ec))) peer type s w w1 Hs Hn Hg) as (p' & ec & w' & -> & Hop).
  by exists p', ec, w'.
Qed.
End Effects.

(** ** Lemmas: the operations and ownership *)
Section Owners.
Context {K : Type} `{DescriptorLaws K} (base : gset Z).
Implicit Types (w : world K) (m : gmap Z base_implementation).

Definition sock m (h : Z) : Z := socket_ (impl_of m h).
Definition owners m w : Prop := owned base (sock m) (fds (kernel w)).

Lemma sock_insert m h impl : pointwise_relation Z eq (sock (<[h := impl]> m)) (upd (sock m) h (socket_ impl)).
Proof.
  intros h'. unfold sock, impl_of, upd. case_decide as E; [subst; by rewrite lookup_insert_eq|].
  by rewrite lookup_insert_ne.
Qed.
Lemma sock_delete m h : pointwise_relation Z eq (sock (delete h m)) (upd (sock m) h invalid_socket).
Proof.
  intros h'. unfold sock, impl_of, upd. case_decide as E; [subst; by rewrite lookup_delete_eq|].
  by rewrite lookup_delete_ne.
Qed.
Lemma upd_same f h : pointwise_relation Z eq (upd f h (f h)) f.
Proof. intros h'. unfold upd. case_decide as E; [by subst|done]. Qed.
#[export] Instance upd_proper : Proper (pointwise_relation Z eq ==> eq ==> eq ==> pointwise_relation Z eq) upd.
Proof. intros f g E h ? <- s ? <- h'. unfold upd. case_decide; [done|apply E]. Qed.

(** One step of one: what is left of the descriptors, and enough patience *)
Definition step_ok m w (r : option (gmap Z base_implementation * error_code)) w' : Prop :=
  exists m' ec, r = Some (m', ec) /\ owners m' w' /\ (patience (kernel w') <= patience (kernel w))%nat /\
    bad_closes (kernel w') = bad_closes (kernel w).

Lemma owners_goes m w F w' : owned base (sock m) F -> goes w F w' -> owners m w'.
Proof. intros Ho [<- _]. done. Qed.

Lemma opens_ok m w h impl' ec w' : owners m w -> opens (impl_of m h) impl' ec w w' ->
  step_ok m w (Some (<[h := impl']> m, ec)) w'.
Proof.
  intros Ho Hop. exists (<[h := impl']> m), ec. split; [done|].
  destruct Hop as [(-> & _ & Hg)|(Hi & -> & Hs & Hn & Hg)]; (split; [|apply Hg]); eapply owners_goes; try done;
    unfold owners; rewrite sock_insert.
  - change (socket_ (impl_of m h)) with (sock m h). by rewrite upd_same.
  - by apply owned_gain.
Qed.

Lemma closed_ok m m' w h w' : owners m w ->
  pointwise_relation Z eq (sock m') (upd (sock m) h invalid_socket) ->
  goes w (if sock m h =? invalid_socket then fds (kernel w) else fds (kernel w) ∖ {[sock m h]}) w' ->
  owners m' w' /\ (patience (kernel w') <= patience (kernel w))%nat /\
    bad_closes (kernel w') = bad_closes (kernel w).
Proof.
  intros Ho Hm Hg. split; [|apply Hg]. eapply owners_goes; [|done]. rewrite Hm.
  destruct (Z.eqb_spec (sock m h) invalid_socket) as [E|E].
  - rewrite <- E, upd_same. done.
  - by apply owned_lose.
Qed.

Lemma deregister_close_goes s st (b b' : bool) w : s <> invalid_socket -> s ∈ fds (kernel w) ->
  goes w (fds (kernel w) ∖ {[s]}) ((deregister_descriptor s b ;; close s st b') w).2.
Proof.
  intros Hs Hin. unfold mbind, io_bind.
  assert (quiet (deregister_descriptor s b)) as Hq by (apply quiet_reactor; eauto 6). specialize (Hq w).
  destruct (deregister_descriptor s b w) as [[] w1]. cbn in Hq. eapply goes_trans; [exact Hq|].
  intros E. rewrite <- E in Hin |- *. by apply close_goes.
Qed.

(** An object that is open owns an open descriptor. *)
Definition held impl w : Prop := socket_ impl <> invalid_socket -> socket_ impl ∈ fds (kernel w).
Lemma owners_held m w h : owners m w -> held (impl_of m h) w.
Proof. intros Ho Hs. apply (owned_all _ _ _ Ho). right. split; [done|by exists h]. Qed.

Lemma destroy_goes impl w : held impl w -> goes w
  (if socket_ impl =? invalid_socket then fds (kernel w) else fds (kernel w) ∖ {[socket_ impl]}) (destroy impl w).2.
Proof.
  intros Hh. unfold destroy. destruct (Z.eqb_spec (socket_ impl) invalid_socket) as [E|E]; cbn [negb]; [apply goes_refl|].
  pose proof (deregister_close_goes (socket_ impl) (state_ impl)
    (negb (flag_set (state_ impl) possible_dup)) true w E (Hh E)) as Hc.
  revert Hc. io_run. destruct (deregister_descriptor _ _ w) as [u1 w1].
  by destruct (close _ _ true w1) as [[[]] w2].
Qed.

Lemma svc_close_goes impl w : held impl w -> exists ec w', svc_close impl w = ((construct, ec), w') /\ goes w
  (if socket_ impl =? invalid_socket then fds (kernel w) else fds (kernel w) ∖ {[socket_ impl]}) w'.
Proof.
  intros Hh. unfold svc_close, is_open. destruct (Z.eqb_spec (socket_ impl) invalid_socket) as [E|E]; cbn [negb].
  - io_run. unfold close. rewrite E. cbn. do 2 eexists. split; [done|apply goes_refl].
  - pose proof (deregister_close_goes (socket_ impl) (state_ impl)
      (negb (flag_set (state_ impl) possible_dup)) false w E (Hh E)) as Hc.
    revert Hc. io_run. destruct (deregister_descriptor _ _ w) as [u1 w1].
    destruct (close _ _ false w1) as [[[]] w2]. cbn. eauto.
Qed.

Lemma move_ok m w w1 h other : owners m w -> h <> other ->
  goes w (if sock m h =? invalid_socket then fds (kernel w) else fds (kernel w) ∖ {[sock m h]}) w1 ->
  exists w2, base_move_construct (impl_of m other) w1 =
      ((BaseImpl (sock m other) (state_ (impl_of m other)), BaseImpl invalid_socket 0), w2) /\
    step_ok m w (Some (<[h := BaseImpl (sock m other) (state_ (impl_of m other))]>
      (<[other := BaseImpl invalid_socket 0]> m), error_code_new)) w2.
Proof.
  intros Ho Hne Hg. unfold base_move_construct. io_run. change (socket_ (impl_of m other)) with (sock m other).
  assert (quiet (move_descriptor (sock m other))) as Hq by (apply quiet_reactor; eauto 6). specialize (Hq w1).
  destruct (move_descriptor (sock m other) w1) as [[] w2]. cbn in Hq. eexists. split; [done|].
  do 2 eexists. split; [done|].
  destruct (closed_ok m (delete h m) w h w1 Ho (sock_delete m h) Hg) as [Ho1 Hp1].
  split; [|destruct Hq; lia]. eapply owners_goes; [|exact Hq]. rewrite !sock_insert. cbn [socket_].
  assert (owned base (upd (upd (sock (delete h m)) other invalid_socket) h (sock (delete h m) other)) (fds (kernel w1))) as Hm.
  { apply owned_move; [exact Ho1|done|]. rewrite sock_delete. unfold upd. by rewrite decide_True. }
  assert (sock (delete h m) other = sock m other) as Eo.
  { rewrite sock_delete. unfold upd. by rewrite decide_False. }
  rewrite Eo in Hm. eapply owned_proper; [|done|exact Hm]. intros x. unfold upd.
  repeat case_decide; try done. rewrite sock_delete. unfold upd. by rewrite decide_False.
Qed.

Lemma svc_run_ok fuel o m w : owners m w -> (patience (kernel w) < fuel)%nat -> assigned o = None ->
  exists r w', svc_run fuel o m w = (r, w') /\ step_ok m w r w'.
Proof.
  intros Ho Hf Ha.
  destruct o as [h af ty pr|l h ty|h ty sk|h|h|h lv nm d n|h other|h other|h]; cbn [svc_run]; [| |done|..]; io_run.
  - destruct (do_open_opens (impl_of m h) af ty pr w) as (impl' & ec & w' & -> & Hop).
    do 2 eexists. split; [done|]. by apply opens_ok.
  - destruct (svc_accept_opens fuel (impl_of m l) (impl_of m h) ty None w Hf) as (peer' & ec & w' & -> & Hop).
    do 2 eexists. split; [done|]. by apply opens_ok.
  - destruct (svc_close_goes (impl_of m h) w (owners_held m w h Ho)) as (ec & w' & -> & Hg). do 2 eexists. split; [done|].
    do 2 eexists. split; [done|]. by apply (closed_ok m _ w h w' Ho (sock_insert m h construct)).
  - unfold cancel. destruct (is_open (impl_of m h)); cbn [negb]; io_run.
    + assert (quiet (cancel_ops (socket_ (impl_of m h)))) as Hq by (apply quiet_reactor; eauto). specialize (Hq w).
      destruct (cancel_ops _ w) as [[] w1]. do 2 eexists. split; [done|]. do 2 eexists. split; [done|].
      split; [by eapply owners_goes|apply Hq].
    + do 2 eexists. split; [done|]. do 2 eexists. by split_and!.
  - unfold set_option. pose proof (quiet_setsockopt (socket_ (impl_of m h)) (state_ (impl_of m h)) lv nm d n w) as Hq.
    io_run. destruct (setsockopt _ _ _ _ _ _ w) as [[[r st] ec] w']. cbn in Hq.
    do 2 eexists. split; [done|]. do 2 eexists. split; [done|]. split; [|apply Hq].
    eapply owners_goes; [|exact Hq]. rewrite sock_insert. cbn. change (socket_ (impl_of m h)) with (sock m h).
    by rewrite upd_same.
  - destruct (m !! h) as [impl|] eqn:Em; [do 2 eexists; split; [done|]; do 2 eexists; by split_and!|].
    destruct (decide (h = other)) as [<-|Hne].
    + io_run. unfold base_move_construct. io_run.
      assert (quiet (move_descriptor (socket_ (impl_of m h)))) as Hq by (apply quiet_reactor; eauto 6). specialize (Hq w).
      destruct (move_descriptor _ w) as [[] w1]. do 2 eexists. split; [done|]. do 2 eexists. split; [done|].
      split; [|apply Hq]. eapply owners_goes; [|exact Hq]. rewrite !sock_insert. cbn.
      eapply owned_proper; [|done|exact Ho]. intros x. unfold upd, sock. repeat case_decide; subst; done.
    + destruct (move_ok m w w h other Ho Hne) as (w2 & E & Hs).
      { unfold sock, impl_of. rewrite Em. apply goes_refl. }
      io_run. rewrite E. eauto.
  - destruct (Z.eqb_spec h other) as [|Hne]; [do 2 eexists; split; [done|]; do 2 eexists; by split_and!|].
    unfold base_move_assign. io_run. pose proof (destroy_goes (impl_of m h) w (owners_held m w h Ho)) as Hg.
    destruct (destroy (impl_of m h) w) as [[] w1]. cbn in Hg.
    destruct (move_ok m w w1 h other Ho Hne Hg) as (w2 & E & Hs). rewrite E. eauto.
  - pose proof (destroy_goes (impl_of m h) w (owners_held m w h Ho)) as Hg. destruct (destroy (impl_of m h) w) as [[] w1]. cbn in Hg.
    do 2 eexists. split; [done|]. do 2 eexists. split; [done|].
    by apply (closed_ok m _ w h w1 Ho (sock_delete m h)).
Qed.
End Owners.

(** The object that is assigned a descriptor takes it from the rest of the
    process, unless it fails. *)
Lemma assign_ok {K} `{DescriptorLaws K} base fuel h type s m (w : world K) :
  owners base m w -> s ∈ base ->
  exists base' r w', svc_run fuel (OpAssign h type s) m w = (r, w') /\ step_ok base' m w r w' /\
    base ∖ {[s]} ⊆ base' /\ base' ⊆ base.
Proof.
  intros Ho Hs. cbn [svc_run]. io_run. assert (s <> invalid_socket) as Hi.
  { assert (0 <= s); [|unfold invalid_socket; lia]. eapply fds_nonneg, (owned_all _ _ _ Ho). by left. }
  destruct (is_open (impl_of m h)) eqn:Eo.
  { unfold do_assign. rewrite Eo. do 3 eexists. split; [done|]. split; [|split; [by apply subseteq_difference_l|done]].
    do 2 eexists. split; [done|]. split; [|by split]. unfold owners. rewrite sock_insert.
    change (socket_ (impl_of m h)) with (sock m h). by rewrite upd_same. }
  destruct (do_assign_goes (impl_of m h) type s w Eo) as (impl' & ec & w' & -> & [Ef Hc] & [[-> Es]|[He ->]]).
  - exists (base ∖ {[s]}). do 2 eexists. split; [done|]. split; [|split; [done|set_solver]].
    do 2 eexists. split; [done|]. split; [|done]. unfold owners. rewrite sock_insert, Ef, Es.
    apply owned_assign; [done|by apply is_open_false|done..].
  - exists base. do 2 eexists. split; [done|]. split; [|split; [set_solver|done]].
    do 2 eexists. split; [done|]. split; [|done]. unfold owners. rewrite sock_insert, Ef.
    change (socket_ (impl_of m h)) with (sock m h). by rewrite upd_same.
Qed.

(** ** A kernel that hands out descriptors from 3 on; the rest is the script. *)
Record fdkernel := FdKernel { in_use : gset Z; rest : script; bad : nat }.
Definition new_fd (F : gset Z) : Z := 1 + foldr Z.max 2 (elements F).
Lemma new_fd_new F s : s ∈ F -> s < new_fd F.
Proof.
  intros Hs. apply elem_of_elements in Hs. unfold new_fd. induction Hs as [s l|s t l _ IH]; cbn; lia.
Qed.
Lemma new_fd_pos F : 3 <= new_fd F.
Proof. unfold new_fd. induction (elements F) as [|s l IH]; cbn; lia. Qed.

#[export] Instance fd_kernel : Kernel fdkernel := fun c k =>
  match c with
  | SysSocket _ _ _ => (FdKernel ({[new_fd (in_use k)]} ∪ in_use k) (rest k) (bad k), Answer (new_fd (in_use k)) None [] 0)
  | SysAccept s len =>
    let '(r, a) := sys (SysAccept s len) (rest k) in
    if 0 <=? a_ret a then (FdKernel ({[new_fd (in_use k)]} ∪ in_use k) r (bad k), Answer (new_fd (in_use k)) None [] 0)
    else (FdKernel (in_use k) r (bad k), a)
  | SysClose s =>
    (FdKernel (in_use k ∖ {[s]}) (rest k)
       (bad k + if bool_decide ((0 <= s)%Z /\ s ∈ in_use k) then 0 else 1)%nat, Answer 0 None [] 0)
  | c => let '(r, a) := sys c (rest k) in (FdKernel (in_use k) r (bad k), a)
  end.

Ltac fd_cases E :=
  unfold sys, fd_kernel in E; repeat case_match; simplify_eq; cbn [a_ret a_errno a_data a_int in_use rest] in *;
  pose proof new_fd_pos as Hpos.

#[export] Program Instance fd_laws : KernelLaws fdkernel := {
  patience k := patience (rest k);
  sent k := sent (rest k);
  nonblock k := nonblock (rest k)
}.
Next Obligation.
  intros c k k' a E Hr. fd_cases E; try (specialize (Hpos (in_use k)); lia); try (cbn in Hr; lia);
    by eapply (sys_fails (K := script)).
Qed.
Next Obligation.
  intros c k k' a E. fd_cases E; try done; by eapply (sys_patience (K := script)).
Qed.
Next Obligation.
  intros c k k' a e E Ht Hr He Hre. fd_cases E; try done; by eapply (sys_retry (K := script)).
Qed.
Next Obligation. intros s ev k k' a E. fd_cases E. by eapply (sys_poll (K := script)). Qed.
Next Obligation. intros s iov fl k k' a E Hr. fd_cases E. by eapply (sys_recv (K := script)). Qed.
Next Obligation. intros s data fl k k' a E. fd_cases E. by eapply (sys_send (K := script)). Qed.
Next Obligation. intros s ev t k k' a E. fd_cases E. by eapply (sys_poll_sent (K := script)). Qed.
Next Obligation.
  intros s cmd arg k k' a E. unfold sys, fd_kernel in E.
  destruct (sys (SysIoctl s cmd arg) (rest k)) as [r b] eqn:E1. injection E as <- <-.
  by eapply (sys_ioctl (K := script)).
Qed.
Next Obligation. intros s l o v n k k' a E. fd_cases E. by eapply (sys_option (K := script)). Qed.

(** A reactor that takes every descriptor but 5 *)
#[export] Instance fd_reactor : Reactor fdkernel := {
  register_descriptor s w := (if s =? 5 then ENOMEM else 0, w);
  deregister_descriptor s b := mret tt;
  cancel_ops s := mret tt;
  move_descriptor s := mret tt
}.
#[export] Program Instance fd_descriptors : DescriptorLaws fdkernel := {
  fds k := filter (fun s => 0 <= s) (in_use k);
  bad_closes := bad
}.
Next Obligation.
  intros af ty pr k k' a E. unfold sys, fd_kernel in E. injection E as <- <-. cbn [a_ret in_use].
  pose proof (new_fd_pos (in_use k)). rewrite (proj2 (Z.leb_le 0 _)) by lia.
  split; [done|]. split; [|apply set_eq; intros t; rewrite elem_of_union, !elem_of_filter, elem_of_union, elem_of_singleton;
    intuition (subst; lia)].
  intros [_ Hin]%elem_of_filter. apply new_fd_new in Hin. lia.
Qed.
Next Obligation.
  intros s len k k' a E. unfold sys, fd_kernel in E.
  destruct (sys (SysAccept s len) (rest k)) as [r b] eqn:E1.
  destruct (Z.leb_spec 0 (a_ret b)); injection E as <- <-; cbn [a_ret in_use].
  - pose proof (new_fd_pos (in_use k)). rewrite (proj2 (Z.leb_le 0 _)) by lia.
    split; [done|]. split; [|apply set_eq; intros t; rewrite elem_of_union, !elem_of_filter, elem_of_union, elem_of_singleton;
      intuition (subst; lia)].
    intros [_ Hin]%elem_of_filter. apply new_fd_new in Hin. lia.
  - split; [done|]. by rewrite (proj2 (Z.leb_gt 0 _)) by lia.
Qed.
Next Obligation.
  intros s k k' a E. unfold sys, fd_kernel in E. injection E as <- <-. cbn [in_use bad a_errno].
  split_and!; [|done|].
  - apply set_eq. intros t. rewrite elem_of_difference, !elem_of_filter, elem_of_difference. tauto.
  - f_equal. erewrite bool_decide_ext; [done|]. by rewrite elem_of_filter.
Qed.
Next Obligation. intros c k k' a Hc E. destruct c; try done; by fd_cases E. Qed.
Next Obligation. intros k s Hs. cbv beta in Hs. by apply elem_of_filter in Hs as [? _]. Qed.
Next Obligation. intros s w. cbn. split; [destruct (s =? 5); vm_compute; discriminate|by split]. Qed.
Next Obligation. intros m w (s & [->|[->|[b ->]]]); by split. Qed.

(** ** Lemmas: a whole program *)

Definition all_closed (m : gmap Z base_implementation) : bool :=
  forallb (fun x => negb (is_open x.2)) (map_to_list m).
Lemma all_closed_spec m h : all_closed m = true -> is_open (impl_of m h) = false.
Proof.
  intros Hc. unfold impl_of. destruct (m !! h) as [impl|] eqn:E; [|done]. cbn.
  apply elem_of_map_to_list in E. unfold all_closed in Hc. rewrite forallb_forall in Hc.
  apply negb_true_iff, (Hc (h, impl)). by apply list_elem_of_In.
Qed.

Lemma svc_run_all_ok {K} `{DescriptorLaws K} base fuel ops m (w : world K) :
  owned base (sock m) (fds (kernel w)) -> (patience (kernel w) < fuel)%nat ->
  NoDup (omap assigned ops) -> (forall s, s ∈ omap assigned ops -> s ∈ base) ->
  exists base' m' w', svc_run_all fuel ops m w = (Some m', w') /\
    owned base' (sock m') (fds (kernel w')) /\
    base ∖ list_to_set (omap assigned ops) ⊆ base' /\ base' ⊆ base /\
    bad_closes (kernel w') = bad_closes (kernel w) /\
    (all_closed m' = true -> fds (kernel w') = base').
Proof.
  revert base m w. induction ops as [|o ops IH]; intros base m w Ho Hf Hnd Hin; cbn [svc_run_all].
  - exists base. do 2 eexists. split; [done|]. split; [done|]. split; [set_solver|]. split; [done|]. split; [done|].
    intros Hc. apply set_eq. intros s.
    rewrite (owned_all _ _ _ Ho). split; [|auto]. intros [?|[Hs [h <-]]]; [done|].
    destruct Hs. by apply is_open_false, all_closed_spec.
  - assert (exists base1 r w1, svc_run fuel o m w = (r, w1) /\ step_ok base1 m w r w1 /\
      base ∖ match assigned o with Some s => {[s]} | None => ∅ end ⊆ base1 /\ base1 ⊆ base) as (base1 & r & w1 & E & Hs & Hb1 & Hb1').
    { destruct (assigned o) as [s|] eqn:Ea.
      - destruct o; try done. injection Ea as ->.
        apply assign_ok; [done|]. apply Hin. cbn. by left.
      - destruct (svc_run_ok base fuel o m w Ho Hf Ea) as (r & w1 & E & Hs).
        exists base, r, w1. split_and!; [done..| |done]. set_solver. }
    destruct Hs as (m1 & ec & -> & Ho1 & Hp & Hbad). io_run. rewrite E.
    assert (NoDup (omap assigned ops) /\ forall s, s ∈ omap assigned ops -> s ∈ base1) as [Hnd1 Hin1].
    { cbn in Hnd, Hin. destruct (assigned o) as [s|]; cbn in Hb1.
      - apply NoDup_cons in Hnd as [Hs Hnd]. split; [done|]. intros t Ht. apply Hb1.
        apply elem_of_difference. split; [apply Hin; by right|]. set_solver.
      - split; [done|]. intros t Ht. apply Hb1. apply elem_of_difference. split; [by apply Hin|set_solver]. }
    destruct (IH base1 m1 w1 Ho1 ltac:(lia) Hnd1 Hin1) as (base' & m' & w' & E' & Ho' & Hl & Hu & Hb' & Hc).
    exists base', m', w'. split_and!; [done|done| |set_solver|by rewrite Hb', Hbad|done].
    cbn. destruct (assigned o); cbn in *; set_solver.
Qed.

(** ** Properties *)

(** C18. Sockets own their descriptors: whatever a program does with its socket
    objects (opening, accepting, assigning, closing, cancelling, moving and
    destroying them, in any order and with any failures of the kernel and of the
    reactor), the operations return, every descriptor belongs to one open
    object or to the rest of the process ([base]), none is closed twice or taken
    from another owner ([bad_closes] counts calls of [close] on a descriptor that
    is not open), and when no object is open only those of the rest are left.  The
    descriptors that are assigned are different ones of the rest, which keeps
    those whose assignment failed. *)
Theorem descriptors_owned {K} `{DescriptorLaws K} base fuel ops m (w : world K) :
  owned base (sock m) (fds (kernel w)) -> (patience (kernel w) < fuel)%nat ->
  NoDup (omap assigned ops) -> (forall s, s ∈ omap assigned ops -> s ∈ base) ->
  exists base' m' w', svc_run_all fuel ops m w = (Some m', w') /\
    owned base' (sock m') (fds (kernel w')) /\
    base ∖ list_to_set (omap assigned ops) ⊆ base' /\ base' ⊆ base /\
    bad_closes (kernel w') = bad_closes (kernel w) /\
    (all_closed m' = true -> fds (kernel w') = base').
Proof. apply svc_run_all_ok. Qed.

(** A listener accepts two connections; the second is refused by the reactor;
    the first moves to another object, an object takes the descriptor 2, and all
    are closed. *)
Definition sample_ops : list svc_op :=
  [OpOpen 0 2 SOCK_STREAM 0; OpAccept 0 1 SOCK_STREAM; OpAccept 0 2 SOCK_STREAM; OpMoveAssign 3 1;
   OpAssign 4 SOCK_STREAM 2; OpClose 1; OpDestroy 3; OpClose 0; OpDestroy 4].
Definition sample_kernel : world fdkernel := World (FdKernel {[0; 1; 2]} (Script [-11; 7; 7] ∅ ∅) 0) 0.
Lemma descriptors_owned_witness :
  exists m' w', svc_run_all 9 sample_ops ∅ sample_kernel = (Some m', w') /\
    fds (kernel w') = ({[0; 1]} : gset Z) /\ bad_closes (kernel w') = 0%nat.
Proof.
  destruct (descriptors_owned (K := fdkernel) {[0; 1; 2]} 9 sample_ops ∅ sample_kernel)
    as (base' & m' & w' & E & Ho & _ & _ & Hb & Hc).
  - split.
    + intros h Hh. exact (False_ind _ (Hh eq_refl)).
    + intros h1 h2 _ Hh. exact (False_ind _ (Hh eq_refl)).
    + intros s. change (fds _) with (filter (fun s => 0 <= s) ({[0; 1; 2]} : gset Z)).
      rewrite elem_of_filter, !elem_of_union, !elem_of_singleton. split; [tauto|].
      intros [Hs|[Hs [h Hh]]]; [intuition (subst; lia)|]. exact (False_ind _ (Hs (eq_sym Hh))).
  - vm_compute. lia.
  - repeat constructor. intros Hin. inversion Hin.
  - intros s Hs. apply list_elem_of_singleton in Hs. subst s. apply (bool_decide_unpack _). vm_compute. exact I.
  - exists m', w'. split; [exact E|]. split; [|exact Hb]. vm_compute in E. injection E as <- <-. vm_compute. reflexivity.
Defined.
