(* ===== verification/Service.v ===== *)
(** * Listening and accepting (main of src/src/cohttp.cpp, http_service of
    src/src/server.cpp)

    [main] opens the listening socket and agrees with the kernel on
    [SO_REUSEPORT]; each worker runs [http_service::start], whose accept loop takes
    the accept semaphore around [accept] unless the port is shared by the kernel, and
    constructs a connection for each socket.  The acceptor is Boost.Asio's and is not
    in the repository: it is the class [Listener] for [main] and [Acceptor] for the
    loop.  The semaphore is that of Semops, sockets and timers are Server's. *)
From stdpp Require Import relations.
From S2P Require Import Prelude Iobuf Stdio Errors Bitset Pool Request Codec Response Modules Builtin Server Semops Config.
#[local] Open Scope Z_scope.

Definition SOL_SOCKET := 1.
Definition SO_REUSEPORT := 15.
Definition IPPROTO_TCP := 6.
Definition TCP_FASTOPEN := 23.

(** ** The acceptor

    [open] and [set_option(reuse_address)], [bind] to a port and [listen] may throw;
    [getsockopt] and [setsockopt] are the system's, on the native handle. *)
Class Listener (AC : Type) := {
  acc_open : AC -> outcome unit * AC;
  acc_reuse_address : AC -> outcome unit * AC;
  acc_bind : Z -> AC -> outcome unit * AC;
  acc_listen : AC -> outcome unit * AC;
  native_getsockopt : Z -> Z -> AC -> Z * Z * AC;
  native_setsockopt : Z -> Z -> Z -> AC -> Z * AC
}.

(** A code, 0 for none, and the socket *)
Class Acceptor (AC SK : Type) := acc_accept : AC -> Z * SK * AC.

Section Main.
Context {AC : Type} `{Listener AC}.

Definition set_reuse_port (v : Z) (o : options) : options :=
  Options (iobuf_size o) (iobuf_count o) (opt_max_header_size o) (opt_max_body_size o) (logger_path o)
    (logger_cout o) v (serve_port o) (process o) (opt_timer_idle o) (opt_timer_life o) (mod_path o).

(** [getsockopt] stores into [options.reuse_port] itself. *)
Definition negotiate_reuse_port (o : options) (a : AC) : options * AC :=
  if negb (reuse_port o =? 0) then
    let '(rc, v, a) := native_getsockopt SOL_SOCKET SO_REUSEPORT a in
    let o := set_reuse_port v o in
    if rc =? -1 then (set_reuse_port 0 o, a) else
    let o := set_reuse_port 1 o in
    let '(rc, a) := native_setsockopt SOL_SOCKET SO_REUSEPORT (reuse_port o) a in
    if rc =? 0 then (o, a) else (set_reuse_port 0 o, a)
  else (o, a).

(** How [main] gets on: an exception nobody catches, one it reports, or a
    listening socket *)
Inductive listening :=
  | Uncaught (e : exn)
  | Reported (e : exn)
  | Undefined
  | Listening (o : options).

(** An operation that may throw, [stop] says what of the exception *)
Definition unless (stop : exn -> listening) (r : outcome unit * AC) (k : AC -> listening * AC) : listening * AC :=
  match r with
  | (Ok _, a) => k a
  | (Throws e, a) => (stop e, a)
  | (Crash _, a) => (Undefined, a)
  end.

Definition main_listen (o : options) (a : AC) : listening * AC :=
  unless Uncaught (acc_open a) (fun a =>
  unless Uncaught (acc_reuse_address a) (fun a =>
  let '(o, a) := negotiate_reuse_port o a in
  let '(_, a) := native_setsockopt IPPROTO_TCP TCP_FASTOPEN 1 a in
  unless Reported (acc_bind (u16 (serve_port o)) a) (fun a =>
  unless Reported (acc_listen a) (fun a => (Listening o, a))))).
End Main.

(** ** http_service *)
Record http_service := HttpService {
  run_ : bool;
  sv_opt_ : options;
  mem_ : option iobufs;
  tik_ : Z
}.
Definition http_service_new : http_service := HttpService true options_default None 0.

(** [chunk]: what [malloc] gives the pool; [log]: whether [initlog] succeeds *)
Definition setup (chunk : Z) (log : outcome unit) (opt : options) (s : http_service) : outcome http_service :=
  let s := HttpService (run_ s) opt (Some (iobufs_new (i32 (iobuf_size opt)) (i32 (iobuf_count opt)) chunk)) (tik_ s) in
  log ;; Ok s.
Definition stop (s : http_service) : http_service := HttpService false (sv_opt_ s) (mem_ s) (tik_ s).

Section Service.
Context {A : Type} {HP : Type} `{HttpParser HP} {W : Type}.
Context {SK : Type} `{Trans SK} {TM : Type} `{TimerLib TM} {AC : Type} `{!Acceptor AC SK}.
Notation mods := (modules (handler_t (A := A) (HP := HP) (W := W))).

(** Called by the library once a second *)
Definition time_tick (s : http_service) (l : TM) : http_service * TM :=
  let '(i, l) := co_timer_add l in
  (HttpService (run_ s) (sv_opt_ s) (mem_ s) i, l).

(** What a connection takes of the options, and the modules *)
Definition conn_options_of (o : options) (m : mods) : conn_options :=
  ConnOptions (opt_max_header_size o) (opt_max_body_size o) (negb (opt_timer_life o =? -1)) m.

(** What the loop works on: the kernel's semaphores, the acceptor, the timers, the
    modules' own state, and [conid] *)
Record serving := Serving {
  sg_sem : sem_kernel;
  sg_acc : AC;
  sg_lib : TM;
  sg_mods : W;
  sg_conid : Z
}.

(** A connection whose coroutine is started *)
Record started := Started { st_id : Z; st_sock : SK; st_timers : timers }.

(** One round of the loop; [None]: it waits for the semaphore. *)
Definition accept_round (s : http_service) (m : mods) (sem : semops) (pid : Z) (x : serving)
    : option (outcome (option started) * serving) :=
  k ← (if reuse_port (sv_opt_ s) =? 0 then '(k, _) ← semops_wait sem (sg_sem x); Some k else Some (sg_sem x));
  let '(ec, trans, acc) := acc_accept (sg_acc x) in
  k ← (if reuse_port (sv_opt_ s) =? 0 then semops_wake sem k else Some k);
  if negb (ec =? 0) then Some (Ok None, Serving k acc (sg_lib x) (sg_mods x) (sg_conid x)) else
  let conid := u32 (sg_conid x + 1) in
  let connid := Z.lor (u64 (Z.shiftl pid 32)) conid in
  let '(r, l, w) := http_connection_new (conn_options_of (sv_opt_ s) m) connid trans (sg_lib x) (sg_mods x) in
  Some (match r with
        | Ok t => Ok (Some (Started connid trans t))
        | Throws e => Throws e
        | Crash f => Crash f
        end, Serving k acc l w conid).

(** [while(run_)], [n] rounds until [run_] is reset: the connections that are started, and
    whether an exception ends the loop *)
Fixpoint accept_loop (n : nat) (s : http_service) (m : mods) (sem : semops) (pid : Z) (x : serving)
    : option (list started * outcome unit * serving) :=
  match n with
  | O => Some ([], Ok tt, x)
  | S n' =>
    if negb (run_ s) then Some ([], Ok tt, x) else
    '(r, x) ← accept_round s m sem pid x;
    match r with
    | Ok c =>
      '(l, r, x) ← accept_loop n' s m sem pid x;
      Some (match c with Some c => c :: l | None => l end, r, x)
    | Throws e => Some ([], Throws e, x)
    | Crash f => Some ([], Crash f, x)
    end
  end.

(** [start]: the timer, the modules, the loop, and, unless it throws, the modules
    again *)
Definition service_start (n : nat) (s : http_service) (m : mods) (sem : semops) (pid : Z)
    (k : sem_kernel) (acc : AC) (l : TM) (w : W) : option (list started * outcome unit * http_service * serving) :=
  let '(s, l) := time_tick s l in
  let w := service_init m w in
  '(cs, r, x) ← accept_loop n s m sem pid (Serving k acc l w 0);
  Some (cs, r, s, match r with
                  | Ok _ => Serving (sg_sem x) (sg_acc x) (sg_lib x) (service_exit m (sg_mods x)) (sg_conid x)
                  | _ => x
                  end).
End Service.

(** ** The workers and the semaphore: who is between [wait] and [wake] *)
Inductive mutex_step (sem : semops) : gset Z * sem_kernel -> gset Z * sem_kernel -> Prop :=
  | mutex_wait p inside k k' r :
      p ∉ inside -> semops_wait sem k = Some (k', r) -> mutex_step sem (inside, k) ({[p]} ∪ inside, k')
  | mutex_wake p inside k k' :
      p ∈ inside -> semops_wake sem k = Some k' -> mutex_step sem (inside, k) (inside ∖ {[p]}, k').

(** ** Lemmas: the semaphore *)
Definition sem_ready (sem : semops) (k : sem_kernel) : Prop :=
  match sems k !! semid_ sem with Some v => 1 <= v | None => True end.

Lemma wait_wake sem k : sem_ready sem k ->
  exists k1 r k2, semops_wait sem k = Some (k1, r) /\ semops_wake sem k1 = Some k2 /\
    sems k2 = sems k /\ next_sem k2 = next_sem k.
Proof.
  unfold sem_ready, semops_wait, semops_wake, semop. destruct (sems k !! semid_ sem) as [v|] eqn:E; intros Hv.
  - rewrite (proj2 (Z.ltb_ge _ _)) by lia. cbn. do 3 eexists. split; [done|]. cbn.
    rewrite lookup_insert_eq. rewrite (proj2 (Z.ltb_ge _ _)) by lia. cbn. split; [done|]. cbn.
    rewrite insert_insert_eq. split; [|done]. apply insert_id. rewrite E. f_equal. lia.
  - cbn. do 3 eexists. split; [done|]. rewrite E. cbn. done.
Qed.

(** ** Lemmas: the accept loop *)
Section Laws.
Context {A : Type} {HP : Type} `{HttpParser HP} {W : Type}.
Context {SK : Type} `{TransLaws SK} {TM : Type} `{TimerLaws TM} {AC : Type} `{!Acceptor AC SK}.
Implicit Types (x : serving (TM := TM) (W := W) (AC := AC)) (acc : AC).
Notation mods := (modules (handler_t (A := A) (HP := HP) (W := W))).

(** The first results of [accept]: whether it succeeded, and the socket *)
Fixpoint accepts (n : nat) acc : list (bool * SK) :=
  match n with
  | O => []
  | S n' => let '(ec, s, acc) := acc_accept acc in (ec =? 0, s) :: accepts n' acc
  end.
Definition sockets (l : list (bool * SK)) : list SK := snd <$> filter (fun a => a.1 = true) l.

(** Every module that asked for it is told of each identifier. *)
Definition told (o : options) (m : mods) (ids : list Z) (w : W) : W :=
  fold_left (fun w id => tell_init (conn_options_of o m) id w) ids w.

(** The timers that the constructor has left a connection with: the life timer, new and
    armed, if the options have one *)
Definition starts_with (o : options) (l l' : TM) (t : timers) : Prop :=
  timer_idle_ t = None /\
  if opt_timer_life o =? -1 then timer_life_ t = None
  else exists i, timer_life_ t = Some i /\ i ∉ issued l /\ i ∈ armed l'.

Lemma timers_new_starts o l t l' :
  timers_new (negb (opt_timer_life o =? -1)) l = (t, l') ->
  starts_with o l l' t /\ armed l ⊆ armed l' /\ issued l ⊆ issued l'.
Proof.
  unfold timers_new, starts_with. destruct (opt_timer_life o =? -1); cbn [negb].
  - by intros [= <- <-].
  - destruct (co_timer_add l) as [i l1] eqn:E. intros [= <- <-]. destruct (add_timer _ _ _ E) as (Hi & -> & ->).
    split; [split; [done|exists i; set_solver]|set_solver].
Qed.

(** What a round does: an [accept] that failed changes nothing else; one that succeeded
    has the modules told, and its connection is started unless the peer is gone. *)
Lemma accept_round_spec s (m : mods) sem pid x :
  sem_ready sem (sg_sem x) ->
  let '(ec, sock, acc) := acc_accept (sg_acc x) in
  let conid := u32 (sg_conid x + 1) in
  let id := Z.lor (u64 (Z.shiftl pid 32)) conid in
  exists r x', accept_round s m sem pid x = Some (r, x') /\
    sems (sg_sem x') = sems (sg_sem x) /\ sg_acc x' = acc /\
    armed (sg_lib x) ⊆ armed (sg_lib x') /\ issued (sg_lib x) ⊆ issued (sg_lib x') /\
    if ec =? 0 then
      sg_conid x' = conid /\ sg_mods x' = tell_init (conn_options_of (sv_opt_ s) m) id (sg_mods x) /\
      match r with
      | Ok c => exists t, c = Some (Started id sock t) /\ starts_with (sv_opt_ s) (sg_lib x) (sg_lib x') t
      | Throws e => trans_remote_endpoint sock = Throws e
      | Crash _ => False
      end
    else r = Ok None /\ sg_conid x' = sg_conid x /\ sg_mods x' = sg_mods x.
Proof.
  intros Hs. destruct (wait_wake sem _ Hs) as (k1 & r0 & k2 & Ewait & Ewake & Es & _).
  destruct (acc_accept (sg_acc x)) as [[ec sock] acc] eqn:Ea.
  assert (exists k, sems k = sems (sg_sem x) /\ accept_round s m sem pid x =
    if negb (ec =? 0) then Some (Ok None, Serving k acc (sg_lib x) (sg_mods x) (sg_conid x)) else
    let conid := u32 (sg_conid x + 1) in
    let connid := Z.lor (u64 (Z.shiftl pid 32)) conid in
    let '(r, l, w) := http_connection_new (conn_options_of (sv_opt_ s) m) connid sock (sg_lib x) (sg_mods x) in
    Some (match r with
          | Ok t => Ok (Some (Started connid sock t))
          | Throws e => Throws e
          | Crash f => Crash f
          end, Serving k acc l w conid)) as (k & Ek & ->).
  { unfold accept_round. destruct (reuse_port (sv_opt_ s) =? 0).
    - rewrite Ewait. cbn. rewrite Ea, Ewake. by exists k2.
    - exists (sg_sem x). split; [done|]. cbn. by rewrite Ea. }
  cbv zeta. destruct (ec =? 0); cbn [negb]; [|by do 2 eexists].
  set (id := Z.lor _ _). unfold http_connection_new.
  pose proof (endpoint_throws sock) as He.
  destruct (trans_remote_endpoint sock) as [[]|e|] eqn:Ee; [|by do 2 eexists; split; [done|]|done].
  cbn [timer_life_set conn_options_of].
  destruct (timers_new _ (sg_lib x)) as [t l] eqn:Et. destruct (timers_new_starts _ _ _ _ Et) as (Hst & Ha & Hi).
  do 2 eexists. split; [done|]. cbn. split_and!; [done..|]. by exists t.
Qed.

Lemma starts_with_mono o l l1 l2 l3 t :
  issued l ⊆ issued l1 -> armed l2 ⊆ armed l3 -> starts_with o l1 l2 t -> starts_with o l l3 t.
Proof.
  intros Hi Ha [Ht Hl]. split; [done|]. destruct (opt_timer_life o =? -1); [done|].
  destruct Hl as (i & ? & ? & ?). exists i. set_solver.
Qed.

Lemma accept_loop_spec n s (m : mods) sem pid x :
  run_ s = true -> sem_ready sem (sg_sem x) ->
  exists k cs r x', accept_loop n s m sem pid x = Some (cs, r, x') /\ (k <= n)%nat /\
    let l := accepts k (sg_acc x) in
    let ids := service_loop pid (sg_conid x) (fst <$> l) in
    sems (sg_sem x') = sems (sg_sem x) /\
    armed (sg_lib x) ⊆ armed (sg_lib x') /\
    sg_mods x' = told (sv_opt_ s) m ids (sg_mods x) /\
    Forall (fun c => starts_with (sv_opt_ s) (sg_lib x) (sg_lib x') (st_timers c)) cs /\
    match r with
    | Ok _ => k = n /\ st_id <$> cs = ids /\ st_sock <$> cs = sockets l
    | Throws e => exists id sock, (st_id <$> cs) ++ [id] = ids /\ (st_sock <$> cs) ++ [sock] = sockets l /\
        trans_remote_endpoint sock = Throws e
    | Crash _ => False
    end.
Proof.
  intros Hr. revert x. induction n as [|n IH]; intros x Hs.
  - exists O, [], (Ok tt), x. by split_and!.
  - cbn [accept_loop]. rewrite Hr. cbn [negb].
    pose proof (accept_round_spec s m sem pid x Hs) as Hrd.
    destruct (acc_accept (sg_acc x)) as [[ec sock] acc] eqn:Ea. cbv zeta in Hrd.
    destruct Hrd as (r & x1 & -> & Es1 & Eacc & Ha1 & Hi1 & Hc). cbn [mbind option_bind].
    assert (forall k, accepts (S k) (sg_acc x) = (ec =? 0, sock) :: accepts k (sg_acc x1)) as Hcons
      by (intros k; cbn [accepts]; by rewrite Ea, Eacc).
    assert (sem_ready sem (sg_sem x1)) as Hs1 by (unfold sem_ready; by rewrite Es1).
    destruct (IH x1 Hs1) as (k & cs & r2 & x2 & E2 & Hk & Hsems & Harm & Hmods & Hst & Hres).
    destruct (ec =? 0) eqn:Eec.
    + destruct Hc as (Econ & Emods & Hc). destruct r as [c|e|]; [|clear E2 Hsems Harm Hmods Hst Hres k cs r2 x2 Hk|done].
      * destruct Hc as (t & -> & Ht). rewrite E2. cbn [mbind option_bind].
        exists (S k). do 3 eexists. split; [done|]. split; [lia|]. cbv zeta. rewrite Hcons.
        cbn [fmap list_fmap fst snd service_loop sockets]. rewrite <- Econ. cbv zeta.
        unfold sockets. rewrite filter_cons_True by done. cbn [fmap list_fmap snd st_id st_sock].
        split_and!; [congruence|set_solver| | |].
        -- rewrite Hmods, Emods, Econ. done.
        -- constructor; [by eapply starts_with_mono; [|exact Harm|exact Ht]|].
           eapply Forall_impl; [exact Hst|]. intros c'. by apply starts_with_mono.
        -- destruct r2 as [|e2|]; [| |done].
           ++ destruct Hres as (-> & -> & ->). by rewrite Econ.
           ++ destruct Hres as (id & sk & E1 & E3 & E4). exists id, sk. cbn [app]. by rewrite E1, E3, Econ.
      * exists 1%nat, [], (Throws e), x1. split; [done|]. split; [lia|]. cbv zeta. rewrite Hcons.
        cbn [accepts fmap list_fmap fst service_loop]. rewrite <- Econ. cbv zeta. unfold sockets.
        rewrite filter_cons_True by done. cbn. split_and!; [done|done| |constructor|].
        -- by rewrite Econ.
        -- by do 2 eexists.
    + destruct Hc as (-> & Econ & Emods). rewrite E2. cbn [mbind option_bind].
      exists (S k), cs, r2, x2. split; [done|]. split; [lia|]. cbv zeta. rewrite Hcons.
      cbn [fmap list_fmap fst service_loop]. unfold sockets. rewrite filter_cons_False by done.
      rewrite Econ, Emods in *. split_and!; [congruence|set_solver|done| |].
      * eapply Forall_impl; [exact Hst|]. intros c'. by apply starts_with_mono.
      * destruct r2 as [|e2|]; [|done|done]. by destruct Hres as (-> & ? & ?).
Qed.
End Laws.

(** ** Lemmas: the semaphore among the workers *)
Definition semaphore_of (sem : semops) (x : gset Z * sem_kernel) : Prop :=
  exists v, sems x.2 !! semid_ sem = Some v /\ 0 <= v /\ v + Z.of_nat (base.size x.1) = 1.

Lemma mutex_step_ok sem x y : semaphore_of sem x -> mutex_step sem x y -> semaphore_of sem y.
Proof.
  intros (v & Ev & Hv & Hsz) Hs. inversion Hs as [p inside k k' r Hp Hw|p inside k k' Hp Hw]; subst; cbn in *.
  - unfold semops_wait, semop in Hw. rewrite Ev in Hw. destruct (Z.ltb_spec (v + -1) 0); [done|].
    cbn in Hw. injection Hw as <- _. exists (v - 1). unfold semaphore_of. cbn. rewrite lookup_insert_eq.
    split; [done|]. rewrite size_union, size_singleton by set_solver. lia.
  - unfold semops_wake, semop in Hw. rewrite Ev in Hw. rewrite (proj2 (Z.ltb_ge _ _)) in Hw by lia.
    cbn in Hw. injection Hw as <-. exists (v + 1). cbn. rewrite lookup_insert_eq. split; [done|].
    rewrite size_difference, size_singleton by set_solver.
    assert (base.size inside <> 0)%nat; [|lia]. intros E%size_empty_inv. set_solver.
Qed.

(** ** Properties *)

(** C7. A worker's accept loop, with [run_] set at first and reset after [n] rounds: the semaphore never
    keeps it waiting when it is free, or broken, and is as before; the identifiers are
    those [service_loop] gives to the [accept]s that succeeded, and the modules that
    asked for it are told of every one, in order; the connections that are started are
    those on the sockets of these [accept]s, each with a life timer of its own, new and
    armed, if the options have one.  Only a socket whose peer is gone before the
    constructor asks for its address ends the loop early: its exception leaves [start],
    after the modules have been told of that connection too, and then they are not told
    of the end of the process.  Otherwise all [n] rounds are made and they are. *)
Theorem accept_loop_correct {A HP} `{HttpParser HP} {W} {SK} `{TransLaws SK} {TM} `{TimerLaws TM} {AC}
    `{!Acceptor AC SK} n s (m : modules (handler_t (A := A) (HP := HP) (W := W))) sem pid k (acc : AC) (l : TM) (w : W) :
  run_ s = true -> sem_ready sem k ->
  exists j cs r s' x, service_start n s m sem pid k acc l w = Some (cs, r, s', x) /\ (j <= n)%nat /\
    let ids := service_loop pid 0 (fst <$> accepts j acc) in
    let told_all := told (sv_opt_ s) m ids (service_init m w) in
    sems (sg_sem x) = sems k /\
    tik_ s' ∉ issued l /\ tik_ s' ∈ armed (sg_lib x) /\ armed l ⊆ armed (sg_lib x) /\
    Forall (fun c => starts_with (sv_opt_ s) l (sg_lib x) (st_timers c)) cs /\
    match r with
    | Ok _ => j = n /\ st_id <$> cs = ids /\ st_sock <$> cs = sockets (accepts j acc) /\
        sg_mods x = service_exit m told_all
    | Throws e => exists id sock, (st_id <$> cs) ++ [id] = ids /\
        (st_sock <$> cs) ++ [sock] = sockets (accepts j acc) /\ trans_remote_endpoint sock = Throws e /\
        sg_mods x = told_all
    | Crash _ => False
    end.
Proof.
  intros Hr Hs. unfold service_start, time_tick. destruct (co_timer_add l) as [i l1] eqn:E.
  destruct (add_timer _ _ _ E) as (Hi & Hiss & Harm1). set (s1 := HttpService _ _ _ i).
  destruct (accept_loop_spec n s1 m sem pid (Serving k acc l1 (service_init m w) 0) Hr Hs)
    as (j & cs & r & x & -> & Hj & Hsems & Harm & Hmods & Hst & Hres). cbn [mbind option_bind].
  cbn [sg_sem sg_acc sg_lib sg_mods sg_conid] in *. change (sv_opt_ s1) with (sv_opt_ s) in *. rewrite Harm1 in Harm.
  do 5 eexists. split; [done|]. split; [done|]. cbv zeta.
  assert (Forall (fun c => starts_with (sv_opt_ s) l (sg_lib x) (st_timers c)) cs) as Hst'.
  { eapply Forall_impl; [exact Hst|]. intros c. apply starts_with_mono; [set_solver|done]. }
  destruct r as [[]|e|]; [| |done].
  - destruct Hres as (-> & ? & ?). cbn. split_and!; [done|done|set_solver|set_solver|done|done|done|done|by rewrite Hmods].
  - destruct Hres as (id & sock & ? & ? & ?). split_and!; [done|done|set_solver|set_solver|done|]. exists id, sock. by split_and!.
Qed.

(** Two sockets, the second of which is gone when it is asked, and a failed [accept] *)
#[export] Instance list_Acceptor : Acceptor (list (Z * script)) script := fun l =>
  match l with [] => (11, Script [] [] [] false, []) | (ec, s) :: l => (ec, s, l) end.
Definition recorder : handler_t (A := bump) (HP := http_errno) (W := list Z) :=
  ModuleHandler (Z.lor HE_CONNECT_INIT HE_PROCESS_INIT) None (lit "recorder") (cons 0) (cons (-1)) cons (fun _ => id)
    (fun _ _ _ s => Ok s) (fun _ _ _ s => Ok s).
Definition example_sockets : list (Z * script) :=
  [(0, Script [] [] [] false); (24, Script [] [] [] false); (0, Script [] [] [] true); (0, Script [] [] [] false)].

Lemma accept_loop_correct_witness :
  exists cs s' x, service_start 4 http_service_new (Modules None [([], recorder)] 1) (Semops 4) 5
      (SemKernel {[4 := 1]} 5) example_sockets (Clock 0 ∅) [] =
    Some (cs, Throws (SystemError 107), s', x) /\
    st_id <$> cs = [5 * 2 ^ 32 + 1] /\ sg_mods x = [5 * 2 ^ 32 + 2; 5 * 2 ^ 32 + 1; 0] /\
    sems (sg_sem x) = {[4 := 1]}.
Proof.
  destruct (accept_loop_correct 4 http_service_new (Modules None [([], recorder)] 1) (Semops 4) 5
    (SemKernel {[4 := 1]} 5) example_sockets (Clock 0 ∅) [])
    as (j & cs & r & s' & x & E & _ & Hs & _); [reflexivity|vm_compute; discriminate|].
  assert (exists cs s' x, service_start 4 http_service_new (Modules None [([], recorder)] 1) (Semops 4) 5
      (SemKernel {[4 := 1]} 5) example_sockets (Clock 0 ∅) [] = Some (cs, Throws (SystemError 107), s', x) /\
    st_id <$> cs = [5 * 2 ^ 32 + 1] /\ sg_mods x = [5 * 2 ^ 32 + 2; 5 * 2 ^ 32 + 1; 0]) as (cs' & s2 & x' & E' & Hids & Hm)
    by (do 3 eexists; split; [vm_compute; reflexivity|split; vm_compute; reflexivity]).
  rewrite E' in E. injection E as -> <- -> ->. exists cs, s', x.
  split; [exact E'|]. split; [exact Hids|]. split; [exact Hm|exact Hs].
Defined.

(** The accept semaphore: one that has its kernel semaphore of value 1 lets
    at most one worker at a time between [wait] and [wake], in every
    interleaving of any workers; the one the program makes lets two workers in
    at once. *)
Theorem accept_mutex `{Errno} sem k :
  sems k !! semid_ sem = Some 1 ->
  (forall inside k', rtc (mutex_step sem) (∅, k) (inside, k') -> (base.size inside <= 1)%nat) /\
  (forall k0, kernel_ok k0 -> exists k1 sem1 k2, semops_new true 1 k0 = Ok (k1, sem1) /\
     rtc (mutex_step sem1) (∅, k1) ({[1; 2]}, k2)).
Proof.
  intros Hk. split.
  - intros inside k' Hr.
    assert (forall x y, rtc (mutex_step sem) x y -> semaphore_of sem x -> semaphore_of sem y) as Hall.
    { induction 1 as [|x y z Hs _ IH]; [done|]. intros Hx. by eapply IH, mutex_step_ok. }
    destruct (Hall _ _ Hr) as (v & _ & Hv & Hsz); [|cbn in *; lia].
    exists 1. split; [done|]. split; [lia|]. cbn. by rewrite size_empty.
  - intros k0 [Hn Hk0]. unfold semops_new, semget. cbn [next_sem].
    rewrite (proj2 (Z.eqb_neq (next_sem k0) (-1))) by lia.
    unfold semctl_setval. cbn [sems]. rewrite lookup_insert_eq. change (0 =? -1) with false. cbv iota.
    eexists _, _, _. split; [reflexivity|]. cbn [sems next_sem]. set (k1 := SemKernel _ _).
    assert (semop (-1) (-1) k1 = Some (k1, -1)) as Ew.
    { unfold semop. assert (sems k1 !! (-1) = None) as ->; [|done]. cbn. apply eq_None_not_Some.
      rewrite insert_insert_eq, lookup_insert_is_Some'. intros [E|Hs]; [lia|]. apply Hk0 in Hs. lia. }
    eapply rtc_l; [apply (mutex_wait _ 2 ∅ k1 k1 false); [apply not_elem_of_empty|]|].
    { unfold semops_wait. cbn [semid_]. by rewrite Ew. }
    eapply rtc_l; [apply (mutex_wait _ 1 ({[2]} ∪ ∅) k1 k1 false);
      [rewrite elem_of_union, elem_of_singleton; intros [?|?%not_elem_of_empty]; [lia|done]|]|].
    { unfold semops_wait. cbn [semid_]. by rewrite Ew. }
    rewrite (right_id_L ∅ (∪)). apply rtc_refl.
Qed.

Lemma accept_mutex_witness :
  exists k', rtc (mutex_step (Semops 4)) (∅, SemKernel {[4 := 1]} 5) ({[7]}, k') /\
    (base.size ({[7%Z]} : gset Z) <= 1)%nat.
Proof.
  destruct (semops_wait (Semops 4) (SemKernel {[4 := 1]} 5)) as [[k' r]|] eqn:E; [|vm_compute in E; discriminate].
  assert (rtc (mutex_step (Semops 4)) (∅, SemKernel {[4 := 1]} 5) ({[7]}, k')) as Hr.
  { apply rtc_once. rewrite <- (right_id_L ∅ (∪) {[7]}). apply (mutex_wait _ 7 ∅ _ k' r); [|exact E].
    apply not_elem_of_empty. }
  exists k'. split; [exact Hr|].
  destruct (accept_mutex (H := sample_errno) (Semops 4) (SemKernel {[4 := 1]} 5)) as [Hm _];
    [vm_compute; reflexivity|exact (Hm _ _ Hr)].
Defined.

(** How [main] comes to its listening socket: when it goes on to fork, [reuse_port]
    is 1 or 0, 1 only if it was configured and the kernel has agreed twice, and no
    other option changes.  When it does not, it leaves with the exception of the
    operation that threw, which is reported only from [bind] on. *)
Theorem main_listens {AC} `{Listener AC} (o : options) (a : AC) :
  (forall a, may_fail (acc_open a).1) -> (forall a, may_fail (acc_reuse_address a).1) ->
  (forall p a, may_fail (acc_bind p a).1) -> (forall a, may_fail (acc_listen a).1) ->
  match (main_listen o a).1 with
  | Listening o' => o' = set_reuse_port (reuse_port o') o /\ (reuse_port o' = 0 \/ reuse_port o' = 1) /\
      (reuse_port o = 0 -> o' = o)
  | Uncaught e => exists a', (acc_open a').1 = Throws e \/ (acc_reuse_address a').1 = Throws e
  | Reported e => exists a', (acc_bind (u16 (serve_port o)) a').1 = Throws e \/ (acc_listen a').1 = Throws e
  | Undefined => False
  end.
Proof.
  intros H1 H2 H3 H4. unfold main_listen, unless.
  pose proof (H1 a) as M. destruct (acc_open a) as [[[]|e|] a1] eqn:E1; cbn in *; [clear M|by exists a; left; rewrite E1|done].
  pose proof (H2 a1) as M. destruct (acc_reuse_address a1) as [[[]|e|] a2] eqn:E2; cbn in *;
    [clear M|by exists a1; right; rewrite E2|done].
  destruct (negotiate_reuse_port o a2) as [o' a3] eqn:E3.
  assert (serve_port o' = serve_port o /\ o' = set_reuse_port (reuse_port o') o /\ (reuse_port o' = 0 \/ reuse_port o' = 1) /\
      (reuse_port o = 0 -> o' = o)) as (-> & Ho').
  { revert E3. unfold negotiate_reuse_port. destruct (Z.eqb_spec (reuse_port o) 0) as [E|E]; cbn [negb].
    - intros [= <- _]. destruct o; cbn in *; auto.
    - destruct (native_getsockopt _ _ _) as [[rc v] a4]. destruct (rc =? -1); [|destruct (native_setsockopt _ _ _ a4) as [rc2 a5]; destruct (rc2 =? 0)];
        intros [= <- _]; cbn; split_and!; (done || tauto || auto). }
  destruct (native_setsockopt _ _ 1 a3) as [rc a4].
  pose proof (H3 (u16 (serve_port o)) a4) as M. destruct (acc_bind _ a4) as [[[]|e|] a5] eqn:E5; cbn in *;
    [clear M|by exists a4; left; rewrite E5|done].
  pose proof (H4 a5) as M. destruct (acc_listen a5) as [[[]|e|] a6] eqn:E6; cbn in *;
    [done|by exists a5; right; rewrite E6|done].
Qed.
