(* ===== verification/Redis.v ===== *)
(** * The redis module at work (src/src/modules/redis.cpp)

    Its constructor reads the list of servers; [on_process_init] starts one
    coroutine per server, the worker, which takes commands from a channel, sends
    them and puts the replies into the channel of the connection that asked;
    the callback of a request puts two commands into the channel of its server
    and takes two replies, each with a timeout.  Coroutines switch where they
    wait, so the system is a step relation with one step between two waits; what
    time and the network decide is left to the rules.  Builtin has the page that
    that is made of the replies.  boost's tokenizer and lexical_cast, libgo's
    channels and hiredis are classes.  [redis_reply_] is an [unordered_map], and an
    insertion may rehash it, which invalidates the iterators into it: [rehashes_]
    counts these times, and a worker remembers the count at which it got its
    iterator. *)
From stdpp Require Import relations.
From S2P Require Import Prelude Stdio Builtin.
#[local] Open Scope Z_scope.

(** ** boost, libgo, hiredis *)
Class Tokens := {
  tokenize : list byte -> list (list byte);
  lexical_cast_ushort : list byte -> option Z
}.
Class TokensLaws `{Tokens} := {
  tokenize_two h p : h <> [] -> p <> [] -> Byte.x3a ∉ h -> Byte.x3a ∉ p ->
    tokenize (h ++ lit ":" ++ p) = [h; p];
  cast_dec n : 0 <= n < 2 ^ 16 -> lexical_cast_ushort (dec n) = Some n;
  cast_range t n : lexical_cast_ushort t = Some n -> 0 <= n < 2 ^ 16
}.

(** A channel is a bounded queue; [None]: it is full, or empty. *)
Class Channel (T Q : Type) := {
  chan_new : Z -> Q;
  chan_push : T -> Q -> option Q;
  chan_pop : Q -> option (T * Q)
}.
Class ChannelLaws (T Q : Type) `{Channel T Q} := {
  items : Q -> list T;
  items_new n : items (chan_new n) = [];
  push_items x c c' : chan_push x c = Some c' -> items c' = items c ++ [x];
  pop_items x c c' : chan_pop c = Some (x, c') -> items c = x :: items c'
}.

(** A context of hiredis; what the peer sends is part of it.  [redisConnect] is
    given the number of the attempt, [None] is a context that could not be
    allocated.  A reply is null when the connection has failed, and then it
    stays failed. *)
Class Hiredis (X : Type) := {
  redisConnect : list byte -> Z -> nat -> option X;
  ctx_err : X -> bool;
  redisAppendCommand : X -> list byte -> X;
  redisGetReply : X -> X * option redis_reply
}.
Class HiredisLaws (X : Type) `{Hiredis X} := {
  pending : X -> list (list byte);
  answers : list byte -> redis_reply -> Prop;
  connect_pending h p n x : redisConnect h p n = Some x -> pending x = [];
  append_pending x c : pending (redisAppendCommand x c) = pending x ++ [c];
  reply_answers x x' c l rr : redisGetReply x = (x', Some rr) -> pending x = c :: l ->
    pending x' = l /\ answers c rr;
  reply_null x x' : redisGetReply x = (x', None) -> ctx_err x' = true;
  reply_failed x x' r : redisGetReply x = (x', r) -> ctx_err x = true -> r = None
}.

(** ** The constructor *)
Section Constructor.
Context `{Tokens}.

Definition read_endpoint (ep : list byte) : option endpoint :=
  match tokenize ep with
  | [host; port] => p ← lexical_cast_ushort port; Some (Endpoint host p)
  | _ => None
  end.

(** [servers[i].as<std::string>()] may throw. *)
Fixpoint read_servers (servers : list (outcome (list byte))) (config : list endpoint)
    : outcome (list endpoint) :=
  match servers with
  | [] => Ok config
  | s :: servers' =>
    ep ← s;
    match read_endpoint ep with
    | Some e => read_servers servers' (config ++ [e])
    | None => read_servers servers' config
    end
  end.
End Constructor.

Section Module.
Context {QC : Type} `{Channel command QC} {QR : Type} `{Channel (option redis_reply) QR}.
Context {X : Type} `{Hiredis X}.

Record redis_module := RedisModule {
  config_ : list endpoint;
  running_ : bool;
  redis_order_ : list QC;
  redis_reply_ : gmap Z QR;
  rehashes_ : nat
}.

Definition redis_module_new `{Tokens} (servers : option (list (outcome (list byte)))) : outcome redis_module :=
  config ← match servers with Some l => read_servers l [] | None => Ok [] end;
  Ok (RedisModule config true ((fun _ => chan_new (Q := QC) 1024) <$> config) ∅ 0).

Definition with_reply (f : gmap Z QR -> gmap Z QR)
    (m : redis_module) : redis_module :=
  RedisModule (config_ m) (running_ m) (redis_order_ m) (f (redis_reply_ m)) (rehashes_ m).
(** [redis_reply_[cid]] inserts an entry if there is none; [rehash]: the insertion,
    if there is one, rehashes the table. *)
Definition subscript (rehash : bool) (cid : Z) (m : redis_module) : redis_module :=
  RedisModule (config_ m) (running_ m) (redis_order_ m) (redis_reply_ m)
    (rehashes_ m + if bool_decide (is_Some (redis_reply_ m !! cid)) then 0 else if rehash then 1 else 0).
Definition with_order (i : nat) (c : QC) (m : redis_module) : redis_module :=
  RedisModule (config_ m) (running_ m) (<[i := c]> (redis_order_ m)) (redis_reply_ m) (rehashes_ m).

Definition on_connect_init (rehash : bool) (cid : Z) (m : redis_module) : redis_module :=
  with_reply (redis_on_connect_init (chan_new (Q := QR) 256) cid) (subscript rehash cid m).
Definition on_connect_exit (cid : Z) (m : redis_module) : redis_module :=
  with_reply (redis_on_connect_exit cid) m.

(** ** The worker: where it waits, or [WHead] at the head of its loop *)
Inductive connection_state := unknown | connected | disconnected.
Inductive worker_pc :=
  | WHead
  | WTake                                            (* *redis_order_[i] >> cmd *)
  | WReply (cmd : command) (i : nat)                 (* redisGetReply *)
  | WPush (cmd : command) (i : nat) (rr : option redis_reply) (* it->second << rr *)
  | WRoom (cmd : command) (i : nat) (rr : option redis_reply) (* in it, the channel is full *)
  | WDone.
(** [w_it]: the [rehashes_] of the table when [it] was found *)
Record worker := Worker { w_pc : worker_pc; w_cs : connection_state; w_context : option X; w_it : nat }.
Definition worker_new : worker := Worker WHead unknown None 0.

Definition bad_context (c : option X) : bool := match c with None => true | Some x => ctx_err x end.

Definition worker_head (running : bool) (ep : endpoint) (attempt : nat) (w : worker) : worker :=
  if negb running then Worker WDone (w_cs w) (w_context w) (w_it w) else
  let context := if bad_context (w_context w)
    then redisConnect (ep_host ep) (ep_port ep) attempt else w_context w in
  if bad_context context then Worker WHead disconnected context (w_it w)
  else Worker WTake connected context (w_it w).

(** The end of the loop over the commands of [cmd] *)
Definition worker_next (cmd : command) (i : nat) : worker_pc :=
  if (i <? length (cmd_cmd cmd))%nat then WReply cmd i else WHead.

Definition worker_take (m : redis_module) (cmd : command) (w : worker) : worker :=
  match redis_reply_ m !! cmd_cid cmd with
  | None => Worker WHead (w_cs w) (w_context w) (w_it w)
  | Some _ =>
    Worker (worker_next cmd 0) (w_cs w)
      ((fun x => fold_left redisAppendCommand (cmd_cmd cmd) x) <$> w_context w) (rehashes_ m)
  end.

Definition worker_reply (cmd : command) (i : nat) (w : worker) : worker :=
  match w_context w with
  | Some x => let '(x, rr) := redisGetReply x in Worker (WPush cmd i rr) (w_cs w) (Some x) (w_it w)
  | None => w
  end.

(** The worker after [rr] has been put into the channel, which is then [c] *)
Definition pushed (m : redis_module) (cmd : command) (i : nat) (c : QR) (w : worker) : redis_module * worker :=
  (with_reply <[cmd_cid cmd := c]> m, Worker (worker_next cmd (S i)) (w_cs w) (w_context w) (w_it w)).

(** [it->second << rr]: [it] was found before the commands were sent, and may not be
    used when its entry has been erased or the table has been rehashed. *)
Definition worker_push (m : redis_module) (cmd : command) (i : nat) (rr : option redis_reply) (w : worker)
    : outcome (redis_module * worker) :=
  match redis_reply_ m !! cmd_cid cmd with
  | None => Crash DanglingReference
  | Some c =>
    if negb (w_it w =? rehashes_ m)%nat then Crash DanglingReference else
    match chan_push rr c with
    | Some c => Ok (pushed m cmd i c w)
    | None => Ok (m, Worker (WRoom cmd i rr) (w_cs w) (w_context w) (w_it w))
    end
  end.

(** Inside the channel, which goes with its entry; [None]: it is still full. *)
Definition worker_room (m : redis_module) (cmd : command) (i : nat) (rr : option redis_reply) (w : worker)
    : option (outcome (redis_module * worker)) :=
  match redis_reply_ m !! cmd_cid cmd with
  | None => Some (Crash DanglingReference)
  | Some c => c ← chan_push rr c; Some (Ok (pushed m cmd i c w))
  end.

(** ** The callback of a request, between its waits *)
Inductive handler_pc := HPop1 (tid : Z) | HPop2 (tid : Z) (r1 : option redis_reply).

Definition request_push (cid tid : Z) (m : redis_module) : option redis_module :=
  id ← redis_server cid (config_ m);
  c ← redis_order_ m !! Z.to_nat id;
  c ← chan_push (redis_command cid tid) c;
  Some (with_order (Z.to_nat id) c m).

(** [redis_reply_[cid]], a channel without room if there is none *)
Definition request_pop (rehash : bool) (cid : Z) (m : redis_module) : option (option redis_reply * redis_module) :=
  '(rr, c) ← chan_pop (default (chan_new (Q := QR) 0) (redis_reply_ m !! cid));
  Some (rr, with_reply <[cid := c]> (subscript rehash cid m)).

(** ** The system: module, workers, callbacks under way, connections there have
    been, and what the callbacks have got *)
Record page := Page { pg_cid : Z; pg_tid : Z; pg_r1 : option redis_reply; pg_r2 : option redis_reply }.
Record system := System {
  module_ : redis_module;
  workers : list worker;
  callbacks : gmap Z handler_pc;
  opened : gset Z;
  pages : list page
}.

Definition on_process_init (m : redis_module) : system :=
  System m ((fun _ => worker_new) <$> config_ m) ∅ ∅ [].

Definition set_worker (i : nat) (w : worker) (s : system) : system :=
  System (module_ s) (<[i := w]> (workers s)) (callbacks s) (opened s) (pages s).
Definition set_module (m : redis_module) (s : system) : system :=
  System m (workers s) (callbacks s) (opened s) (pages s).
Definition set_callback (cid : Z) (h : handler_pc) (s : system) : system :=
  System (module_ s) (workers s) (<[cid := h]> (callbacks s)) (opened s) (pages s).
Definition finish (cid tid : Z) (r1 r2 : option redis_reply) (s : system) : system :=
  System (module_ s) (workers s) (delete cid (callbacks s)) (opened s) (pages s ++ [Page cid tid r1 r2]).

(** [late]: a reply may take longer than the callback waits. *)
Inductive sys_step (late : bool) : system -> outcome system -> Prop :=
  | step_head s i w ep attempt :
      workers s !! i = Some w -> w_pc w = WHead -> config_ (module_ s) !! i = Some ep ->
      sys_step late s (Ok (set_worker i (worker_head (running_ (module_ s)) ep attempt w) s))
  | step_take s i w c cmd c' :
      workers s !! i = Some w -> w_pc w = WTake -> redis_order_ (module_ s) !! i = Some c ->
      chan_pop c = Some (cmd, c') ->
      sys_step late s (Ok (set_worker i (worker_take (module_ s) cmd w)
        (set_module (with_order i c' (module_ s)) s)))
  | step_reply s i w cmd j :
      workers s !! i = Some w -> w_pc w = WReply cmd j ->
      sys_step late s (Ok (set_worker i (worker_reply cmd j w) s))
  | step_push s i w cmd j rr :
      workers s !! i = Some w -> w_pc w = WPush cmd j rr ->
      sys_step late s ((fun x => set_worker i x.2 (set_module x.1 s)) <$> worker_push (module_ s) cmd j rr w)
  | step_room s i w cmd j rr r :
      workers s !! i = Some w -> w_pc w = WRoom cmd j rr -> worker_room (module_ s) cmd j rr w = Some r ->
      sys_step late s ((fun x => set_worker i x.2 (set_module x.1 s)) <$> r)
  | step_connect s cid rehash :
      cid ∉ opened s ->
      sys_step late s (Ok (System (on_connect_init rehash cid (module_ s)) (workers s) (callbacks s)
        ({[cid]} ∪ opened s) (pages s)))
  | step_exit s cid :
      callbacks s !! cid = None ->
      sys_step late s (Ok (set_module (on_connect_exit cid (module_ s)) s))
  | step_request s cid tid m :
      is_Some (redis_reply_ (module_ s) !! cid) -> callbacks s !! cid = None ->
      request_push cid tid (module_ s) = Some m ->
      sys_step late s (Ok (set_callback cid (HPop1 tid) (set_module m s)))
  | step_request_null s cid tid :                    (* no server, or the push timed out *)
      is_Some (redis_reply_ (module_ s) !! cid) -> callbacks s !! cid = None ->
      sys_step late s (Ok (finish cid tid None None s))
  | step_pop1 s cid tid r1 m rehash :
      callbacks s !! cid = Some (HPop1 tid) -> request_pop rehash cid (module_ s) = Some (r1, m) ->
      sys_step late s (Ok (set_callback cid (HPop2 tid r1) (set_module m s)))
  | step_pop2 s cid tid r1 r2 m rehash :
      callbacks s !! cid = Some (HPop2 tid r1) -> request_pop rehash cid (module_ s) = Some (r2, m) ->
      sys_step late s (Ok (finish cid tid r1 r2 (set_module m s)))
  | step_pop1_late s cid tid :
      late = true -> callbacks s !! cid = Some (HPop1 tid) ->
      sys_step late s (Ok (set_callback cid (HPop2 tid None) s))
  | step_pop2_late s cid tid r1 :
      late = true -> callbacks s !! cid = Some (HPop2 tid r1) ->
      sys_step late s (Ok (finish cid tid r1 None s)).

Definition run_step (late : bool) (s s' : system) : Prop := sys_step late s (Ok s').
End Module.

(** ** Where the commands and replies of a connection are *)
Section Invariant.
Context {QC : Type} `{ChannelLaws command QC} {QR : Type} `{ChannelLaws (option redis_reply) QR}.
Context {X : Type} `{HiredisLaws X}.
Implicit Types (m : redis_module (QC := QC) (QR := QR)) (s : system (QC := QC) (QR := QR) (X := X)).

Definition ok_reply (text : list byte) (r : option redis_reply) : Prop :=
  match r with Some rr => answers text rr | None => True end.







Definition page_ok (p : page) : Prop :=
  Forall2 ok_reply (cmd_cmd (redis_command (pg_cid p) (pg_tid p))) [pg_r1 p; pg_r2 p].




















End Invariant.

(** ** Lemmas: the constructor *)
Lemma digits_not_colon fuel n acc : 0 <= n -> Byte.x3a ∉ acc -> Byte.x3a ∉ digits fuel n acc.
Proof.
  revert n acc. induction fuel as [|fuel IH]; intros n acc Hn Ha; cbn [digits]; [done|].
  assert (0 <= n mod 10 < 10) as Hm by (apply Z.mod_pos_bound; lia).
  assert (Byte.x3a ∉ of_uchar (48 + n mod 10) :: acc).
  { rewrite elem_of_cons. intros [E|?]; [|done]. apply (f_equal uchar) in E.
    rewrite uchar_of_uchar in E by lia. change (uchar Byte.x3a) with 58 in E. lia. }
  destruct (n / 10 =? 0); [done|]. apply IH; [|done]. apply Z.div_pos; lia.
Qed.

Lemma digits_nonempty fuel n acc : digits (S fuel) n acc <> [].
Proof.
  revert n acc. induction fuel as [|fuel IH]; intros n acc; cbn [digits]; [by destruct (_ =? 0)|].
  destruct (_ =? 0); [done|]. apply IH.
Qed.

Definition endpoint_text (e : endpoint) : list byte := ep_host e ++ lit ":" ++ dec (ep_port e).
Definition endpoint_ok (e : endpoint) : Prop :=
  ep_host e <> [] /\ (Byte.x3a ∉ ep_host e) /\ 0 <= ep_port e < 2 ^ 16.

Lemma read_endpoint_text `{TokensLaws} e : endpoint_ok e -> read_endpoint (endpoint_text e) = Some e.
Proof.
  intros (Hh & Hc & Hp). unfold read_endpoint, endpoint_text.
  rewrite tokenize_two, cast_dec; try done; [by destruct e| |].
  - unfold dec. rewrite (proj2 (Z.ltb_ge _ 0)) by lia. apply digits_nonempty.
  - unfold dec. rewrite (proj2 (Z.ltb_ge _ 0)) by lia. apply digits_not_colon; [lia|].
    apply not_elem_of_nil.
Qed.

Lemma read_servers_spec `{Tokens} l config :
  read_servers (Ok <$> l) config = Ok (config ++ omap read_endpoint l).
Proof.
  revert config. induction l as [|t l IH]; intros config; cbn; [by rewrite app_nil_r|].
  destruct (read_endpoint t) as [e|]; cbn; rewrite IH; [by rewrite <- app_assoc|done].
Qed.

(** ** A tokenizer, a queue and a server that echoes the text of a command *)
Fixpoint split_colons (cur t : list byte) : list (list byte) :=
  match t with
  | [] => if bool_decide (cur = []) then [] else [cur]
  | b :: t' =>
    if bool_decide (b = Byte.x3a)
    then (if bool_decide (cur = []) then split_colons [] t' else cur :: split_colons [] t')
    else split_colons (cur ++ [b]) t'
  end.
Lemma split_colons_one cur t : cur ++ t <> [] -> Byte.x3a ∉ t -> split_colons cur t = [cur ++ t].
Proof.
  revert cur. induction t as [|b t IH]; intros cur Hne Hc; cbn.
  - rewrite app_nil_r in *. by rewrite bool_decide_false.
  - apply not_elem_of_cons in Hc as [Hb Hc]. rewrite bool_decide_false by congruence.
    rewrite IH; [by rewrite <- app_assoc| |done]. by destruct cur.
Qed.
Lemma split_colons_two cur h p : cur ++ h <> [] -> p <> [] -> Byte.x3a ∉ h -> Byte.x3a ∉ p ->
  split_colons cur (h ++ lit ":" ++ p) = [cur ++ h; p].
Proof.
  revert cur. induction h as [|b h IH]; intros cur Hne Hp Hh Hc; cbn.
  - rewrite app_nil_r in *. rewrite (bool_decide_false (cur = [])) by done. by rewrite split_colons_one.
  - apply not_elem_of_cons in Hh as [Hb Hh]. rewrite bool_decide_false by congruence.
    etrans; [apply (IH (cur ++ [b])); by destruct cur|]. by rewrite <- app_assoc.
Qed.

#[export] Instance colon_tokens : Tokens := {
  tokenize := split_colons [];
  lexical_cast_ushort t :=
    let n := read_digits t in if (0 <=? n) && (n <? 2 ^ 16) then Some n else None
}.
#[export] Program Instance colon_tokens_laws : TokensLaws.
Next Obligation. intros h p Hh Hp Hc Hd. by apply (split_colons_two []). Qed.
Next Obligation.
  intros n Hn. cbn. rewrite read_dec by lia. by rewrite (proj2 (Z.leb_le _ _)), (proj2 (Z.ltb_lt _ _)) by lia.
Qed.
Next Obligation.
  intros t n. cbn. destruct (Z.leb_spec 0 (read_digits t)), (Z.ltb_spec (read_digits t) (2 ^ 16));
    cbn [andb]; intros [= <-]; lia.
Qed.

Record queue (T : Type) := Queue { capacity : Z; queued : list T }.
Arguments Queue {T} _ _.
Arguments capacity {T} _.
Arguments queued {T} _.
#[export] Instance queue_channel T : Channel T (queue T) := {
  chan_new n := Queue n [];
  chan_push x q := if vlen (queued q) <? capacity q then Some (Queue (capacity q) (queued q ++ [x])) else None;
  chan_pop q := match queued q with x :: l => Some (x, Queue (capacity q) l) | [] => None end
}.
#[export] Program Instance queue_channel_laws T : ChannelLaws T (queue T) := { items := queued }.
Next Obligation. done. Qed.
Next Obligation. intros T x c c'. cbn. destruct (_ <? _); [|done]. by intros [= <-]. Qed.
Next Obligation. intros T x [n [|y l]] c'; cbn; [done|]. by intros [= <- <-]. Qed.

Record echo := Echo { echo_err : bool; echo_pending : list (list byte) }.
#[export] Instance echo_hiredis : Hiredis echo := {
  redisConnect _ _ _ := Some (Echo false []);
  ctx_err := echo_err;
  redisAppendCommand x c := Echo (echo_err x) (echo_pending x ++ [c]);
  redisGetReply x :=
    if echo_err x then (x, None) else
    match echo_pending x with
    | c :: l => (Echo false l, Some (RedisReply 1 0 (Some c)))
    | [] => (Echo true [], None)
    end
}.
#[export] Program Instance echo_laws : HiredisLaws echo := {
  pending := echo_pending;
  answers t rr := rr_str rr = Some t
}.
Next Obligation. intros h p n x [= <-]. done. Qed.
Next Obligation. done. Qed.
Next Obligation. intros [[] p] x' c l rr; cbn; [done|]. by intros E ->; injection E as <- <-. Qed.
Next Obligation. intros [[] p] x'; cbn; [by intros [= <-]|]. destruct p; by intros [= <-]. Qed.
Next Obligation. intros [[] p] x' r; cbn; [by intros [= _ <-]|done]. Qed.

(** ** Lemmas: every run *)
Section Runs.
Context {QC : Type} `{ChannelLaws command QC} {QR : Type} `{ChannelLaws (option redis_reply) QR}.
Context {X : Type} `{HiredisLaws X}.
Implicit Types (s : system (QC := QC) (QR := QR) (X := X)).




End Runs.

(** ** Properties *)


(** One server and one connection that asks once *)
Definition local_server : list (outcome (list byte)) := [Ok (lit "localhost:6379")].
Definition local_module : redis_module (QC := queue command) (QR := queue (option redis_reply)) :=
  RedisModule [Endpoint (lit "localhost") 6379] true [chan_new 1024] ∅ 0.
Definition echo_system : Type := system (QC := queue command) (QR := queue (option redis_reply)) (X := echo).
Definition local_system : echo_system :=
  on_process_init local_module.

(** A schedule: which coroutine runs next; [None]: it has to wait. *)
Inductive choice := Head | Take | Reply | Push | Connect | Other (cid : Z) (rehash : bool) | Exit | Request (tid : Z) | Pop1 | Pop2 | Late1 | Late2.
Definition perform (c : choice) (s : echo_system) : option (outcome echo_system) :=
  w ← workers s !! 0%nat;
  match c, w_pc w, callbacks s !! 1 return option (outcome echo_system) with
  | Head, WHead, _ =>
    ep ← config_ (module_ s) !! 0%nat;
    Some (Ok (set_worker 0 (worker_head (running_ (module_ s)) ep 0 w) s))
  | Take, WTake, _ =>
    q ← redis_order_ (module_ s) !! 0%nat;
    '(cmd, q') ← chan_pop (T := command) q;
    Some (Ok (set_worker 0 (worker_take (module_ s) cmd w) (set_module (with_order 0 q' (module_ s)) s)))
  | Reply, WReply cmd j, _ => Some (Ok (set_worker 0 (worker_reply cmd j w) s))
  | Push, WPush cmd j rr, _ =>
    Some (fmap (M := outcome) (fun x => set_worker 0 x.2 (set_module x.1 s)) (worker_push (module_ s) cmd j rr w))
  | Connect, _, _ =>
    if bool_decide (1 ∈ opened s) then None
    else Some (Ok (System (on_connect_init false 1 (module_ s)) (workers s) (callbacks s) ({[1]} ∪ opened s) (pages s)))
  | Other cid rehash, _, _ =>
    if bool_decide (cid ∈ opened s) then None
    else Some (Ok (System (on_connect_init rehash cid (module_ s)) (workers s) (callbacks s) ({[cid]} ∪ opened s) (pages s)))
  | Exit, _, None => Some (Ok (set_module (on_connect_exit 1 (module_ s)) s))
  | Request tid, _, None =>
    _ ← redis_reply_ (module_ s) !! 1;
    m ← request_push 1 tid (module_ s);
    Some (Ok (set_callback 1 (HPop1 tid) (set_module m s)))
  | Pop1, _, Some (HPop1 tid) =>
    '(r1, m) ← request_pop false 1 (module_ s); Some (Ok (set_callback 1 (HPop2 tid r1) (set_module m s)))
  | Pop2, _, Some (HPop2 tid r1) =>
    '(r2, m) ← request_pop false 1 (module_ s); Some (Ok (finish 1 tid r1 r2 (set_module m s)))
  | Late1, _, Some (HPop1 tid) => Some (Ok (set_callback 1 (HPop2 tid None) s))
  | Late2, _, Some (HPop2 tid r1) => Some (Ok (finish 1 tid r1 None s))
  | _, _, _ => None
  end.
Definition is_late (c : choice) : bool := match c with Late1 | Late2 => true | _ => false end.

Lemma perform_step late c s o : (is_late c = true -> late = true) -> perform c s = Some o -> sys_step late s o.
Proof.
  intros Hl Hp. unfold perform in Hp. apply bind_Some in Hp as (w & Hw & Hp).
  destruct c, (w_pc w) eqn:Hpc, (callbacks s !! 1) as [[]|] eqn:Hcb; try done;
    repeat match goal with
    | H : (_ ≫= _) = Some _ |- _ => apply bind_Some in H as (? & ? & H)
    | H : (let '(_, _) := ?x in _) = Some _ |- _ => destruct x
    | H : (if bool_decide ?P then _ else _) = Some _ |- _ => destruct (bool_decide_reflect P)
    | H : Some _ = Some _ |- _ => injection H as <-
    end; try done;
    first [by eapply step_head|by eapply step_take|by eapply step_reply|by eapply step_push|by eapply step_connect
      |by eapply step_exit|by eapply step_request; [eexists| |]|by eapply step_pop1|by eapply step_pop2
      |by eapply step_pop1_late; [apply Hl|]|by eapply step_pop2_late; [apply Hl|]].
Qed.

Fixpoint perform_all (l : list choice) (s : echo_system) : option echo_system :=
  match l with
  | [] => Some s
  | c :: l' => match perform c s with Some (Ok s) => perform_all l' s | _ => None end
  end.
Lemma perform_all_run late l s s' :
  Forall (fun c => is_late c = true -> late = true) l -> perform_all l s = Some s' -> rtc (run_step late) s s'.
Proof.
  revert s. induction l as [|c l IH]; intros s Hl; cbn; [intros [= <-]; constructor|].
  apply Forall_cons in Hl as [Hc Hl]. destruct (perform c s) as [[s1| |]|] eqn:E; try done.
  intros Hp. eapply rtc_l; [by eapply perform_step|auto].
Qed.


(** C5. Two consequences of a reply that comes later than a callback waits: the
    next request of the connection is given the replies to the one before; and
    if the connection closes meanwhile, the worker uses an entry of the table of
    reply channels that has been erased. *)
Theorem redis_late_replies :
  redis_module_new (Some local_server) = Ok local_module /\
  (exists s p, rtc (run_step true) local_system s /\ p ∈ pages s /\
     pg_r1 p = Some (RedisReply 1 0 (head (cmd_cmd (redis_command 1 7)))) /\ pg_tid p = 8 /\ ~ page_ok p) /\
  (exists s, rtc (run_step true) local_system s /\ sys_step true s (Crash DanglingReference)).
Proof.
  assert (forall l, Forall (fun c => is_late c = true -> true = true) l) as Hl by (intros; by apply Forall_true).
  split; [vm_compute; reflexivity|]. split.
  - set (l := [Connect; Head; Request 7; Late1; Late2; Take; Reply; Push; Reply; Push; Request 8; Pop1; Pop2]).
    destruct (perform_all l local_system) as [s|] eqn:E; [|vm_compute in E; discriminate].
    exists s, (default (Page 0 0 None None) (pages s !! 1%nat)).
    split; [by apply (perform_all_run true l)|].
    assert (pages s !! 1%nat = Some (Page 1 8 (Some (RedisReply 1 0 (head (cmd_cmd (redis_command 1 7)))))
      (Some (RedisReply 1 0 (Some (snprintf_text 128 (lit "GET key_1_7"))))))) as Ep
      by (vm_compute in E; injection E as <-; vm_compute; reflexivity).
    rewrite Ep. split; [by eapply list_elem_of_lookup_2|]. split; [done|]. split; [done|].
    intros Hp. apply Forall2_cons_1 in Hp as [Hp _]. vm_compute in Hp. discriminate.
  - set (l := [Connect; Head; Request 7; Take; Reply; Late1; Late2; Exit]).
    destruct (perform_all l local_system) as [s|] eqn:E; [|vm_compute in E; discriminate].
    exists s. split; [by apply (perform_all_run true l)|].
    apply (perform_step true Push); [done|]. vm_compute in E. injection E as <-. vm_compute. reflexivity.
Qed.

(** C6. Without any late reply, a connection that opens while a worker waits for a
    reply is enough: its insertion may rehash the table, and the worker then uses the
    iterator it has kept.  An insertion that does not rehash does no harm. *)
Theorem redis_rehash_dangles :
  let l rehash := [Connect; Head; Request 7; Take; Other 2 rehash; Reply] in
  (exists s, perform_all (l true) local_system = Some s /\ rtc (run_step false) local_system s /\
     sys_step false s (Crash DanglingReference)) /\
  (exists s p, perform_all (l false ++ [Push; Reply; Push; Pop1; Pop2]) local_system = Some s /\
     pages s = [p] /\ page_ok p).
Proof.
  cbv zeta. split.
  - destruct (perform_all _ local_system) as [s|] eqn:E; [|vm_compute in E; discriminate].
    exists s. split; [done|]. split.
    + eapply (perform_all_run false); [|exact E]. repeat (constructor; [done|]). constructor.
    + apply (perform_step false Push); [done|]. vm_compute in E. injection E as <-. vm_compute. reflexivity.
  - destruct (perform_all _ local_system) as [s|] eqn:E; [|vm_compute in E; discriminate].
    vm_compute in E. injection E as <-. do 2 eexists. split; [reflexivity|]. split; [reflexivity|].
    repeat constructor; vm_compute; reflexivity.
Qed.

(** The constructor reads back the texts of endpoints: whatever texts that
    are none stand between them, the servers of the module are the endpoints in
    order, each with an empty command channel. *)
Theorem servers_roundtrip {QC} `{ChannelLaws command QC} {QR} `{Channel (option redis_reply) QR}
    `{TokensLaws} (l : list (endpoint + list byte)) :
  Forall (fun x => match x with inl e => endpoint_ok e | inr t => length (tokenize t) <> 2%nat end) l ->
  exists m : redis_module (QC := QC) (QR := QR),
    redis_module_new (Some ((fun x => Ok match x with inl e => endpoint_text e | inr t => t end) <$> l)) = Ok m /\
    config_ m = omap (fun x => match x with inl e => Some e | inr _ => None end) l /\
    Forall (fun q => items q = []) (redis_order_ m) /\ length (redis_order_ m) = length (config_ m).
Proof.
  intros Hl. unfold redis_module_new.
  assert ((fun x : endpoint + list byte => Ok match x with inl e => endpoint_text e | inr t => t end) <$> l =
    Ok <$> ((fun x : endpoint + list byte => match x with inl e => endpoint_text e | inr t => t end) <$> l)) as ->
    by by rewrite <- list_fmap_compose.
  rewrite read_servers_spec. cbn [mbind outcome_bind app]. eexists. split; [done|]. cbn [config_ redis_order_].
  split; [|split; [|by rewrite length_fmap]].
  - induction l as [|x l IH]; [done|]. apply Forall_cons in Hl as [Hx Hl]. cbn. destruct x as [e|t].
    + rewrite read_endpoint_text by done. f_equal. by apply IH.
    + assert (read_endpoint t = None) as ->; [|by apply IH]. unfold read_endpoint.
      by destruct (tokenize t) as [|? [|? []]].
  - apply Forall_fmap, Forall_true. intros. apply items_new.
Qed.

Lemma servers_roundtrip_witness :
  exists m : redis_module (QC := queue command) (QR := queue (option redis_reply)),
    redis_module_new (Some [Ok (endpoint_text (Endpoint (lit "a") 1)); Ok (lit "b"); Ok (lit "c:70000:1")]) = Ok m /\
    config_ m = [Endpoint (lit "a") 1].
Proof.
  destruct (servers_roundtrip (QC := queue command) (QR := queue (option redis_reply))
    [inl (Endpoint (lit "a") 1); inr (lit "b"); inr (lit "c:70000:1")]) as (m & E & Hc & _).
  - constructor; [split; [discriminate|split; [|vm_compute; split; [discriminate|reflexivity]]]|].
    + apply (bool_decide_unpack _). vm_compute. exact I.
    + repeat (constructor; [vm_compute; discriminate|]). constructor.
  - exists m. split; [exact E|exact Hc].
Defined.
