(* ===== verification/Opqueue.v ===== *)
(** * Queues of operations (asio/detail/op_queue.hpp)

    The queue is intrusive: an operation has the link [next_], and the queue has
    the addresses of its ends.  The memory of the operations is a map from their
    addresses to their links; 0 is the null pointer, and an address that is not
    in the map is an operation that is gone.  [op_queues_refine] shows that
    queues that share no operation are lists, which is how the clients use
    them. *)
From S2P Require Import Prelude.

Definition op_next (m : gmap Z Z) (o : Z) : outcome Z :=
  if o =? 0 then Crash NullDereference
  else match m !! o with Some n => Ok n | None => Crash DanglingReference end.

Definition op_set_next (o1 o2 : Z) (m : gmap Z Z) : outcome (gmap Z Z) :=
  if o1 =? 0 then Crash NullDereference
  else match m !! o1 with Some _ => Ok (<[o1 := o2]> m) | None => Crash DanglingReference end.

Record op_queue := OpQueue { front_ : Z; back_ : Z }.

Definition op_queue_new : op_queue := OpQueue 0 0.

Definition op_queue_empty (q : op_queue) : bool := front_ q =? 0.

Definition op_queue_pop (m : gmap Z Z) (q : op_queue) : outcome (gmap Z Z * op_queue) :=
  if front_ q =? 0 then Ok (m, q)
  else
    let tmp := front_ q in
    front ← op_next m tmp;
    m ← op_set_next tmp 0 m;
    Ok (m, OpQueue front (if front =? 0 then 0 else back_ q)).

Definition op_queue_push (h : Z) (m : gmap Z Z) (q : op_queue) : outcome (gmap Z Z * op_queue) :=
  m ← op_set_next h 0 m;
  if negb (back_ q =? 0) then
    m ← op_set_next (back_ q) h m;
    Ok (m, OpQueue (front_ q) h)
  else Ok (m, OpQueue h h).

(** [push] of a whole queue; the other queue is returned last. *)
Definition op_queue_push_queue (other : op_queue) (m : gmap Z Z) (q : op_queue)
    : outcome (gmap Z Z * op_queue * op_queue) :=
  if negb (front_ other =? 0) then
    if negb (back_ q =? 0) then
      m ← op_set_next (back_ q) (front_ other) m;
      Ok (m, OpQueue (front_ q) (back_ other), op_queue_new)
    else Ok (m, OpQueue (front_ other) (back_ other), op_queue_new)
  else Ok (m, q, other).

(** The destructor; [destroyed]: the operations it has destroyed so far. *)
Fixpoint op_queue_delete (fuel : nat) (m : gmap Z Z) (q : op_queue) (destroyed : list Z)
    : option (outcome (gmap Z Z * list Z)) :=
  match fuel with
  | O => None
  | S fuel' =>
    if front_ q =? 0 then Some (Ok (m, destroyed))
    else
      match op_queue_pop m q with
      | Ok (m, q') => op_queue_delete fuel' (delete (front_ q) m) q' (destroyed ++ [front_ q])
      | Throws e => Some (Throws e)
      | Crash x => Some (Crash x)
      end
  end.

(** ** Several queues over one memory *)
#[export] Instance op_queue_inhabited : Inhabited op_queue := populate op_queue_new.

Inductive queue_op :=
  | QPush (k h : Z)                (* operation [h] onto queue [k] *)
  | QPop (k : Z)
  | QSplice (k other : Z).

Definition queue_state : Type := gmap Z Z * gmap Z op_queue.

Definition queue_step (o : queue_op) (s : queue_state) : outcome queue_state :=
  let '(m, qs) := s in
  match o with
  | QPush k h => '(m, q) ← op_queue_push h m (qs !!! k); Ok (m, <[k := q]> qs)
  | QPop k => '(m, q) ← op_queue_pop m (qs !!! k); Ok (m, <[k := q]> qs)
  | QSplice k other =>
    '(m, q, q') ← op_queue_push_queue (qs !!! other) m (qs !!! k);
    Ok (m, <[other := q']> (<[k := q]> qs))
  end.

Fixpoint queue_run (ops : list queue_op) (s : queue_state) : outcome queue_state :=
  match ops with
  | [] => Ok s
  | o :: ops' => s ← queue_step o s; queue_run ops' s
  end.

(** ** The specification: lists *)
Definition list_step (o : queue_op) (ls : gmap Z (list Z)) : gmap Z (list Z) :=
  match o with
  | QPush k h => <[k := (ls !!! k) ++ [h]]> ls
  | QPop k => <[k := tail (ls !!! k)]> ls
  | QSplice k other => <[other := []]> (<[k := (ls !!! k) ++ (ls !!! other)]> ls)
  end.

Definition list_run (ops : list queue_op) (ls : gmap Z (list Z)) : gmap Z (list Z) :=
  fold_left (fun ls o => list_step o ls) ops ls.

(** An operation may be pushed when it is in no queue; two queues are spliced. *)
Definition op_allowed (m : gmap Z Z) (ls : gmap Z (list Z)) (o : queue_op) : Prop :=
  match o with
  | QPush _ h => h <> 0 /\ is_Some (m !! h) /\ forall k, h ∉ ls !!! k
  | QPop _ => True
  | QSplice k other => k <> other
  end.

Fixpoint ops_allowed (m : gmap Z Z) (ls : gmap Z (list Z)) (ops : list queue_op) : Prop :=
  match ops with
  | [] => True
  | o :: ops' => op_allowed m ls o /\ ops_allowed m (list_step o ls) ops'
  end.

(** ** Chains of links *)
Fixpoint chain (m : gmap Z Z) (p : Z) (l : list Z) : Prop :=
  match l with
  | [] => p = 0
  | h :: l' => p = h /\ h <> 0 /\ exists n, m !! h = Some n /\ chain m n l'
  end.

Record is_queue (m : gmap Z Z) (q : op_queue) (l : list Z) : Prop := {
  iq_chain : chain m (front_ q) l;
  iq_back : back_ q = default 0 (last l);
  iq_nodup : NoDup l
}.

Lemma chain_frame m p l h n : h ∉ l -> chain m p l -> chain (<[h := n]> m) p l.
Proof.
  revert p; induction l as [|x l IH]; intros p Hh; cbn; [done|].
  apply not_elem_of_cons in Hh as [Hx Hl]. intros (-> & Hx0 & n' & Hn & Hc).
  split_and!; [done..|]. exists n'. rewrite lookup_insert_ne by done. auto.
Qed.

Lemma chain_delete m p l h : h ∉ l -> chain m p l -> chain (delete h m) p l.
Proof.
  revert p; induction l as [|x l IH]; intros p Hh; cbn; [done|].
  apply not_elem_of_cons in Hh as [Hx Hl]. intros (-> & Hx0 & n' & Hn & Hc).
  split_and!; [done..|]. exists n'. rewrite lookup_delete_ne by done. auto.
Qed.

Lemma chain_nonzero m p l : chain m p l -> 0 ∉ l.
Proof.
  revert p; induction l as [|x l IH]; intros p; cbn; [set_solver|].
  intros (-> & Hx & n & _ & Hc). apply IH in Hc. apply not_elem_of_cons. split; [lia|done].
Qed.

Lemma chain_app m p l b l' q :
  NoDup (l ++ [b]) -> (forall x, x ∈ l ++ [b] -> x ∉ l') -> chain m p (l ++ [b]) -> chain m q l' ->
  chain (<[b := q]> m) p (l ++ [b] ++ l').
Proof.
  revert p; induction l as [|x l IH]; intros p Hnd Hdis; cbn.
  - intros (-> & Hb & n & Hn & _) Hq. split_and!; [done..|]. exists q. rewrite lookup_insert_eq.
    split; [done|]. apply chain_frame; [set_solver|done].
  - cbn in Hnd. apply NoDup_cons in Hnd as [Hx Hnd]. intros (-> & Hx0 & n & Hn & Hc) Hq.
    split_and!; [done..|]. exists n. rewrite lookup_insert_ne by set_solver.
    split; [done|]. apply (IH n); [done|set_solver|done|done].
Qed.

Lemma is_queue_new m : is_queue m op_queue_new [].
Proof. split; [done|done|constructor]. Qed.

Lemma is_queue_frame m q l h n : h ∉ l -> is_queue m q l -> is_queue (<[h := n]> m) q l.
Proof. intros Hh [Hc Hb Hn]. split; [by apply chain_frame|done|done]. Qed.

Lemma back_nil m q l : is_queue m q l -> (back_ q =? 0) = bool_decide (l = []).
Proof.
  intros [Hc Hb _]. rewrite Hb. apply chain_nonzero in Hc. destruct l as [|b l _] using rev_ind; [done|].
  rewrite last_snoc. cbn. rewrite bool_decide_eq_false_2 by (by destruct l).
  apply Z.eqb_neq. set_solver.
Qed.

Lemma front_nil m q l : is_queue m q l -> (front_ q =? 0) = bool_decide (l = []).
Proof.
  intros [Hc _ _]. destruct l as [|h l]; cbn in Hc; [by rewrite Hc|].
  destruct Hc as (-> & Hh & _). by apply Z.eqb_neq.
Qed.

Lemma op_next_Ok m o n : o <> 0 -> m !! o = Some n -> op_next m o = Ok n.
Proof. intros Ho Hn. unfold op_next. by rewrite (proj2 (Z.eqb_neq _ _) Ho), Hn. Qed.

Lemma op_set_next_Ok m o n : o <> 0 -> is_Some (m !! o) -> op_set_next o n m = Ok (<[o := n]> m).
Proof. intros Ho [n' Hn]. unfold op_set_next. by rewrite (proj2 (Z.eqb_neq _ _) Ho), Hn. Qed.

Lemma chain_lookup m p l h : h ∈ l -> chain m p l -> is_Some (m !! h).
Proof.
  revert p; induction l as [|x l IH]; intros p Hh; [set_solver|].
  intros (-> & _ & n & Hn & Hc). apply elem_of_cons in Hh as [-> |Hh]; [eauto|]. by apply (IH n).
Qed.

(** ** The operations, each with what it leaves alone *)
Definition same_outside (l : list Z) (m m' : gmap Z Z) : Prop :=
  (forall x, x ∉ l -> m' !! x = m !! x) /\ (forall x, is_Some (m !! x) -> is_Some (m' !! x)).

Lemma same_outside_insert l m h n : h ∈ l -> same_outside l m (<[h := n]> m).
Proof.
  intros Hh. split.
  - intros x Hx. apply lookup_insert_ne. set_solver.
  - intros x Hx. destruct (decide (h = x)) as [-> |Hne]; [rewrite lookup_insert_eq; eauto|].
    by rewrite lookup_insert_ne.
Qed.

Lemma same_outside_trans l m1 m2 m3 :
  same_outside l m1 m2 -> same_outside l m2 m3 -> same_outside l m1 m3.
Proof.
  intros [Ha Hb] [Hc Hd]. split; [|auto]. intros x Hx. by rewrite Hc, Ha.
Qed.

Lemma same_outside_mono l l' m m' : l ⊆ l' -> same_outside l m m' -> same_outside l' m m'.
Proof. intros Hl [Ha Hb]. split; [|done]. intros x Hx. apply Ha. set_solver. Qed.

Lemma same_outside_queue l m m' q l' :
  same_outside l m m' -> (forall x, x ∈ l' -> x ∉ l) -> is_queue m q l' -> is_queue m' q l'.
Proof.
  intros [Hs _] Hd [Hc Hb Hn]. split; [|done|done]. clear Hb Hn. revert Hc. generalize (front_ q).
  induction l' as [|x l' IH]; intros p; cbn; [done|]. intros (-> & Hx & n & Hn & Hc).
  split_and!; [done..|]. exists n. rewrite Hs by set_solver. split; [done|]. apply IH; [set_solver|done].
Qed.

Lemma pop_spec m q l :
  is_queue m q l ->
  exists m' q', op_queue_pop m q = Ok (m', q') /\ is_queue m' q' (tail l) /\ same_outside l m m'.
Proof.
  intros Hq. unfold op_queue_pop. rewrite (front_nil _ _ _ Hq). destruct Hq as [Hc Hb Hn].
  destruct l as [|h l]; cbn [bool_decide].
  - exists m, q. split_and!; [done..|by split].
  - destruct Hc as (-> & Hh & n & Hm & Hc). rewrite bool_decide_eq_false_2 by done.
    rewrite (op_next_Ok _ _ n) by done. cbn [mbind outcome_bind]. rewrite op_set_next_Ok by eauto.
    eexists _, _. split; [reflexivity|]. apply NoDup_cons in Hn as [Hhl Hn]. split.
    + split; cbn; [by apply chain_frame| |done].
      destruct l as [|x l]; cbn in Hc; [by subst n|]. destruct Hc as (-> & Hx & _).
      by rewrite (proj2 (Z.eqb_neq _ _) Hx), Hb.
    + apply same_outside_insert. set_solver.
Qed.

Lemma push_spec h m q l :
  is_queue m q l -> h <> 0 -> is_Some (m !! h) -> h ∉ l ->
  exists m' q', op_queue_push h m q = Ok (m', q') /\ is_queue m' q' (l ++ [h])
    /\ same_outside (l ++ [h]) m m'.
Proof.
  intros Hq Hh Hm Hl. unfold op_queue_push. rewrite op_set_next_Ok by done. cbn [mbind outcome_bind].
  rewrite (back_nil _ _ _ Hq). pose proof (is_queue_frame _ _ _ h 0 Hl Hq) as [Hc Hb Hn].
  assert (Hone : chain (<[h := 0]> m) h [h]).
  { split_and!; [done..|]. exists 0. by rewrite lookup_insert_eq. }
  destruct l as [|b l _] using rev_ind.
  - rewrite bool_decide_eq_true_2 by done. eexists _, _. split; [reflexivity|]. split.
    + split; [done|done|apply NoDup_singleton].
    + apply same_outside_insert. set_solver.
  - rewrite bool_decide_eq_false_2 by (by destruct l). rewrite last_snoc in Hb. cbn in Hb. cbn [negb].
    assert (Hb0 : back_ q <> 0) by (apply chain_nonzero in Hc; rewrite Hb; set_solver).
    assert (Hbm : is_Some (<[h:=0]> m !! back_ q)).
    { rewrite Hb. eapply chain_lookup; [|exact Hc]. set_solver. }
    rewrite op_set_next_Ok by done. eexists _, _. split; [reflexivity|]. rewrite Hb. split.
    + split; cbn [front_ back_]; [|by rewrite last_snoc|].
      * rewrite <- app_assoc. apply chain_app; [done|set_solver|done|done].
      * apply NoDup_app. split_and!; [done|set_solver|apply NoDup_singleton].
    + eapply same_outside_trans; apply same_outside_insert; set_solver.
Qed.

Lemma push_queue_spec other l' m q l :
  is_queue m q l -> is_queue m other l' -> (forall x, x ∈ l -> x ∉ l') ->
  exists m' q', op_queue_push_queue other m q = Ok (m', q', op_queue_new) /\ is_queue m' q' (l ++ l')
    /\ same_outside (l ++ l') m m'.
Proof.
  intros Hq Ho Hd. unfold op_queue_push_queue. rewrite (front_nil _ _ _ Ho), (back_nil _ _ _ Hq).
  assert (Hid : same_outside (l ++ l') m m) by by split.
  destruct l' as [|h' l'].
  { rewrite bool_decide_eq_true_2, app_nil_r in * by done. exists m, q. cbn [negb].
    assert (other = op_queue_new) as -> by (destruct other, Ho as [Hc Hb _]; cbn in *; by subst).
    done. }
  rewrite (bool_decide_eq_false_2 (h' :: l' = [])) by done. cbn [negb].
  destruct Hq as [Hc Hb Hn], Ho as [Hc' Hb' Hn'].
  destruct l as [|b l _] using rev_ind.
  - rewrite bool_decide_eq_true_2 by done. eexists _, _. split; [reflexivity|]. split; [by split|done].
  - rewrite bool_decide_eq_false_2 by (by destruct l). rewrite last_snoc in Hb. cbn in Hb. cbn [negb].
    assert (Hb0 : back_ q <> 0) by (apply chain_nonzero in Hc; rewrite Hb; set_solver).
    assert (Hbm : is_Some (m !! back_ q)).
    { rewrite Hb. eapply chain_lookup; [|exact Hc]. set_solver. }
    rewrite op_set_next_Ok by done. eexists _, _. split; [reflexivity|]. rewrite Hb. split.
    + split; cbn [front_ back_].
      * rewrite <- app_assoc. by apply chain_app.
      * rewrite last_app, Hb'. by destruct (last (h' :: l')) eqn:E; [|apply last_None in E].
      * apply NoDup_app. auto.
    + apply same_outside_insert. set_solver.
Qed.

(** ** The refinement *)
Record refines (m : gmap Z Z) (qs : gmap Z op_queue) (ls : gmap Z (list Z)) : Prop := {
  rf_queue k : is_queue m (qs !!! k) (ls !!! k);
  rf_apart k k' x : x ∈ ls !!! k -> x ∈ ls !!! k' -> k = k'
}.

Lemma refines_update m m' qs ls k q l rest :
  refines m qs ls -> is_queue m' q l -> same_outside rest m m' ->
  (forall x, x ∈ rest \/ x ∈ l -> x ∈ ls !!! k \/ forall k', x ∉ ls !!! k') ->
  refines m' (<[k := q]> qs) (<[k := l]> ls).
Proof.
  intros [Hq Ha] Hl Hs Hr. split.
  - intros k'. rewrite !total_insert. case_decide as Hk; [done|].
    apply (same_outside_queue rest m); [done| |done]. intros x Hx Hxr.
    destruct (Hr x (or_introl Hxr)) as [Hxk|Hno]; [by eapply Hk, Ha|by eapply Hno].
  - intros k1 k2 x. rewrite !total_insert. repeat case_decide; intros Hx1 Hx2; subst; [done|..].
    + destruct (Hr x (or_intror Hx1)) as [Hxk|Hno]; [eauto|by apply Hno in Hx2].
    + destruct (Hr x (or_intror Hx2)) as [Hxk|Hno]; [eauto|by apply Hno in Hx1].
    + eauto.
Qed.

Lemma queue_step_refines o m qs ls :
  refines m qs ls -> op_allowed m ls o ->
  exists m' qs', queue_step o (m, qs) = Ok (m', qs') /\ refines m' qs' (list_step o ls)
    /\ forall x, is_Some (m !! x) -> is_Some (m' !! x).
Proof.
  intros Hr Ho. destruct o as [k h|k|k other]; cbn in Ho |- *.
  - destruct Ho as (Hh & Hm & Hno).
    destruct (push_spec h m _ _ (rf_queue _ _ _ Hr k) Hh Hm (Hno k)) as (m' & q' & -> & Hq' & Hs).
    eexists _, _. split; [reflexivity|]. split; [|apply Hs].
    eapply refines_update; [exact Hr|exact Hq'|exact Hs|]. intros x Hx.
    assert (x ∈ ls !!! k \/ x = h) as [?| ->] by set_solver; auto.
  - destruct (pop_spec m _ _ (rf_queue _ _ _ Hr k)) as (m' & q' & -> & Hq' & Hs).
    eexists _, _. split; [reflexivity|]. split; [|apply Hs].
    eapply refines_update; [exact Hr|exact Hq'|exact Hs|]. intros x [Hx|Hx]; [auto|].
    left. destruct (ls !!! k) as [|y l]; [done|]. by apply list_elem_of_further.
  - assert (Hd : forall x, x ∈ ls !!! k -> x ∉ ls !!! other).
    { intros x Hx Hx'. by apply Ho, (rf_apart _ _ _ Hr k other x). }
    destruct (push_queue_spec _ _ m _ _ (rf_queue _ _ _ Hr k) (rf_queue _ _ _ Hr other) Hd)
      as (m' & q' & -> & Hq' & Hs).
    eexists _, _. split; [reflexivity|]. split; [|apply Hs]. destruct Hr as [Hq Ha]. split.
    + intros k'. rewrite !total_insert. repeat case_decide; [apply is_queue_new|done|].
      eapply same_outside_queue; [exact Hs| |apply Hq].
      intros x Hx Hx'. apply elem_of_app in Hx' as [Hx'|Hx']; eauto.
    + intros k1 k2 x. rewrite !total_insert.
      repeat case_decide; subst; rewrite ?elem_of_nil, ?elem_of_app; intros Hx1 Hx2; try done.
      * destruct Hx1 as [Hx1|Hx1]; pose proof (Ha _ _ _ Hx1 Hx2); congruence.
      * destruct Hx2 as [Hx2|Hx2]; pose proof (Ha _ _ _ Hx2 Hx1); congruence.
      * eauto.
Qed.

Lemma allowed_mono ops : forall m m' ls,
  (forall x, is_Some (m !! x) -> is_Some (m' !! x)) -> ops_allowed m ls ops -> ops_allowed m' ls ops.
Proof.
  induction ops as [|o ops IH]; intros m m' ls Hm; [done|]. intros [Ho Hops].
  split; [|by eapply IH]. destruct o; cbn in Ho |- *; naive_solver.
Qed.

(** The destructor destroys the operations of its queue, front to back, each
    once. *)
Lemma delete_spec l : forall fuel m q destroyed,
  is_queue m q l -> (length l < fuel)%nat ->
  exists m', op_queue_delete fuel m q destroyed = Some (Ok (m', destroyed ++ l))
    /\ forall x, m' !! x = if decide (x ∈ l) then None else m !! x.
Proof.
  induction l as [|h l IH]; intros [|fuel] m q destroyed Hq Hf; cbn [length] in Hf; try lia; cbn [op_queue_delete].
  - rewrite (front_nil _ _ _ Hq), bool_decide_eq_true_2 by done. exists m. rewrite app_nil_r. split; [done|].
    intros x. rewrite decide_False; [done|set_solver].
  - rewrite (front_nil _ _ _ Hq), bool_decide_eq_false_2 by done.
    destruct (pop_spec _ _ _ Hq) as (m1 & q1 & -> & Hq1 & Hs). cbn [tail] in Hq1.
    assert (front_ q = h) as -> by (destruct Hq as [Hc _ _]; by destruct Hc).
    pose proof (iq_nodup _ _ _ Hq) as Hn. apply NoDup_cons in Hn as [Hhl Hn].
    destruct (IH fuel (delete h m1) q1 (destroyed ++ [h])) as (m' & E & Hm'); [|lia|].
    + destruct Hq1 as [Hc Hb Hd]. split; [by apply chain_delete|done|done].
    + exists m'. rewrite E, <- app_assoc. split; [done|]. intros x. rewrite Hm'.
      destruct (decide (x = h)) as [-> |Hx].
      * rewrite decide_False, decide_True by (done || by left). apply lookup_delete_eq.
      * rewrite lookup_delete_ne by done. case_decide as Hl; [by rewrite decide_True by by right|].
        rewrite decide_False by (by apply not_elem_of_cons). apply Hs. by apply not_elem_of_cons.
Qed.

Lemma queue_run_refines ops : forall m qs ls,
  refines m qs ls -> ops_allowed m ls ops ->
  exists m' qs', queue_run ops (m, qs) = Ok (m', qs') /\ refines m' qs' (list_run ops ls)
    /\ forall x, is_Some (m !! x) -> is_Some (m' !! x).
Proof.
  induction ops as [|o ops IH]; intros m qs ls Hr Hops; cbn [queue_run].
  - by exists m, qs.
  - destruct Hops as [Ho Hops]. destruct (queue_step_refines o m qs ls Hr Ho) as (m1 & qs1 & -> & Hr1 & Hm1).
    cbn [mbind outcome_bind].
    destruct (IH m1 qs1 (list_step o ls) Hr1) as (m' & qs' & -> & Hr' & Hm'); [by eapply allowed_mono|].
    exists m', qs'. auto.
Qed.

(** Operations are pushed onto queues, popped, and moved from queue to queue, an
    operation being in one queue at a time.  Then nothing dereferences a null or
    dangling pointer, and each queue is a list: its front and its emptiness are
    those of the list, and its destructor destroys the elements in order and
    leaves every other operation. *)
Theorem op_queues_refine ops (m : gmap Z Z) :
  ops_allowed m ∅ ops ->
  exists m' qs, queue_run ops (m, ∅) = Ok (m', qs) /\
    forall k, let l := list_run ops ∅ !!! k in let q := qs !!! k in
      front_ q = default 0 (head l) /\ op_queue_empty q = bool_decide (l = []) /\ NoDup l /\
      (forall k' x, x ∈ l -> x ∈ list_run ops ∅ !!! k' -> k = k') /\
      forall fuel, (length l < fuel)%nat -> exists m'',
        op_queue_delete fuel m' q [] = Some (Ok (m'', l)) /\
        forall x, m'' !! x = if decide (x ∈ l) then None else m' !! x.
Proof.
  intros Hops. assert (Hr : refines m ∅ ∅).
  { split; intros k; rewrite !lookup_total_empty; [apply is_queue_new|]. intros k' x Hx. by apply elem_of_nil in Hx. }
  destruct (queue_run_refines ops m ∅ ∅ Hr Hops) as (m' & qs & E & [Hq Ha] & _).
  exists m', qs. split; [done|]. intros k. specialize (Hq k). split_and!.
  - destruct (list_run ops ∅ !!! k), Hq as [Hc _ _]; cbn in Hc |- *; [done|]. by destruct Hc.
  - by apply (front_nil m').
  - apply Hq.
  - intros k' x. apply Ha.
  - intros fuel Hf. by apply (delete_spec _ fuel m' _ []).
Qed.

Definition sample_queue_ops : list queue_op :=
  [QPush 1 10; QPush 1 20; QPush 2 30; QSplice 2 1; QPop 2; QPush 1 30; QPop 3].
Definition sample_op_memory : gmap Z Z := <[10 := 0]> (<[20 := 7]> (<[30 := 0]> ∅)).

Lemma op_queues_refine_witness :
  exists m' qs, queue_run sample_queue_ops (sample_op_memory, ∅) = Ok (m', qs) /\
    front_ (qs !!! 2) = 10 /\ front_ (qs !!! 1) = 30 /\
    exists m'', op_queue_delete 3 m' (qs !!! 2) [] = Some (Ok (m'', [10; 20])) /\ m'' !! 20 = None.
Proof.
  destruct (op_queues_refine sample_queue_ops sample_op_memory) as (m' & qs & E & Hq).
  - cbn [ops_allowed sample_queue_ops op_allowed list_step]. rewrite !lookup_total_empty. split_and!; try done.
    all: try (eexists; vm_compute; reflexivity).
    all: intros k; rewrite ?total_insert, ?lookup_total_empty; repeat case_decide; cbn; set_solver.
  - exists m', qs. split; [done|]. destruct (Hq 2) as (H2 & _ & _ & _ & Hd), (Hq 1) as (H1 & _).
    split_and!; [done|done|]. destruct (Hd 3%nat) as (m'' & Ed & Hm); [vm_compute; lia|].
    exists m''. split; [done|]. by rewrite Hm.
Defined.
