(* ===== verification/Timetraits.v ===== *)
(** * The clock of a timer (asio/detail/chrono_time_traits.hpp, wait_traits.hpp)

    [Time_Traits] is what a timer queue needs of a clock; [chrono_time_traits]
    gives it for a std::chrono clock whose ticks are a 64-bit count of
    [period_num/period_den] seconds.  Arithmetic on times saturates and
    never overflows; [duration_cast] multiplies, and can. *)
From S2P Require Import Prelude.

Definition in_i64 (z : Z) : Prop := - 2 ^ 63 <= z < 2 ^ 63.
Definition int64 (z : Z) : outcome Z :=
  if (- 2 ^ 63 <=? z) && (z <? 2 ^ 63) then Ok z else Crash SignedOverflow.

Lemma int64_Ok z : in_i64 z -> int64 z = Ok z.
Proof. unfold int64, in_i64. intros Hz. by rewrite (proj2 (Z.leb_le _ _)), (proj2 (Z.ltb_lt _ _)) by lia. Qed.

(** ** The interface; the result of [to_posix_duration] is its [ticks] *)
Class Time_Traits (T : Type) := {
  less_than : T -> T -> bool;
  subtract : T -> T -> outcome Z;
  total_milliseconds : Z -> outcome Z;
  total_microseconds : Z -> outcome Z;
  is_positive_infinity : T -> bool
}.

(** [less_than] is a strict weak order: what a heap needs. *)
Class Time_TraitsLaws (T : Type) `{Time_Traits T} := {
  less_asym a b : less_than a b = true -> less_than b a = false;
  less_trans a b c : less_than b a = false -> less_than c b = false -> less_than c a = false
}.

Lemma less_irrefl {T} `{Time_TraitsLaws T} a : less_than a a = false.
Proof. destruct (less_than a a) eqn:E; [|done]. by rewrite (less_asym a a E) in E. Qed.

(** ** std::chrono *)

(** [gcd<v1, v2>], which recurses on the remainder *)
Fixpoint gcd (fuel : nat) (v1 v2 : Z) : option Z :=
  match fuel with
  | O => None
  | S fuel' => if v2 =? 0 then Some v1 else gcd fuel' v2 (Z.rem v1 v2)
  end.

Definition time_max := 2 ^ 63 - 1.
Definition time_min := - 2 ^ 63.

Definition chrono_add (t d : Z) : outcome Z :=
  if 0 <=? t then
    left ← int64 (time_max - t);
    if left <? d then Ok time_max else int64 (t + d)
  else
    above ← int64 (t - time_min);
    below ← int64 (- above);
    if d <? below then Ok time_min else int64 (t + d).

Definition chrono_subtract (t1 t2 : Z) : outcome Z :=
  if 0 <=? t1 then
    if 0 <=? t2 then int64 (t1 - t2)
    else if t2 =? time_min then Ok time_max
    else
      left ← int64 (time_max - t1);
      neg ← int64 (0 - t2);
      if left <? neg then Ok time_max else int64 (t1 - t2)
  else
    if t2 <? 0 then int64 (t1 - t2)
    else if t1 =? time_min then Ok time_min
    else
      left ← int64 (time_max - t2);
      neg ← int64 (0 - t1);
      if left <? neg then Ok time_min else d ← int64 (t2 - t1); int64 (- d).

Definition to_wait_duration (d : Z) : Z := d.

Section Period.
Context (period_num period_den : Z).

(** The constants are those of the template; [None]: no fuel for [gcd]. *)
Definition duration_cast (Num Den ticks : Z) : option (outcome Z) :=
  g1 ← gcd (S (Z.to_nat Num)) period_num Num;
  g2 ← gcd (S (Z.to_nat Den)) period_den Den;
  let num1 := Z.quot period_num g1 in
  let num2 := Z.quot Num g1 in
  let den1 := Z.quot period_den g2 in
  let den2 := Z.quot Den g2 in
  let num := num1 * den2 in
  let den := num2 * den1 in
  Some (if (num =? 1) && (den =? 1) then Ok ticks
    else if negb (num =? 1) && (den =? 1) then int64 (ticks * num)
    else if (num =? 1) && negb (period_den =? 1) then Ok (Z.quot ticks den)
    else p ← int64 (ticks * num); Ok (Z.quot p den)).

Lemma gcd_spec fuel : forall v1 v2, 0 <= v1 -> 0 <= v2 < Z.of_nat fuel ->
  gcd fuel v1 v2 = Some (Z.gcd v1 v2).
Proof.
  induction fuel as [|fuel IH]; intros v1 v2 H1 H2; [lia|]. cbn [gcd].
  destruct (Z.eqb_spec v2 0) as [-> |Hv]; [by rewrite Z.gcd_0_r, Z.abs_eq|].
  rewrite Z.rem_mod_nonneg by lia. rewrite IH by (pose proof (Z.mod_pos_bound v1 v2); lia).
  by rewrite Z.gcd_comm, Z.gcd_mod, Z.gcd_comm by lia.
Qed.

Lemma gcd_parts a b : 0 < a -> 0 < b ->
  let g := Z.gcd a b in
  gcd (S (Z.to_nat b)) a b = Some g /\ 0 < g /\ a = Z.quot a g * g /\ b = Z.quot b g * g
    /\ 0 < Z.quot a g /\ 0 < Z.quot b g.
Proof.
  intros Ha Hb g. subst g. rewrite gcd_spec by lia. split; [done|].
  assert (Hg : 0 < Z.gcd a b) by (pose proof (Z.gcd_nonneg a b); pose proof (Z.gcd_eq_0_l a b); lia).
  assert (Hq : forall x, 0 < x -> (Z.gcd a b | x) -> x = Z.quot x (Z.gcd a b) * Z.gcd a b /\ 0 < Z.quot x (Z.gcd a b)).
  { intros x Hx [k ->]. rewrite Z.quot_mul by lia. nia. }
  destruct (Hq a Ha (Z.gcd_divide_l _ _)), (Hq b Hb (Z.gcd_divide_r _ _)). auto.
Qed.

(** The product that must not overflow is of the reduced fraction. *)
Lemma duration_cast_spec Num Den ticks :
  0 < period_num -> 0 < period_den -> 0 < Num -> 0 < Den ->
  in_i64 (ticks * (Z.quot period_num (Z.gcd period_num Num) * Z.quot Den (Z.gcd period_den Den))) ->
  duration_cast Num Den ticks = Some (Ok (Z.quot (ticks * period_num * Den) (period_den * Num))).
Proof.
  intros Hn Hd HN HD Hi. unfold duration_cast.
  destruct (gcd_parts period_num Num Hn HN) as (-> & Hg1 & En & EN & Hn1 & Hn2).
  destruct (gcd_parts period_den Den Hd HD) as (-> & Hg2 & Ed & ED & Hd1 & Hd2).
  cbn [mbind option_bind]. cbv zeta. f_equal.
  set (g1 := Z.gcd period_num Num) in *. set (g2 := Z.gcd period_den Den) in *.
  set (num1 := Z.quot period_num g1) in *. set (num2 := Z.quot Num g1) in *.
  set (den1 := Z.quot period_den g2) in *. set (den2 := Z.quot Den g2) in *.
  assert (Hq : Z.quot (ticks * period_num * Den) (period_den * Num)
               = Z.quot (ticks * (num1 * den2)) (num2 * den1)).
  { rewrite En, EN, Ed, ED.
    replace (ticks * (num1 * g1) * (den2 * g2)) with ((ticks * (num1 * den2)) * (g1 * g2)) by ring.
    replace (den1 * g2 * (num2 * g1)) with ((num2 * den1) * (g1 * g2)) by ring.
    apply Z.quot_mul_cancel_r; nia. }
  rewrite Hq. rewrite (int64_Ok _ Hi). cbn [mbind outcome_bind].
  destruct (Z.eqb_spec (num1 * den2) 1) as [-> |Hnum], (Z.eqb_spec (num2 * den1) 1) as [-> |Hden];
    cbn [andb negb]; rewrite ?Z.mul_1_r, ?Z.quot_1_r; try done.
  by destruct (period_den =? 1).
Qed.
End Period.

(** A clock in nanoseconds, as the clocks of the standard library on Linux *)
Definition posix_cast (Num Den ticks : Z) : outcome Z :=
  default (Crash AssertFails) (duration_cast 1 (10 ^ 9) Num Den ticks).

#[export] Instance chrono_time_traits : Time_Traits Z := {|
  less_than := Z.ltb;
  subtract t1 t2 := to_wait_duration <$> chrono_subtract t1 t2;
  total_milliseconds := posix_cast 1 1000;
  total_microseconds := posix_cast 1 1000000;
  is_positive_infinity _ := false
|}.

#[export] Instance chrono_laws : Time_TraitsLaws Z.
Proof. split; cbn; intros *; rewrite ?Z.ltb_lt, ?Z.ltb_ge; lia. Qed.

(** The nearest 64-bit value *)
Definition saturate (z : Z) : Z := Z.max (- 2 ^ 63) (Z.min z (2 ^ 63 - 1)).

Lemma saturate_range z : in_i64 (saturate z).
Proof. unfold saturate, in_i64. lia. Qed.

(** Splits the comparisons of chrono arithmetic and evaluates [int64]. *)
Ltac chrono_cases :=
  repeat (rewrite int64_Ok by (unfold in_i64 in *; lia); cbn [mbind outcome_bind] in * );
  repeat match goal with
  | |- context [ ?a <? ?b ] => destruct (Z.ltb_spec a b)
  | |- context [ ?a <=? ?b ] => destruct (Z.leb_spec a b)
  | |- context [ ?a =? ?b ] => destruct (Z.eqb_spec a b)
  | |- context [ int64 ?z ] => rewrite (int64_Ok z) by (unfold in_i64 in *; lia); cbn [mbind outcome_bind]
  end; try (f_equal; lia).

Lemma chrono_add_saturates t d : in_i64 t -> in_i64 d -> chrono_add t d = Ok (saturate (t + d)).
Proof.
  unfold in_i64, chrono_add, saturate, time_max, time_min. intros Ht Hd. chrono_cases.
Qed.

Lemma chrono_subtract_saturates t1 t2 :
  in_i64 t1 -> in_i64 t2 -> chrono_subtract t1 t2 = Ok (saturate (t1 - t2)).
Proof.
  unfold in_i64, chrono_subtract, saturate, time_max, time_min. intros H1 H2. chrono_cases.
Qed.

Lemma chrono_casts d : in_i64 d ->
  total_milliseconds (T := Z) d = Ok (Z.quot d 1000000) /\ total_microseconds (T := Z) d = Ok (Z.quot d 1000).
Proof.
  intros Hd. cbn [total_milliseconds total_microseconds chrono_time_traits]. unfold posix_cast.
  rewrite !duration_cast_spec; try lia;
    [|replace (Z.quot _ _ * Z.quot _ _) with 1 by reflexivity; by rewrite Z.mul_1_r..].
  rewrite !Z.mul_1_r, <- (Z.quot_mul_cancel_r d 1000000 1000), <- (Z.quot_mul_cancel_r d 1000 1000000) by lia.
  done.
Qed.

(** Adding a duration to a time and subtracting two times saturate at the ends
    of the 64-bit range, without signed overflow on the way, and durations are
    cut to milliseconds and microseconds toward zero. *)
Theorem chrono_arithmetic t1 t2 :
  in_i64 t1 -> in_i64 t2 ->
  chrono_add t1 t2 = Ok (saturate (t1 + t2)) /\
  subtract t1 t2 = Ok (saturate (t1 - t2)) /\
  total_milliseconds (T := Z) t1 = Ok (Z.quot t1 1000000) /\
  total_microseconds (T := Z) t1 = Ok (Z.quot t1 1000).
Proof.
  intros H1 H2. split; [by apply chrono_add_saturates|]. split; [by cbn; rewrite chrono_subtract_saturates|].
  by apply chrono_casts.
Qed.

Lemma chrono_arithmetic_witness :
  chrono_add (2 ^ 63 - 5) 1000 = Ok (2 ^ 63 - 1) /\ total_milliseconds (T := Z) (- 1999999) = Ok (- 1).
Proof.
  destruct (chrono_arithmetic (2 ^ 63 - 5) 1000) as [E _]; [unfold in_i64; lia..|].
  destruct (chrono_arithmetic (- 1999999) 0) as (_ & _ & E' & _); [unfold in_i64; lia..|].
  by rewrite E, E'.
Defined.
