(* ===== verification/Binheap.v ===== *)
(** * Binary heaps in lists

    Heap order of a list, for a boolean strict order whose negation is a total
    preorder: what one step of sifting up and down does to it.  Timerqueue
    applies this to the heap of its entries. *)
From S2P Require Import Prelude.

(** ** Exchanging two elements *)
Definition exchange {A} (i j : nat) (l : list A) : list A :=
  match l !! i, l !! j with
  | Some a, Some b => <[j := a]> (<[i := b]> l)
  | _, _ => l
  end.

Lemma length_exchange {A} i j (l : list A) : length (exchange i j l) = length l.
Proof. unfold exchange. destruct (l !! i), (l !! j); by rewrite ?length_insert. Qed.

Lemma lookup_exchange {A} i j k (l : list A) :
  (i < length l)%nat -> (j < length l)%nat ->
  exchange i j l !! k = l !! (if decide (k = i) then j else if decide (k = j) then i else k).
Proof.
  intros Hi Hj. unfold exchange.
  destruct (lookup_lt_is_Some_2 l i Hi) as [a Ha], (lookup_lt_is_Some_2 l j Hj) as [b Hb]. rewrite Ha, Hb.
  destruct (decide (k = j)) as [-> |Hkj].
  - rewrite list_lookup_insert_eq by (by rewrite length_insert). case_decide; congruence.
  - rewrite list_lookup_insert_ne by done. case_decide as Hki; [|by rewrite list_lookup_insert_ne].
    subst. by rewrite list_lookup_insert_eq.
Qed.

Lemma elem_of_exchange {A} i j (l : list A) x : x ∈ exchange i j l <-> x ∈ l.
Proof.
  destruct (decide (i < length l)%nat) as [Hi|Hi].
  2:{ unfold exchange. by rewrite (lookup_ge_None_2 l i) by lia. }
  destruct (decide (j < length l)%nat) as [Hj|Hj].
  2:{ unfold exchange. rewrite (lookup_ge_None_2 l j) by lia. by destruct (l !! i). }
  rewrite !list_elem_of_lookup. split; intros [k Hk].
  - rewrite lookup_exchange in Hk by done. eauto.
  - exists (if decide (k = i) then j else if decide (k = j) then i else k).
    rewrite lookup_exchange by done. repeat case_decide; congruence.
Qed.

(** ** Heap order *)
Section Order.
Context {A : Type} (lt : A -> A -> bool).
Context (lt_asym : forall a b, lt a b = true -> lt b a = false).
Context (le_trans : forall a b c, lt b a = false -> lt c b = false -> lt c a = false).
Implicit Types (l : list A) (i k p c : nat).

Definition le (a b : A) : Prop := lt b a = false.
Definition child p c : Prop := c = (2 * p + 1)%nat \/ c = (2 * p + 2)%nat.

Definition heap_ordered l : Prop :=
  forall p c x y, child p c -> l !! p = Some x -> l !! c = Some y -> le x y.

(** In order but for the element at [k] and the one above it, or those below it *)
Definition skips l k : Prop :=
  forall p c x y, child p k -> child k c -> l !! p = Some x -> l !! c = Some y -> le x y.
Definition ordered_above l k : Prop :=
  (forall p c x y, child p c -> c <> k -> l !! p = Some x -> l !! c = Some y -> le x y) /\ skips l k.
Definition ordered_below l k : Prop :=
  (forall p c x y, child p c -> p <> k -> l !! p = Some x -> l !! c = Some y -> le x y) /\ skips l k.

Lemma child_lt p c : child p c -> (p < c)%nat.
Proof. unfold child. lia. Qed.
Lemma child_inj p p' c : child p c -> child p' c -> p = p'.
Proof. unfold child. lia. Qed.
Lemma child_parent c : (0 < c)%nat -> child (Nat.div2 (c - 1)) c.
Proof.
  intros Hc. unfold child. pose proof (Nat.div2_odd (c - 1)). destruct (Nat.odd (c - 1)); cbn in *; lia.
Qed.

(** Rewrites the look-ups in an exchanged list and drops the cases that the
    shape of the tree excludes. *)
Ltac exchange_cases :=
  rewrite ?lookup_exchange by (eauto using lookup_lt_Some);
  repeat (case_decide; subst; try (unfold child in *; lia)).

Lemma sift_up l k p x y :
  ordered_above l k -> child p k -> l !! k = Some x -> l !! p = Some y -> lt x y = true ->
  ordered_above (exchange k p l) p.
Proof.
  intros [Ho Hs] Hpk Hx Hy Hlt. assert (Hxy : le x y) by (by apply lt_asym).
  split.
  - intros p' c' a b Hc Hne. exchange_cases; intros Ha Hb; simplify_eq; try by eauto.
    all: try (pose proof (child_inj _ _ _ Hc Hpk); subst; unfold child in *; lia).
    eapply le_trans; [exact Hxy|]. by eapply (Ho p c').
  - intros g c' a b Hg Hc. exchange_cases; intros Ha Hb; simplify_eq.
    + eapply (Ho g p); [done|unfold child in *; lia|done|done].
    + eapply le_trans; [eapply (Ho g p); [done|unfold child in *; lia|done|exact Hy]|by eapply (Ho p c')].
Qed.

Lemma sift_up_done l k p x y :
  ordered_above l k -> child p k -> l !! k = Some x -> l !! p = Some y -> lt x y = false -> heap_ordered l.
Proof.
  intros [Ho _] Hpk Hx Hy Hlt p' c' a b Hc Ha Hb. destruct (decide (c' = k)) as [-> |Hne]; [|by eapply Ho].
  pose proof (child_inj _ _ _ Hc Hpk) as ->. by simplify_eq.
Qed.

Lemma sift_up_root l : ordered_above l 0 -> heap_ordered l.
Proof. intros [Ho _] p c x y Hc. apply Ho; [done|]. apply child_lt in Hc. lia. Qed.

(** [m] is a child with the least element of the children. *)
Definition least_child l k m : Prop :=
  child k m /\ forall c x y, child k c -> l !! m = Some x -> l !! c = Some y -> le x y.

Lemma sift_down l k m x y :
  ordered_below l k -> least_child l k m -> l !! k = Some x -> l !! m = Some y -> lt x y = false ->
  ordered_below (exchange k m l) m.
Proof.
  intros [Ho Hs] [Hkm Hm] Hx Hy Hle. split.
  - intros p' c' a b Hc Hne. exchange_cases; intros Ha Hb; simplify_eq; try by eauto.
  - intros g c' a b Hg Hc. pose proof (child_inj _ _ _ Hg Hkm) as ->.
    exchange_cases. intros Ha Hb. simplify_eq. eapply (Ho m c'); [done|unfold child in *; lia|done|done].
Qed.

Lemma sift_down_done l k m x y :
  ordered_below l k -> least_child l k m -> l !! k = Some x -> l !! m = Some y -> le x y -> heap_ordered l.
Proof.
  intros [Ho _] [Hkm Hm] Hx Hy Hle p' c' a b Hc Ha Hb. destruct (decide (p' = k)) as [-> |Hne]; [|by eapply Ho].
  simplify_eq. eapply le_trans; [exact Hle|]. by eapply Hm.
Qed.

Lemma sift_down_leaf l k : ordered_below l k -> (length l <= 2 * k + 1)%nat -> heap_ordered l.
Proof.
  intros [Ho _] Hk p' c' a b Hc Ha Hb. eapply Ho; [done| |done|done]. intros ->.
  apply lookup_lt_Some in Hb. unfold child in Hc. lia.
Qed.

(** The last element takes the place of the one at [k]. *)
Definition take_last k l : list A := take (length l - 1) (exchange k (length l - 1) l).

Lemma lookup_take_last k i l :
  (k < length l - 1)%nat -> i <> k ->
  take_last k l !! i = if decide (i < length l - 1)%nat then l !! i else None.
Proof.
  intros Hk Hi. unfold take_last. case_decide as Hl.
  - rewrite lookup_take_lt, lookup_exchange by lia. by rewrite !decide_False by lia.
  - by rewrite lookup_take_ge by lia.
Qed.

Lemma take_last_at k l : (k < length l - 1)%nat -> take_last k l !! k = l !! (length l - 1)%nat.
Proof.
  intros Hk. unfold take_last. rewrite lookup_take_lt, lookup_exchange by lia. by rewrite decide_True.
Qed.

Lemma take_last_lookup k i l x :
  (k < length l - 1)%nat -> i <> k -> take_last k l !! i = Some x -> l !! i = Some x.
Proof. intros Hk Hi. rewrite lookup_take_last by done. by case_decide. Qed.

Lemma take_last_skips k l : heap_ordered l -> (k < length l - 1)%nat -> skips (take_last k l) k.
Proof.
  intros Ho Hk p c x y Hp Hc Hx Hy. apply child_lt in Hp as ?, Hc as ?.
  apply take_last_lookup in Hx, Hy; [|lia..]. destruct (lookup_lt_is_Some_2 l k) as [w Hw]; [lia|].
  eapply le_trans; [by eapply (Ho p k)|by eapply (Ho k c)].
Qed.

Lemma take_last_below k l :
  heap_ordered l -> (k < length l - 1)%nat ->
  (forall p y z, child p k -> l !! p = Some y -> l !! (length l - 1)%nat = Some z -> le y z) ->
  ordered_below (take_last k l) k.
Proof.
  intros Ho Hk Hle. split; [|by apply take_last_skips]. intros p c x y Hc Hp Hx Hy.
  apply take_last_lookup in Hx; [|done..]. destruct (decide (c = k)) as [-> |Hck].
  - rewrite take_last_at in Hy by done. by eapply Hle.
  - apply take_last_lookup in Hy; [|done..]. by eapply Ho.
Qed.

Lemma take_last_above k p y z l :
  heap_ordered l -> (k < length l - 1)%nat -> child p k -> l !! p = Some y ->
  l !! (length l - 1)%nat = Some z -> lt z y = true -> ordered_above (take_last k l) k.
Proof.
  intros Ho Hk Hp Hy Hz Hlt. split; [|by apply take_last_skips]. intros p' c x w Hc Hne Hx Hw.
  apply take_last_lookup in Hw; [|done..]. destruct (decide (p' = k)) as [-> |Hp'].
  - rewrite take_last_at, Hz in Hx by done. simplify_eq.
    destruct (lookup_lt_is_Some_2 l k) as [v Hv]; [lia|].
    eapply le_trans; [by apply lt_asym, Hlt|]. eapply le_trans; [by eapply (Ho p k)|by eapply (Ho k c)].
  - apply take_last_lookup in Hx; [|done..]. by eapply Ho.
Qed.

Lemma heap_ordered_take n l : heap_ordered l -> heap_ordered (take n l).
Proof.
  intros Ho p c x y Hc Hx Hy. apply lookup_take_Some in Hx as [Hx _], Hy as [Hy _]. by eapply Ho.
Qed.

(** The new element at the end *)
Lemma snoc_above l z : heap_ordered l -> ordered_above (l ++ [z]) (length l).
Proof.
  intros Ho. split.
  - intros p c x y Hc Hne Hx Hy. apply child_lt in Hc as Hlt. apply lookup_lt_Some in Hy as Hl.
    rewrite length_app in Hl. cbn in Hl. rewrite lookup_app_l in Hx, Hy by lia. by eapply Ho.
  - intros p c x y _ Hc _ Hy. apply child_lt in Hc. apply lookup_lt_Some in Hy.
    rewrite length_app in Hy. cbn in Hy. lia.
Qed.

(** The root is least. *)
Lemma root_least l x : heap_ordered l -> l !! 0%nat = Some x -> forall i y, l !! i = Some y -> le x y.
Proof.
  intros Ho Hx i. induction (lt_wf i) as [i _ IH]. intros y Hy.
  destruct (decide (i = 0%nat)) as [-> |Hi].
  - simplify_eq. unfold le. destruct (lt x x) eqn:E; [|done]. by rewrite (lt_asym _ _ E) in E.
  - pose proof (child_parent i ltac:(lia)) as Hp. apply child_lt in Hp as Hlt.
    destruct (lookup_lt_is_Some_2 l (Nat.div2 (i - 1))) as [z Hz]; [apply lookup_lt_Some in Hy; lia|].
    eapply le_trans; [by eapply IH|by eapply Ho].
Qed.
End Order.
