(* ===== verification/Timerqueue.v ===== *)
(** * The timer queue (asio/detail/timer_queue.hpp)

    Timers are objects of the client, linked into a list by [next_] and [prev_];
    those that expire are also in a binary heap, and each knows its index there.
    The queue is a map from timers to their expiry and their waiting operations
    ([represents]); each operation is described on that map.  A queue of
    operations is a list, see Opqueue.  A function with a loop has type
    [partial]: [None] when its fuel runs out, which the theorems exclude. *)
From S2P Require Import Prelude Socketops Timetraits Binheap.

Definition partial (A : Type) : Type := option (outcome A).
Definition ret {A} (a : A) : partial A := Some (Ok a).
#[export] Instance partial_bind : MBind partial := fun A B f m =>
  match m with
  | Some (Ok a) => f a
  | Some (Throws e) => Some (Throws e)
  | Some (Crash x) => Some (Crash x)
  | None => None
  end.
Definition lift {A} (m : outcome A) : partial A := Some m.

Definition ECANCELED := 125.
Definition operation_aborted : error_code := basic_error ECANCELED.

(** An operation: its address and the error its handler will see *)
Record wait_op := WaitOp { wo_addr : Z; wo_ec : error_code }.

Record per_timer_data := PerTimerData {
  op_queue_ : list wait_op;
  heap_index_ : Z;
  next_ : Z;
  prev_ : Z
}.

Section Queue.
Context {T : Type} `{Time_Traits T}.

Record heap_entry := HeapEntry { time_ : T; timer_ : Z }.

(** [data]: the timers the queue points to, by address *)
Record timer_queue := TimerQueue {
  data : gmap Z per_timer_data;
  timers_ : Z;
  heap_ : list heap_entry
}.

Definition timer_get (t : Z) (q : timer_queue) : outcome per_timer_data :=
  if t =? 0 then Crash NullDereference
  else match data q !! t with Some d => Ok d | None => Crash DanglingReference end.

Definition timer_update (f : per_timer_data -> per_timer_data) (t : Z) (q : timer_queue)
    : outcome timer_queue :=
  d ← timer_get t q; Ok (TimerQueue (<[t := f d]> (data q)) (timers_ q) (heap_ q)).

Definition set_ops (l : list wait_op) (d : per_timer_data) : per_timer_data :=
  PerTimerData l (heap_index_ d) (next_ d) (prev_ d).
Definition set_index (i : Z) (d : per_timer_data) : per_timer_data :=
  PerTimerData (op_queue_ d) i (next_ d) (prev_ d).
Definition set_links (next prev : Z) (d : per_timer_data) : per_timer_data :=
  PerTimerData (op_queue_ d) (heap_index_ d) next prev.

Definition with_heap (h : list heap_entry) (q : timer_queue) : timer_queue :=
  TimerQueue (data q) (timers_ q) h.
Definition with_timers (t : Z) (q : timer_queue) : timer_queue :=
  TimerQueue (data q) t (heap_ q).

Definition timer_queue_new (data : gmap Z per_timer_data) : timer_queue := TimerQueue data 0 [].

Definition swap_heap (index1 index2 : Z) (q : timer_queue) : outcome timer_queue :=
  tmp ← vget (heap_ q) index1;
  e ← vget (heap_ q) index2;
  h ← vset (heap_ q) index1 e;
  h ← vset h index2 tmp;
  e1 ← vget h index1;
  q ← timer_update (set_index index1) (timer_ e1) (with_heap h q);
  e2 ← vget h index2;
  timer_update (set_index index2) (timer_ e2) q.

(** [less_than(heap_[i].time_, heap_[j].time_)] *)
Definition heap_less (i j : Z) (q : timer_queue) : outcome bool :=
  a ← vget (heap_ q) i; b ← vget (heap_ q) j; Ok (less_than (time_ a) (time_ b)).

Fixpoint up_heap (fuel : nat) (index : Z) (q : timer_queue) : partial timer_queue :=
  match fuel with
  | O => None
  | S fuel' =>
    if 0 <? index then
      let parent := Z.quot (index - 1) 2 in
      b ← lift (heap_less index parent q);
      if negb b then ret q
      else q ← lift (swap_heap index parent q); up_heap fuel' parent q
    else ret q
  end.

Fixpoint down_heap (fuel : nat) (index : Z) (q : timer_queue) : partial timer_queue :=
  match fuel with
  | O => None
  | S fuel' =>
    let child := u64 (index * 2 + 1) in
    if child <? vlen (heap_ q) then
      let second := u64 (child + 1) in
      first ← (if second =? vlen (heap_ q) then ret true else lift (heap_less child second q));
      let min_child := if (first : bool) then child else second in
      b ← lift (heap_less index min_child q);
      if (b : bool) then ret q
      else q ← lift (swap_heap index min_child q); down_heap fuel' min_child q
    else ret q
  end.

Definition pop_back (q : timer_queue) : timer_queue :=
  with_heap (take (length (heap_ q) - 1) (heap_ q)) q.

(** The first half of [remove_timer] *)
Definition remove_from_heap (index : Z) (q : timer_queue) : partial timer_queue :=
  let size := vlen (heap_ q) in
  let fuel := S (length (heap_ q)) in
  if (0 <? size) && (index <? size) then
    if index =? size - 1 then ret (pop_back q)
    else
      q ← lift (swap_heap index (size - 1) q);
      let q := pop_back q in
      up ← (if 0 <? index then lift (heap_less index (Z.quot (index - 1) 2) q) else ret false);
      if (up : bool) then up_heap fuel index q else down_heap fuel index q
  else ret q.

(** The second half *)
Definition unlink_timer (timer : Z) (q : timer_queue) : outcome timer_queue :=
  d ← timer_get timer q;
  let q := if timers_ q =? timer then with_timers (next_ d) q else q in
  q ← (if negb (prev_ d =? 0)
       then timer_update (fun p => set_links (next_ d) (prev_ p) p) (prev_ d) q else Ok q);
  q ← (if negb (next_ d =? 0)
       then timer_update (fun n => set_links (next_ n) (prev_ d) n) (next_ d) q else Ok q);
  timer_update (set_links 0 0) timer q.

Definition remove_timer (timer : Z) (q : timer_queue) : partial timer_queue :=
  d ← lift (timer_get timer q);
  q ← remove_from_heap (heap_index_ d) q;
  lift (unlink_timer timer q).

(** A new timer at the front of the list *)
Definition link_timer (timer : Z) (q : timer_queue) : outcome timer_queue :=
  q ← timer_update (set_links (timers_ q) 0) timer q;
  q ← (if negb (timers_ q =? 0)
       then timer_update (fun f => set_links (next_ f) timer f) (timers_ q) q else Ok q);
  Ok (with_timers timer q).

Definition front_is (op : wait_op) (l : list wait_op) : bool :=
  match l with o :: _ => wo_addr o =? wo_addr op | [] => false end.

(** The part of [enqueue_timer] for a timer that is not in the queue *)
Definition insert_heap (time : T) (timer : Z) (q : timer_queue) : partial timer_queue :=
  if is_positive_infinity time then lift (timer_update (set_index SIZE_MAX) timer q)
  else
    q ← lift (timer_update (set_index (vlen (heap_ q))) timer q);
    let q := with_heap (heap_ q ++ [HeapEntry time timer]) q in
    up_heap (length (heap_ q)) (vlen (heap_ q) - 1) q.

Definition insert_timer (time : T) (timer : Z) (q : timer_queue) : partial timer_queue :=
  q ← insert_heap time timer q;
  lift (link_timer timer q).

Definition enqueue_timer (time : T) (timer : Z) (op : wait_op) (q : timer_queue)
    : partial (timer_queue * bool) :=
  d ← lift (timer_get timer q);
  q ← (if (prev_ d =? 0) && negb (timer =? timers_ q) then insert_timer time timer q else ret q);
  q ← lift (timer_update (fun d => set_ops (op_queue_ d ++ [op]) d) timer q);
  d ← lift (timer_get timer q);
  ret (q, (heap_index_ d =? 0) && front_is op (op_queue_ d)).

Definition timer_queue_empty (q : timer_queue) : bool := timers_ q =? 0.

Definition to_msec (d max_duration : Z) : outcome Z :=
  if d <=? 0 then Ok 0
  else msec ← total_milliseconds d;
       Ok (if msec =? 0 then 1 else if max_duration <? msec then max_duration else msec).
Definition to_usec (d max_duration : Z) : outcome Z :=
  if d <=? 0 then Ok 0
  else usec ← total_microseconds d;
       Ok (if usec =? 0 then 1 else if max_duration <? usec then max_duration else usec).

Definition wait_duration_msec (now : T) (max_duration : Z) (q : timer_queue) : outcome Z :=
  match heap_ q with
  | [] => Ok max_duration
  | e :: _ => d ← subtract (time_ e) now; to_msec d max_duration
  end.
Definition wait_duration_usec (now : T) (max_duration : Z) (q : timer_queue) : outcome Z :=
  match heap_ q with
  | [] => Ok max_duration
  | e :: _ => d ← subtract (time_ e) now; to_usec d max_duration
  end.

(** [ops]: the operations that are ready; moving them empties their queue. *)
Fixpoint get_ready_loop (fuel : nat) (now : T) (ops : list wait_op) (q : timer_queue)
    : partial (list wait_op * timer_queue) :=
  match fuel with
  | O => None
  | S fuel' =>
    match heap_ q with
    | [] => ret (ops, q)
    | e :: _ =>
      if negb (less_than now (time_ e)) then
        d ← lift (timer_get (timer_ e) q);
        q ← lift (timer_update (set_ops []) (timer_ e) q);
        q ← remove_timer (timer_ e) q;
        get_ready_loop fuel' now (ops ++ op_queue_ d) q
      else ret (ops, q)
    end
  end.

Definition get_ready_timers (now : T) (ops : list wait_op) (q : timer_queue)
    : partial (list wait_op * timer_queue) :=
  get_ready_loop (S (length (heap_ q))) now ops q.

Fixpoint get_all_loop (fuel : nat) (ops : list wait_op) (q : timer_queue)
    : partial (list wait_op * timer_queue) :=
  match fuel with
  | O => None
  | S fuel' =>
    if timers_ q =? 0 then ret (ops, q)
    else
      let timer := timers_ q in
      d ← lift (timer_get timer q);
      q ← lift (timer_update (fun d => set_links 0 0 (set_ops [] d)) timer (with_timers (next_ d) q));
      get_all_loop fuel' (ops ++ op_queue_ d) q
  end.

Definition get_all_timers (ops : list wait_op) (q : timer_queue) : partial (list wait_op * timer_queue) :=
  '(ops, q) ← get_all_loop (S (size (data q))) ops q;
  ret (ops, with_heap [] q).

(** The loop of [cancel_timer]: what is left, what is cancelled, how many *)
Fixpoint cancel_loop (waiting : list wait_op) (ops : list wait_op) (num_cancelled max_cancelled : Z)
    : list wait_op * list wait_op * Z :=
  match waiting with
  | [] => ([], ops, num_cancelled)
  | op :: waiting' =>
    if num_cancelled =? max_cancelled then (waiting, ops, num_cancelled)
    else cancel_loop waiting' (ops ++ [WaitOp (wo_addr op) operation_aborted]) (num_cancelled + 1) max_cancelled
  end.

Definition cancel_timer (timer : Z) (max_cancelled : Z) (ops : list wait_op) (q : timer_queue)
    : partial (list wait_op * timer_queue * Z) :=
  d ← lift (timer_get timer q);
  if negb (prev_ d =? 0) || (timer =? timers_ q) then
    let '(waiting, ops, num_cancelled) := cancel_loop (op_queue_ d) ops 0 max_cancelled in
    q ← lift (timer_update (set_ops waiting) timer q);
    q ← (match waiting with [] => remove_timer timer q | _ => ret q end);
    ret (ops, q, num_cancelled)
  else ret (ops, q, 0).

(** ** Moving entries of the heap *)
Definition entry_less (a b : heap_entry) : bool := less_than (time_ a) (time_ b).

Lemma timer_update_Ok f t (q : timer_queue) d :
  t <> 0 -> data q !! t = Some d ->
  timer_update f t q = Ok (TimerQueue (<[t := f d]> (data q)) (timers_ q) (heap_ q)).
Proof. intros Ht Hd. unfold timer_update, timer_get. by rewrite (proj2 (Z.eqb_neq _ _) Ht), Hd. Qed.

Lemma timer_get_Ok t (q : timer_queue) d : t <> 0 -> data q !! t = Some d -> timer_get t q = Ok d.
Proof. intros Ht Hd. unfold timer_get. by rewrite (proj2 (Z.eqb_neq _ _) Ht), Hd. Qed.

(** Each timer in the heap knows its index there. *)
Definition indexed (q : timer_queue) : Prop := forall i e, heap_ q !! i = Some e ->
  timer_ e <> 0 /\ exists d, data q !! timer_ e = Some d /\ heap_index_ d = Z.of_nat i.

Record reheaped (q q' : timer_queue) : Prop := {
  rh_same t : set_index 0 <$> data q' !! t = set_index 0 <$> data q !! t;
  rh_timers : timers_ q' = timers_ q;
  rh_elems e : e ∈ heap_ q' <-> e ∈ heap_ q;
  rh_length : length (heap_ q') = length (heap_ q);
  rh_out t : (forall e, e ∈ heap_ q -> timer_ e <> t) -> data q' !! t = data q !! t;
  rh_indexed : indexed q'
}.

Lemma reheaped_refl q : indexed q -> reheaped q q.
Proof. by split. Qed.

Lemma reheaped_trans q1 q2 q3 : reheaped q1 q2 -> reheaped q2 q3 -> reheaped q1 q3.
Proof.
  intros [A B C L D E] [A' B' C' L' D' E']. split; [|congruence| |congruence| |done].
  - intros t. by rewrite A', A.
  - intros e. by rewrite C', C.
  - intros t Ht. rewrite D', D; [done|done|]. intros e He. by apply Ht, C.
Qed.

Lemma indexed_inj q i j e e' :
  indexed q -> heap_ q !! i = Some e -> heap_ q !! j = Some e' -> timer_ e = timer_ e' -> i = j.
Proof.
  intros Hq Hi Hj Ht. apply Hq in Hi as (_ & d & Hd & Hi), Hj as (_ & d' & Hd' & Hj).
  rewrite Ht in Hd. simplify_eq. lia.
Qed.

Lemma vset_nat {A} (l : list A) (n : nat) x : (n < length l)%nat -> vset l (Z.of_nat n) x = Ok (<[n := x]> l).
Proof. intros Hn. rewrite vset_in_range by (unfold vlen; lia). by rewrite Nat2Z.id. Qed.

Lemma swap_heap_eq i j q a b da db :
  heap_ q !! i = Some a -> heap_ q !! j = Some b ->
  timer_ a <> 0 -> timer_ b <> 0 -> data q !! timer_ a = Some da -> data q !! timer_ b = Some db ->
  timer_ a <> timer_ b \/ i = j ->
  swap_heap (Z.of_nat i) (Z.of_nat j) q = Ok (TimerQueue
    (<[timer_ a := set_index (Z.of_nat j) da]> (<[timer_ b := set_index (Z.of_nat i) db]> (data q)))
    (timers_ q) (exchange i j (heap_ q))).
Proof.
  intros Ha Hb Ta Tb Da Db Hne. apply lookup_lt_Some in Ha as Hi, Hb as Hj. unfold swap_heap.
  rewrite (vget_nat _ _ _ Ha), (vget_nat _ _ _ Hb). cbn [mbind outcome_bind].
  rewrite vset_nat by done. cbn [mbind outcome_bind]. rewrite vset_nat by (by rewrite length_insert).
  cbn [mbind outcome_bind].
  replace (<[j:=a]> (<[i:=b]> (heap_ q))) with (exchange i j (heap_ q)) by (unfold exchange; by rewrite Ha, Hb).
  rewrite (vget_nat _ i b) by (by rewrite lookup_exchange, decide_True). cbn [mbind outcome_bind].
  rewrite (timer_update_Ok _ _ _ db) by done. cbn [mbind outcome_bind with_heap data timers_ heap_].
  rewrite (vget_nat _ j a) by (rewrite lookup_exchange by done; repeat case_decide; congruence).
  cbn [mbind outcome_bind]. destruct (decide (timer_ a = timer_ b)) as [E|E].
  - destruct Hne as [Hne| ->]; [done|]. assert (a = b) as -> by congruence.
    rewrite (timer_update_Ok _ _ _ (set_index (Z.of_nat j) db)); cbn; [|done|by rewrite lookup_insert_eq].
    assert (da = db) as -> by congruence. done.
  - rewrite (timer_update_Ok _ _ _ da); cbn; [done|done|by rewrite lookup_insert_ne].
Qed.

Lemma swap_heap_spec i j q :
  indexed q -> (i < length (heap_ q))%nat -> (j < length (heap_ q))%nat ->
  exists q', swap_heap (Z.of_nat i) (Z.of_nat j) q = Ok q' /\ heap_ q' = exchange i j (heap_ q) /\ reheaped q q'.
Proof.
  intros Hq Hi Hj. destruct (lookup_lt_is_Some_2 _ _ Hi) as [a Ha], (lookup_lt_is_Some_2 _ _ Hj) as [b Hb].
  destruct (Hq i a Ha) as (Ta & da & Da & Ia), (Hq j b Hb) as (Tb & db & Db & Ib).
  assert (Hne : timer_ a <> timer_ b \/ i = j).
  { destruct (decide (timer_ a = timer_ b)); [right; by eapply indexed_inj|by left]. }
  rewrite (swap_heap_eq i j q a b da db) by done.
  eexists. split; [reflexivity|]. split; [done|]. split; cbn [data timers_ heap_].
  - intros t. rewrite lookup_insert. case_decide as E; [by rewrite <- E, Da|].
    rewrite lookup_insert. case_decide as E'; [by rewrite <- E', Db|done].
  - done.
  - apply elem_of_exchange.
  - apply length_exchange.
  - intros t Ht. rewrite !lookup_insert_ne; [done|by eapply Ht, list_elem_of_lookup_2..].
  - intros k e He. cbn [data heap_] in *. rewrite lookup_exchange in He by done. repeat case_decide; subst.
    + simplify_eq. split; [done|]. destruct Hne as [Hne| ->].
      * rewrite lookup_insert_ne, lookup_insert_eq by done. eauto.
      * simplify_eq. rewrite lookup_insert_eq. eauto.
    + simplify_eq. split; [done|]. rewrite lookup_insert_eq. eauto.
    + destruct (Hq _ _ He) as (Te & de & De & Ie). split; [done|].
      rewrite !lookup_insert_ne; eauto; intros E.
      * by destruct (indexed_inj q j k b e).
      * by destruct (indexed_inj q i k a e).
Qed.

(** ** Sifting *)
Lemma heap_less_Ok i j q a b :
  heap_ q !! i = Some a -> heap_ q !! j = Some b ->
  heap_less (Z.of_nat i) (Z.of_nat j) q = Ok (entry_less a b).
Proof. intros Ha Hb. unfold heap_less. by rewrite (vget_nat _ _ _ Ha), (vget_nat _ _ _ Hb). Qed.

Lemma parent_of_nat k : (0 < k)%nat -> Z.quot (Z.of_nat k - 1) 2 = Z.of_nat (Nat.div2 (k - 1)).
Proof.
  intros Hk. rewrite Z.quot_div_nonneg by lia. rewrite Nat.div2_div, Nat2Z.inj_div. f_equal. lia.
Qed.
End Queue.
Arguments heap_entry : clear implicits.
Arguments timer_queue : clear implicits.

Section Sifting.
Context {T : Type} `{Time_TraitsLaws T}.
Notation heap_ok := (heap_ordered (entry_less (T := T))).
Implicit Types (q : timer_queue T).

Lemma entry_asym (a b : heap_entry T) : entry_less a b = true -> entry_less b a = false.
Proof. apply less_asym. Qed.
Lemma entry_trans (a b c : heap_entry T) :
  entry_less b a = false -> entry_less c b = false -> entry_less c a = false.
Proof. apply less_trans. Qed.

Lemma up_heap_spec fuel : forall k q,
  indexed q -> ordered_above entry_less (heap_ q) k -> (k < length (heap_ q))%nat -> (k < fuel)%nat ->
  exists q', up_heap fuel (Z.of_nat k) q = Some (Ok q') /\ reheaped q q' /\ heap_ok (heap_ q').
Proof.
  induction fuel as [|fuel IH]; intros k q Hq Ho Hk Hf; [lia|]. cbn [up_heap].
  destruct (decide (k = 0%nat)) as [-> |Hk0].
  { eexists. split; [reflexivity|]. split; [by apply reheaped_refl|by apply sift_up_root]. }
  rewrite (proj2 (Z.ltb_lt 0 (Z.of_nat k))) by lia. rewrite parent_of_nat by lia.
  set (p := Nat.div2 (k - 1)). assert (Hp : child p k) by (apply child_parent; lia).
  apply child_lt in Hp as Hlt. destruct (lookup_lt_is_Some_2 _ _ Hk) as [x Hx].
  destruct (lookup_lt_is_Some_2 (heap_ q) p) as [y Hy]; [lia|].
  rewrite (heap_less_Ok _ _ _ _ _ Hx Hy). cbn [lift mbind partial_bind].
  destruct (entry_less x y) eqn:E; cbn [negb].
  - destruct (swap_heap_spec k p q Hq) as (q1 & -> & Eh & Hr); [lia..|]. cbn [mbind partial_bind].
    destruct (IH p q1) as (q' & -> & Hr' & Ho'); [apply Hr| |rewrite Eh, length_exchange; lia|lia|].
    + rewrite Eh. by eapply (sift_up _ entry_asym entry_trans).
    + exists q'. split; [done|]. split; [by eapply reheaped_trans|done].
  - eexists. split; [reflexivity|]. split; [by apply reheaped_refl|by eapply sift_up_done].
Qed.

Lemma entry_irrefl (a : heap_entry T) : entry_less a a = false.
Proof. apply less_irrefl. Qed.

(** The choice between the children of [k] *)
Lemma choose_child_spec k q c1 :
  heap_ q !! (2 * k + 1)%nat = Some c1 ->
  exists m e (b : bool),
    (if Z.of_nat (2 * k + 2) =? Z.of_nat (length (heap_ q)) then ret true
     else lift (heap_less (Z.of_nat (2 * k + 1)) (Z.of_nat (2 * k + 2)) q)) = ret b
    /\ (if b then Z.of_nat (2 * k + 1) else Z.of_nat (2 * k + 2)) = Z.of_nat m
    /\ heap_ q !! m = Some e /\ least_child entry_less (heap_ q) k m.
Proof.
  intros H1. apply lookup_lt_Some in H1 as Hl. destruct (Z.eqb_spec (Z.of_nat (2 * k + 2)) (Z.of_nat (length (heap_ q)))).
  - exists (2 * k + 1)%nat, c1, true. split_and!; [done..|]. split; [by left|].
    intros c x y [-> | ->] Hx Hy; [simplify_eq; apply entry_irrefl|]. apply lookup_lt_Some in Hy. lia.
  - destruct (lookup_lt_is_Some_2 (heap_ q) (2 * k + 2)) as [c2 H2]; [lia|].
    rewrite (heap_less_Ok _ _ _ _ _ H1 H2). destruct (entry_less c1 c2) eqn:E.
    + exists (2 * k + 1)%nat, c1, true. split_and!; [done..|]. split; [by left|].
      intros c x y [-> | ->] Hx Hy; simplify_eq; [apply entry_irrefl|by apply entry_asym].
    + exists (2 * k + 2)%nat, c2, false. split_and!; [done..|]. split; [by right|].
      intros c x y [-> | ->] Hx Hy; simplify_eq; [done|apply entry_irrefl].
Qed.

Lemma down_heap_spec fuel : forall k q,
  indexed q -> ordered_below entry_less (heap_ q) k -> (k < length (heap_ q))%nat ->
  vlen (heap_ q) < 2 ^ 60 -> (length (heap_ q) - k < fuel)%nat ->
  exists q', down_heap fuel (Z.of_nat k) q = Some (Ok q') /\ reheaped q q' /\ heap_ok (heap_ q').
Proof.
  induction fuel as [|fuel IH]; intros k q Hq Ho Hk Hb Hf; [lia|]. cbn [down_heap]. unfold vlen in *.
  replace (u64 (Z.of_nat k * 2 + 1)) with (Z.of_nat (2 * k + 1)) by (rewrite u64_id; ulia).
  destruct (Z.ltb_spec (Z.of_nat (2 * k + 1)) (Z.of_nat (length (heap_ q)))) as [Hc|Hc].
  2:{ eexists. split; [reflexivity|]. split; [by apply reheaped_refl|]. eapply sift_down_leaf; [done|lia]. }
  replace (u64 (Z.of_nat (2 * k + 1) + 1)) with (Z.of_nat (2 * k + 2)) by (rewrite u64_id; ulia).
  destruct (lookup_lt_is_Some_2 (heap_ q) (2 * k + 1)) as [c1 H1]; [lia|].
  destruct (choose_child_spec k q c1 H1) as (m & e & b & -> & Hm & He & Hl). cbn [ret mbind partial_bind]. rewrite Hm.
  destruct (lookup_lt_is_Some_2 _ _ Hk) as [x Hx].
  rewrite (heap_less_Ok _ _ _ _ _ Hx He). cbn [lift mbind partial_bind].
  pose proof (child_lt _ _ (proj1 Hl)) as Hkm. apply lookup_lt_Some in He as Hml.
  destruct (entry_less x e) eqn:E.
  - eexists. split; [reflexivity|]. split; [by apply reheaped_refl|].
    by eapply (sift_down_done _ entry_trans); [..|apply entry_asym].
  - destruct (swap_heap_spec k m q Hq) as (q1 & -> & Eh & Hr); [lia..|]. cbn [mbind partial_bind].
    destruct (IH m q1) as (q' & -> & Hr' & Ho'); rewrite ?Eh, ?length_exchange; try lia; [apply Hr| |].
    + eapply sift_down; eauto.
    + exists q'. split; [done|]. split; [by eapply reheaped_trans|done].
Qed.

(** [q'] is [q] without the entry [e]. *)
Record dropped (e : heap_entry T) q q' : Prop := {
  dr_same t : set_index 0 <$> data q' !! t = set_index 0 <$> data q !! t;
  dr_timers : timers_ q' = timers_ q;
  dr_elems e' : e' ∈ heap_ q' <-> e' ∈ heap_ q /\ e' <> e;
  dr_length : S (length (heap_ q')) = length (heap_ q);
  dr_out t : (forall e, e ∈ heap_ q -> timer_ e <> t) -> data q' !! t = data q !! t;
  dr_indexed : indexed q'
}.

Lemma dropped_reheaped e q1 q2 q3 q4 :
  reheaped q1 q2 -> dropped e q2 q3 -> reheaped q3 q4 -> dropped e q1 q4.
Proof.
  intros [A B C L D E] [A' B' C' L' D' E'] [A'' B'' C'' L'' D'' E'']. split; [|congruence| |lia| |done].
  - intros t. by rewrite A'', A', A.
  - intros e'. by rewrite C'', C', C.
  - intros t Ht. rewrite D'', D', D; [done|done|..]; intros e' He'; apply Ht.
    + by apply C.
    + by apply C, C'.
Qed.

Lemma pop_back_spec n e q :
  indexed q -> length (heap_ q) = S n -> heap_ q !! n = Some e -> dropped e q (pop_back q).
Proof.
  intros Hq Hn He. split; cbn [pop_back with_heap data timers_ heap_]; try done.
  - intros e'. rewrite Hn, !list_elem_of_lookup. setoid_rewrite lookup_take_Some.
    split; [intros (i & Hi & Hlt)|intros [[i Hi] Hne]].
    + split; [eauto|]. intros ->. pose proof (indexed_inj q i n e e Hq Hi He eq_refl). lia.
    + exists i. split; [done|]. apply lookup_lt_Some in Hi as ?. destruct (decide (i = n)); [congruence|lia].
  - rewrite length_take. lia.
  - intros i e'. cbn [pop_back with_heap heap_ data]. intros Hi. apply lookup_take_Some in Hi as [Hi _]. by apply Hq.
Qed.

Lemma remove_from_heap_spec k e q :
  indexed q -> heap_ok (heap_ q) -> heap_ q !! k = Some e -> vlen (heap_ q) < 2 ^ 60 ->
  exists q', remove_from_heap (Z.of_nat k) q = Some (Ok q') /\ dropped e q q' /\ heap_ok (heap_ q').
Proof.
  intros Hq Ho He Hb. apply lookup_lt_Some in He as Hk. unfold remove_from_heap. unfold vlen in *.
  rewrite (proj2 (Z.ltb_lt _ _)), (proj2 (Z.ltb_lt _ _)) by lia. cbn [andb].
  set (n := (length (heap_ q) - 1)%nat). assert (Hn : length (heap_ q) = S n) by lia.
  replace (Z.of_nat (length (heap_ q)) - 1) with (Z.of_nat n) by lia.
  destruct (Z.eqb_spec (Z.of_nat k) (Z.of_nat n)) as [E|E].
  { assert (k = n) as -> by lia. eexists. split; [reflexivity|]. split; [by eapply pop_back_spec|].
    by apply heap_ordered_take. }
  destruct (swap_heap_spec k n q Hq) as (q1 & -> & Eh & Hr); [lia..|]. cbn [lift mbind partial_bind].
  assert (Hl1 : length (heap_ q1) = S n) by (by rewrite Eh, length_exchange).
  assert (He1 : heap_ q1 !! n = Some e).
  { rewrite Eh, lookup_exchange by lia. rewrite decide_False, decide_True by lia. done. }
  pose proof (pop_back_spec n e q1 (rh_indexed _ _ Hr) Hl1 He1) as Hd.
  assert (Ep : heap_ (pop_back q1) = take_last k (heap_ q)).
  { cbn. rewrite Eh, length_exchange. done. }
  set (q2 := pop_back q1) in *. assert (Hl2 : length (heap_ q2) = n).
  { apply dr_length in Hd. lia. }
  destruct (lookup_lt_is_Some_2 (heap_ q) n) as [z Hz]; [lia|].
  assert (Hk2 : heap_ q2 !! k = Some z) by (rewrite Ep, take_last_at by lia; done).
  assert (Hend : forall r, (exists q', r = Some (Ok q') /\ reheaped q2 q' /\ heap_ok (heap_ q')) ->
    exists q', r = Some (Ok q') /\ dropped e q q' /\ heap_ok (heap_ q')).
  { intros r (q' & -> & Hr' & Ho'). exists q'. split; [done|]. split; [by eapply dropped_reheaped|done]. }
  assert (Hdown : (forall p y z, child p k -> heap_ q !! p = Some y -> heap_ q !! (length (heap_ q) - 1)%nat = Some z -> le entry_less y z) ->
    exists q', down_heap (S (length (heap_ q))) (Z.of_nat k) q2 = Some (Ok q') /\ dropped e q q' /\ heap_ok (heap_ q')).
  { intros Hle. apply Hend, down_heap_spec; unfold vlen; try lia; [apply Hd|].
    rewrite Ep. apply take_last_below; [apply entry_trans|done|lia|done]. }
  destruct (Z.ltb_spec 0 (Z.of_nat k)) as [Hk0|Hk0]; cbn [ret mbind partial_bind].
  2:{ apply Hdown. intros p y z' Hp. apply child_lt in Hp. lia. }
  rewrite parent_of_nat by lia. set (p := Nat.div2 (k - 1)).
  assert (Hp : child p k) by (apply child_parent; lia). apply child_lt in Hp as Hpk.
  destruct (lookup_lt_is_Some_2 (heap_ q) p) as [y Hy]; [lia|].
  assert (Hy2 : heap_ q2 !! p = Some y).
  { rewrite Ep, lookup_take_last by lia. by rewrite decide_True by lia. }
  rewrite (heap_less_Ok _ _ _ _ _ Hk2 Hy2). cbn [lift mbind partial_bind].
  destruct (entry_less z y) eqn:Ezy.
  - apply Hend, up_heap_spec; try lia; [apply Hd|]. rewrite Ep.
    by eapply (take_last_above _ entry_asym entry_trans); [|lia|..].
  - apply Hdown. intros p' y' z' Hp' Hy' Hz'. rewrite (child_inj _ _ _ Hp' Hp) in Hy'.
    fold n in Hz'. by simplify_eq.
Qed.
End Sifting.

(** ** The list of timers

    [linked m prev p l e]: from [p] the timers [l] are linked by [next_] up to the
    pointer [e], each with the one before it in [prev_], the first with [prev]. *)
Section Links.
Context {T : Type}.
Implicit Types (m : gmap Z per_timer_data) (l : list Z) (q : timer_queue T).

Fixpoint linked m (prev p : Z) l (e : Z) : Prop :=
  match l with
  | [] => p = e
  | t :: l' => p = t /\ t <> 0 /\ exists d, m !! t = Some d /\ prev_ d = prev /\ linked m t (next_ d) l' e
  end.

Definition links_of (d : per_timer_data) : Z * Z := (next_ d, prev_ d).
Definition last_or (prev : Z) l : Z := default prev (last l).

Lemma last_or_cons prev t l : last_or prev (t :: l) = last_or t l.
Proof. unfold last_or. rewrite last_cons. by destruct (last l). Qed.

Lemma linked_ext m m' prev p l e :
  (forall t, t ∈ l -> links_of <$> m' !! t = links_of <$> m !! t) -> linked m prev p l e -> linked m' prev p l e.
Proof.
  revert prev p; induction l as [|t l IH]; intros prev p Hm; cbn; [done|].
  intros (-> & Ht & d & Hd & Hp & Hl). split_and!; [done..|].
  pose proof (Hm t ltac:(by left)) as Ed. rewrite Hd in Ed. destruct (m' !! t) as [d'|]; [|done].
  cbn in Ed. unfold links_of in Ed. exists d'. split; [done|]. split; [congruence|].
  replace (next_ d') with (next_ d) by congruence. apply IH; [|done]. intros t' Ht'. apply Hm. by right.
Qed.

Lemma linked_app m prev p l1 l2 e :
  linked m prev p (l1 ++ l2) e <-> exists mid, linked m prev p l1 mid /\ linked m (last_or prev l1) mid l2 e.
Proof.
  revert prev p; induction l1 as [|t l1 IH]; intros prev p; cbn.
  - split; [eauto|]. intros (mid & -> & Hl). done.
  - split.
    + intros (-> & Ht & d & Hd & Hp & Hl). apply IH in Hl as (mid & H1 & H2). exists mid. split; [by eauto 10|].
      by rewrite last_or_cons.
    + intros (mid & (-> & Ht & d & Hd & Hp & Hl) & H2). split_and!; [done..|]. exists d.
      split_and!; [done..|]. apply IH. exists mid. by rewrite last_or_cons in H2.
Qed.

Lemma linked_nonzero m prev p l e : linked m prev p l e -> 0 ∉ l.
Proof.
  revert prev p; induction l as [|t l IH]; intros prev p; cbn; [set_solver|].
  intros (-> & Ht & d & _ & _ & Hl). apply IH in Hl. apply not_elem_of_cons. split; [lia|done].
Qed.

Lemma linked_lookup m prev p l e t : linked m prev p l e -> t ∈ l -> is_Some (m !! t).
Proof.
  revert prev p; induction l as [|x l IH]; intros prev p; cbn; [set_solver|].
  intros (-> & Ht & d & Hd & _ & Hl) [-> |Hin]%elem_of_cons; eauto.
Qed.

(** The first timer of a list that has no other end is the pointer to it. *)
Lemma linked_head m prev p l : linked m prev p l 0 -> p = default 0 (head l).
Proof. destruct l; cbn; [done|]. by intros [-> _]. Qed.

Lemma linked_prev m prev p l t l2 d :
  linked m prev p (l ++ t :: l2) 0 -> m !! t = Some d -> prev_ d = last_or prev l /\ next_ d = default 0 (head l2).
Proof.
  intros Hl Hd. apply linked_app in Hl as (mid & _ & -> & _ & d' & Hd' & Hp & Hn).
  rewrite Hd in Hd'. simplify_eq. split; [done|]. by eapply linked_head.
Qed.

(** Redirecting the end of a list, and its start *)
Lemma linked_set_end m prev p l a e e' d :
  NoDup (l ++ [a]) -> linked m prev p (l ++ [a]) e -> m !! a = Some d ->
  linked (<[a := set_links e' (prev_ d) d]> m) prev p (l ++ [a]) e'.
Proof.
  intros Hnd Hl Hd. apply linked_app in Hl as (mid & H1 & -> & Ha & d' & Hd' & Hp & _).
  rewrite Hd in Hd'. simplify_eq. apply linked_app. exists a. split.
  - eapply linked_ext; [|exact H1]. intros t Ht. rewrite lookup_insert_ne; [done|]. intros <-.
    apply NoDup_app in Hnd as (_ & Hdis & _). by apply (Hdis a Ht), list_elem_of_singleton.
  - split_and!; [done..|]. eexists. rewrite lookup_insert_eq. cbn. eauto.
Qed.

Lemma linked_set_prev m prev p t l e prev' d :
  NoDup (t :: l) -> linked m prev p (t :: l) e -> m !! t = Some d ->
  linked (<[t := set_links (next_ d) prev' d]> m) prev' p (t :: l) e.
Proof.
  intros Hnd (-> & Ht & d' & Hd' & _ & Hl) Hd. rewrite Hd in Hd'. simplify_eq. split_and!; [done..|].
  eexists. rewrite lookup_insert_eq. split; [reflexivity|]. split; [done|]. cbn.
  eapply linked_ext; [|exact Hl]. intros t' Ht'. rewrite lookup_insert_ne; [done|].
  intros <-. by apply NoDup_cons in Hnd as [? _].
Qed.

(** [m'] differs from [m] in the links of [l] only. *)
Definition only_links l m m' : Prop :=
  forall x, set_links 0 0 <$> m' !! x = set_links 0 0 <$> m !! x /\ (x ∉ l -> m' !! x = m !! x).

Lemma only_links_refl l m : only_links l m m.
Proof. done. Qed.

Lemma only_links_trans l m1 m2 m3 : only_links l m1 m2 -> only_links l m2 m3 -> only_links l m1 m3.
Proof. intros H1 H2 x. destruct (H1 x) as [E1 F1], (H2 x) as [E2 F2]. split; [congruence|]. intros Hx. by rewrite F2, F1. Qed.

Lemma only_links_insert l m t d next prev :
  m !! t = Some d -> t ∈ l -> only_links l m (<[t := set_links next prev d]> m).
Proof.
  intros Hd Ht x. split.
  - rewrite lookup_insert. case_decide as E; [|done]. subst. by rewrite Hd.
  - intros Hx. apply lookup_insert_ne. set_solver.
Qed.

Lemma linked_untouched m t d prev p l e :
  t ∉ l -> linked m prev p l e -> linked (<[t := d]> m) prev p l e.
Proof.
  intros Ht. apply linked_ext. intros x Hx. rewrite lookup_insert_ne; [done|set_solver].
Qed.

(** What [unlink_timer] makes of the timers before [t] *)
Lemma unlink_before l1 t l2 d q :
  NoDup (l1 ++ t :: l2) -> linked (data q) 0 (timers_ q) (l1 ++ t :: l2) 0 -> data q !! t = Some d ->
  let q0 := if timers_ q =? t then with_timers (next_ d) q else q in
  exists q1, (if negb (prev_ d =? 0)
              then timer_update (fun p => set_links (next_ d) (prev_ p) p) (prev_ d) q0 else Ok q0) = Ok q1
    /\ linked (data q1) 0 (timers_ q1) l1 (next_ d) /\ linked (data q1) t (next_ d) l2 0
    /\ heap_ q1 = heap_ q /\ only_links (l1 ++ t :: l2) (data q) (data q1) /\ data q1 !! t = Some d.
Proof.
  intros Hnd Hl Hd q0. destruct (linked_prev _ _ _ _ _ _ _ Hl Hd) as [Hp _].
  pose proof (linked_head _ _ _ _ Hl) as Hh. pose proof (linked_nonzero _ _ _ _ _ Hl) as H0.
  apply linked_app in Hl as (mid & Hl1 & -> & Ht & d' & Hd' & _ & Hl2). simplify_eq.
  destruct l1 as [|a l1 _] using rev_ind.
  - cbn in Hh, Hl1, Hp. rewrite Hp. cbn [negb Z.eqb]. exists q0. subst q0. rewrite Hh, Z.eqb_refl.
    split_and!; [done..|apply only_links_refl|done].
  - unfold last_or in Hp. rewrite last_snoc in Hp. cbn in Hp. rewrite Hp.
    assert (Ha : a <> 0) by set_solver. rewrite (proj2 (Z.eqb_neq _ _) Ha). cbn [negb].
    assert (Hta : timers_ q <> t).
    { rewrite Hh. apply NoDup_app in Hnd as (_ & Hdis & _). destruct l1; cbn in *; intros ->;
        (eapply Hdis; [|left]; set_solver). }
    subst q0. rewrite (proj2 (Z.eqb_neq _ _) Hta).
    destruct (linked_lookup _ _ _ _ _ a Hl1) as [da Da]; [set_solver|].
    assert (Hat : a <> t /\ a ∉ l2).
    { apply NoDup_app in Hnd as (_ & Hdis & _). specialize (Hdis a). set_solver. }
    destruct Hat as [Hat Hal]. rewrite (timer_update_Ok _ _ _ da) by done. eexists. split; [reflexivity|]. cbn [data timers_ heap_].
    split_and!.
    + apply (linked_set_end _ _ _ _ _ t); [|done|done]. by apply NoDup_app in Hnd as [? _].
    + by apply linked_untouched.
    + done.
    + apply only_links_insert; [done|set_solver].
    + by rewrite lookup_insert_ne.
Qed.

(** ... and of those after it *)
Lemma unlink_after l1 t l2 d q :
  NoDup (l1 ++ t :: l2) -> linked (data q) 0 (timers_ q) l1 (next_ d) -> linked (data q) t (next_ d) l2 0 ->
  data q !! t = Some d -> prev_ d = last_or 0 l1 ->
  exists q1, (if negb (next_ d =? 0)
              then timer_update (fun n => set_links (next_ n) (prev_ d) n) (next_ d) q else Ok q) = Ok q1
    /\ linked (data q1) 0 (timers_ q1) (l1 ++ l2) 0
    /\ heap_ q1 = heap_ q /\ only_links (l1 ++ t :: l2) (data q) (data q1) /\ data q1 !! t = Some d.
Proof.
  intros Hnd Hl1 Hl2 Hd Hp. pose proof (linked_head _ _ _ _ Hl2) as Hh. destruct l2 as [|b l2]; cbn in Hh.
  - rewrite Hh. cbn [negb Z.eqb]. exists q. rewrite app_nil_r. rewrite Hh in Hl1.
    split_and!; [done..|apply only_links_refl|done].
  - assert (Hb : b <> 0) by (apply linked_nonzero in Hl2; set_solver).
    rewrite Hh, (proj2 (Z.eqb_neq _ _) Hb). cbn [negb].
    destruct (linked_lookup _ _ _ _ _ b Hl2) as [db Db]; [by left|].
    apply NoDup_app in Hnd as (Hn1 & Hdis & [Htl Hn2]%NoDup_cons).
    assert (Hbt : b <> t /\ b ∉ l1) by (specialize (Hdis b); set_solver).
    destruct Hbt as [Hbt Hbl]. rewrite (timer_update_Ok _ _ _ db) by done. eexists. split; [reflexivity|]. cbn [data timers_ heap_].
    split_and!.
    + apply linked_app. exists (next_ d). split; [by apply linked_untouched|].
      rewrite Hp. by eapply linked_set_prev.
    + done.
    + apply only_links_insert; [done|set_solver].
    + by rewrite lookup_insert_ne.
Qed.

Lemma unlink_timer_spec l1 t l2 q :
  NoDup (l1 ++ t :: l2) -> linked (data q) 0 (timers_ q) (l1 ++ t :: l2) 0 ->
  exists q', unlink_timer t q = Ok q' /\ linked (data q') 0 (timers_ q') (l1 ++ l2) 0 /\ heap_ q' = heap_ q
    /\ only_links (l1 ++ t :: l2) (data q) (data q') /\ links_of <$> data q' !! t = Some (0, 0).
Proof.
  intros Hnd Hl. assert (Ht : t <> 0) by (apply linked_nonzero in Hl; set_solver).
  destruct (linked_lookup _ _ _ _ _ t Hl) as [d Hd]; [set_solver|].
  destruct (linked_prev _ _ _ _ _ _ _ Hl Hd) as [Hp _].
  destruct (unlink_before l1 t l2 d q Hnd Hl Hd) as (q1 & E1 & Hl1 & Hl2 & Hh1 & Ho1 & Hd1).
  destruct (unlink_after l1 t l2 d q1 Hnd Hl1 Hl2 Hd1 Hp) as (q2 & E2 & Hl3 & Hh2 & Ho2 & Hd2).
  unfold unlink_timer. rewrite (timer_get_Ok _ _ d) by done. cbn [mbind outcome_bind].
  rewrite E1. cbn [mbind outcome_bind]. rewrite E2. cbn [mbind outcome_bind].
  rewrite (timer_update_Ok _ _ _ d) by done. eexists. split; [reflexivity|]. cbn [data timers_ heap_]. split_and!.
  - apply linked_untouched; [|done]. apply NoDup_app in Hnd as (_ & Hdis & [? _]%NoDup_cons).
    specialize (Hdis t). set_solver.
  - congruence.
  - eapply only_links_trans; [exact Ho1|]. eapply only_links_trans; [exact Ho2|].
    apply only_links_insert; [done|set_solver].
  - by rewrite lookup_insert_eq.
Qed.

Lemma link_timer_spec t l q :
  t <> 0 -> is_Some (data q !! t) -> t ∉ l -> linked (data q) 0 (timers_ q) l 0 ->
  NoDup l ->
  exists q', link_timer t q = Ok q' /\ linked (data q') 0 (timers_ q') (t :: l) 0 /\ heap_ q' = heap_ q
    /\ only_links (t :: l) (data q) (data q').
Proof.
  intros Ht [d Hd] Htl Hl Hn. unfold link_timer. rewrite (timer_update_Ok _ _ _ d) by done.
  cbn [mbind outcome_bind timers_]. pose proof (linked_head _ _ _ _ Hl) as Hh. destruct l as [|b l]; cbn in Hh.
  - rewrite Hh. cbn [negb Z.eqb]. eexists. split; [reflexivity|]. cbn [data timers_ heap_ with_timers linked].
    split_and!; [done|done| |done|apply only_links_insert; [done|by left]].
    eexists. rewrite lookup_insert_eq. cbn. split; [reflexivity|]. done.
  - pose proof (linked_nonzero _ _ _ _ _ Hl) as H0. assert (Hb : b <> 0) by set_solver.
    rewrite Hh, (proj2 (Z.eqb_neq _ _) Hb). cbn [negb].
    destruct (linked_lookup _ _ _ _ _ b Hl) as [db Db]; [by left|].
    rewrite (timer_update_Ok _ _ _ db); cbn [data]; [|done|rewrite lookup_insert_ne; [done|set_solver]].
    eexists. split; [reflexivity|]. cbn [data timers_ heap_ with_timers mbind outcome_bind]. cbn [linked]. split_and!; [done|done| |done|].
    + eexists. rewrite lookup_insert_ne, lookup_insert_eq by set_solver. cbn. split_and!; [done..|].
      eapply linked_set_prev; [done| |by rewrite lookup_insert_ne by set_solver].
      apply linked_untouched; [done|]. by rewrite Hh in Hl.
    + eapply only_links_trans; apply only_links_insert; [done|by left|by rewrite lookup_insert_ne by set_solver|].
      right. by left.
Qed.
End Links.
