(* ===== verification/Timers.v ===== *)
(** * What a timer queue does (asio/detail/timer_queue.hpp)

    A queue represents a map from its timers to their expiry and their waiting
    operations.  Each operation of Timerqueue is one on this map; the theorems
    are about sequences of them from the empty queue: nothing runs out of fuel or
    follows a bad pointer, each operation is delivered exactly once, and those of
    expired timers in the order of their times. *)
From Stdlib Require Import Sorting.Sorted.
From S2P Require Import Prelude Socketops Timetraits Binheap Timerqueue.
#[local] Open Scope Z_scope.

Section Represents.
Context {T : Type} `{Time_TraitsLaws T}.
Implicit Types (q : timer_queue T) (E : gmap Z (option T)).
Notation heap_ok := (heap_ordered (entry_less (T := T))).

(** Where the timers of [E] are; a timer without expiry is not in the heap. *)
Record placed q E : Prop := {
  pl_list : exists l, linked (data q) 0 (timers_ q) l 0 /\ NoDup l /\ forall t, t ∈ l <-> is_Some (E !! t);
  pl_out t d : data q !! t = Some d -> E !! t = None -> prev_ d = 0;
  pl_indexed : indexed q;
  pl_in e : e ∈ heap_ q -> E !! timer_ e = Some (Some (time_ e));
  pl_heap t time : E !! t = Some (Some time) -> HeapEntry time t ∈ heap_ q;
  pl_never t d : E !! t = Some None -> data q !! t = Some d -> heap_index_ d = SIZE_MAX;
  pl_order : heap_ok (heap_ q);
  pl_bound : Z.of_nat (size (data q)) < 2 ^ 60
}.

Lemma heap_timers_NoDup q : indexed q -> NoDup (timer_ <$> heap_ q).
Proof.
  intros Hq. apply NoDup_alt. intros i j t Hi Hj. apply list_lookup_fmap_Some in Hi as (e & -> & Hi).
  apply list_lookup_fmap_Some in Hj as (e' & Et & Hj). by eapply indexed_inj.
Qed.

Lemma heap_length q : indexed q -> (length (heap_ q) <= size (data q))%nat.
Proof.
  intros Hq. rewrite <- size_dom, <- (length_fmap timer_), <- (size_list_to_set (C := gset Z)).
  2: by apply heap_timers_NoDup.
  apply subseteq_size. intros t. rewrite elem_of_list_to_set, list_elem_of_fmap, elem_of_dom.
  intros (e & -> & [i Hi]%list_elem_of_lookup). destruct (Hq i e Hi) as (_ & d & -> & _). eauto.
Qed.

Lemma placed_heap_bound q E : placed q E -> vlen (heap_ q) < 2 ^ 60.
Proof. intros Hp. pose proof (heap_length q (pl_indexed _ _ Hp)). pose proof (pl_bound _ _ Hp). unfold vlen. lia. Qed.

Lemma placed_nonzero q E t : placed q E -> is_Some (E !! t) -> t <> 0 /\ is_Some (data q !! t).
Proof.
  intros Hp Ht. destruct (pl_list _ _ Hp) as (l & Hl & _ & Hm). apply Hm in Ht. split.
  - intros ->. by eapply linked_nonzero.
  - by eapply linked_lookup.
Qed.

Lemma placed_new m : (forall t d, m !! t = Some d -> prev_ d = 0) -> Z.of_nat (size m) < 2 ^ 60 ->
  placed (timer_queue_new m) ∅.
Proof.
  intros Hm Hs. split; cbn [timer_queue_new data timers_ heap_].
  - exists []. split; [done|]. split; [constructor|]. intros t. rewrite lookup_empty, elem_of_nil.
    split; [done|]. by intros [].
  - eauto.
  - by intros i e Hi.
  - intros e He. by apply elem_of_nil in He.
  - intros *. by rewrite lookup_empty.
  - intros *. by rewrite lookup_empty.
  - by intros p c x y _ Hx.
  - done.
Qed.

(** The test of [enqueue_timer] and [cancel_timer] *)
Lemma member_test q E t d :
  placed q E -> t <> 0 -> data q !! t = Some d ->
  negb (prev_ d =? 0) || (t =? timers_ q) = bool_decide (is_Some (E !! t)).
Proof.
  intros Hp Ht Hd. destruct (pl_list _ _ Hp) as (l & Hl & Hn & Hm). pose proof (linked_head _ _ _ _ Hl) as Hh.
  destruct (decide (t ∈ l)) as [Hin|Hout].
  - rewrite bool_decide_eq_true_2 by (by apply Hm). apply list_elem_of_split in Hin as (l1 & l2 & ->).
    destruct (linked_prev _ _ _ _ _ _ _ Hl Hd) as [-> _]. destruct l1 as [|a l1 _] using rev_ind.
    + rewrite Hh. cbn. apply Z.eqb_refl.
    + unfold last_or. rewrite last_snoc. cbn. rewrite (proj2 (Z.eqb_neq a 0)); [done|].
      apply linked_nonzero in Hl. set_solver.
  - rewrite bool_decide_eq_false_2 by (by rewrite <- Hm).
    rewrite (pl_out _ _ Hp t d Hd); [|apply eq_None_not_Some; by rewrite <- Hm].
    cbn. rewrite Hh. apply Z.eqb_neq. destruct l; cbn; set_solver.
Qed.

(** Changing the operations or the index of a timer *)
Lemma placed_ops q E t d l :
  placed q E -> data q !! t = Some d -> placed (TimerQueue (<[t := set_ops l d]> (data q)) (timers_ q) (heap_ q)) E.
Proof.
  intros [(L & Hl & Hn & Hm) Ho Hi Hin Hhp Hnv Hord Hb] Hd. split; cbn [data timers_ heap_]; try done.
  - exists L. split; [|done]. eapply linked_ext; [|exact Hl]. intros u _. rewrite lookup_insert.
    case_decide; [subst; by rewrite Hd|done].
  - intros u du. rewrite lookup_insert. case_decide; [subst; intros [= <-] Hu; by eapply (Ho u d)|eauto].
  - intros i e He. destruct (Hi i e He) as (Te & de & De & Ie). split; [done|]. cbn [data].
    rewrite lookup_insert. case_decide as E'; [|eauto]. rewrite E' in Hd. simplify_eq. eauto.
  - intros u du Hu. rewrite lookup_insert. case_decide; [subst; intros [= <-]; by eapply (Hnv u d)|eauto].
  - rewrite map_size_insert_Some by eauto. done.
Qed.

(** The data agree but for the indices, or but for the links. *)
Lemma same_size {A B} (f : A -> B) (m m' : gmap Z A) :
  (forall t, f <$> m' !! t = f <$> m !! t) -> size m' = size m.
Proof.
  intros Hm. rewrite <- (size_dom (D := gset Z) m), <- (size_dom (D := gset Z) m'). f_equal. apply set_eq. intros t.
  rewrite !elem_of_dom. specialize (Hm t). by destruct (m !! t), (m' !! t).
Qed.

Lemma fmap_Some_eq {A B} (f : A -> B) (o o' : option A) a' :
  f <$> o' = f <$> o -> o' = Some a' -> exists a, o = Some a /\ f a = f a'.
Proof. intros E ->. destruct o as [a|]; [|done]. cbn in E. exists a. split; congruence. Qed.

Lemma index_links d d' : set_index 0 d = set_index 0 d' ->
  links_of d = links_of d' /\ op_queue_ d = op_queue_ d' /\ prev_ d = prev_ d'.
Proof. destruct d, d'. unfold set_index, links_of. cbn. intros E. split_and!; congruence. Qed.

Lemma links_index d d' : set_links 0 0 d = set_links 0 0 d' ->
  heap_index_ d = heap_index_ d' /\ op_queue_ d = op_queue_ d'.
Proof. destruct d, d'. unfold set_links. cbn. intros E. split; congruence. Qed.

Lemma same_but_index_linked m m' prev p l e :
  (forall t, set_index 0 <$> m' !! t = set_index 0 <$> m !! t) -> linked m prev p l e -> linked m' prev p l e.
Proof.
  intros Hm. apply linked_ext. intros t _. specialize (Hm t).
  destruct (m !! t), (m' !! t); try done. cbn in *. f_equal. apply index_links. congruence.
Qed.

(** [q1] is [q] with [t] out of the heap. *)
Record off_heap (t : Z) q q1 : Prop := {
  oh_same u : set_index 0 <$> data q1 !! u = set_index 0 <$> data q !! u;
  oh_timers : timers_ q1 = timers_ q;
  oh_elems e : e ∈ heap_ q1 <-> e ∈ heap_ q /\ timer_ e <> t;
  oh_out u : (forall e, e ∈ heap_ q -> timer_ e <> u) -> data q1 !! u = data q !! u;
  oh_length : (exists e, e ∈ heap_ q /\ timer_ e = t) -> S (length (heap_ q1)) = length (heap_ q);
  oh_indexed : indexed q1;
  oh_order : heap_ok (heap_ q1)
}.

Lemma off_heap_spec q E t d :
  placed q E -> is_Some (E !! t) -> data q !! t = Some d ->
  exists q1, remove_from_heap (heap_index_ d) q = Some (Ok q1) /\ off_heap t q q1.
Proof.
  intros Hp [[time|] Ht] Hd; pose proof (placed_heap_bound _ _ Hp) as Hb.
  - pose proof (pl_heap _ _ Hp t time Ht) as [k Hk]%list_elem_of_lookup.
    destruct (pl_indexed _ _ Hp k _ Hk) as (_ & d' & Hd' & Ei). cbn in Hd'. simplify_eq. rewrite Ei.
    destruct (remove_from_heap_spec k _ q (pl_indexed _ _ Hp) (pl_order _ _ Hp) Hk Hb)
      as (q1 & -> & [A B C D F G] & Ho). exists q1. split; [done|]. split; try done.
    intros e. rewrite C. split; intros [He Hne]; (split; [done|]); [|by intros ->].
    intros Et. apply Hne. pose proof (pl_in _ _ Hp e He) as Ee. rewrite Et, Ht in Ee.
    destruct e. cbn in *. congruence.
  - exists q. unfold remove_from_heap. rewrite (pl_never _ _ Hp t d Ht Hd). unfold SIZE_MAX.
    rewrite (proj2 (Z.ltb_ge (2 ^ 64 - 1) _)), andb_false_r by lia. split; [done|].
    assert (Hno : forall e, e ∈ heap_ q -> timer_ e <> t).
    { intros e He Et. pose proof (pl_in _ _ Hp e He) as Ee. rewrite Et in Ee. congruence. }
    split; try apply Hp; try done; [naive_solver|]. intros (e & He & Et). by destruct (Hno e).
Qed.

Lemma remove_timer_spec q E t :
  placed q E -> is_Some (E !! t) ->
  exists q', remove_timer t q = Some (Ok q') /\ placed q' (delete t E)
    /\ (forall u, op_queue_ <$> data q' !! u = op_queue_ <$> data q !! u)
    /\ ((exists e, e ∈ heap_ q /\ timer_ e = t) -> S (length (heap_ q')) = length (heap_ q)).
Proof.
  intros Hp Ht. destruct (placed_nonzero _ _ _ Hp Ht) as [Ht0 [d Hd]]. unfold remove_timer.
  rewrite (timer_get_Ok _ _ _ Ht0 Hd). cbn [lift mbind partial_bind].
  destruct (off_heap_spec _ _ _ _ Hp Ht Hd) as (q1 & -> & [A B C D Hlen F G]). cbn [mbind partial_bind].
  destruct (pl_list _ _ Hp) as (l & Hl & Hn & Hm). apply Hm in Ht as Hin.
  apply list_elem_of_split in Hin as (l1 & l2 & ->). rewrite <- B in Hl.
  destruct (unlink_timer_spec l1 t l2 q1 Hn) as (q' & -> & Hl' & Hh' & Ho' & Ht').
  { eapply same_but_index_linked; [exact A|done]. }
  exists q'. split; [done|]. split; [split|split; [|by rewrite Hh']].
  - exists (l1 ++ l2). split; [done|]. split.
    + apply NoDup_app in Hn as (? & Hdis & [? ?]%NoDup_cons). apply NoDup_app. split_and!; [done| |done].
      intros x Hx Hx'. destruct (Hdis x Hx). by right.
    + intros u. rewrite lookup_delete. rewrite elem_of_app. specialize (Hm u).
      rewrite elem_of_app, elem_of_cons in Hm. apply NoDup_app in Hn as (_ & Hdis & [Ht2 _]%NoDup_cons).
      specialize (Hdis u). case_decide as Eu; [|rewrite <- Hm; naive_solver].
      subst u. split; [|by intros []]. intros [Hu|Hu]; [|done]. destruct (Hdis Hu). by left.
  - intros u d' Hu. rewrite lookup_delete. case_decide as Eu.
    + subst u. rewrite Hu in Ht'. intros _. cbn in Ht'. unfold links_of in Ht'. congruence.
    + intros Hun. rewrite (proj2 (Ho' u)) in Hu.
      2:{ rewrite Hm. rewrite Hun. by intros []. }
      destruct (fmap_Some_eq _ _ _ _ (A u) Hu) as (d0 & Hd0 & E0). apply index_links in E0 as (_ & _ & <-).
      by eapply (pl_out _ _ Hp).
  - intros i e Hi. rewrite Hh' in Hi. destruct (F i e Hi) as (Te & de & De & Ie). split; [done|].
    pose proof (proj1 (Ho' (timer_ e))) as Eo. rewrite De in Eo.
    destruct (data q' !! timer_ e) as [d'|]; [|done]. exists d'. split; [done|].
    cbn in Eo. assert (Eo' : set_links 0 0 d' = set_links 0 0 de) by congruence.
    apply links_index in Eo' as [-> _]. done.
  - intros e. rewrite Hh'. intros [He Hne]%C. rewrite lookup_delete_ne by done. by apply (pl_in _ _ Hp).
  - intros u time. rewrite Hh', C, lookup_delete. case_decide; [done|]. intros Hu.
    split; [by apply (pl_heap _ _ Hp)|done].
  - intros u d' Hu Hd'. rewrite lookup_delete in Hu. case_decide as Eu; [done|].
    destruct (fmap_Some_eq _ _ _ _ (proj1 (Ho' u)) Hd') as (d1 & Hd1 & [E1 _]%links_index). rewrite <- E1.
    rewrite D in Hd1; [by eapply (pl_never _ _ Hp u)|]. intros e He <-.
    apply (pl_in _ _ Hp) in He. congruence.
  - by rewrite Hh'.
  - rewrite (same_size (set_links 0 0) (data q1) (data q')) by (intros u; apply Ho').
    rewrite (same_size (set_index 0) (data q) (data q1)) by done. apply Hp.
  - intros u. specialize (A u). pose proof (proj1 (Ho' u)) as O. 
    destruct (data q !! u) as [d0|], (data q1 !! u) as [d1|], (data q' !! u) as [d2|]; try done.
    cbn in *. assert (E0 : set_index 0 d1 = set_index 0 d0) by congruence.
    assert (E1 : set_links 0 0 d2 = set_links 0 0 d1) by congruence.
    apply index_links in E0 as (_ & E0 & _). apply links_index in E1 as [_ E1]. congruence.
Qed.

Definition expiry (time : T) : option T := if is_positive_infinity time then None else Some time.

(** [q1] is [q] with [t] in the heap, if it can expire. *)
Record on_heap (t : Z) (time : T) q q1 : Prop := {
  nh_same u : set_index 0 <$> data q1 !! u = set_index 0 <$> data q !! u;
  nh_timers : timers_ q1 = timers_ q;
  nh_elems e : e ∈ heap_ q1 <-> e ∈ heap_ q \/ e = HeapEntry time t /\ expiry time = Some time;
  nh_out u : (forall e, e ∈ heap_ q -> timer_ e <> u) -> u <> t -> data q1 !! u = data q !! u;
  nh_never d : expiry time = None -> data q1 !! t = Some d -> heap_index_ d = SIZE_MAX;
  nh_indexed : indexed q1;
  nh_order : heap_ok (heap_ q1)
}.

Lemma indexed_add t time d q :
  indexed q -> t <> 0 -> data q !! t = Some d -> (forall e, e ∈ heap_ q -> timer_ e <> t) ->
  indexed (TimerQueue (<[t := set_index (vlen (heap_ q)) d]> (data q)) (timers_ q) (heap_ q ++ [HeapEntry time t])).
Proof.
  intros Hq Ht Hd Hno i e Hi. cbn [data heap_] in *. apply lookup_app_Some in Hi as [Hi|[Hl Hi]].
  - destruct (Hq i e Hi) as (Te & de & De & Ie). split; [done|].
    rewrite lookup_insert_ne; [eauto|]. by eapply not_eq_sym, Hno, list_elem_of_lookup_2.
  - apply list_lookup_singleton_Some in Hi as [Hi <-]. split; [done|]. cbn. rewrite lookup_insert_eq.
    eexists. split; [reflexivity|]. cbn. unfold vlen. lia.
Qed.

Lemma on_heap_spec q E t time :
  placed q E -> E !! t = None -> t <> 0 -> is_Some (data q !! t) ->
  exists q1, insert_heap time t q = Some (Ok q1) /\ on_heap t time q q1.
Proof.
  intros Hp Ht Ht0 [d Hd]. unfold insert_heap. rewrite !(timer_update_Ok _ _ _ d) by done. cbn [lift mbind partial_bind].
  assert (Hno : forall e, e ∈ heap_ q -> timer_ e <> t).
  { intros e He <-. apply (pl_in _ _ Hp) in He. congruence. }
  assert (Hsame : forall i u, set_index 0 <$> <[t := set_index i d]> (data q) !! u = set_index 0 <$> data q !! u).
  { intros i u. rewrite lookup_insert. case_decide; [subst; by rewrite Hd|done]. }
  unfold with_heap. cbn [data timers_ heap_]. destruct (is_positive_infinity time) eqn:Ei.
  - assert (He : expiry time = None) by (unfold expiry; by rewrite Ei).
    eexists. split; [reflexivity|]. split; cbn [data timers_ heap_]; try done.
    + intros e. rewrite He. naive_solver.
    + intros u _ Hu. by rewrite lookup_insert_ne.
    + intros d' _. rewrite lookup_insert_eq. by intros [= <-].
    + intros i e Hi. cbn [data heap_] in *. destruct (pl_indexed _ _ Hp i e Hi) as (Te & de & De & Ie).
      split; [done|]. rewrite lookup_insert_ne; [eauto|]. by eapply not_eq_sym, Hno, list_elem_of_lookup_2.
    + apply Hp.
  - assert (He : expiry time = Some time) by (unfold expiry; by rewrite Ei).
    pose proof (indexed_add t time d q (pl_indexed _ _ Hp) Ht0 Hd Hno) as Hi.
    replace (vlen (heap_ q ++ [HeapEntry time t]) - 1) with (Z.of_nat (length (heap_ q)))
      by (unfold vlen; rewrite length_app; cbn; lia).
    edestruct (up_heap_spec (length (heap_ q ++ [HeapEntry time t])) (length (heap_ q))) as (q1 & -> & [A B C D F G] & Ho).
    + exact Hi.
    + apply snoc_above, Hp.
    + cbn. rewrite length_app. cbn. lia.
    + rewrite length_app. cbn. lia.
    + cbn [data timers_ heap_] in *. exists q1. split; [done|]. split; try done.
      * intros u. by rewrite A.
      * intros e. rewrite C, elem_of_app, list_elem_of_singleton. naive_solver.
      * intros u Hu Hut. rewrite F; [by rewrite lookup_insert_ne|]. intros e [He'| ->%list_elem_of_singleton]%elem_of_app; [auto|done].
      * intros d' Hd'. congruence.
Qed.

Lemma insert_timer_spec q E t time :
  placed q E -> E !! t = None -> t <> 0 -> is_Some (data q !! t) ->
  exists q', insert_timer time t q = Some (Ok q') /\ placed q' (<[t := expiry time]> E)
    /\ forall u, op_queue_ <$> data q' !! u = op_queue_ <$> data q !! u.
Proof.
  intros Hp Ht Ht0 Hs. unfold insert_timer.
  destruct (on_heap_spec q E t time Hp Ht Ht0 Hs) as (q1 & -> & [A B C D F G O]). cbn [mbind partial_bind].
  destruct (pl_list _ _ Hp) as (l & Hl & Hn & Hm).
  assert (Htl : t ∉ l) by (rewrite Hm, Ht; by intros []).
  destruct (link_timer_spec t l q1) as (q' & -> & Hl' & Hh' & Ho'); try done.
  { specialize (A t). destruct Hs as [d Hd]. rewrite Hd in A. by destruct (data q1 !! t). }
  { rewrite B. eapply same_but_index_linked; [exact A|done]. }
  exists q'. split; [done|]. split; [split|].
  - exists (t :: l). split; [done|]. split; [by apply NoDup_cons|]. intros u.
    rewrite elem_of_cons, lookup_insert, Hm. case_decide as Eu; [subst; naive_solver|naive_solver].
  - intros u d' Hd'. rewrite lookup_insert. case_decide as Eu; [done|]. intros Hu.
    rewrite (proj2 (Ho' u)) in Hd'.
    2:{ rewrite elem_of_cons, Hm, Hu. intros [?|[]]; congruence. }
    destruct (fmap_Some_eq _ _ _ _ (A u) Hd') as (d0 & Hd0 & E0). apply index_links in E0 as (_ & _ & <-).
    by eapply (pl_out _ _ Hp).
  - intros i e Hi. rewrite Hh' in Hi. destruct (G i e Hi) as (Te & de & De & Ie). split; [done|].
    pose proof (proj1 (Ho' (timer_ e))) as Eo. rewrite De in Eo.
    destruct (data q' !! timer_ e) as [d'|]; [|done]. exists d'. split; [done|].
    cbn in Eo. assert (Eo' : set_links 0 0 d' = set_links 0 0 de) by congruence.
    apply links_index in Eo' as [-> _]. done.
  - intros e. rewrite Hh', lookup_insert. intros [He|[-> He]]%C; [|by rewrite decide_True, He].
    apply (pl_in _ _ Hp) in He. rewrite decide_False; [done|]. intros ->. congruence.
  - intros u time'. rewrite Hh', C, lookup_insert. case_decide as Eu; [|by left; apply (pl_heap _ _ Hp)].
    subst. intros [= Ee]. right. revert Ee. unfold expiry. destruct (is_positive_infinity time); [done|].
    by intros [= ->].
  - intros u d' Hu Hd'. destruct (fmap_Some_eq _ _ _ _ (proj1 (Ho' u)) Hd') as (d1 & Hd1 & [E1 _]%links_index).
    rewrite <- E1. rewrite lookup_insert in Hu. case_decide as Eu; [subst; apply F; congruence|].
    rewrite D in Hd1; [by eapply (pl_never _ _ Hp u)| |done]. intros e He <-.
    apply (pl_in _ _ Hp) in He. congruence.
  - by rewrite Hh'.
  - rewrite (same_size (set_links 0 0) (data q1) (data q')) by (intros u; apply Ho').
    rewrite (same_size (set_index 0) (data q) (data q1)) by done. apply Hp.
  - intros u. specialize (A u). pose proof (proj1 (Ho' u)) as Ou.
    destruct (data q !! u) as [d0|], (data q1 !! u) as [d1|], (data q' !! u) as [d2|]; try done.
    cbn in *. assert (E0 : set_index 0 d1 = set_index 0 d0) by congruence.
    assert (E1 : set_links 0 0 d2 = set_links 0 0 d1) by congruence.
    apply index_links in E0 as (_ & E0 & _). apply links_index in E1 as [_ E1]. congruence.
Qed.

(** ** The map from timers to their expiry and operations *)
Notation pending := (gmap Z (option T * list wait_op)).
Implicit Types (P : pending) (x : option T * list wait_op).

Record represents q P : Prop := {
  rp_placed : placed q (fst <$> P);
  rp_ops t d : data q !! t = Some d -> op_queue_ d = default [] (snd <$> P !! t);
  rp_some t x : P !! t = Some x -> x.2 <> []
}.

Definition spec_enqueue (time : T) (t : Z) (op : wait_op) P : pending :=
  match P !! t with
  | Some (e, os) => <[t := (e, os ++ [op])]> P
  | None => <[t := (expiry time, [op])]> P
  end.

Lemma represents_member q P t d :
  placed q (fst <$> P) -> t <> 0 -> data q !! t = Some d ->
  negb (prev_ d =? 0) || (t =? timers_ q) = bool_decide (is_Some (P !! t)).
Proof.
  intros Hp Ht Hd. rewrite (member_test _ _ _ _ Hp Ht Hd). apply bool_decide_ext.
  by rewrite lookup_fmap, fmap_is_Some.
Qed.

(** The queue after [timer_update (set_ops l) t], when the map has [l] at [t] *)
Lemma represents_set_ops q P E t e l d :
  placed q E -> E = fst <$> <[t := (e, l)]> P -> data q !! t = Some d -> l <> [] ->
  (forall u d, u <> t -> data q !! u = Some d -> op_queue_ d = default [] (snd <$> P !! u)) ->
  (forall u x, P !! u = Some x -> u <> t -> x.2 <> []) ->
  represents (TimerQueue (<[t := set_ops l d]> (data q)) (timers_ q) (heap_ q)) (<[t := (e, l)]> P).
Proof.
  intros Hp -> Hd Hl Ho Hs. split; cbn [data].
  - by apply placed_ops.
  - intros u du. rewrite !lookup_insert. case_decide; [by intros [= <-]|eauto].
  - intros u x. rewrite lookup_insert. case_decide; [by intros [= <-]|eauto].
Qed.

Lemma enqueue_timer_spec q P time t op :
  represents q P -> t <> 0 -> is_Some (data q !! t) ->
  exists q' b, enqueue_timer time t op q = Some (Ok (q', b)) /\ represents q' (spec_enqueue time t op P)
    /\ (forall u, is_Some (data q !! u) -> is_Some (data q' !! u))
    /\ (P !! t = None -> b = false -> forall e, heap_ q' !! 0%nat = Some e -> timer_ e <> t).
Proof.
  intros [Hp Ho Hs] Ht [d Hd]. unfold enqueue_timer. rewrite (timer_get_Ok _ _ _ Ht Hd). cbn [lift mbind partial_bind].
  pose proof (represents_member q P t d Hp Ht Hd) as Hmt.
  replace ((prev_ d =? 0) && negb (t =? timers_ q)) with (negb (bool_decide (is_Some (P !! t))))
    by (rewrite <- Hmt, negb_orb, negb_involutive; done).
  unfold spec_enqueue. destruct (P !! t) as [[e os]|] eqn:EP.
  - rewrite bool_decide_eq_true_2 by eauto. cbn [negb ret mbind partial_bind].
    pose proof (Ho t d Hd) as Eo. rewrite EP in Eo. cbn in Eo.
    rewrite (timer_update_Ok _ _ _ d) by done. cbn [lift mbind partial_bind]. rewrite Eo.
    rewrite (timer_get_Ok _ _ (set_ops (os ++ [op]) d)); cbn [data]; [|done|by rewrite lookup_insert_eq].
    cbn [lift mbind partial_bind]. eexists _, _. split; [reflexivity|]. split.
    + eapply represents_set_ops; [exact Hp| |done|by destruct os| |].
      * rewrite fmap_insert. symmetry. apply insert_id. by rewrite lookup_fmap, EP.
      * intros u du _. apply Ho.
      * intros u x Hu _. by apply (Hs u).
    + split; [|done]. intros u Hu. cbn [data]. apply lookup_insert_is_Some'. auto.
  - rewrite bool_decide_eq_false_2 by (by intros []). cbn [negb].
    destruct (insert_timer_spec q _ t time Hp) as (q1 & -> & Hp1 & Ho1); [by rewrite lookup_fmap, EP|done|eauto|].
    cbn [mbind partial_bind]. pose proof (Ho1 t) as Et. rewrite Hd in Et.
    destruct (data q1 !! t) as [d1|] eqn:Hd1; [|done]. cbn in Et.
    pose proof (Ho t d Hd) as Eo. rewrite EP in Eo. cbn in Eo.
    rewrite (timer_update_Ok _ _ _ d1) by done. cbn [lift mbind partial_bind].
    assert (op_queue_ d1 = []) as -> by congruence. cbn [app].
    rewrite (timer_get_Ok _ _ (set_ops [op] d1)); cbn [data]; [|done|by rewrite lookup_insert_eq].
    cbn [lift mbind partial_bind]. eexists _, _. split; [reflexivity|]. split.
    + eapply represents_set_ops; [exact Hp1| |done|done| |].
      * by rewrite fmap_insert.
      * intros u du Hu Hdu. destruct (fmap_Some_eq _ _ _ _ (Ho1 u) Hdu) as (d0 & Hd0 & <-). by apply Ho.
      * intros u x Hu _. by apply (Hs u).
    + split.
      * intros u [du Hu]. cbn [data]. apply lookup_insert_is_Some'. right. specialize (Ho1 u). rewrite Hu in Ho1.
        by destruct (data q1 !! u).
      * intros _ Hb e He Ete. cbn [heap_] in He. destruct (pl_indexed _ _ Hp1 0%nat e He) as (_ & d' & Hd' & Ei).
        rewrite Ete, Hd1 in Hd'. simplify_eq. cbn in Hb. by rewrite Ei, !Z.eqb_refl in Hb.
Qed.

(** ** Cancelling *)
Definition cut (max : Z) (l : list wait_op) : list wait_op * list wait_op :=
  if vlen l <=? max then (l, []) else (take (Z.to_nat max) l, drop (Z.to_nat max) l).
Definition aborted (o : wait_op) : wait_op := WaitOp (wo_addr o) operation_aborted.

Definition spec_cancel (t max : Z) P : list wait_op * pending :=
  match P !! t with
  | Some (e, os) =>
    let '(cancelled, rest) := cut max os in
    (aborted <$> cancelled, match rest with [] => delete t P | _ => <[t := (e, rest)]> P end)
  | None => ([], P)
  end.

Lemma cancel_loop_spec l : forall ops k max, k <= max ->
  cancel_loop l ops k max = ((cut (max - k) l).2, ops ++ (aborted <$> (cut (max - k) l).1), k + vlen (cut (max - k) l).1).
Proof.
  induction l as [|o l IH]; intros ops k max Hk; cbn [cancel_loop].
  - unfold cut. replace (vlen [] <=? max - k) with true by (symmetry; apply Z.leb_le; unfold vlen; cbn; lia).
    cbn. rewrite app_nil_r. f_equal. unfold vlen. cbn. lia.
  - unfold cut. replace (vlen (o :: l) <=? max - k) with (vlen l <=? max - (k + 1))
      by (apply Bool.eq_iff_eq_true; rewrite !Z.leb_le; unfold vlen; cbn; lia).
    destruct (Z.eqb_spec k max) as [-> |Hne].
    + rewrite (proj2 (Z.leb_gt _ _)) by (unfold vlen; lia). rewrite Z.sub_diag. cbn. by rewrite app_nil_r, Z.add_0_r.
    + rewrite IH by lia. unfold cut. destruct (vlen l <=? max - (k + 1)); cbn [fst snd].
      * rewrite <- app_assoc. f_equal. unfold vlen. cbn. lia.
      * replace (Z.to_nat (max - k)) with (S (Z.to_nat (max - (k + 1)))) by lia. cbn.
        rewrite <- app_assoc. f_equal. unfold vlen. cbn. lia.
Qed.

Lemma delete_represents q P t q' :
  placed q' (delete t (fst <$> P)) ->
  (forall u d, data q !! u = Some d -> op_queue_ d = if decide (t = u) then [] else default [] (snd <$> P !! u)) ->
  (forall u x, P !! u = Some x -> x.2 <> []) ->
  (forall u, op_queue_ <$> data q' !! u = op_queue_ <$> data q !! u) ->
  represents q' (delete t P).
Proof.
  intros Hp Ho Hs Hq. split.
  - by rewrite fmap_delete.
  - intros u d Hu. destruct (fmap_Some_eq _ _ _ _ (Hq u) Hu) as (d0 & Hd0 & <-). rewrite (Ho u d0 Hd0), lookup_delete.
    by case_decide.
  - intros u x. rewrite lookup_delete. case_decide; [done|]. apply Hs.
Qed.

(** Emptying the queue of a timer and removing it *)
Lemma empty_remove_spec q P t x d :
  represents q P -> P !! t = Some x -> data q !! t = Some d ->
  exists q1 q', timer_update (set_ops []) t q = Ok q1 /\ remove_timer t q1 = Some (Ok q')
    /\ represents q' (delete t P)
    /\ ((exists e, e ∈ heap_ q /\ timer_ e = t) -> S (length (heap_ q')) = length (heap_ q))
    /\ forall u, is_Some (data q !! u) -> is_Some (data q' !! u).
Proof.
  intros [Hp Ho Hs] Ht Hd. destruct (placed_nonzero _ _ t Hp) as [Ht0 _]; [by rewrite lookup_fmap, Ht|].
  rewrite (timer_update_Ok _ _ _ d) by done. eexists. pose proof (placed_ops q _ t d [] Hp Hd) as Hp1.
  destruct (remove_timer_spec _ _ t Hp1) as (q' & E & Hp' & Hq' & Hlen); [by rewrite lookup_fmap, Ht|].
  exists q'. split; [done|]. split; [exact E|]. split; [|split; [exact Hlen|]].
  - eapply delete_represents; [exact Hp'| |exact Hs|exact Hq'].
    intros u du. cbn [data]. rewrite lookup_insert. case_decide; [by intros [= <-]|apply Ho].
  - intros u Hu. specialize (Hq' u). cbn [data] in Hq'. rewrite lookup_insert in Hq'.
    destruct Hu as [du Hu]. case_decide; [|rewrite Hu in Hq']; by destruct (data q' !! u).
Qed.

Lemma cancel_timer_spec q P t max ops :
  represents q P -> t <> 0 -> is_Some (data q !! t) -> 0 <= max ->
  let '(out, P') := spec_cancel t max P in
  exists q', cancel_timer t max ops q = Some (Ok (ops ++ out, q', vlen out)) /\ represents q' P'
    /\ forall u, is_Some (data q !! u) -> is_Some (data q' !! u).
Proof.
  intros Hr Ht [d Hd] Hmax. pose proof Hr as [Hp Ho Hs]. unfold cancel_timer, spec_cancel.
  rewrite (timer_get_Ok _ _ _ Ht Hd). cbn [lift mbind partial_bind].
  rewrite (represents_member q P t d Hp Ht Hd). pose proof (Ho t d Hd) as Eo.
  destruct (P !! t) as [[e os]|] eqn:EP.
  2:{ rewrite bool_decide_eq_false_2 by (by intros []). exists q. rewrite app_nil_r. auto. }
  rewrite bool_decide_eq_true_2 by eauto. cbn in Eo. rewrite Eo, cancel_loop_spec, Z.sub_0_r by done.
  destruct (cut max os) as [cancelled rest]. cbn [fst snd].
  replace (vlen (aborted <$> cancelled)) with (0 + vlen cancelled) by (unfold vlen; by rewrite length_fmap).
  destruct rest as [|o rest].
  - destruct (empty_remove_spec q P t _ d Hr EP Hd) as (q1 & q' & -> & E & Hr' & _ & Hdom).
    cbn [lift mbind partial_bind]. rewrite E. exists q'. auto.
  - rewrite (timer_update_Ok _ _ _ d) by done. cbn [lift ret mbind partial_bind].
    eexists. split; [reflexivity|]. split.
    + eapply represents_set_ops; [exact Hp| |done|done| |].
      * rewrite fmap_insert. symmetry. apply insert_id. by rewrite lookup_fmap, EP.
      * intros u du _. apply Ho.
      * intros u x Hu _. by apply (Hs u).
    + intros u Hu. cbn [data]. apply lookup_insert_is_Some'. auto.
Qed.

(** ** Expired timers *)
Definition due (now : T) (x : option T * list wait_op) : bool :=
  match x.1 with Some time => negb (less_than now time) | None => false end.
Notation is_due now := (fun p : Z * (option T * list wait_op) => due now p.2 = true).
Notation not_due now := (fun p : Z * (option T * list wait_op) => due now p.2 = false).

Definition not_later (p1 p2 : Z * (option T * list wait_op)) : Prop :=
  forall a b, p1.2.1 = Some a -> p2.2.1 = Some b -> less_than b a = false.

Lemma heap_least q P e t time os :
  represents q P -> heap_ q !! 0%nat = Some e -> P !! t = Some (Some time, os) -> less_than time (time_ e) = false.
Proof.
  intros [Hp _ _] He Ht.
  destruct (proj1 (list_elem_of_lookup _ _) (pl_heap _ _ Hp t time ltac:(by rewrite lookup_fmap, Ht))) as [i Hi].
  exact (root_least _ entry_asym entry_trans _ _ (pl_order _ _ Hp) He _ _ Hi).
Qed.

Lemma heap_pending q P e : represents q P -> e ∈ heap_ q -> exists os, P !! timer_ e = Some (Some (time_ e), os).
Proof.
  intros [Hp _ _] He. apply (pl_in _ _ Hp) in He. rewrite lookup_fmap in He.
  destruct (P !! timer_ e) as [[e' os]|]; [|done]. exists os. cbn in He. congruence.
Qed.

Lemma none_due q P now :
  represents q P -> (forall e, heap_ q !! 0%nat = Some e -> less_than now (time_ e) = true) ->
  forall t x, P !! t = Some x -> due now x = false.
Proof.
  intros Hr Hroot t [[time|] os] Ht; [|done]. cbn. apply negb_false_iff.
  destruct (heap_ q !! 0%nat) as [e|] eqn:Ee.
  - pose proof (heap_least _ _ _ _ _ _ Hr Ee Ht) as Hle. specialize (Hroot e eq_refl).
    destruct (less_than now time) eqn:El; [done|].
    rewrite (less_trans (time_ e) time now) in Hroot; done.
  - destruct Hr as [Hp _ _]. pose proof (pl_heap _ _ Hp t time ltac:(by rewrite lookup_fmap, Ht)) as Hin.
    destruct (heap_ q); [by apply elem_of_nil in Hin|done].
Qed.

Lemma get_ready_loop_spec now fuel : forall q P ops,
  represents q P -> (length (heap_ q) < fuel)%nat ->
  exists l q', get_ready_loop fuel now ops q = Some (Ok (ops ++ (l ≫= fun p => p.2.2), q'))
    /\ l ≡ₚ map_to_list (filter (is_due now) P) /\ StronglySorted not_later l
    /\ represents q' (filter (not_due now) P)
    /\ forall u, is_Some (data q !! u) -> is_Some (data q' !! u).
Proof.
  induction fuel as [|fuel IH]; intros q P ops Hr Hf; [lia|]. cbn [get_ready_loop].
  assert (Hnone : (forall e, heap_ q !! 0%nat = Some e -> less_than now (time_ e) = true) ->
    exists l q', ret (ops, q) = Some (Ok (ops ++ (l ≫= fun p => p.2.2), q'))
    /\ l ≡ₚ map_to_list (filter (is_due now) P) /\ StronglySorted not_later l
    /\ represents q' (filter (not_due now) P) /\ forall u, is_Some (data q !! u) -> is_Some (data q' !! u)).
  { intros Hroot. pose proof (none_due _ _ _ Hr Hroot) as Hn. exists [], q. cbn. rewrite app_nil_r.
    rewrite map_empty_filter_2, map_to_list_empty by (intros t x Hx; cbn; by rewrite (Hn t x Hx)).
    rewrite map_filter_id by (intros t x Hx; exact (Hn t x Hx)). split_and!; [done..|constructor|done|done]. }
  destruct (heap_ q) as [|e h] eqn:Eh; [by apply Hnone|].
  destruct (less_than now (time_ e)) eqn:El; cbn [negb].
  { apply Hnone. by intros e' [= <-]. }
  clear Hnone. assert (He : heap_ q !! 0%nat = Some e) by (by rewrite Eh).
  assert (Hin : e ∈ heap_ q) by (rewrite Eh; by left).
  destruct (heap_pending q P e Hr Hin) as [os EP]. set (t := timer_ e) in *.
  destruct (placed_nonzero _ _ t (rp_placed _ _ Hr)) as [Ht0 [d Hd]]; [by rewrite lookup_fmap, EP|].
  rewrite (timer_get_Ok _ _ _ Ht0 Hd). cbn [lift mbind partial_bind].
  destruct (empty_remove_spec q P t _ d Hr EP Hd) as (q1 & q2 & -> & E & Hr' & Hlen & Hdom).
  cbn [lift mbind partial_bind]. rewrite E. cbn [mbind partial_bind].
  pose proof (rp_ops _ _ Hr t d Hd) as Eo. rewrite EP in Eo. cbn in Eo. rewrite Eo.
  destruct (IH q2 (delete t P) (ops ++ os) Hr') as (l & q' & -> & Hl & Hsort & Hr2 & Hdom2).
  { assert (S (length (heap_ q2)) = length (heap_ q)) by (apply Hlen; eauto). rewrite Eh in *. cbn in *. lia. }
  exists ((t, (Some (time_ e), os)) :: l), q'. split; [by cbn; rewrite app_assoc|].
  assert (Hdue : due now (Some (time_ e), os) = true) by (cbn; by rewrite El). split_and!.
  - rewrite Hl, map_filter_delete. apply map_to_list_delete. by apply map_lookup_filter_Some.
  - constructor; [done|]. apply Forall_forall. intros [u [[tm|] os']] Hu a b [= <-] Hb; [|done]. cbn in Hb. simplify_eq.
    rewrite Hl, elem_of_map_to_list, map_lookup_filter_Some, lookup_delete_Some in Hu.
    destruct Hu as [[_ Hu] _]. exact (heap_least _ _ _ _ _ _ Hr He Hu).
  - rewrite map_filter_delete_not in Hr2; [done|]. intros x Hx. rewrite EP in Hx. simplify_eq. cbn. by rewrite El.
  - auto.
Qed.

(** ** All timers *)
Lemma get_all_loop_spec l : forall fuel prev q ops,
  linked (data q) prev (timers_ q) l 0 -> NoDup l -> (length l < fuel)%nat ->
  exists q', get_all_loop fuel ops q
      = Some (Ok (ops ++ (l ≫= fun t => default [] (op_queue_ <$> data q !! t)), q'))
    /\ timers_ q' = 0 /\ heap_ q' = heap_ q
    /\ forall u, data q' !! u = if decide (u ∈ l) then set_links 0 0 ∘ set_ops [] <$> data q !! u else data q !! u.
Proof.
  induction l as [|t l IH]; intros [|fuel] prev q ops Hl Hn Hf; cbn [length] in Hf; try lia; cbn [get_all_loop].
  - cbn in Hl. rewrite Hl. exists q. cbn. rewrite app_nil_r. split_and!; [done..|].
    intros u. by rewrite decide_False by set_solver.
  - destruct Hl as (Et & Ht & d & Hd & Hp & Hl). apply NoDup_cons in Hn as [Htl Hn].
    rewrite Et, (proj2 (Z.eqb_neq _ _) Ht), (timer_get_Ok _ _ _ Ht Hd). cbn [lift mbind partial_bind].
    rewrite (timer_update_Ok _ _ _ d) by done. cbn [lift mbind partial_bind with_timers data timers_ heap_].
    set (q1 := TimerQueue _ _ _).
    destruct (IH fuel t q1 (ops ++ op_queue_ d)) as (q' & -> & E1 & E2 & E3); [|done|lia|].
    { by apply linked_untouched. }
    exists q'. rewrite bind_cons, Hd. cbn [fmap option_fmap option_map default]. split; [|split; [done|split; [done|]]].
    + rewrite <- app_assoc. do 5 f_equal. apply list_bind_ext_in. intros u Hu.
      subst q1. cbn [data]. by rewrite lookup_insert_ne by (intros <-; done).
    + intros u. rewrite E3. subst q1. cbn [data]. destruct (decide (u = t)) as [-> |Hut].
      * rewrite decide_False, decide_True by (done || by left). by rewrite lookup_insert_eq, Hd.
      * rewrite lookup_insert_ne by done. repeat case_decide; set_solver.
Qed.

Lemma map_list_bind P l :
  NoDup l -> (forall t, t ∈ l <-> is_Some (P !! t)) ->
  exists l', l' ≡ₚ map_to_list P /\ (l ≫= fun t => default [] (snd <$> P !! t)) = (l' ≫= fun p => p.2.2).
Proof.
  intros Hn Hl. exists ((fun t => (t, default (None, []) (P !! t))) <$> l). split.
  - apply NoDup_Permutation; [apply NoDup_fmap_2; [by intros ?? [=]|done]|apply NoDup_map_to_list|].
    intros [t x]. rewrite elem_of_map_to_list, list_elem_of_fmap. split.
    + intros (t' & [= <- ->] & [y Hy]%Hl). by rewrite Hy.
    + intros Hx. exists t. rewrite Hx, Hl. eauto.
  - clear Hn Hl. induction l as [|t l IH]; [done|]. cbn [mbind list_bind fmap list_fmap]. rewrite IH. f_equal. cbn. by destruct (P !! t).
Qed.

Lemma get_all_timers_spec q P ops :
  represents q P ->
  exists l q', get_all_timers ops q = Some (Ok (ops ++ (l ≫= fun p => p.2.2), q'))
    /\ l ≡ₚ map_to_list P /\ represents q' ∅ /\ forall u, is_Some (data q !! u) -> is_Some (data q' !! u).
Proof.
  intros [Hp Ho Hs]. destruct (pl_list _ _ Hp) as (L & HL & Hn & Hm).
  assert (HmP : forall t, t ∈ L <-> is_Some (P !! t)) by (intros t; by rewrite Hm, lookup_fmap, fmap_is_Some).
  assert (Hlen : (length L < S (size (data q)))%nat).
  { rewrite <- (size_dom (D := gset Z)), <- (size_list_to_set (C := gset Z)) by done.
    apply le_n_S, subseteq_size. intros t. rewrite elem_of_list_to_set, elem_of_dom. by eapply linked_lookup. }
  unfold get_all_timers. destruct (get_all_loop_spec L _ 0 q ops HL Hn Hlen) as (q' & -> & E1 & E2 & E3).
  cbn [ret mbind partial_bind].
  destruct (map_list_bind P L Hn HmP) as (l & Hl & El). exists l, (with_heap [] q'). split_and!.
  - rewrite <- El. unfold ret. do 4 f_equal. apply list_bind_ext_in. intros t Ht.
    destruct (linked_lookup _ _ _ _ _ t HL Ht) as [d Hd]. rewrite Hd. cbn. by rewrite (Ho t d Hd).
  - done.
  - split; cbn [with_heap data]; [split; cbn [with_heap data timers_ heap_]|..].
    + exists []. rewrite E1. split; [done|]. split; [constructor|]. intros t.
      rewrite fmap_empty, lookup_empty, elem_of_nil. split; [done|by intros []].
    + intros t d. rewrite E3. intros Hd _. case_decide as Ht.
      * destruct (data q !! t); [|done]. cbn in Hd. by simplify_eq.
      * apply (pl_out _ _ Hp t d Hd). apply eq_None_not_Some. by rewrite <- Hm.
    + by intros i e Hi.
    + intros e He. by apply elem_of_nil in He.
    + intros t time. by rewrite fmap_empty, lookup_empty.
    + intros t time. by rewrite fmap_empty, lookup_empty.
    + by intros p c x y _ Hx.
    + rewrite (same_size (fun _ => tt) (data q) (data q')); [apply Hp|]. intros t. rewrite E3.
      case_decide; [|done]. by destruct (data q !! t).
    + intros t d. rewrite E3, lookup_empty. cbn. intros Hd. case_decide as Ht.
      * destruct (data q !! t); [|done]. cbn in Hd. by simplify_eq.
      * rewrite (Ho t d Hd). rewrite HmP in Ht. apply eq_None_not_Some in Ht. by rewrite Ht.
    + intros t x. by rewrite lookup_empty.
  - intros u [d Hu]. cbn [with_heap data]. rewrite E3, Hu. case_decide; eauto.
Qed.

(** ** Sequences of calls *)
Inductive timer_call :=
  | CEnqueue (time : T) (t : Z) (op : wait_op)
  | CCancel (t max : Z)
  | CReady (now : T)
  | CAll.

(** A call and the operations it delivers *)
Definition timer_call_run (c : timer_call) q : partial (list wait_op * timer_queue T) :=
  match c with
  | CEnqueue time t op => r ← enqueue_timer time t op q; ret ([], r.1)
  | CCancel t max => r ← cancel_timer t max [] q; ret r.1
  | CReady now => get_ready_timers now [] q
  | CAll => get_all_timers [] q
  end.

Fixpoint timer_run (cs : list timer_call) (outs : list wait_op) q : partial (list wait_op * timer_queue T) :=
  match cs with
  | [] => ret (outs, q)
  | c :: cs' => r ← timer_call_run c q; timer_run cs' (outs ++ r.1) r.2
  end.

(** The calls on the map *)
Inductive spec_call : timer_call -> pending -> list wait_op -> pending -> Prop :=
  | sc_enqueue time t op P : spec_call (CEnqueue time t op) P [] (spec_enqueue time t op P)
  | sc_cancel t max P : spec_call (CCancel t max) P (spec_cancel t max P).1 (spec_cancel t max P).2
  | sc_ready now P l :
      l ≡ₚ map_to_list (filter (is_due now) P) -> StronglySorted not_later l ->
      spec_call (CReady now) P (l ≫= fun p => p.2.2) (filter (not_due now) P)
  | sc_all P l : l ≡ₚ map_to_list P -> spec_call CAll P (l ≫= fun p => p.2.2) ∅.

Inductive spec_run : list timer_call -> pending -> list wait_op -> pending -> Prop :=
  | sr_nil P : spec_run [] P [] P
  | sr_cons c cs P1 P2 P3 o os :
      spec_call c P1 o P2 -> spec_run cs P2 os P3 -> spec_run (c :: cs) P1 (o ++ os) P3.

Definition call_ok (m : gmap Z per_timer_data) (c : timer_call) : Prop :=
  match c with
  | CEnqueue _ t _ => t <> 0 /\ is_Some (m !! t)
  | CCancel t max => t <> 0 /\ is_Some (m !! t) /\ 0 <= max
  | _ => True
  end.

(** The operations that wait, and those a call brings *)
Definition waiting P : list Z := wo_addr <$> (map_to_list P ≫= fun p => p.2.2).
Definition brings (c : timer_call) : list Z := match c with CEnqueue _ _ op => [wo_addr op] | _ => [] end.

Lemma timer_call_correct c q P :
  represents q P -> call_ok (data q) c ->
  exists out q' P', timer_call_run c q = Some (Ok (out, q')) /\ spec_call c P out P' /\ represents q' P'
    /\ forall u, is_Some (data q !! u) -> is_Some (data q' !! u).
Proof.
  intros Hr Hc. destruct c as [time t op|t max|now|]; cbn [timer_call_run].
  - destruct Hc as [Ht Hs]. destruct (enqueue_timer_spec q P time t op Hr Ht Hs) as (q' & b & -> & Hr' & Hd & _).
    eexists [], q', _. split; [done|]. split; [constructor|]. auto.
  - destruct Hc as (Ht & Hs & Hm). pose proof (cancel_timer_spec q P t max [] Hr Ht Hs Hm) as Hcs.
    pose proof (sc_cancel t max P) as Hsc. destruct (spec_cancel t max P) as [out P'].
    destruct Hcs as (q' & -> & Hr' & Hd). exists out, q', P'. auto.
  - unfold get_ready_timers.
    destruct (get_ready_loop_spec now (S (length (heap_ q))) q P [] Hr) as (l & q' & -> & Hl & Hs & Hr' & Hd); [lia|].
    exists (l ≫= fun p => p.2.2), q', (filter (not_due now) P). split; [done|]. split; [by constructor|]. auto.
  - destruct (get_all_timers_spec q P [] Hr) as (l & q' & -> & Hl & Hr' & Hd).
    exists (l ≫= fun p => p.2.2), q', ∅. split; [done|]. split; [by constructor|]. auto.
Qed.

Lemma waiting_insert P t e os e' os' :
  P !! t = Some (e, os) -> (wo_addr <$> os) ++ waiting (<[t := (e', os')]> P) ≡ₚ (wo_addr <$> os') ++ waiting P.
Proof.
  intros Ht. unfold waiting. rewrite <- insert_delete_eq, map_to_list_insert by apply lookup_delete_eq.
  rewrite <- (map_to_list_delete P t (e, os)) by done. rewrite !bind_cons, !fmap_app. cbn. solve_Permutation.
Qed.

Lemma waiting_delete P t e os : P !! t = Some (e, os) -> (wo_addr <$> os) ++ waiting (delete t P) ≡ₚ waiting P.
Proof.
  intros Ht. unfold waiting. rewrite <- (map_to_list_delete P t (e, os)) by done.
  by rewrite bind_cons, fmap_app.
Qed.

Lemma waiting_new P t e os : P !! t = None -> waiting (<[t := (e, os)]> P) ≡ₚ (wo_addr <$> os) ++ waiting P.
Proof. intros Ht. unfold waiting. by rewrite map_to_list_insert, bind_cons, fmap_app. Qed.

Lemma cut_app max l : (cut max l).1 ++ (cut max l).2 = l.
Proof. unfold cut. destruct (vlen l <=? max); cbn; [by rewrite app_nil_r|apply take_drop]. Qed.

Lemma aborted_addrs (l : list wait_op) : wo_addr <$> (aborted <$> l) = wo_addr <$> l.
Proof. by rewrite <- list_fmap_compose. Qed.

Lemma due_split now P :
  map_to_list P ≡ₚ map_to_list (filter (is_due now) P) ++ map_to_list (filter (not_due now) P).
Proof.
  apply NoDup_Permutation; [apply NoDup_map_to_list|apply NoDup_app; split_and!; try apply NoDup_map_to_list|].
  - intros [t x]. rewrite !elem_of_map_to_list, !map_lookup_filter_Some. cbn. intros [_ H1] [_ H2]. congruence.
  - intros [t x]. rewrite elem_of_app, !elem_of_map_to_list, !map_lookup_filter_Some. cbn.
    destruct (due now x); naive_solver.
Qed.

Lemma spec_call_conserves c P out P' :
  spec_call c P out P' -> (wo_addr <$> out) ++ waiting P' ≡ₚ brings c ++ waiting P.
Proof.
  intros Hc. destruct Hc as [time t op P|t max P|now P l Hl _|P l Hl]; cbn [brings app].
  - unfold spec_enqueue. destruct (P !! t) as [[e os]|] eqn:Et; [|by rewrite waiting_new].
    pose proof (waiting_insert P t e os e (os ++ [op]) Et) as Hw. rewrite fmap_app, <- app_assoc in Hw.
    apply Permutation_app_inv_l in Hw. done.
  - unfold spec_cancel. destruct (P !! t) as [[e os]|] eqn:Et; [|done]. pose proof (cut_app max os) as Hcut.
    destruct (cut max os) as [c r]. cbn in Hcut |- *. rewrite aborted_addrs. destruct r as [|o r]; cbn [fst snd].
    + rewrite app_nil_r in Hcut. subst. by eapply waiting_delete.
    + pose proof (waiting_insert P t e os e (o :: r) Et) as Hw. rewrite <- Hcut, fmap_app in Hw.
      rewrite <- app_assoc, (app_assoc (wo_addr <$> c)), (Permutation_app_comm (wo_addr <$> c)), <- app_assoc in Hw.
      by apply Permutation_app_inv_l in Hw.
  - unfold waiting. rewrite Hl, <- fmap_app, <- bind_app. f_equiv.
    by rewrite <- due_split.
  - unfold waiting. by rewrite map_to_list_empty, Hl, app_nil_r.
Qed.

Lemma timer_run_correct cs : forall outs q P,
  represents q P -> Forall (call_ok (data q)) cs ->
  exists os q' P', timer_run cs outs q = Some (Ok (outs ++ os, q')) /\ spec_run cs P os P' /\ represents q' P'.
Proof.
  induction cs as [|c cs IH]; intros outs q P Hr Hc; cbn [timer_run].
  - exists [], q, P. rewrite app_nil_r. split; [done|]. split; [constructor|done].
  - apply Forall_cons in Hc as [Hc Hcs].
    destruct (timer_call_correct c q P Hr Hc) as (o & q1 & P1 & -> & Hs & Hr1 & Hd). cbn [mbind partial_bind fst snd].
    destruct (IH (outs ++ o) q1 P1 Hr1) as (os & q' & P' & -> & Hs' & Hr').
    { eapply Forall_impl; [exact Hcs|]. intros [] Hok; cbn in Hok |- *; naive_solver. }
    exists (o ++ os), q', P'. rewrite app_assoc. split; [done|]. split; [by econstructor|done].
Qed.

Lemma spec_run_conserves cs P os P' :
  spec_run cs P os P' -> (wo_addr <$> os) ++ waiting P' ≡ₚ (cs ≫= brings) ++ waiting P.
Proof.
  induction 1 as [P|c cs P1 P2 P3 o os Hc _ IH]; [done|]. rewrite fmap_app, bind_cons, <- app_assoc, IH.
  apply spec_call_conserves in Hc. transitivity ((cs ≫= brings) ++ (brings c ++ waiting P1)).
  - rewrite <- Hc. solve_Permutation.
  - solve_Permutation.
Qed.

Definition fresh_timers (m : gmap Z per_timer_data) : Prop :=
  (forall t d, m !! t = Some d -> op_queue_ d = [] /\ prev_ d = 0) /\ Z.of_nat (size m) < 2 ^ 60.

Lemma queue_represents_new m : fresh_timers m -> represents (timer_queue_new m) ∅.
Proof.
  intros [Hm Hs]. split.
  - rewrite fmap_empty. apply placed_new; [|done]. intros t d Hd. by apply (Hm t d).
  - intros t d Hd. rewrite lookup_empty. by apply (Hm t d).
  - intros t x. by rewrite lookup_empty.
Qed.

Lemma empty_spec q P : represents q P -> timer_queue_empty q = bool_decide (P = ∅).
Proof.
  intros [Hp _ _]. destruct (pl_list _ _ Hp) as (l & Hl & _ & Hm). unfold timer_queue_empty.
  pose proof (linked_head _ _ _ _ Hl) as Hh. destruct l as [|t l]; cbn in Hh; rewrite Hh.
  - symmetry. apply bool_decide_eq_true_2. apply map_eq. intros t. rewrite lookup_empty.
    apply eq_None_not_Some. rewrite <- (fmap_is_Some fst), <- lookup_fmap, <- Hm. by apply not_elem_of_nil.
  - rewrite bool_decide_eq_false_2.
    + apply Z.eqb_neq. apply linked_nonzero in Hl. set_solver.
    + intros ->. destruct (proj1 (Hm t)) as [x Hx]; [by left|]. by rewrite fmap_empty, lookup_empty in Hx.
Qed.

(** A call to [enqueue_timer] that returns false does not change when the next
    timer expires. *)
Definition earliest P (time : T) : Prop :=
  (exists t os, P !! t = Some (Some time, os)) /\
  forall t time' os, P !! t = Some (Some time', os) -> less_than time' time = false.

Lemma heap_earliest q P e h : represents q P -> heap_ q = e :: h -> earliest P (time_ e).
Proof.
  intros Hr Eh. split.
  - destruct (heap_pending q P e Hr) as [os Hos]; [rewrite Eh; by left|]. eauto.
  - intros t time' os Ht. eapply heap_least; [exact Hr|by rewrite Eh|exact Ht].
Qed.

Lemma spec_enqueue_earliest P t e os time op (x : T) :
  P !! t = Some (e, os) -> earliest (spec_enqueue time t op P) x -> earliest P x.
Proof.
  unfold spec_enqueue. intros Ht. rewrite Ht.
  assert (Hu : forall u e' os', P !! u = Some (e', os') -> exists os2, <[t := (e, os ++ [op])]> P !! u = Some (e', os2)).
  { intros u e' os' Hu. rewrite lookup_insert. case_decide; [subst|eauto]. rewrite Ht in Hu. simplify_eq. eauto. }
  intros [(u & os1 & H1) H2]. split.
  - rewrite lookup_insert in H1. case_decide; [subst; simplify_eq; eauto|eauto].
  - intros v time' os' Hv. destruct (Hu v _ _ Hv) as [os2 Hv2]. by eapply H2.
Qed.

Lemma enqueue_wakeup q P time t op q' :
  represents q P -> t <> 0 -> is_Some (data q !! t) -> enqueue_timer time t op q = Some (Ok (q', false)) ->
  forall x : T, earliest (spec_enqueue time t op P) x -> exists y, earliest P y /\ less_than x y = false.
Proof.
  intros Hr Ht Hd E x Hx. destruct (enqueue_timer_spec q P time t op Hr Ht Hd) as (q2 & b & E2 & Hr' & _ & Hb).
  rewrite E in E2. simplify_eq. destruct (P !! t) as [[e os]|] eqn:EP.
  - exists x. split; [by eapply spec_enqueue_earliest|apply less_irrefl].
  - specialize (Hb eq_refl eq_refl). pose proof Hx as [(u & osu & Hu) Hle]. destruct (heap_ q2) as [|e h] eqn:Eh.
    + pose proof (pl_heap _ _ (rp_placed _ _ Hr') u x) as Hin. rewrite lookup_fmap, Hu, Eh in Hin.
      by specialize (Hin eq_refl); apply elem_of_nil in Hin.
    + pose proof (Hb e eq_refl) as Hne. exists (time_ e). destruct (heap_earliest _ _ _ _ Hr' Eh) as [_ Hmin].
      destruct (heap_pending q2 _ e Hr') as [ose Hose]; [rewrite Eh; by left|]. unfold spec_enqueue in *. rewrite EP in *.
      rewrite lookup_insert_ne in Hose by done. split; [split; [eauto|]|by eapply Hmin].
      intros v tv osv Hv. apply (Hmin v tv osv). rewrite lookup_insert_ne; [done|congruence].
Qed.
End Represents.

(** With the clocks of std::chrono: how long the queue lets the reactor sleep *)
Definition usec_until (now x max : Z) : Z :=
  if x <=? now then 0 else Z.min max (Z.max 1 (Z.quot (saturate (x - now)) 1000)).

Lemma wait_duration_spec (q : timer_queue Z) P now max :
  represents q P -> in_i64 now -> 0 < max ->
  (forall t, P !! t = None \/ exists os, P !! t = Some (None, os)) /\ wait_duration_usec now max q = Ok max \/
  exists x, earliest P x /\ (in_i64 x -> wait_duration_usec now max q = Ok (usec_until now x max)).
Proof.
  intros Hr Hn Hm. unfold wait_duration_usec. destruct (heap_ q) as [|e h] eqn:Eh.
  - left. split; [|done]. intros t. destruct (P !! t) as [[[x|] os]|] eqn:EP; [|eauto..].
    pose proof (pl_heap _ _ (rp_placed _ _ Hr) t x) as Hin. rewrite lookup_fmap, EP, Eh in Hin.
    by specialize (Hin eq_refl); apply elem_of_nil in Hin.
  - right. exists (time_ e). split; [by eapply heap_earliest|]. intros Hx. unfold usec_until.
    cbn [subtract chrono_time_traits]. rewrite chrono_subtract_saturates by done. cbn [fmap outcome_fmap mbind outcome_bind].
    unfold to_usec, to_wait_duration. rewrite (proj2 (chrono_casts _ (saturate_range _))). cbn [mbind outcome_bind].
    assert (Hs : (saturate (time_ e - now) <=? 0) = (time_ e <=? now)).
    { apply Bool.eq_iff_eq_true. rewrite !Z.leb_le. unfold saturate. lia. }
    rewrite Hs. destruct (Z.leb_spec (time_ e) now); [done|]. f_equal.
    assert (Hq : 0 <= Z.quot (saturate (time_ e - now)) 1000) by (apply Z.quot_pos; unfold saturate; lia).
    set (z := Z.quot _ _) in *. destruct (Z.eqb_spec z 0), (Z.ltb_spec max z); lia.
Qed.

(** ** The theorems *)

(** C21. Any sequence of calls on timers that are fresh: it ends, without a bad
    pointer, in a queue that represents what the calls make of the empty map; of
    expired timers the operations come in the order of their times; and every
    operation that was given to the queue has been delivered once or waits. *)
Theorem timer_queue_correct {T} `{Time_TraitsLaws T} (m : gmap Z per_timer_data) (cs : list timer_call) :
  fresh_timers m -> Forall (call_ok m) cs ->
  exists os (q : timer_queue T) P,
    timer_run cs [] (timer_queue_new m) = Some (Ok (os, q)) /\ spec_run cs ∅ os P /\ represents q P /\
    (wo_addr <$> os) ++ waiting P ≡ₚ (cs ≫= brings) /\ timer_queue_empty q = bool_decide (P = ∅).
Proof.
  intros Hm Hc. destruct (timer_run_correct cs [] (timer_queue_new m) ∅ (queue_represents_new m Hm) Hc)
    as (os & q & P & E & Hs & Hr).
  exists os, q, P. split_and!; [done..| |by apply empty_spec].
  apply spec_run_conserves in Hs. unfold waiting at 2 in Hs. by rewrite map_to_list_empty, app_nil_r in Hs.
Qed.

Definition sample_timers : gmap Z per_timer_data :=
  let d := PerTimerData [] 77 0 0 in <[100 := d]> (<[200 := d]> (<[300 := d]> (<[400 := d]> ∅))).
Lemma sample_fresh : fresh_timers sample_timers.
Proof.
  split; [|vm_compute; reflexivity]. intros t d Hd. unfold sample_timers in Hd. cbn zeta in Hd.
  repeat (apply lookup_insert_Some in Hd as [[_ <-]|[_ Hd]]; [done|]). by rewrite lookup_empty in Hd.
Qed.

Definition op_at (a : Z) : wait_op := WaitOp a error_code_new.
Definition sample_calls : list (timer_call (T := Z)) :=
  [CEnqueue 70 100 (op_at 1); CEnqueue 50 200 (op_at 2); CEnqueue 90 300 (op_at 3); CEnqueue 10 200 (op_at 4);
   CEnqueue 20 400 (op_at 5); CCancel 400 8; CReady 70; CEnqueue 60 400 (op_at 6); CAll].

Lemma timer_queue_correct_witness :
  exists os (q : timer_queue Z) P,
    timer_run sample_calls [] (timer_queue_new sample_timers) = Some (Ok (os, q)) /\
    wo_addr <$> os = [5; 2; 4; 1; 6; 3] /\ (wo_addr <$> os) ++ waiting (T := Z) P ≡ₚ [1; 2; 3; 4; 5; 6] /\
    timer_queue_empty q = bool_decide (P = ∅).
Proof.
  destruct (timer_queue_correct (T := Z) sample_timers sample_calls) as (os & q & P & E & _ & _ & Hw & He).
  - apply sample_fresh.
  - repeat (constructor; [try done; cbn; split_and?; try lia; vm_compute; eauto|]). constructor.
  - exists os, q, P. split; [done|]. split; [|split; [exact Hw|exact He]].
    assert (Ec : wo_addr <$> (match timer_run sample_calls [] (timer_queue_new sample_timers) with
      Some (Ok r) => r.1 | _ => [] end) = [5; 2; 4; 1; 6; 3]) by (vm_compute; reflexivity).
    by rewrite E in Ec.
Defined.

(** The reactor sleeps until the next timer.  With a clock of std::chrono, after
    any calls, [wait_duration_usec] is the time to the earliest expiry in
    microseconds, at least 1 and at most [max], or 0 when it has passed; and when
    [enqueue_timer] says that the reactor need not be woken, no timer expires
    before the earliest that was there. *)
Theorem timer_wakeups (m : gmap Z per_timer_data) (cs : list timer_call) os (q : timer_queue Z) now max :
  fresh_timers m -> Forall (call_ok m) cs -> timer_run cs [] (timer_queue_new m) = Some (Ok (os, q)) ->
  in_i64 now -> 0 < max ->
  exists P, spec_run cs ∅ os P /\
    ((forall t, P !! t = None \/ exists os, P !! t = Some (None, os)) /\ wait_duration_usec now max q = Ok max \/
     exists x, earliest P x /\ (in_i64 x -> wait_duration_usec now max q = Ok (usec_until now x max))) /\
    forall time t op q', t <> 0 -> is_Some (data q !! t) -> enqueue_timer time t op q = Some (Ok (q', false)) ->
      forall x, earliest (spec_enqueue time t op P) x -> exists y, earliest P y /\ y <= x.
Proof.
  intros Hm Hc E Hn Hmax. destruct (timer_run_correct cs [] (timer_queue_new m) ∅ (queue_represents_new m Hm) Hc)
    as (os' & q2 & P & E2 & Hs & Hr).
  rewrite E in E2. simplify_eq. exists P. split; [done|]. split; [by apply wait_duration_spec|].
  intros time t op q' Ht Hd Ee x Hx. destruct (enqueue_wakeup _ _ _ _ _ _ Hr Ht Hd Ee x Hx) as (y & Hy & Hl).
  exists y. split; [done|]. by apply Z.ltb_ge.
Qed.

Definition two_calls : list (timer_call (T := Z)) := [CEnqueue 70000 100 (op_at 1); CEnqueue 50000 200 (op_at 2)].
Definition two_timers : timer_queue Z :=
  match timer_run two_calls [] (timer_queue_new sample_timers) with Some (Ok r) => r.2 | _ => timer_queue_new ∅ end.

Lemma timer_wakeups_witness :
  wait_duration_usec 10000 1000 two_timers = Ok 40 /\
  exists P, spec_run two_calls ∅ [] P /\
    forall x, earliest (spec_enqueue 60000 300 (op_at 3) P) x -> exists y, earliest P y /\ y <= x.
Proof.
  split; [vm_compute; reflexivity|].
  destruct (timer_wakeups sample_timers two_calls [] two_timers 10000 1000) as (P & Hs & _ & Hw).
  - apply sample_fresh.
  - repeat (constructor; [cbn; split; [lia|vm_compute; eauto]|]). constructor.
  - vm_compute. reflexivity.
  - unfold in_i64. lia.
  - lia.
  - exists P. split; [done|]. eapply Hw; [lia|vm_compute; eauto|vm_compute; reflexivity].
Defined.
