(* ===== verification/Ioservice.v ===== *)
(** * The I/O service (asio/detail/impl/task_io_service.ipp)

    A queue of operations that are ready to run, with the reactor as one of them
    ([TaskOp]), and a count of the work that is outstanding.  One thread runs the
    service, so a lock is always free, nobody waits for [wakeup_event_], and
    [thread_call_stack::contains] is true while a handler runs: what a handler
    posts may go to the private queue of the thread, which [work_cleanup] merges
    at its end.  The queues are lists, see Opqueue. *)
From S2P Require Import Prelude Socketops Timetraits Binheap Timerqueue.
#[local] Open Scope Z_scope.

(** What is queued: the reactor, a descriptor that is ready (the address of its
    state), or an operation of the client. *)
Inductive operation :=
  | TaskOp
  | DescOp (d : Z)
  | UserOp (o : wait_op).

Record io_service := IoService {
  one_thread_ : bool;
  task_ : bool;                      (* whether there is a reactor *)
  task_interrupted_ : bool;
  outstanding_work_ : Z;
  io_queue_ : list operation;
  stopped_ : bool;
  io_shutdown_ : bool;
  in_handler : bool;                 (* the thread runs a handler *)
  private_queue : list operation;
  private_work : Z;
  wakes : Z                          (* calls of [interrupt] on the reactor *)
}.

Definition io_service_new (concurrency_hint : Z) : io_service :=
  IoService (concurrency_hint =? 1) false true 0 [] false false false [] 0 0.

Definition with_queue (l : list operation) (s : io_service) : io_service :=
  IoService (one_thread_ s) (task_ s) (task_interrupted_ s) (outstanding_work_ s) l (stopped_ s) (io_shutdown_ s)
    (in_handler s) (private_queue s) (private_work s) (wakes s).
Definition with_work (w : Z) (s : io_service) : io_service :=
  IoService (one_thread_ s) (task_ s) (task_interrupted_ s) w (io_queue_ s) (stopped_ s) (io_shutdown_ s)
    (in_handler s) (private_queue s) (private_work s) (wakes s).
Definition with_private (l : list operation) (w : Z) (s : io_service) : io_service :=
  IoService (one_thread_ s) (task_ s) (task_interrupted_ s) (outstanding_work_ s) (io_queue_ s) (stopped_ s)
    (io_shutdown_ s) (in_handler s) l w (wakes s).
Definition with_handler (b : bool) (s : io_service) : io_service :=
  IoService (one_thread_ s) (task_ s) (task_interrupted_ s) (outstanding_work_ s) (io_queue_ s) (stopped_ s)
    (io_shutdown_ s) b (private_queue s) (private_work s) (wakes s).
Definition with_interrupted (b : bool) (s : io_service) : io_service :=
  IoService (one_thread_ s) (task_ s) b (outstanding_work_ s) (io_queue_ s) (stopped_ s) (io_shutdown_ s)
    (in_handler s) (private_queue s) (private_work s) (wakes s).

(** Without a thread that waits, waking one interrupts the reactor. *)
Definition wake_one_thread (s : io_service) : io_service :=
  if negb (task_interrupted_ s) && task_ s then
    IoService (one_thread_ s) (task_ s) true (outstanding_work_ s) (io_queue_ s) (stopped_ s) (io_shutdown_ s)
      (in_handler s) (private_queue s) (private_work s) (wakes s + 1)
  else s.

Definition set_stopped (b : bool) (s : io_service) : io_service :=
  IoService (one_thread_ s) (task_ s) (task_interrupted_ s) (outstanding_work_ s) (io_queue_ s) b (io_shutdown_ s)
    (in_handler s) (private_queue s) (private_work s) (wakes s).

Definition io_stop (s : io_service) : io_service := wake_one_thread (set_stopped true s).
Definition io_reset (s : io_service) : io_service := set_stopped false s.

Definition work_started (s : io_service) : io_service := with_work (outstanding_work_ s + 1) s.
Definition work_finished (s : io_service) : io_service :=
  let s := with_work (outstanding_work_ s - 1) s in
  if outstanding_work_ s =? 0 then io_stop s else s.

Definition push_ops (l : list operation) (s : io_service) : io_service := with_queue (io_queue_ s ++ l) s.

Definition post_immediate_completion (op : operation) (is_continuation : bool) (s : io_service) : io_service :=
  if (one_thread_ s || is_continuation) && in_handler s then
    with_private (private_queue s ++ [op]) (private_work s + 1) s
  else wake_one_thread (push_ops [op] (work_started s)).

Definition post_deferred_completions (ops : list operation) (s : io_service) : io_service :=
  match ops with
  | [] => s
  | _ =>
    if one_thread_ s && in_handler s then with_private (private_queue s ++ ops) (private_work s) s
    else wake_one_thread (push_ops ops s)
  end.

Definition post_deferred_completion (op : operation) (s : io_service) : io_service :=
  if one_thread_ s && in_handler s then with_private (private_queue s ++ [op]) (private_work s) s
  else wake_one_thread (push_ops [op] s).

Definition do_dispatch (op : operation) (s : io_service) : io_service :=
  wake_one_thread (push_ops [op] (work_started s)).

Definition init_task (s : io_service) : io_service :=
  if negb (io_shutdown_ s) && negb (task_ s) then
    wake_one_thread (push_ops [TaskOp]
      (IoService (one_thread_ s) true (task_interrupted_ s) (outstanding_work_ s) (io_queue_ s) (stopped_ s)
        (io_shutdown_ s) (in_handler s) (private_queue s) (private_work s) (wakes s)))
  else s.

(** [~task_cleanup], after the reactor has run *)
Definition task_cleanup (s : io_service) : io_service :=
  let s := if 0 <? private_work s then with_work (outstanding_work_ s + private_work s) s else s in
  push_ops [TaskOp] (push_ops (private_queue s) (with_interrupted true (with_private [] 0 s))).

(** [~work_cleanup], after a handler *)
Definition work_cleanup (s : io_service) : io_service :=
  let s := if 1 <? private_work s then with_work (outstanding_work_ s + (private_work s - 1)) s
           else if private_work s <? 1 then work_finished s else s in
  push_ops (private_queue s) (with_handler false (with_private [] 0 s)).

Definition is_task (o : operation) : bool := match o with TaskOp => true | _ => false end.

(** [shutdown_service]; what is destroyed comes second. *)
Definition io_shutdown (s : io_service) : io_service * list operation :=
  (IoService (one_thread_ s) false (task_interrupted_ s) (outstanding_work_ s) [] (stopped_ s) true
     (in_handler s) (private_queue s) (private_work s) (wakes s),
   filter (fun o => is_task o = false) (io_queue_ s)).

(** ** The next operation, [do_run_one] up to its execution *)
Inductive next_op :=
  | NoneStopped                              (* [run] returns *)
  | NoneWait                                 (* the queue is empty: wait for ever *)
  | NextTask (block : bool) (s : io_service)
  | NextOp (o : operation) (s : io_service).

Definition do_run_one (s : io_service) : next_op :=
  if stopped_ s then NoneStopped
  else
    match io_queue_ s with
    | [] => NoneWait
    | o :: rest =>
      let more_handlers := match rest with [] => false | _ => true end in
      match o with
      | TaskOp => NextTask (negb more_handlers) (with_interrupted more_handlers (with_queue rest s))
      | _ =>
        let s := with_queue rest s in
        let s := if more_handlers && negb (one_thread_ s) then wake_one_thread s else s in
        NextOp o (with_handler true s)
      end
    end.
