(* ===== verification/Epoll.v ===== *)
(** * The reactor (asio/detail/impl/epoll_reactor.ipp, epoll_reactor.hpp, object_pool.hpp)

    The reactor keeps, for each registered descriptor, three queues of operations
    that wait for it, and a queue of timers; what is ready goes to the I/O
    service.  The states of descriptors are never freed but recycled by a pool.
    [EpollKernel] is the kernel: epoll, the timer descriptor, and the system call
    of an operation ([perform]).  An operation is a [wait_op] in both queues.
    Internal descriptors (of signals) and further timer queues are left out. *)
From S2P Require Import Prelude Socketops Timetraits Binheap Timerqueue Timers Ioservice.
#[local] Open Scope Z_scope.

Definition EPOLLIN := 1.
Definition EPOLLPRI := 2.
Definition EPOLLOUT := 4.
Definition EPOLLERR := 8.
Definition EPOLLHUP := 16.
Definition EPOLLET := 2 ^ 31.

Inductive op_type := read_op | write_op | except_op.
Definition connect_op := write_op.

Record descriptor_state := DescriptorState {
  descriptor_ : Z;
  registered_events_ : Z;
  read_queue : list wait_op;         (* op_queue_[read_op], ... *)
  write_queue : list wait_op;
  except_queue : list wait_op;
  ds_shutdown_ : bool;
  task_result_ : Z
}.

Definition op_queue_of (t : op_type) (d : descriptor_state) : list wait_op :=
  match t with read_op => read_queue d | write_op => write_queue d | except_op => except_queue d end.
Definition set_op_queue (t : op_type) (l : list wait_op) (d : descriptor_state) : descriptor_state :=
  DescriptorState (descriptor_ d) (registered_events_ d)
    (match t with read_op => l | _ => read_queue d end)
    (match t with write_op => l | _ => write_queue d end)
    (match t with except_op => l | _ => except_queue d end) (ds_shutdown_ d) (task_result_ d).
Definition set_events (e : Z) (d : descriptor_state) : descriptor_state :=
  DescriptorState (descriptor_ d) e (read_queue d) (write_queue d) (except_queue d) (ds_shutdown_ d) (task_result_ d).
Definition set_ready_events (e : Z) (d : descriptor_state) : descriptor_state :=
  DescriptorState (descriptor_ d) (registered_events_ d) (read_queue d) (write_queue d) (except_queue d)
    (ds_shutdown_ d) e.
Definition set_descriptor (fd : Z) (shut : bool) (d : descriptor_state) : descriptor_state :=
  DescriptorState fd (registered_events_ d) (read_queue d) (write_queue d) (except_queue d) shut (task_result_ d).
Definition descriptor_state_new : descriptor_state := DescriptorState 0 0 [] [] [] false 0.

(** The operations of a state, in the order of the loop [i = 0 .. max_ops - 1] *)
Definition all_ops (d : descriptor_state) : list wait_op := read_queue d ++ write_queue d ++ except_queue d.
Definition clear_queues (d : descriptor_state) : descriptor_state :=
  set_op_queue read_op [] (set_op_queue write_op [] (set_op_queue except_op [] d)).

Inductive ctl := CtlAdd | CtlMod | CtlDel.

(** What [timerfd_settime] is given: flags, seconds and nanoseconds *)
Record itimerspec := Itimerspec { it_flags : Z; tv_sec : Z; tv_nsec : Z }.
Definition TFD_TIMER_ABSTIME := 1.

Class EpollKernel (K : Type) := {
  (** the operation, the descriptor, the events and the pointer; [errno] or 0 *)
  epoll_ctl : ctl -> Z -> Z -> Z -> K -> Z * K;
  timerfd_settime : itimerspec -> K -> K;
  (** waiting for at most so many milliseconds; the events are an argument of [rx_run] *)
  epoll_wait : Z -> K -> K;
  (** [reactor_op::perform]: whether it is finished, and its error *)
  perform : Z -> K -> bool * error_code * K
}.

Section Reactor.
Context {T : Type} `{Time_Traits T} {K : Type} `{EpollKernel K}.

Record reactor := Reactor {
  io : io_service;
  timer_fd_ : bool;                  (* whether there is a timer descriptor *)
  queue_ : timer_queue T;
  states : gmap Z descriptor_state;
  live_list_ : list Z;
  free_list_ : list Z;
  rx_shutdown_ : bool;
  kern : K
}.

Definition with_io (f : io_service -> io_service) (r : reactor) : reactor :=
  Reactor (f (io r)) (timer_fd_ r) (queue_ r) (states r) (live_list_ r) (free_list_ r) (rx_shutdown_ r) (kern r).
Definition with_timer_queue (q : timer_queue T) (r : reactor) : reactor :=
  Reactor (io r) (timer_fd_ r) q (states r) (live_list_ r) (free_list_ r) (rx_shutdown_ r) (kern r).
Definition with_states (m : gmap Z descriptor_state) (r : reactor) : reactor :=
  Reactor (io r) (timer_fd_ r) (queue_ r) m (live_list_ r) (free_list_ r) (rx_shutdown_ r) (kern r).
Definition with_lists (live free : list Z) (r : reactor) : reactor :=
  Reactor (io r) (timer_fd_ r) (queue_ r) (states r) live free (rx_shutdown_ r) (kern r).
Definition with_kern (k : K) (r : reactor) : reactor :=
  Reactor (io r) (timer_fd_ r) (queue_ r) (states r) (live_list_ r) (free_list_ r) (rx_shutdown_ r) k.

Definition state_get (p : Z) (r : reactor) : outcome descriptor_state :=
  if p =? 0 then Crash NullDereference
  else match states r !! p with Some d => Ok d | None => Crash DanglingReference end.
Definition state_set (p : Z) (d : descriptor_state) (r : reactor) : reactor := with_states (<[p := d]> (states r)) r.

(** ** The pool of states; [fresh] is what [new] gives. *)
Definition object_pool_alloc (fresh : Z) (r : reactor) : Z * reactor :=
  match free_list_ r with
  | o :: free => (o, with_lists (o :: live_list_ r) free r)
  | [] => (fresh, with_lists (fresh :: live_list_ r) [] (state_set fresh descriptor_state_new r))
  end.

Definition object_pool_free (o : Z) (r : reactor) : reactor :=
  with_lists (filter (fun x => x <> o) (live_list_ r)) (o :: free_list_ r) r.

(** ** Descriptors *)
Definition register_descriptor (fresh descriptor : Z) (r : reactor) : outcome (Z * Z * reactor) :=
  let '(p, r) := object_pool_alloc fresh r in
  d ← state_get p r;
  let events := Z.lor (Z.lor (Z.lor (Z.lor EPOLLIN EPOLLERR) EPOLLHUP) EPOLLPRI) EPOLLET in
  let r := state_set p (set_events events (set_descriptor descriptor false d)) r in
  let '(result, k) := epoll_ctl CtlAdd descriptor events p (kern r) in
  Ok (result, p, with_kern k r).

(** The new values of the target and of the source *)
Definition rx_move_descriptor (target_data source_data : Z) : Z * Z := (source_data, 0).

Definition with_ec (ec : error_code) (o : wait_op) : wait_op := WaitOp (wo_addr o) ec.

Definition start_op (t : op_type) (descriptor p : Z) (op : wait_op) (is_continuation allow_speculative : bool)
    (r : reactor) : outcome reactor :=
  if p =? 0 then
    Ok (with_io (post_immediate_completion (UserOp (with_ec bad_descriptor op)) is_continuation) r)
  else
    d ← state_get p r;
    if ds_shutdown_ d then Ok (with_io (post_immediate_completion (UserOp op) is_continuation) r)
    else
      let enqueue d r op :=
        Ok (with_io work_started (state_set p (set_op_queue t (op_queue_of t d ++ [op]) d) r)) in
      match op_queue_of t d with
      | _ :: _ => enqueue d r op
      | [] =>
        if allow_speculative && (match t with read_op => match except_queue d with [] => true | _ => false end
                                 | _ => true end) then
          let '(finished, ec, k) := perform (wo_addr op) (kern r) in
          let r := with_kern k r in
          let op := with_ec ec op in
          if (finished : bool) then Ok (with_io (post_immediate_completion (UserOp op) is_continuation) r)
          else
            match t with
            | write_op =>
              if Z.land (registered_events_ d) EPOLLOUT =? 0 then
                let events := Z.lor (registered_events_ d) EPOLLOUT in
                let '(result, k) := epoll_ctl CtlMod descriptor events p (kern r) in
                let r := with_kern k r in
                if result =? 0 then enqueue (set_events (Z.lor (registered_events_ d) events) d) r op
                else Ok (with_io (post_immediate_completion
                       (UserOp (with_ec (basic_error result) op)) is_continuation) r)
              else enqueue d r op
            | _ => enqueue d r op
            end
        else
          let d := match t with
                   | write_op => set_events (Z.lor (registered_events_ d) EPOLLOUT) d
                   | _ => d
                   end in
          let '(_, k) := epoll_ctl CtlMod descriptor (registered_events_ d) p (kern r) in
          enqueue d (with_kern k r) op
      end.

Definition abort_all (d : descriptor_state) : list operation := UserOp ∘ with_ec operation_aborted <$> all_ops d.

Definition rx_cancel_ops (p : Z) (r : reactor) : outcome reactor :=
  if p =? 0 then Ok r
  else
    d ← state_get p r;
    Ok (with_io (post_deferred_completions (abort_all d)) (state_set p (clear_queues d) r)).

(** The new value of the client's pointer comes second. *)
Definition deregister_descriptor (descriptor p : Z) (closing : bool) (r : reactor) : outcome (reactor * Z) :=
  if p =? 0 then Ok (r, p)
  else
    d ← state_get p r;
    if negb (ds_shutdown_ d) then
      let r := if closing then r else with_kern (epoll_ctl CtlDel descriptor 0 0 (kern r)).2 r in
      let r := state_set p (set_descriptor (-1) true (clear_queues d)) r in
      let r := object_pool_free p r in
      Ok (with_io (post_deferred_completions (abort_all d)) r, 0)
    else Ok (r, p).

(** ** Timers; [now] is the time, where it is read. *)
Definition get_timeout_msec (now : T) (r : reactor) : outcome Z := wait_duration_msec now (5 * 60 * 1000) (queue_ r).

Definition get_timeout (now : T) (r : reactor) : outcome itimerspec :=
  usec ← wait_duration_usec now (5 * 60 * 1000 * 1000) (queue_ r);
  let none := usec =? 0 in
  Ok (Itimerspec (if none then TFD_TIMER_ABSTIME else 0) (Z.quot usec 1000000)
        (if none then 1 else Z.rem usec 1000000 * 1000)).

Definition rx_interrupt (s : io_service) : io_service :=
  IoService (one_thread_ s) (task_ s) (task_interrupted_ s) (outstanding_work_ s) (io_queue_ s) (stopped_ s)
    (io_shutdown_ s) (in_handler s) (private_queue s) (private_work s) (wakes s + 1).

Definition update_timeout (now : T) (r : reactor) : outcome reactor :=
  if timer_fd_ r then new_timeout ← get_timeout now r; Ok (with_kern (timerfd_settime new_timeout (kern r)) r)
  else Ok (with_io rx_interrupt r).

Definition schedule_timer (now time : T) (timer : Z) (op : wait_op) (r : reactor) : partial reactor :=
  if rx_shutdown_ r then ret (with_io (post_immediate_completion (UserOp op) false) r)
  else
    e ← enqueue_timer time timer op (queue_ r);
    let r := with_io work_started (with_timer_queue e.1 r) in
    if (e.2 : bool) then lift (update_timeout now r) else ret r.

Definition rx_cancel_timer (timer max_cancelled : Z) (r : reactor) : partial (reactor * Z) :=
  c ← cancel_timer timer max_cancelled [] (queue_ r);
  ret (with_io (post_deferred_completions (UserOp <$> c.1.1)) (with_timer_queue c.1.2 r), c.2).

(** ** Waiting for events: [events] is what [epoll_wait] gives, the interrupter
    ([FromInterrupter]), the timer descriptor or a state with its events. *)
Inductive event := FromInterrupter | FromTimer | FromState (p events : Z).

Fixpoint dispatch_events (events : list event) (check_timers : bool) (ops : list operation) (r : reactor)
    : outcome (bool * list operation * reactor) :=
  match events with
  | [] => Ok (check_timers, ops, r)
  | FromInterrupter :: es => dispatch_events es (check_timers || negb (timer_fd_ r)) ops r
  | FromTimer :: es => dispatch_events es true ops r
  | FromState p ev :: es =>
    d ← state_get p r;
    dispatch_events es check_timers (ops ++ [DescOp p]) (state_set p (set_ready_events ev d) r)
  end.

(** [run], with [ops] the private queue of the thread; [now]: when it starts to
    wait, [later]: when it has waited. *)
Definition rx_run (block : bool) (now later : T) (events : list event) (r : reactor) : partial reactor :=
  timeout ← lift (if timer_fd_ r then Ok (if block then -1 else 0)
                  else if block then get_timeout_msec now r else Ok 0);
  let r := with_kern (epoll_wait timeout (kern r)) r in
  e ← lift (dispatch_events events (negb (timer_fd_ r)) [] r);
  let '(check_timers, ops, r) := e in
  let put ops r := with_io (fun s => with_private (private_queue s ++ ops) (private_work s) s) r in
  if (check_timers : bool) then
    t ← get_ready_timers later [] (queue_ r);
    let r := put (ops ++ (UserOp <$> t.1)) (with_timer_queue t.2 r) in
    if timer_fd_ r then
      new_timeout ← lift (get_timeout later r); ret (with_kern (timerfd_settime new_timeout (kern r)) r)
    else ret r
  else ret (put ops r).

(** ** A descriptor that is ready *)
Fixpoint perform_queue (l : list wait_op) (k : K) : list wait_op * list wait_op * K :=
  match l with
  | [] => ([], [], k)
  | op :: l' =>
    let '(finished, ec, k) := perform (wo_addr op) k in
    if (finished : bool) then let '(done_, rest, k) := perform_queue l' k in (with_ec ec op :: done_, rest, k)
    else ([], with_ec ec op :: l', k)
  end.

Definition flag_of (t : op_type) : Z :=
  match t with read_op => EPOLLIN | write_op => EPOLLOUT | except_op => EPOLLPRI end.

Definition perform_type (t : op_type) (events : Z) (d : descriptor_state) (k : K)
    : list wait_op * descriptor_state * K :=
  if Z.land events (Z.lor (Z.lor (flag_of t) EPOLLERR) EPOLLHUP) =? 0 then ([], d, k)
  else let '(done_, rest, k) := perform_queue (op_queue_of t d) k in (done_, set_op_queue t rest d, k).

(** The operation that is completed now; the others are posted, and when there is
    none, work is started to make up for the end of this operation. *)
Definition perform_io (p events : Z) (r : reactor) : outcome (option wait_op * reactor) :=
  d ← state_get p r;
  let '(ops2, d, k) := perform_type except_op events d (kern r) in
  let '(ops1, d, k) := perform_type write_op events d k in
  let '(ops0, d, k) := perform_type read_op events d k in
  let r := with_kern k (state_set p d r) in
  match ops2 ++ ops1 ++ ops0 with
  | [] => Ok (None, with_io work_started r)
  | first_op :: rest => Ok (Some first_op, with_io (post_deferred_completions (UserOp <$> rest)) r)
  end.

(** [do_complete] of a descriptor *)
Definition state_complete (p : Z) (r : reactor) : outcome (option wait_op * reactor) :=
  d ← state_get p r; perform_io p (task_result_ d) r.

(** [shutdown_service]: the operations it destroys *)
Definition rx_shutdown (r : reactor) : partial (list wait_op * reactor) :=
  t ← get_all_timers [] (queue_ r);
  let ops := live_list_ r ≫= (fun p => match states r !! p with Some d => all_ops d | None => [] end) in
  let m := foldr (fun p m => alter (fun d => set_descriptor (descriptor_ d) true (clear_queues d)) p m)
             (states r) (live_list_ r) in
  ret (ops ++ t.1, Reactor (io r) (timer_fd_ r) t.2 m [] (rev (live_list_ r) ++ free_list_ r) true (kern r)).
End Reactor.
Arguments reactor : clear implicits.
