(* ===== verification/Eventloop.v ===== *)
(** * The event loop: service, reactor and timers together

    The calls of a client and the rounds of [task_io_service::do_run_one], one
    after the other as the one thread of a worker makes them; a handler runs
    between the round that starts it and [Return], and makes calls.  The theorems
    say that every operation that is started is completed once and is in one
    place until then, that the count of outstanding work is the number of
    operations that are pending, and that the service stops exactly when there
    are none. *)
From S2P Require Import Prelude Socketops Timetraits Binheap Timerqueue Timers Ioservice Epoll.
#[local] Open Scope Z_scope.

(** The times whose differences the clock can express *)
Class Time_Range (T : Type) `{Time_Traits T} := {
  in_range : T -> Prop;
  range_subtract a b : in_range a -> in_range b ->
    exists d u m, subtract a b = Ok d /\ total_microseconds d = Ok u /\ total_milliseconds d = Ok m
}.

Section Loop.
Context {T : Type} `{Time_TraitsLaws T} `{!Time_Range T} {K : Type} `{EpollKernel K}.

Implicit Types (r : reactor T K).

(** [started] and [completed] are the addresses of the operations so far. *)
Record system := System { rx : reactor T K; started : list Z; completed : list Z }.

Inductive call :=
  | InitTask
  | Register (fresh descriptor : Z)
  | StartOp (t : op_type) (descriptor p : Z) (op : wait_op) (is_continuation allow_speculative : bool)
  | CancelOps (p : Z)
  | Deregister (descriptor p : Z) (closing : bool)
  | Schedule (now time : T) (timer : Z) (op : wait_op)
  | CancelTimer (timer max : Z)
  | Post (op : wait_op) (is_continuation : bool)
  | Dispatch (op : wait_op)
  | Stop
  | Reset
  | RunOne (now later : T) (events : list event)
  | Return
  | SysCalls (f : K -> K).   (* system calls of its own *)

Definition with_rx (r : reactor T K) (s : system) : system := System r (started s) (completed s).
Definition starts (op : wait_op) (s : system) : system := System (rx s) (started s ++ [wo_addr op]) (completed s).
Definition completes (op : wait_op) (s : system) : system := System (rx s) (started s) (completed s ++ [wo_addr op]).

Definition exec (c : call) (s : system) : partial system :=
  let r := rx s in
  match c with
  | InitTask => ret (with_rx (with_io init_task r) s)
  | Register fresh fd => e ← lift (register_descriptor fresh fd r); ret (with_rx e.2 s)
  | StartOp t fd p op cont spec => r ← lift (start_op t fd p op cont spec r); ret (with_rx r (starts op s))
  | CancelOps p => r ← lift (rx_cancel_ops p r); ret (with_rx r s)
  | Deregister fd p closing => e ← lift (deregister_descriptor fd p closing r); ret (with_rx e.1 s)
  | Schedule now time timer op => r ← schedule_timer now time timer op r; ret (with_rx r (starts op s))
  | CancelTimer timer max => e ← rx_cancel_timer timer max r; ret (with_rx e.1 s)
  | Post op cont => ret (with_rx (with_io (post_immediate_completion (UserOp op) cont) r) (starts op s))
  | Dispatch op => ret (with_rx (with_io (do_dispatch (UserOp op)) r) (starts op s))
  | Stop => ret (with_rx (with_io io_stop r) s)
  | Reset => ret (with_rx (with_io io_reset r) s)
  | RunOne now later events =>
    match do_run_one (io r) with
    | NoneStopped | NoneWait => ret s
    | NextTask block i =>
      r ← rx_run block now later events (with_io (fun _ => i) r); ret (with_rx (with_io task_cleanup r) s)
    | NextOp TaskOp i => ret s
    | NextOp (UserOp o) i => ret (completes o (with_rx (with_io (fun _ => i) r) s))
    | NextOp (DescOp p) i =>
      e ← lift (state_complete p (with_io (fun _ => i) r));
      match e.1 with
      | Some o => ret (completes o (with_rx e.2 s))
      | None => ret (with_rx (with_io work_cleanup e.2) s)
      end
    end
  | Return => ret (with_rx (with_io work_cleanup r) s)
  | SysCalls f => ret (with_rx (with_kern (f (kern r)) r) s)
  end.

Definition pointers (events : list event) : list Z :=
  events ≫= fun e => match e with FromState p _ => [p] | _ => [] end.

(** What the caller and the kernel keep: a pointer to a state is null or live,
    an operation is started once, and epoll reports a state at most once. *)
Definition allowed (c : call) (s : system) : Prop :=
  let r := rx s in
  let pointer p := p = 0 \/ p ∈ live_list_ r in
  let timer t := t <> 0 /\ is_Some (data (queue_ r) !! t) in
  match c with
  | Register fresh _ => fresh <> 0 /\ states r !! fresh = None
  | StartOp _ _ p op _ _ => pointer p /\ wo_addr op ∉ started s
  | CancelOps p | Deregister _ p _ => pointer p
  | Schedule now time t op => timer t /\ wo_addr op ∉ started s /\ in_range now /\ in_range time
  | CancelTimer t max => timer t /\ 0 <= max
  | Post op _ | Dispatch op => wo_addr op ∉ started s
  | RunOne now later events => in_handler (io r) = false /\ in_range now /\ in_range later /\ NoDup (pointers events)
                       /\ Forall (fun p => is_Some (states r !! p)) (pointers events)
  | Return => in_handler (io r) = true
  | InitTask | Stop | Reset | SysCalls _ => True
  end.

Fixpoint run_calls (cs : list call) (s : system) : partial system :=
  match cs with
  | [] => ret s
  | c :: cs' => s ← exec c s; run_calls cs' s
  end.

Fixpoint calls_allowed (cs : list call) (s : system) : Prop :=
  match cs with
  | [] => True
  | c :: cs' => allowed c s /\ forall s', exec c s = Some (Ok s') -> calls_allowed cs' s'
  end.

#[export] Instance allowed_dec `{forall x, Decision (in_range x)} c s : Decision (allowed c s).
Proof. destruct c; cbn [allowed]; apply _. Defined.

(** [calls_allowed], by running the calls *)
Fixpoint check_calls `{forall x, Decision (in_range x)} (cs : list call) (s : system) : bool :=
  match cs with
  | [] => true
  | c :: cs' =>
    bool_decide (allowed c s) && match exec c s with Some (Ok s') => check_calls cs' s' | _ => true end
  end.

Lemma check_calls_sound `{forall x, Decision (in_range x)} cs : forall s, check_calls cs s = true -> calls_allowed cs s.
Proof.
  induction cs as [|c cs IH]; intros s Hc; [done|]. cbn [check_calls] in Hc. apply andb_true_iff in Hc as [Ha Hc].
  split; [by apply bool_decide_eq_true in Ha|]. intros s' E. rewrite E in Hc. by apply IH.
Qed.

(** ** Where the operations are *)
Definition user_addrs (l : list operation) : list Z :=
  l ≫= fun o => match o with UserOp o => [wo_addr o] | _ => [] end.
Definition addrs_of (l : list wait_op) : list Z := wo_addr <$> l.
Definition ready (i : io_service) : list Z := user_addrs (io_queue_ i ++ private_queue i).
Definition in_states (m : gmap Z descriptor_state) : list Z := map_to_list m ≫= fun p => addrs_of (all_ops p.2).
Definition in_timers (q : timer_queue T) : list Z := map_to_list (data q) ≫= fun p => addrs_of (op_queue_ p.2).
Definition pending (r : reactor T K) : list Z := ready (io r) ++ in_states (states r) ++ in_timers (queue_ r).

Definition total_work (i : io_service) : Z := outstanding_work_ i + private_work i.
Definition reactor_new (m : gmap Z per_timer_data) (hint : Z) (timer_fd : bool) (k : K) : reactor T K :=
  Reactor (io_service_new hint) timer_fd (timer_queue_new m) ∅ [] [] false k.
Definition system_new (m : gmap Z per_timer_data) (hint : Z) (timer_fd : bool) (k : K) : system :=
  System (reactor_new m hint timer_fd k) [] [].

(** ** The service *)
Definition is_user (o : operation) : Prop := match o with UserOp _ => True | _ => False end.
Definition descs (l : list operation) : list Z := l ≫= fun o => match o with DescOp p => [p] | _ => [] end.

Lemma user_addrs_app l l' : user_addrs (l ++ l') = user_addrs l ++ user_addrs l'.
Proof. apply bind_app. Qed.

Lemma user_addrs_map l : user_addrs (UserOp <$> l) = addrs_of l.
Proof. induction l as [|o l IH]; [done|]. rewrite fmap_cons. cbn. f_equal. exact IH. Qed.

Lemma descs_app l l' : descs (l ++ l') = descs l ++ descs l'.
Proof. apply bind_app. Qed.

Lemma descs_user l : Forall is_user l -> descs l = [].
Proof. induction 1 as [|o l Ho _ IH]; [done|]. by destruct o. Qed.

Lemma Forall_user l : Forall is_user (UserOp <$> l).
Proof. apply Forall_fmap, Forall_forall. done. Qed.

(** [i'] is [i] with the operations [l] posted and [n] more work. *)
Record io_ext (l : list Z) (n : Z) (i i' : io_service) : Prop := {
  ext_split : exists a b, io_queue_ i' = io_queue_ i ++ a /\ private_queue i' = private_queue i ++ b
    /\ Forall is_user (a ++ b) /\ user_addrs (a ++ b) ≡ₚ l /\ (in_handler i = false -> b = [])
    /\ private_work i' <= private_work i + vlen b;
  ext_work : total_work i' = total_work i + n;
  ext_handler : in_handler i' = in_handler i;
  ext_task : task_ i' = task_ i;
  ext_private : private_work i <= private_work i' /\ (in_handler i = false -> private_work i' = private_work i)
}.

Lemma wake_same i :
  let i' := wake_one_thread i in
  io_queue_ i' = io_queue_ i /\ private_queue i' = private_queue i /\ outstanding_work_ i' = outstanding_work_ i
  /\ in_handler i' = in_handler i /\ task_ i' = task_ i /\ private_work i' = private_work i /\ stopped_ i' = stopped_ i.
Proof. unfold wake_one_thread. destruct (negb _ && _); done. Qed.

(** A service that differs in nothing but flags *)
Lemma io_ext_flags i i' :
  io_queue_ i' = io_queue_ i -> private_queue i' = private_queue i -> outstanding_work_ i' = outstanding_work_ i ->
  in_handler i' = in_handler i -> task_ i' = task_ i -> private_work i' = private_work i -> io_ext [] 0 i i'.
Proof.
  intros Hq Hp Ho Hh Ht Hw. split; try done; [|unfold total_work; lia|lia].
  exists [], []. rewrite !app_nil_r. split_and!; try done; unfold vlen; cbn; lia.
Qed.

Lemma io_ext_push l n i i' :
  io_queue_ i' = io_queue_ i ++ (UserOp <$> l) -> private_queue i' = private_queue i ->
  outstanding_work_ i' = outstanding_work_ i + n -> in_handler i' = in_handler i -> task_ i' = task_ i ->
  private_work i' = private_work i -> io_ext (addrs_of l) n i i'.
Proof.
  intros Hq Hp Ho Hh Ht Hw. split; try done; [|unfold total_work; lia|lia].
  exists (UserOp <$> l), []. rewrite !app_nil_r. split_and!; [done..|apply Forall_user|by rewrite user_addrs_map|done|unfold vlen; cbn; lia].
Qed.

Lemma io_ext_private l n i i' :
  io_queue_ i' = io_queue_ i -> private_queue i' = private_queue i ++ (UserOp <$> l) ->
  outstanding_work_ i' = outstanding_work_ i -> in_handler i' = in_handler i -> task_ i' = task_ i ->
  private_work i' = private_work i + n -> 0 <= n <= vlen l -> in_handler i = true -> io_ext (addrs_of l) n i i'.
Proof.
  intros Hq Hp Ho Hh Ht Hw Hn Hi. split; try done; [|unfold total_work; lia|split; [lia|congruence]].
  exists [], (UserOp <$> l). rewrite app_nil_r. split_and!; [done..|apply Forall_user|by rewrite app_nil_l, user_addrs_map|congruence|].
  unfold vlen in *. rewrite length_fmap. lia.
Qed.

Lemma post_immediate_ext op cont i : io_ext [wo_addr op] 1 i (post_immediate_completion (UserOp op) cont i).
Proof.
  unfold post_immediate_completion. destruct ((one_thread_ i || cont) && in_handler i) eqn:E.
  - apply andb_true_iff in E as [_ E]. by apply (io_ext_private [op] 1).
  - destruct (wake_same (push_ops [UserOp op] (work_started i))) as (A & B & C & D & F & G & _).
    by apply (io_ext_push [op] 1).
Qed.

Lemma do_dispatch_ext op i : io_ext [wo_addr op] 1 i (do_dispatch (UserOp op) i).
Proof.
  unfold do_dispatch. destruct (wake_same (push_ops [UserOp op] (work_started i))) as (A & B & C & D & F & G & _).
  by apply (io_ext_push [op] 1).
Qed.

Lemma post_deferred_ext l i : io_ext (addrs_of l) 0 i (post_deferred_completions (UserOp <$> l) i).
Proof.
  unfold post_deferred_completions. destruct l as [|o l]; [by apply io_ext_flags|]. cbn [fmap list_fmap].
  change (UserOp o :: list_fmap _ _ UserOp l) with (UserOp <$> (o :: l)).
  destruct (one_thread_ i && in_handler i) eqn:E.
  - apply andb_true_iff in E as [_ E]. apply io_ext_private; cbn; try done; lia.
  - destruct (wake_same (push_ops (UserOp <$> o :: l) i)) as (A & B & C & D & F & G & _).
    apply io_ext_push; cbn in *; try done; lia.
Qed.

Lemma work_started_ext i : io_ext [] 1 i (work_started i).
Proof. split; try done; [|unfold total_work; cbn; lia]. exists [], []. rewrite !app_nil_r. split_and!; try done; unfold vlen; cbn; lia. Qed.

Lemma io_stop_ext i : io_ext [] 0 i (io_stop i).
Proof. destruct (wake_same (set_stopped true i)) as (A & B & C & D & F & G & _). by apply io_ext_flags. Qed.

(** The shape of the queues: the reactor is in the queue once, ready descriptors
    before it, each once. *)
Definition queue_shape {A} (m : gmap Z A) (l : list operation) : Prop :=
  exists pre post, l = pre ++ TaskOp :: post /\ TaskOp ∉ pre /\ Forall is_user post /\ NoDup (descs pre)
    /\ forall p, p ∈ descs pre -> is_Some (m !! p).

Record io_ok {A} (m : gmap Z A) (i : io_service) : Prop := {
  ok_queue : if task_ i then queue_shape m (io_queue_ i) else Forall is_user (io_queue_ i);
  ok_private : Forall is_user (private_queue i);
  ok_work : 0 <= private_work i <= vlen (private_queue i);
  ok_outside : in_handler i = false -> private_queue i = [] /\ private_work i = 0
}.

Lemma shape_push {A} (m : gmap Z A) l a : queue_shape m l -> Forall is_user a -> queue_shape m (l ++ a).
Proof.
  intros (pre & post & -> & S1 & S2 & S3 & S4) Ha. exists pre, (post ++ a). rewrite <- app_assoc.
  split_and!; [done..|by apply Forall_app|done|done].
Qed.

Lemma shape_mono {A} (m m' : gmap Z A) l :
  (forall p, is_Some (m !! p) -> is_Some (m' !! p)) -> queue_shape m l -> queue_shape m' l.
Proof. intros Hm (pre & post & S0 & S1 & S2 & S3 & S4). exists pre, post. split_and!; auto. Qed.

Lemma io_ext_ok {A} (m m' : gmap Z A) l n i i' :
  io_ok m i -> io_ext l n i i' -> (forall p, is_Some (m !! p) -> is_Some (m' !! p)) -> io_ok m' i'.
Proof.
  intros [Hq Hp Hw Ho] [(a & b & Ea & Eb & Hu & _ & Hb & Hpb) _ Hh Ht [Hle Hpw]] Hm. apply Forall_app in Hu as [Ha Hub].
  split.
  - rewrite Ht, Ea. destruct (task_ i); [apply shape_push; [by eapply shape_mono|done]|by apply Forall_app].
  - rewrite Eb. by apply Forall_app.
  - rewrite Eb, vlen_app. lia.
  - rewrite Hh. intros Hi. destruct (Ho Hi) as [E1 E2]. rewrite Eb, E1, (Hb Hi), (Hpw Hi). auto.
Qed.

Lemma io_ext_ready l n i i' : io_ext l n i i' -> ready i' ≡ₚ l ++ ready i.
Proof.
  intros [(a & b & Ea & Eb & _ & Hl & _ & _) _ _ _ _]. unfold ready. rewrite Ea, Eb, <- Hl, !user_addrs_app. solve_Permutation.
Qed.

(** ** The reactor *)
Lemma in_states_insert m p d d' :
  m !! p = Some d -> addrs_of (all_ops d) ++ in_states (<[p := d']> m) ≡ₚ addrs_of (all_ops d') ++ in_states m.
Proof.
  intros Hp. unfold in_states. rewrite <- insert_delete_eq, map_to_list_insert by apply lookup_delete_eq.
  rewrite <- (map_to_list_delete m p d) by done. rewrite !bind_cons. cbn [snd]. solve_Permutation.
Qed.

Lemma in_states_new m p d : m !! p = None -> in_states (<[p := d]> m) ≡ₚ addrs_of (all_ops d) ++ in_states m.
Proof. intros Hp. unfold in_states. by rewrite map_to_list_insert, bind_cons. Qed.

Lemma all_ops_set t l d : addrs_of (all_ops (set_op_queue t l d)) ++ addrs_of (op_queue_of t d)
  ≡ₚ addrs_of l ++ addrs_of (all_ops d).
Proof. destruct t; unfold all_ops, addrs_of; cbn; rewrite !fmap_app; solve_Permutation. Qed.

Lemma in_timers_waiting q P : represents q P -> in_timers q ≡ₚ waiting P.
Proof.
  intros [Hp Ho _]. set (f t := addrs_of (default [] (snd <$> P !! t))).
  assert (E1 : in_timers q = (map_to_list (data q)).*1 ≫= f).
  { unfold in_timers. assert (Hd : Forall (fun p => data q !! p.1 = Some p.2) (map_to_list (data q))).
    { apply Forall_forall. intros [t d]. by rewrite elem_of_map_to_list. }
    induction (map_to_list (data q)) as [|[t d] l IH]; [done|]. apply Forall_cons in Hd as [Ht Hd].
    rewrite fmap_cons, !bind_cons, IH by done. f_equal. cbn in *. unfold f. by rewrite (Ho t d Ht). }
  assert (E2 : waiting P = (map_to_list P).*1 ≫= f).
  { unfold waiting. assert (Hd : Forall (fun p => P !! p.1 = Some p.2) (map_to_list P)).
    { apply Forall_forall. intros [t d]. by rewrite elem_of_map_to_list. }
    induction (map_to_list P) as [|[t d] l IH]; [done|]. apply Forall_cons in Hd as [Ht Hd].
    rewrite fmap_cons, !bind_cons, fmap_app, IH by done. f_equal. cbn in *. unfold f. by rewrite Ht. }
  rewrite E1, E2. assert (Hsub : (map_to_list P).*1 ⊆+ (map_to_list (data q)).*1).
  { apply NoDup_submseteq; [apply NoDup_fst_map_to_list|]. intros t Ht.
    apply list_elem_of_fmap in Ht as ([t' x] & -> & Hx). apply elem_of_map_to_list in Hx. cbn.
    destruct (placed_nonzero _ _ t' Hp) as [_ [d Hd]]; [by rewrite lookup_fmap, Hx|].
    apply list_elem_of_fmap. exists (t', d). by rewrite elem_of_map_to_list. }
  apply submseteq_Permutation in Hsub as [k Hk]. rewrite Hk, bind_app.
  assert (Hz : k ≫= f = []); [|by rewrite Hz, app_nil_r].
  assert (Hn : NoDup ((map_to_list P).*1 ++ k)) by (rewrite <- Hk; apply NoDup_fst_map_to_list).
  apply NoDup_app in Hn as (_ & Hdis & _). clear Hk E1. induction k as [|t k IH]; [done|].
  rewrite bind_cons, IH by (intros x Hx Hin; apply (Hdis x Hx); by right). rewrite app_nil_r. unfold f.
  destruct (P !! t) as [x|] eqn:Et; [|done]. destruct (Hdis t); [|by left].
  apply list_elem_of_fmap. exists (t, x). by rewrite elem_of_map_to_list.
Qed.

(** The states and the lists of the pool *)
Record pool_inv (m : gmap Z descriptor_state) (live free : list Z) : Prop := {
  pi_state p d : m !! p = Some d -> p <> 0 /\ (ds_shutdown_ d = true -> all_ops d = []);
  pi_live p : p ∈ live -> exists d, m !! p = Some d /\ ds_shutdown_ d = false;
  pi_free p : p ∈ free -> exists d, m !! p = Some d /\ ds_shutdown_ d = true;
  pi_nodup : NoDup (live ++ free)
}.

Definition ranged (P : gmap Z (option T * list wait_op)) : Prop :=
  forall t x os, P !! t = Some (Some x, os) -> in_range x.
Definition timers_ok (q : timer_queue T) : Prop := exists P, represents q P /\ ranged P.

Record rx_inv (r : reactor T K) : Prop := {
  ri_io : io_ok (states r) (io r);
  ri_work : total_work (io r) = vlen (pending r) + (if in_handler (io r) then 1 else 0);
  ri_pool : pool_inv (states r) (live_list_ r) (free_list_ r);
  ri_timers : timers_ok (queue_ r);
  ri_running : rx_shutdown_ r = false
}.

(** A call that starts the operations [l] *)
Record api_ok (l : list Z) (r r' : reactor T K) : Prop := {
  ao_inv : rx_inv r';
  ao_pending : pending r' ≡ₚ l ++ pending r;
  ao_handler : in_handler (io r') = in_handler (io r);
  ao_data t : is_Some (data (queue_ r) !! t) -> is_Some (data (queue_ r') !! t)
}.

Lemma api_intro posted n l r r' :
  rx_inv r -> io_ext posted n (io r) (io r') ->
  posted ++ in_states (states r') ++ in_timers (queue_ r') ≡ₚ l ++ in_states (states r) ++ in_timers (queue_ r) ->
  n = vlen l -> (forall p, is_Some (states r !! p) -> is_Some (states r' !! p)) ->
  pool_inv (states r') (live_list_ r') (free_list_ r') -> timers_ok (queue_ r') ->
  rx_shutdown_ r' = false -> (forall t, is_Some (data (queue_ r) !! t) -> is_Some (data (queue_ r') !! t)) ->
  api_ok l r r'.
Proof.
  intros [Hio Hw Hp Ht Hs] Hext Hperm -> Hm Hp' Ht' Hs' Hd.
  assert (Hpend : pending r' ≡ₚ l ++ pending r).
  { unfold pending. rewrite (io_ext_ready _ _ _ _ Hext).
    transitivity (ready (io r) ++ (posted ++ in_states (states r') ++ in_timers (queue_ r'))); [solve_Permutation|].
    rewrite Hperm. solve_Permutation. }
  split; [split|done|apply Hext|done]; try done.
  - by eapply io_ext_ok.
  - rewrite (ext_work _ _ _ _ Hext), (ext_handler _ _ _ _ Hext), Hw. unfold vlen. rewrite Hpend, length_app. lia.
Qed.

(** Nothing but the service changes. *)
Lemma api_io posted n f r :
  rx_inv r -> io_ext posted n (io r) (f (io r)) -> n = vlen posted -> api_ok posted r (with_io f r).
Proof. intros Hr Hext Hn. pose proof Hr as [A B C D E]. by eapply api_intro. Qed.

Lemma rx_inv_kern k r : rx_inv r -> rx_inv (with_kern k r).
Proof. intros [A B C D E]. by split. Qed.

Lemma api_kern k l r r' : api_ok l (with_kern k r) r' -> api_ok l r r'.
Proof. intros [A B C D]. by split. Qed.

Lemma pool_update m live free p d d' :
  pool_inv m live free -> m !! p = Some d -> ds_shutdown_ d' = ds_shutdown_ d ->
  (ds_shutdown_ d' = true -> all_ops d' = []) -> pool_inv (<[p := d']> m) live free.
Proof.
  intros [A B C D] Hp Hs Ho.
  assert (Hl : forall b x, (exists d0, m !! x = Some d0 /\ ds_shutdown_ d0 = b) ->
    exists d0, <[p := d']> m !! x = Some d0 /\ ds_shutdown_ d0 = b).
  { intros b x (d0 & Hx & Hb). rewrite lookup_insert. case_decide; [|eauto]. subst. exists d'.
    split; [done|]. congruence. }
  split; [|eauto|eauto|done]. intros x d0. rewrite lookup_insert. case_decide; [|apply A].
  intros [= <-]. subst. split; [by apply (A x d)|done].
Qed.

(** An operation is put into a queue of a descriptor. *)
Lemma enqueue_ok r p d d' t op :
  rx_inv r -> states r !! p = Some d -> ds_shutdown_ d = false -> ds_shutdown_ d' = false ->
  all_ops d' = all_ops d ->
  api_ok [wo_addr op] r (with_io work_started (state_set p (set_op_queue t (op_queue_of t d' ++ [op]) d') r)).
Proof.
  intros Hr Hp Hs Hs' Ha. pose proof Hr as [A B C D E].
  eapply (api_intro [] 1); [exact Hr|apply work_started_ext| |done| |eapply pool_update; [exact C|exact Hp|..]|done|done|done].
  - cbn [with_io state_set with_states states queue_ app].
    assert (Hq : addrs_of (all_ops (set_op_queue t (op_queue_of t d' ++ [op]) d')) ≡ₚ wo_addr op :: addrs_of (all_ops d)).
    { pose proof (all_ops_set t (op_queue_of t d' ++ [op]) d') as Hx. rewrite Ha in Hx. unfold addrs_of in Hx at 3.
      rewrite fmap_app, <- app_assoc in Hx. fold (addrs_of (op_queue_of t d')) in Hx.
      rewrite Permutation_app_comm in Hx. by apply Permutation_app_inv_l in Hx. }
    pose proof (in_states_insert _ p d (set_op_queue t (op_queue_of t d' ++ [op]) d') Hp) as Hi. rewrite Hq in Hi.
    cbn [app] in Hi. rewrite Permutation_middle in Hi. apply Permutation_app_inv_l in Hi. by rewrite Hi.
  - intros x Hx. cbn. apply lookup_insert_is_Some'. auto.
  - cbn. congruence.
  - cbn. congruence.
Qed.

Lemma pointer_state r p : rx_inv r -> p <> 0 -> p = 0 \/ p ∈ live_list_ r ->
  exists d, states r !! p = Some d /\ state_get p r = Ok d /\ ds_shutdown_ d = false.
Proof.
  intros Hr Hp [?|Hl]; [done|]. destruct (pi_live _ _ _ (ri_pool _ Hr) p Hl) as (d & Hd & Hs). exists d.
  unfold state_get. by rewrite (proj2 (Z.eqb_neq _ _) Hp), Hd.
Qed.

Lemma post_ok op cont r : rx_inv r -> api_ok [wo_addr op] r (with_io (post_immediate_completion (UserOp op) cont) r).
Proof. intros Hr. by apply (api_io _ 1); [|apply post_immediate_ext|]. Qed.

Lemma start_op_ok t fd p op cont spec r :
  rx_inv r -> p = 0 \/ p ∈ live_list_ r ->
  exists r', start_op t fd p op cont spec r = Ok r' /\ api_ok [wo_addr op] r r'.
Proof.
  intros Hr Hp. unfold start_op. destruct (Z.eqb_spec p 0) as [_|Hp0].
  { eexists. split; [reflexivity|]. by apply (post_ok (with_ec bad_descriptor op)). }
  destruct (pointer_state r p Hr Hp0 Hp) as (d & Hd & -> & Hs). cbn [mbind outcome_bind]. rewrite Hs.
  destruct (op_queue_of t d) as [|o l] eqn:Eq.
  2:{ eexists. split; [reflexivity|]. rewrite <- Eq. by apply (enqueue_ok r p d d t op). }
  destruct (spec && _).
  - destruct (perform (wo_addr op) (kern r)) as [[finished ec] k].
    assert (Hr2 : rx_inv (with_kern k r)) by by apply rx_inv_kern.
    assert (Hq : forall d', ds_shutdown_ d' = false -> all_ops d' = all_ops d ->
      api_ok [wo_addr op] r (with_io work_started
        (state_set p (set_op_queue t (op_queue_of t d' ++ [with_ec ec op]) d') (with_kern k r)))).
    { intros d' Hs' Ha. apply (api_kern k). by apply (enqueue_ok _ _ d d' t (with_ec ec op)). }
    destruct finished.
    { eexists. split; [reflexivity|]. by apply (api_kern k), (post_ok (with_ec ec op)). }
    pose proof (Hq d Hs eq_refl) as Hqd. rewrite Eq in Hqd.
    destruct t; [by eauto| |by eauto]. destruct (Z.land _ _ =? 0); [|by eauto].
    destruct (epoll_ctl _ _ _ _ _) as [result k']. destruct (result =? 0).
    + eexists. split; [reflexivity|]. apply (api_kern k), (api_kern k').
      apply (enqueue_ok _ p d (set_events _ d) write_op (with_ec ec op)); try done. by apply rx_inv_kern.
    + eexists. split; [reflexivity|]. apply (api_kern k), (api_kern k').
      apply (post_ok (with_ec (basic_error result) (with_ec ec op))). by apply rx_inv_kern.
  - destruct (epoll_ctl _ _ _ _ _) as [result k'].
    eexists. split; [reflexivity|]. apply (api_kern k').
    eapply (enqueue_ok _ p d); [by apply rx_inv_kern|done|done|by destruct t|by destruct t].
Qed.

(** Aborting what waits for a descriptor *)
Lemma abort_addrs d : abort_all d = UserOp <$> (with_ec operation_aborted <$> all_ops d).
Proof. unfold abort_all. by rewrite list_fmap_compose. Qed.

Lemma with_ec_addrs ec l : addrs_of (with_ec ec <$> l) = addrs_of l.
Proof. unfold addrs_of. by rewrite <- list_fmap_compose. Qed.

Lemma post_aborted_ext d i : io_ext (addrs_of (all_ops d)) 0 i (post_deferred_completions (abort_all d) i).
Proof. rewrite abort_addrs, <- (with_ec_addrs operation_aborted). apply post_deferred_ext. Qed.

Lemma in_states_cleared m p d d' :
  m !! p = Some d -> all_ops d' = [] -> addrs_of (all_ops d) ++ in_states (<[p := d']> m) ≡ₚ in_states m.
Proof. intros Hp Hd'. rewrite (in_states_insert m p d d' Hp), Hd'. done. Qed.

Lemma cancel_ops_ok p r :
  rx_inv r -> p = 0 \/ p ∈ live_list_ r -> exists r', rx_cancel_ops p r = Ok r' /\ api_ok [] r r'.
Proof.
  intros Hr Hp. unfold rx_cancel_ops. destruct (Z.eqb_spec p 0) as [_|Hp0].
  { exists r. split; [done|]. destruct Hr as [A B C D E]. by split. }
  destruct (pointer_state r p Hr Hp0 Hp) as (d & Hd & -> & Hs). cbn [mbind outcome_bind].
  eexists. split; [reflexivity|]. pose proof Hr as [A B C D E].
  eapply (api_intro _ 0); [exact Hr|apply (post_aborted_ext d)| |done| |by eapply pool_update|done|done|done].
  - cbn. rewrite app_assoc, (in_states_cleared _ p d (clear_queues d)) by done. done.
  - intros x Hx. cbn. apply lookup_insert_is_Some'. auto.
Qed.

Lemma pool_freed m live free p d' :
  pool_inv m live free -> is_Some (m !! p) -> p ∈ live -> ds_shutdown_ d' = true -> all_ops d' = [] ->
  pool_inv (<[p := d']> m) (filter (fun x => x <> p) live) (p :: free).
Proof.
  intros [A B C D] [d Hp] Hl Hs Ho. apply NoDup_app in D as (D1 & D2 & D3). split.
  - intros x d0. rewrite lookup_insert. case_decide; [|apply A]. intros [= <-]. subst. split; [by apply (A x d)|done].
  - intros x [Hx Hin]%list_elem_of_filter. rewrite lookup_insert_ne by done. auto.
  - intros x. rewrite elem_of_cons, lookup_insert. case_decide; [subst; eauto|]. intros [->|Hin]; [done|auto].
  - apply NoDup_app. split_and!; [by apply NoDup_filter| |apply NoDup_cons; split; [by apply D2|done]].
    intros x [Hx Hin]%list_elem_of_filter. rewrite elem_of_cons. intros [->|?]; [done|by apply (D2 x)].
Qed.

Lemma deregister_ok fd p closing r :
  rx_inv r -> p = 0 \/ p ∈ live_list_ r ->
  exists r' p', deregister_descriptor fd p closing r = Ok (r', p') /\ api_ok [] r r' /\ p' = 0.
Proof.
  intros Hr Hp. unfold deregister_descriptor. destruct (Z.eqb_spec p 0) as [->|Hp0].
  { exists r, 0. split; [done|]. split; [|done]. destruct Hr as [A B C D E]. by split. }
  destruct (pointer_state r p Hr Hp0 Hp) as (d & Hd & -> & Hs). cbn [mbind outcome_bind]. rewrite Hs. cbn [negb].
  eexists _, 0. split; [reflexivity|]. split; [|done]. destruct Hp as [?|Hl]; [done|].
  set (r1 := if closing then r else _). assert (Hr1 : rx_inv r1) by (subst r1; destruct closing; [done|by apply rx_inv_kern]).
  assert (Hkern : forall r', api_ok [] r1 r' -> api_ok [] r r') by (subst r1; destruct closing; [done|apply api_kern]).
  apply Hkern. assert (Hd1 : states r1 !! p = Some d) by (subst r1; by destruct closing).
  assert (Hl1 : p ∈ live_list_ r1) by (subst r1; by destruct closing).
  pose proof Hr1 as [A B C D E]. eapply (api_intro _ 0); [exact Hr1|apply (post_aborted_ext d)| |done| | |done|done|done].
  - cbn. rewrite app_assoc, (in_states_cleared _ p d) by done. done.
  - intros x Hx. cbn. apply lookup_insert_is_Some'. auto.
  - cbn. apply pool_freed; eauto.
Qed.

Lemma pool_taken m live free o d' :
  pool_inv m live (o :: free) -> ds_shutdown_ d' = false -> pool_inv (<[o := d']> m) (o :: live) free.
Proof.
  intros [A B C D] Hs. apply NoDup_app in D as (D1 & D2 & [D3 D4]%NoDup_cons).
  destruct (C o) as (d & Hd & _); [by left|]. split.
  - intros x d0. rewrite lookup_insert. case_decide; [|apply A]. intros [= <-]. subst.
    split; [by apply (A x d)|congruence].
  - intros x. rewrite elem_of_cons, lookup_insert. case_decide; [subst; eauto|]. intros [->|Hin]; [done|auto].
  - intros x Hx. rewrite lookup_insert_ne by (intros ->; done). apply C. by right.
  - apply NoDup_cons. split; [|apply NoDup_app; split_and!; [done| |done]].
    + rewrite elem_of_app. intros [Hx|Hx]; [|done]. apply (D2 o Hx). by left.
    + intros x Hx Hx'. apply (D2 x Hx). by right.
Qed.

Lemma pool_fresh m live f d' :
  pool_inv m live [] -> m !! f = None -> f <> 0 -> ds_shutdown_ d' = false ->
  pool_inv (<[f := d']> m) (f :: live) [].
Proof.
  intros [A B C D] Hf Hf0 Hs. rewrite app_nil_r in D. split.
  - intros x d0. rewrite lookup_insert. case_decide; [|apply A]. intros [= <-]. subst. split; [done|congruence].
  - intros x. rewrite elem_of_cons, lookup_insert. case_decide; [subst; eauto|]. intros [->|Hin]; [done|auto].
  - intros x Hx. by apply elem_of_nil in Hx.
  - rewrite app_nil_r. apply NoDup_cons. split; [|done]. intros Hin. destruct (B f Hin) as (d & Hd & _). congruence.
Qed.

Lemma register_ok fresh fd r :
  rx_inv r -> fresh <> 0 -> states r !! fresh = None ->
  exists e p r', register_descriptor fresh fd r = Ok (e, p, r') /\ api_ok [] r r' /\ p ∈ live_list_ r'.
Proof.
  intros Hr Hf0 Hf. unfold register_descriptor, object_pool_alloc. pose proof Hr as [A B C D E].
  destruct (free_list_ r) as [|o free] eqn:Ef.
  - unfold state_get. rewrite (proj2 (Z.eqb_neq _ _) Hf0). cbn [with_lists state_set with_states states].
    rewrite lookup_insert_eq. cbn [mbind outcome_bind]. destruct (epoll_ctl _ _ _ _ _) as [e k].
    eexists e, fresh, _. split; [reflexivity|]. split; [|by left].
    apply (api_intro [] 0 _ r); [done|by apply io_ext_flags| |done| |cbn|done..].
    + cbn. rewrite insert_insert_eq, in_states_new by done. done.
    + intros x Hx. cbn. rewrite !lookup_insert_is_Some'. auto.
    + rewrite insert_insert_eq. by apply pool_fresh.
  - destruct (pi_free _ _ _ C o) as (d & Hd & Hs); [by left|]. unfold state_get.
    rewrite (proj2 (Z.eqb_neq o 0)) by (by apply (pi_state _ _ _ C o d)). cbn [with_lists states]. rewrite Hd.
    cbn [mbind outcome_bind]. destruct (epoll_ctl _ _ _ _ _) as [e k].
    eexists e, o, _. split; [reflexivity|]. split; [|by left].
    assert (Ho : all_ops d = []) by (by apply (pi_state _ _ _ C o d)).
    apply (api_intro [] 0 _ r); [done|by apply io_ext_flags| |done| |cbn|done..].
    + cbn. pose proof (in_states_insert _ o d (set_events (Z.lor (Z.lor (Z.lor (Z.lor EPOLLIN EPOLLERR) EPOLLHUP) EPOLLPRI) EPOLLET) (set_descriptor fd false d)) Hd) as Hi.
      unfold all_ops in Hi at 2. cbn in Hi. fold (all_ops d) in Hi. rewrite Ho in Hi. cbn in Hi. by rewrite Hi.
    + intros x Hx. cbn. apply lookup_insert_is_Some'. auto.
    + by apply pool_taken.
Qed.

(** ** Timers *)
Lemma wait_Ok now max1 max2 q : timers_ok q -> in_range now ->
  exists u m, wait_duration_usec now max1 q = Ok u /\ wait_duration_msec now max2 q = Ok m.
Proof.
  intros (P & Hr & Hp) Hn. unfold wait_duration_usec, wait_duration_msec. destruct (heap_ q) as [|e h] eqn:Eh; [eauto|].
  destruct (heap_pending _ _ e Hr) as [os Hos]; [rewrite Eh; by left|].
  destruct (range_subtract (time_ e) now (Hp _ _ _ Hos) Hn) as (d & u & m & -> & Eu & Em). cbn [mbind outcome_bind].
  unfold to_usec, to_msec. destruct (d <=? 0); [eauto|]. rewrite Eu, Em. cbn. eauto.
Qed.

Lemma get_timeout_Ok now r : timers_ok (queue_ r) -> in_range now -> exists u, get_timeout now r = Ok u.
Proof.
  intros Ht Hn. unfold get_timeout. destruct (wait_Ok now (5 * 60 * 1000 * 1000) 0 _ Ht Hn) as (u & _ & -> & _). cbn. eauto.
Qed.

Lemma timeout_Ok (block : bool) now r : timers_ok (queue_ r) -> in_range now ->
  exists u, (if timer_fd_ r then Ok (if block then -1 else 0)
             else if block then get_timeout_msec now r else Ok 0) = Ok u.
Proof.
  intros Ht Hn. unfold get_timeout_msec. destruct (wait_Ok now 0 (5 * 60 * 1000) _ Ht Hn) as (_ & m & _ & ->).
  destruct (timer_fd_ r), block; eauto.
Qed.

Lemma update_timeout_ok now l r r1 :
  api_ok l r r1 -> in_range now -> exists r', update_timeout now r1 = Ok r' /\ api_ok l r r'.
Proof.
  intros Ha Hn. unfold update_timeout. destruct (timer_fd_ r1).
  - destruct (get_timeout_Ok now r1 (ri_timers _ (ao_inv _ _ _ Ha)) Hn) as [u ->]. cbn [mbind outcome_bind].
    eexists. split; [reflexivity|]. destruct Ha as [A B C D]. split; [by apply rx_inv_kern|done..].
  - eexists. split; [reflexivity|]. destruct Ha as [A B C D].
    destruct (api_io [] 0 rx_interrupt r1 A) as [A2 B2 C2 D2]; [by apply io_ext_flags|done|].
    split; [done|by rewrite B2|by rewrite C2|auto].
Qed.

Lemma ranged_enqueue time t op P : in_range time -> ranged P -> ranged (spec_enqueue time t op P).
Proof.
  intros Ht Hp u x os. unfold spec_enqueue. destruct (P !! t) as [[e os']|] eqn:Et;
    rewrite lookup_insert; case_decide; [subst; intros [= -> <-]; by apply (Hp u x os')|apply Hp| |apply Hp].
  unfold expiry. destruct (is_positive_infinity time); [done|]. by intros [= <- <-].
Qed.

Lemma ranged_cancel t max P : ranged P -> ranged (spec_cancel t max P).2.
Proof.
  intros Hp. unfold spec_cancel. destruct (P !! t) as [[e os']|] eqn:Et; [|done].
  destruct (cut max os') as [c [|o rest]]; cbn [snd]; intros u x os.
  - intros [_ Hu]%lookup_delete_Some. by apply (Hp u x os).
  - rewrite lookup_insert. case_decide; [subst; intros [= -> <-]; by apply (Hp u x os')|apply Hp].
Qed.

Lemma schedule_ok now time t op r :
  rx_inv r -> t <> 0 -> is_Some (data (queue_ r) !! t) -> in_range now -> in_range time ->
  exists r', schedule_timer now time t op r = Some (Ok r') /\ api_ok [wo_addr op] r r'.
Proof.
  intros Hr Ht Hd Hn Htm. unfold schedule_timer. rewrite (ri_running _ Hr). pose proof Hr as [A B C (P & HP & Hrg) E].
  destruct (enqueue_timer_spec _ P time t op HP Ht Hd) as (q' & b & -> & HP' & Hdom & _). cbn [mbind partial_bind fst snd].
  assert (Ha : api_ok [wo_addr op] r (with_io work_started (with_timer_queue q' r))).
  { eapply (api_intro [] 1); [done|apply work_started_ext| |done|done|done| |done|done].
    - cbn. rewrite (in_timers_waiting _ _ HP), (in_timers_waiting _ _ HP').
      pose proof (spec_call_conserves _ _ _ _ (sc_enqueue time t op P)) as Hw. cbn in Hw. rewrite Hw. solve_Permutation.
    - eexists. split; [exact HP'|by apply ranged_enqueue]. }
  destruct b; [|eauto]. destruct (update_timeout_ok now _ _ _ Ha Hn) as (r' & -> & Ha'). eauto.
Qed.

Lemma rx_cancel_timer_ok t max r :
  rx_inv r -> t <> 0 -> is_Some (data (queue_ r) !! t) -> 0 <= max ->
  exists r' n, rx_cancel_timer t max r = Some (Ok (r', n)) /\ api_ok [] r r'.
Proof.
  intros Hr Ht Hd Hmax. unfold rx_cancel_timer. pose proof Hr as [A B C (P & HP & Hrg) E].
  pose proof (cancel_timer_spec _ P t max [] HP Ht Hd Hmax) as Hc. pose proof (sc_cancel t max P) as Hs.
  pose proof (ranged_cancel t max P Hrg) as Hrg'.
  destruct (spec_cancel t max P) as [out P']. destruct Hc as (q' & -> & HP' & Hdom). cbn [mbind partial_bind fst snd app] in *.
  eexists _, _. split; [reflexivity|].
  eapply (api_intro _ 0); [done|apply (post_deferred_ext out)| |done|done|done| |done|done].
  - cbn. rewrite (in_timers_waiting _ _ HP), (in_timers_waiting _ _ HP').
    apply spec_call_conserves in Hs. cbn in Hs. fold (addrs_of out) in Hs. rewrite <- Hs. solve_Permutation.
  - eexists. split; [exact HP'|done].
Qed.

(** ** Rounds of the loop *)
Lemma dispatch_events_spec events : forall ct ops r,
  pool_inv (states r) (live_list_ r) (free_list_ r) ->
  (forall p, p ∈ pointers events -> is_Some (states r !! p)) ->
  exists ct' m, dispatch_events events ct ops r = Ok (ct', ops ++ (DescOp <$> pointers events), with_states m r)
    /\ pool_inv m (live_list_ r) (free_list_ r) /\ in_states m ≡ₚ in_states (states r)
    /\ forall p, is_Some (states r !! p) -> is_Some (m !! p).
Proof.
  induction events as [|e events IH]; intros ct ops r Hp Hs; cbn [dispatch_events].
  - exists ct, (states r). rewrite app_nil_r. split; [by destruct r|auto].
  - destruct e as [| |p ev]; [by apply IH|by apply IH|].
    destruct (Hs p) as [d Hd]; [by left|]. unfold state_get.
    rewrite (proj2 (Z.eqb_neq p 0)), Hd by (by apply (pi_state _ _ _ Hp p d)). cbn [mbind outcome_bind].
    destruct (IH ct (ops ++ [DescOp p]) (state_set p (set_ready_events ev d) r)) as (ct' & m & -> & Hm1 & Hm2 & Hm3).
    + cbn. apply (pool_update _ _ _ p d); [done..|by apply (pi_state _ _ _ Hp p d)].
    + intros x Hx. cbn. apply lookup_insert_is_Some'. right. apply Hs. by right.
    + exists ct', m. split; [cbn; rewrite <- app_assoc; by destruct r|]. split; [done|]. split.
      * rewrite Hm2. cbn. pose proof (in_states_insert _ p d (set_ready_events ev d) Hd) as Hi.
        by apply Permutation_app_inv_l in Hi.
      * intros x Hx. apply Hm3. cbn. apply lookup_insert_is_Some'. auto.
Qed.

Lemma get_ready_ok now r : timers_ok (queue_ r) ->
  exists out q', get_ready_timers now [] (queue_ r) = Some (Ok (out, q')) /\ timers_ok q'
    /\ addrs_of out ++ in_timers q' ≡ₚ in_timers (queue_ r)
    /\ forall t, is_Some (data (queue_ r) !! t) -> is_Some (data q' !! t).
Proof.
  intros (P & HP & Hrg). unfold get_ready_timers.
  destruct (get_ready_loop_spec now (S (length (heap_ (queue_ r)))) _ P [] HP) as (l & q' & -> & Hl & Hs & HP' & Hd); [lia|].
  exists (l ≫= fun p => p.2.2), q'. split; [done|]. split; [|split; [|done]].
  - eexists. split; [exact HP'|]. intros t x os Ht. apply map_lookup_filter_Some in Ht as [Ht _]. by apply (Hrg t x os).
  - rewrite (in_timers_waiting _ _ HP), (in_timers_waiting _ _ HP').
    by pose proof (spec_call_conserves _ _ _ _ (sc_ready now P l Hl Hs)) as Hc.
Qed.

(** The reactor's turn, with the service [i] as [do_run_one] leaves it *)
Lemma rx_run_spec block now later events i r :
  rx_inv r -> in_range now -> in_range later -> (forall p, p ∈ pointers events -> is_Some (states r !! p)) ->
  exists m out q' k, rx_run block now later events (with_io (fun _ => i) r)
      = Some (Ok (Reactor (with_private (private_queue i ++ (DescOp <$> pointers events) ++ (UserOp <$> out)) (private_work i) i)
          (timer_fd_ r) q' m (live_list_ r) (free_list_ r) (rx_shutdown_ r) k))
    /\ pool_inv m (live_list_ r) (free_list_ r) /\ in_states m ≡ₚ in_states (states r)
    /\ timers_ok q' /\ addrs_of out ++ in_timers q' ≡ₚ in_timers (queue_ r)
    /\ (forall p, is_Some (states r !! p) -> is_Some (m !! p))
    /\ forall t, is_Some (data (queue_ r) !! t) -> is_Some (data q' !! t).
Proof.
  intros Hr Hn Hl He. unfold rx_run. destruct r as [i0 tf q0 m0 live free sh k0]. set (r := Reactor _ _ _ _ _ _ _ _) in *.
  destruct (timeout_Ok block now (with_io (fun _ => i) r) (ri_timers _ Hr) Hn) as [u ->]. cbn [lift mbind partial_bind].
  set (r1 := with_kern (epoll_wait u (kern (with_io (fun _ => i) r))) (with_io (fun _ => i) r)).
  destruct (dispatch_events_spec events (negb (timer_fd_ r1)) [] r1 (ri_pool _ Hr) He) as (ct & m & -> & Hp & Hs & Hd).
  cbn [lift mbind partial_bind app]. destruct ct.
  - destruct (get_ready_ok later (with_states m r1) (ri_timers _ Hr)) as (out & q' & -> & Ht & Hperm & Hdt).
    cbn [mbind partial_bind fst snd].
    change (timer_fd_ _) with tf at 1. destruct tf.
    + match goal with |- context [get_timeout later ?x] => destruct (get_timeout_Ok later x Ht Hl) as [v ->] end.
      cbn [lift mbind partial_bind]. exists m, out, q'. eexists. by split_and!.
    + exists m, out, q'. eexists. by split_and!.
  - exists m, [], q0. eexists. rewrite app_nil_r. split_and!; try done. apply Hr.
Qed.

Lemma shape_task {A} (m : gmap Z A) l : queue_shape m (TaskOp :: l) -> Forall is_user l.
Proof.
  intros (pre & post & E & S1 & S2 & _). destruct pre as [|o pre]; [by injection E as ->|].
  injection E as <- _. destruct S1. by left.
Qed.

Lemma shape_tail {A} (m : gmap Z A) o l : o <> TaskOp -> queue_shape m (o :: l) ->
  queue_shape m l /\ forall p, o = DescOp p -> is_Some (m !! p).
Proof.
  intros Ho (pre & post & E & S1 & S2 & S3 & S4). destruct pre as [|o' pre]; [by injection E as -> _|]. injection E as <- ->.
  apply not_elem_of_cons in S1 as [_ S1]. split.
  - exists pre, post. split_and!; [done..| |]; destruct o as [|p|x]; cbn in S3, S4; try done.
    + by apply NoDup_cons in S3 as [_ S3].
    + intros q Hq. apply S4. by right.
  - intros p ->. apply S4. by left.
Qed.

Lemma descs_map l : descs (DescOp <$> l) = l.
Proof. induction l as [|p l IH]; [done|]. rewrite fmap_cons. cbn. f_equal. exact IH. Qed.

Lemma user_addrs_descs l : user_addrs (DescOp <$> l) = [].
Proof. by induction l. Qed.

Lemma task_round_ok block now later events rest b i r :
  rx_inv r -> in_handler (io r) = false -> in_range now -> in_range later -> NoDup (pointers events) ->
  (forall p, p ∈ pointers events -> is_Some (states r !! p)) -> io_queue_ (io r) = TaskOp :: rest ->
  i = with_interrupted b (with_queue rest (io r)) ->
  exists r1, rx_run block now later events (with_io (fun _ => i) r) = Some (Ok r1)
    /\ api_ok [] r (with_io task_cleanup r1).
Proof.
  intros Hr Hh Hn Hl Hnd He Eq ->. pose proof Hr as [A B C D E].
  destruct (rx_run_spec block now later events (with_interrupted b (with_queue rest (io r))) r Hr Hn Hl He)
    as (m & out & q' & k & -> & Hp & Hs & Ht & Hperm & Hdm & Hdt).
  eexists. split; [reflexivity|]. destruct (ok_outside _ _ A Hh) as [Epq Epw].
  assert (Htask : task_ (io r) = true).
  { pose proof (ok_queue _ _ A) as Hq. rewrite Eq in Hq. destruct (task_ (io r)); [done|].
    by apply Forall_cons in Hq as [[] _]. }
  pose proof (ok_queue _ _ A) as Hq. rewrite Htask, Eq in Hq. apply shape_task in Hq.
  set (r' := with_io task_cleanup _).
  assert (Hio : io_queue_ (io r') = (rest ++ (DescOp <$> pointers events) ++ (UserOp <$> out)) ++ [TaskOp]
    /\ private_queue (io r') = [] /\ private_work (io r') = 0 /\ outstanding_work_ (io r') = outstanding_work_ (io r)
    /\ in_handler (io r') = false /\ task_ (io r') = true).
  { subst r'. cbn. unfold task_cleanup. cbn. rewrite Epw, Epq. cbn. rewrite Htask, Hh. auto 10. }
  destruct Hio as (Eq' & Epq' & Epw' & Eo' & Eh' & Et').
  assert (Hpend : pending r' ≡ₚ pending r).
  { unfold pending. change (states r') with m. change (queue_ r') with q'. unfold ready. rewrite Eq', Epq', Eq, Epq, !app_nil_r.
    rewrite !user_addrs_app, user_addrs_descs, user_addrs_map, Hs, <- Hperm. cbn. rewrite app_nil_r. solve_Permutation. }
  split; [split|done|by rewrite Eh', Hh|done]; try done.
  - split.
    + rewrite Et', Eq'. eexists _, []. split; [reflexivity|]. rewrite !descs_app, (descs_user rest), descs_map, descs_user
        by (done || apply Forall_user). rewrite app_nil_r. cbn. split_and!; [|done|done|].
      * rewrite !elem_of_app, !list_elem_of_fmap. intros [Hx|[(x & Hx & _)|(x & Hx & _)]]; [|done..].
        by rewrite Forall_forall in Hq; apply Hq in Hx.
      * intros p Hx. apply Hdm. auto.
    + by rewrite Epq'.
    + by rewrite Epw'.
    + by rewrite Epq', Epw'.
  - rewrite Eh'. unfold total_work, vlen. rewrite Hpend, Eo', Epw'. pose proof B as Hw. rewrite Hh in Hw.
    unfold total_work, vlen in Hw. lia.
Qed.

Lemma perform_queue_addrs l : forall k,
  addrs_of (perform_queue l k).1.1 ++ addrs_of (perform_queue l k).1.2 = addrs_of l.
Proof.
  induction l as [|op l IH]; intros k; [done|]. cbn [perform_queue].
  destruct (perform (wo_addr op) k) as [[[] ec] k']; [|done]. specialize (IH k').
  destruct (perform_queue l k') as [[done_ rest] k'']. cbn [fst snd] in IH |- *.
  change (addrs_of (op :: l)) with (wo_addr op :: addrs_of l). by rewrite <- IH.
Qed.

Lemma perform_type_spec t ev d k done_ d' k' :
  perform_type t ev d k = (done_, d', k') ->
  addrs_of done_ ++ addrs_of (all_ops d') ≡ₚ addrs_of (all_ops d) /\ ds_shutdown_ d' = ds_shutdown_ d.
Proof.
  unfold perform_type. destruct (Z.land ev _ =? 0); [intros [= <- <- <-]; done|].
  pose proof (perform_queue_addrs (op_queue_of t d) k) as Hq. destruct (perform_queue _ _) as [[dn rest] k2].
  intros [= <- <- <-]. split; [|done]. cbn in Hq.
  pose proof (all_ops_set t rest d) as Ha. rewrite <- Hq in Ha.
  rewrite (app_assoc _ (addrs_of dn)), (Permutation_app_comm _ (addrs_of rest)) in Ha.
  apply Permutation_app_inv_l in Ha. by rewrite Permutation_app_comm.
Qed.

(** A ready descriptor's operations: those that are done, and those that stay *)
Lemma perform_io_spec p ev r d :
  states r !! p = Some d -> p <> 0 ->
  exists ops d' k, perform_io p ev r
      = Ok (match ops with
            | [] => (None, with_io work_started (with_kern k (state_set p d' r)))
            | o :: rest => (Some o, with_io (post_deferred_completions (UserOp <$> rest)) (with_kern k (state_set p d' r)))
            end)
    /\ addrs_of ops ++ addrs_of (all_ops d') ≡ₚ addrs_of (all_ops d) /\ ds_shutdown_ d' = ds_shutdown_ d.
Proof.
  intros Hd Hp. unfold perform_io, state_get. rewrite (proj2 (Z.eqb_neq _ _) Hp), Hd. cbn [mbind outcome_bind].
  destruct (perform_type except_op ev d (kern r)) as [[ops2 d2] k2] eqn:E2.
  destruct (perform_type write_op ev d2 k2) as [[ops1 d1] k1] eqn:E1.
  destruct (perform_type read_op ev d1 k1) as [[ops0 d0] k0] eqn:E0.
  apply perform_type_spec in E2 as [P2 S2], E1 as [P1 S1], E0 as [P0 S0].
  exists (ops2 ++ ops1 ++ ops0), d0, k0. split; [by destruct (ops2 ++ ops1 ++ ops0)|]. split; [|congruence].
  unfold addrs_of. rewrite !fmap_app. fold (addrs_of ops2) (addrs_of ops1) (addrs_of ops0) (addrs_of (all_ops d0)).
  rewrite <- P2, <- P1, <- P0. solve_Permutation.
Qed.

Lemma work_finished_same i :
  let i' := work_finished i in
  io_queue_ i' = io_queue_ i /\ private_queue i' = private_queue i /\ outstanding_work_ i' = outstanding_work_ i - 1
  /\ in_handler i' = in_handler i /\ task_ i' = task_ i /\ private_work i' = private_work i
  /\ stopped_ i' = stopped_ i || (outstanding_work_ i - 1 =? 0).
Proof.
  unfold work_finished. cbn [outstanding_work_ with_work]. destruct (_ - 1 =? 0).
  - destruct (wake_same (set_stopped true (with_work (outstanding_work_ i - 1) i))) as (A & B & C & D & E & F & G).
    unfold io_stop. rewrite A, B, C, D, E, F, G, orb_true_r. done.
  - by rewrite orb_false_r.
Qed.

(** The end of a handler: its own work is finished, and the service stops when
    nothing is left. *)
Lemma work_cleanup_spec {A} (m : gmap Z A) i :
  io_ok m i -> in_handler i = true ->
  let i' := work_cleanup i in
  io_ok m i' /\ in_handler i' = false /\ total_work i' = total_work i - 1 /\ ready i' ≡ₚ ready i
  /\ stopped_ i' = stopped_ i || ((private_work i <? 1) && (total_work i' =? 0)).
Proof.
  intros [Hq Hp Hw Ho] Hh. unfold work_cleanup.
  set (i1 := if 1 <? private_work i then _ else _).
  assert (Hi1 : io_queue_ i1 = io_queue_ i /\ private_queue i1 = private_queue i /\ task_ i1 = task_ i
    /\ outstanding_work_ i1 = total_work i - 1
    /\ stopped_ i1 = stopped_ i || ((private_work i <? 1) && (total_work i - 1 =? 0))).
  { subst i1. unfold total_work. destruct (Z.ltb_spec 1 (private_work i)) as [Hl|Hl].
    - cbn. rewrite (proj2 (Z.ltb_ge _ 1)), orb_false_r by lia. split_and!; try done. lia.
    - destruct (Z.ltb_spec (private_work i) 1).
      + destruct (work_finished_same i) as (X1 & X2 & X3 & X4 & X5 & X6 & X7).
        replace (private_work i) with 0 by lia. rewrite X1, X2, X3, X5, X7, Z.add_0_r. auto.
      + rewrite orb_false_r. split_and!; try done. lia. }
  destruct Hi1 as (X1 & X2 & X3 & X4 & X5). cbv zeta. set (i' := push_ops _ _).
  assert (Et : total_work i' = total_work i - 1) by (unfold total_work at 1; cbn; lia).
  rewrite Et. split_and!; [|done|done| |cbn; by rewrite X5].
  - split; cbn; [|constructor|done|done].
    rewrite X3, X1, X2. destruct (task_ i); [by apply shape_push|by apply Forall_app].
  - unfold ready. cbn. by rewrite X1, X2, app_nil_r.
Qed.

(** ** The invariant of the system *)
Record inv (s : system) : Prop := {
  in_rx : rx_inv (rx s);
  in_conserved : started s ≡ₚ completed s ++ pending (rx s);
  in_nodup : NoDup (started s)
}.

Lemma inv_api s op r' :
  inv s -> wo_addr op ∉ started s -> api_ok [wo_addr op] (rx s) r' -> inv (with_rx r' (starts op s)).
Proof.
  intros [A B C] Hop [D E F G]. split; [done| |].
  - cbn. rewrite B, E. solve_Permutation.
  - cbn. apply NoDup_app. split_and!; [done| |apply NoDup_singleton]. set_solver.
Qed.

Lemma inv_silent s r' : inv s -> api_ok [] (rx s) r' -> inv (with_rx r' s).
Proof. intros [A B C] [D E F G]. split; [done| |done]. cbn. by rewrite B, E. Qed.

(** The start of an operation: [o] leaves the queue. *)
Lemma next_ok r o rest (b : bool) :
  rx_inv r -> in_handler (io r) = false -> io_queue_ (io r) = o :: rest -> o <> TaskOp ->
  let i := with_handler true (if b then wake_one_thread (with_queue rest (io r)) else with_queue rest (io r)) in
  io_ok (states r) i /\ user_addrs [o] ++ ready i = ready (io r) /\ total_work i = total_work (io r)
  /\ in_handler i = true /\ private_work i = 0 /\ stopped_ i = stopped_ (io r).
Proof.
  intros Hr Hh Eq Ho. pose proof Hr as [A B C D E]. destruct (ok_outside _ _ A Hh) as [Epq Epw].
  set (j := if b then _ else _).
  assert (Hj : io_queue_ j = rest /\ private_queue j = [] /\ outstanding_work_ j = outstanding_work_ (io r)
    /\ task_ j = task_ (io r) /\ private_work j = 0 /\ stopped_ j = stopped_ (io r)).
  { subst j. destruct b; [|auto 10]. destruct (wake_same (with_queue rest (io r))) as (X1 & X2 & X3 & X4 & X5 & X6 & X7).
    rewrite X1, X2, X3, X5, X6, X7. auto 10. }
  destruct Hj as (X1 & X2 & X3 & X4 & X5 & X6). cbn. unfold ready, total_work. cbn.
  rewrite X1, X2, X3, X5, X6, Eq, Epq, Epw, !app_nil_r. split_and!; try done.
  - split; cbn; [|by rewrite X2|by rewrite X2, X5|done]. rewrite X4, X1. pose proof (ok_queue _ _ A) as Hq. rewrite Eq in Hq.
    destruct (task_ (io r)); [by apply (shape_tail _ o)|by apply Forall_cons in Hq as [_ Hq]].
Qed.

Lemma user_round_ok s o rest (b : bool) :
  inv s -> in_handler (io (rx s)) = false -> io_queue_ (io (rx s)) = UserOp o :: rest ->
  let i := with_handler true (if b then wake_one_thread (with_queue rest (io (rx s))) else with_queue rest (io (rx s))) in
  inv (completes o (with_rx (with_io (fun _ => i) (rx s)) s)).
Proof.
  intros [Hr Hc Hn] Hh Eq i. destruct (next_ok (rx s) (UserOp o) rest b Hr Hh Eq) as (X1 & X2 & X3 & X4 & X5 & _); [done|].
  fold i in X1, X2, X3, X4, X5. pose proof Hr as [A B C D E].
  assert (Hp : pending (rx s) = wo_addr o :: pending (with_io (fun _ => i) (rx s))).
  { unfold pending. cbn [io with_io states queue_]. rewrite <- X2. done. }
  split; [split; try done|cbn; rewrite Hc, Hp; solve_Permutation|done].
  cbn [with_rx completes rx io with_io]. rewrite X3, X4, B, Hh, Hp. unfold vlen. cbn [length]. lia.
Qed.

Lemma desc_round_ok s p rest (b : bool) :
  inv s -> in_handler (io (rx s)) = false -> io_queue_ (io (rx s)) = DescOp p :: rest ->
  let i := with_handler true (if b then wake_one_thread (with_queue rest (io (rx s))) else with_queue rest (io (rx s))) in
  exists first r', state_complete p (with_io (fun _ => i) (rx s)) = Ok (first, r')
    /\ inv (match first with
            | Some o => completes o (with_rx r' s)
            | None => with_rx (with_io work_cleanup r') s
            end).
Proof.
  intros [Hr Hc Hn] Hh Eq i. destruct (next_ok (rx s) (DescOp p) rest b Hr Hh Eq) as (X1 & X2 & X3 & X4 & X5 & _); [done|].
  fold i in X1, X2, X3, X4, X5. pose proof Hr as [A B C D E]. cbn [user_addrs app mbind list_bind] in X2.
  assert (Hd : is_Some (states (rx s) !! p)).
  { pose proof (ok_queue _ _ A) as Hq. rewrite Eq in Hq. destruct (task_ (io (rx s))).
    - by apply (shape_tail _ (DescOp p)) in Hq as [_ Hq]; [apply Hq|].
    - by apply Forall_cons in Hq as [[] _]. }
  destruct Hd as [d Hd]. assert (Hp0 : p <> 0) by (by apply (pi_state _ _ _ C p d)).
  set (r1 := with_io (fun _ => i) (rx s)). unfold state_complete, state_get.
  rewrite (proj2 (Z.eqb_neq _ _) Hp0). change (states r1) with (states (rx s)). rewrite Hd. cbn [mbind outcome_bind].
  destruct (perform_io_spec p (task_result_ d) r1 d Hd Hp0) as (ops & d' & k & -> & Hperm & Hs).
  assert (Hpool : pool_inv (<[p := d']> (states (rx s))) (live_list_ (rx s)) (free_list_ (rx s))).
  { eapply pool_update; [done..|]. rewrite Hs. intros Hsd. rewrite (proj2 (pi_state _ _ _ C p d Hd) Hsd) in Hperm.
    cbn in Hperm. symmetry in Hperm. apply Permutation_nil_l in Hperm.
    symmetry in Hperm. apply app_eq_nil in Hperm as [_ Hnil].
    by apply fmap_nil_inv in Hnil. }
  assert (Hstates : addrs_of ops ++ in_states (<[p := d']> (states (rx s))) ≡ₚ in_states (states (rx s))).
  { pose proof (in_states_insert _ p d d' Hd) as Hi. rewrite <- Hperm, <- app_assoc in Hi.
    rewrite (Permutation_app_comm (addrs_of ops)), <- app_assoc in Hi. apply Permutation_app_inv_l in Hi.
    by rewrite Permutation_app_comm. }
  assert (Hdom : forall x, is_Some (states (rx s) !! x) -> is_Some (<[p := d']> (states (rx s)) !! x)).
  { intros x Hx. apply lookup_insert_is_Some'. auto. }
  destruct ops as [|o ops]; eexists _, _; (split; [reflexivity|]).
  - assert (Hio : io_ok (<[p := d']> (states (rx s))) (work_started i)) by (by eapply io_ext_ok; [|apply work_started_ext|]).
    destruct (work_cleanup_spec _ (work_started i) Hio X4) as (W1 & W2 & W3 & W4 & _).
    set (r' := with_io work_cleanup _). assert (Hp : pending r' ≡ₚ pending (rx s)).
    { unfold pending. change (io r') with (work_cleanup (work_started i)). rewrite W4. change (ready (work_started i)) with (ready i).
      rewrite X2. cbn. by rewrite <- Hstates. }
    split; [split; try done|change (started s ≡ₚ completed s ++ pending r'); by rewrite Hc, Hp|done]. cbn [with_rx rx].
    change (io r') with (work_cleanup (work_started i)). rewrite W2, W3. unfold vlen. rewrite Hp.
    change (total_work (work_started i)) with (outstanding_work_ i + 1 + private_work i).
    unfold total_work in X3 at 1. rewrite Hh in B. unfold vlen in B. lia.
  - pose proof (post_deferred_ext ops i) as Hext.
    assert (Hio : io_ok (<[p := d']> (states (rx s))) (post_deferred_completions (UserOp <$> ops) i))
      by exact (io_ext_ok _ _ _ _ _ _ X1 Hext Hdom).
    set (r' := with_io (post_deferred_completions _) _).
    assert (Hp : pending (rx s) ≡ₚ wo_addr o :: pending r').
    { unfold pending. change (io r') with (post_deferred_completions (UserOp <$> ops) i). rewrite (io_ext_ready _ _ _ _ Hext), X2.
      cbn. rewrite <- Hstates. change (addrs_of (o :: ops)) with (wo_addr o :: addrs_of ops). solve_Permutation. }
    split; [split; try done|change (started s ≡ₚ (completed s ++ [wo_addr o]) ++ pending r'); rewrite Hc, Hp; solve_Permutation|done].
    cbn [with_rx completes rx].
    change (io r') with (post_deferred_completions (UserOp <$> ops) i).
    rewrite (ext_work _ _ _ _ Hext), (ext_handler _ _ _ _ Hext), X3, X4, B, Hh. unfold vlen. rewrite Hp. cbn [length]. lia.
Qed.

Lemma return_ok s : inv s -> in_handler (io (rx s)) = true ->
  inv (with_rx (with_io work_cleanup (rx s)) s)
  /\ stopped_ (work_cleanup (io (rx s))) = stopped_ (io (rx s)) || bool_decide (pending (with_io work_cleanup (rx s)) = []).
Proof.
  intros [Hr Hc Hn] Hh. pose proof Hr as [A B C D E].
  destruct (work_cleanup_spec _ (io (rx s)) A Hh) as (W1 & W2 & W3 & W4 & W5).
  assert (Hp : pending (with_io work_cleanup (rx s)) ≡ₚ pending (rx s)).
  { unfold pending. cbn [io with_io states queue_]. by rewrite W4. }
  assert (Hw : total_work (work_cleanup (io (rx s))) = vlen (pending (with_io work_cleanup (rx s)))).
  { rewrite W3, B, Hh. unfold vlen. rewrite Hp. lia. }
  split.
  { split; [split; try done|cbn; by rewrite Hc, Hp|done]. cbn [with_rx rx io with_io]. rewrite W2, Hw. lia. }
  rewrite W5, Hw. f_equal. set (l := pending (with_io work_cleanup (rx s))) in *. clearbody l.
  assert (Hz : (vlen l =? 0) = bool_decide (l = [])).
  { unfold vlen. destruct l; [done|]. rewrite bool_decide_eq_false_2 by done. by apply Z.eqb_neq. }
  rewrite Hz. destruct (Z.ltb_spec (private_work (io (rx s))) 1) as [Hl|Hl]; [done|]. cbn. symmetry.
  apply bool_decide_eq_false_2. intros Hnil. rewrite Hnil in Hp. apply Permutation_nil_l in Hp.
  destruct A as [_ Hpu [_ Hpw] _]. unfold pending, ready in Hp. symmetry in Hp.
  apply app_eq_nil in Hp as [Hp _]. rewrite user_addrs_app in Hp. apply app_eq_nil in Hp as [_ Hp].
  destruct (private_queue (io (rx s))) as [|[|x|o] pq]; [unfold vlen in Hpw; cbn in Hpw; lia|..|done];
    by apply Forall_cons in Hpu as [[] _].
Qed.

(** ** The theorems *)
Lemma init_task_cases i :
  init_task i = i \/
  task_ i = false /\ let i' := init_task i in
    io_queue_ i' = io_queue_ i ++ [TaskOp] /\ private_queue i' = private_queue i /\ task_ i' = true
    /\ outstanding_work_ i' = outstanding_work_ i /\ in_handler i' = in_handler i /\ private_work i' = private_work i.
Proof.
  unfold init_task. destruct (io_shutdown_ i), (task_ i) eqn:Et; cbn [negb andb]; try by left. right. split; [done|].
  cbv zeta. set (j := push_ops _ _). destruct (wake_same j) as (X1 & X2 & X3 & X4 & X5 & X6 & _).
  rewrite X1, X2, X3, X4, X5, X6. done.
Qed.

Lemma init_task_ok r : rx_inv r -> api_ok [] r (with_io init_task r).
Proof.
  intros Hr. pose proof Hr as [A B C D E].
  destruct (init_task_cases (io r)) as [Ei|(Et & X1 & X2 & X3 & X4 & X5 & X6)].
  - assert (Es : with_io init_task r = r) by (destruct r; unfold with_io in *; cbn in *; by rewrite Ei).
    rewrite Es. by split.
  - assert (Hrdy : ready (init_task (io r)) = ready (io r)).
    { unfold ready. by rewrite X1, X2, !user_addrs_app, app_nil_r. }
    assert (Hp : pending (with_io init_task r) = pending r) by (unfold pending; cbn [with_io io states queue_]; by rewrite Hrdy).
    destruct A as [Aq Ap Aw Ao]. rewrite Et in Aq.
    split; [split; try done|by rewrite Hp|done|done]; cbn [with_io io states].
    + split; rewrite ?X2, ?X3, ?X5, ?X6; try done. rewrite X1. exists (io_queue_ (io r)), [].
      rewrite (descs_user _ Aq). split_and!; [done| |done|constructor|by intros p Hp0%elem_of_nil].
      intros Hin. rewrite Forall_forall in Aq. by apply Aq in Hin.
    + rewrite Hp, X5. unfold total_work. rewrite X4, X6. exact B.
Qed.

Lemma run_one_ok now later events s :
  inv s -> allowed (RunOne now later events) s -> exists s', exec (RunOne now later events) s = Some (Ok s') /\ inv s'.
Proof.
  intros Hi (Hh & Hn & Hl & Hnd & He). rewrite Forall_forall in He. pose proof Hi as [Hr Hc Hd]. cbn [exec]. unfold do_run_one.
  destruct (stopped_ (io (rx s))); [eauto|]. destruct (io_queue_ (io (rx s))) as [|o rest] eqn:Eq; [eauto|].
  set (more := match rest with [] => false | _ => true end). destruct o as [|p|o].
  - destruct (task_round_ok (negb more) now later events rest more _ (rx s) Hr Hh Hn Hl Hnd He Eq eq_refl) as (r1 & E & Ha).
    rewrite E. cbn [mbind partial_bind]. eexists. split; [reflexivity|]. by apply inv_silent.
  - destruct (desc_round_ok s p rest (more && negb (one_thread_ (with_queue rest (io (rx s))))) Hi Hh Eq)
      as (first & r' & E & Hi').
    rewrite E. cbn [lift mbind partial_bind fst snd]. destruct first; eauto.
  - eexists. split; [reflexivity|]. by eapply user_round_ok.
Qed.

Lemma exec_ok c s : inv s -> allowed c s -> exists s', exec c s = Some (Ok s') /\ inv s'.
Proof.
  intros Hi Ha. pose proof Hi as [Hr Hc Hd].
  destruct c as [|fresh fd|t fd p op cont spec|p|fd p closing|now time t op|t max|op cont|op| | |now events| |f];
    [..|by apply run_one_ok| |]; cbn [exec].
  - eexists. split; [reflexivity|]. by apply inv_silent, init_task_ok.
  - destruct Ha as [Hf0 Hf]. destruct (register_ok fresh fd _ Hr Hf0 Hf) as (e & p & r' & -> & Ha & _).
    eexists. split; [reflexivity|]. by apply inv_silent.
  - destruct Ha as [Hp Hop]. destruct (start_op_ok t fd p op cont spec _ Hr Hp) as (r' & -> & Ha).
    eexists. split; [reflexivity|]. by apply inv_api.
  - destruct (cancel_ops_ok p _ Hr Ha) as (r' & -> & Hr'). eexists. split; [reflexivity|]. by apply inv_silent.
  - destruct (deregister_ok fd p closing _ Hr Ha) as (r' & p' & -> & Hr' & _).
    eexists. split; [reflexivity|]. by apply inv_silent.
  - destruct Ha as ([Ht0 Ht] & Hop & Hn & Htm).
    destruct (schedule_ok now time t op _ Hr Ht0 Ht Hn Htm) as (r' & -> & Ha).
    eexists. split; [reflexivity|]. by apply inv_api.
  - destruct Ha as [[Ht0 Ht] Hm]. destruct (rx_cancel_timer_ok t max _ Hr Ht0 Ht Hm) as (r' & n & -> & Ha).
    eexists. split; [reflexivity|]. by apply inv_silent.
  - eexists. split; [reflexivity|]. by apply inv_api, post_ok.
  - eexists. split; [reflexivity|]. apply inv_api; [done..|]. by apply (api_io _ 1); [|apply do_dispatch_ext|].
  - eexists. split; [reflexivity|]. apply inv_silent; [done|]. by apply (api_io [] 0); [|apply io_stop_ext|].
  - eexists. split; [reflexivity|]. apply inv_silent; [done|]. by apply (api_io [] 0); [|apply io_ext_flags|].
  - eexists. split; [reflexivity|]. by apply return_ok.
  - eexists. split; [reflexivity|]. apply inv_silent; [done|]. apply (api_kern (f (kern (rx s)))).
    destruct (rx_inv_kern (f (kern (rx s))) (rx s) Hr). by split.
Qed.

Lemma new_inv m hint tf k : fresh_timers m -> inv (system_new m hint tf k).
Proof.
  intros Hm. pose proof (queue_represents_new m Hm) as Hrep.
  assert (Hp : pending (reactor_new m hint tf k) = []).
  { unfold pending. cbn. symmetry. apply Permutation_nil_l. symmetry. rewrite (in_timers_waiting _ ∅); [|exact Hrep].
    unfold waiting. by rewrite map_to_list_empty. }
  split; cbn [system_new rx started completed]; [split| |constructor].
  - split; cbn; [constructor|constructor|done|done].
  - by rewrite Hp.
  - split; cbn; [|..|constructor].
    + intros p d. by rewrite lookup_empty.
    + intros p Hp'. by apply elem_of_nil in Hp'.
    + intros p Hp'. by apply elem_of_nil in Hp'.
  - exists ∅. split; [exact Hrep|]. intros t x os. by rewrite lookup_empty.
  - done.
  - by rewrite Hp.
Qed.

Lemma run_calls_ok cs : forall s, inv s -> calls_allowed cs s -> exists s', run_calls cs s = Some (Ok s') /\ inv s'.
Proof.
  induction cs as [|c cs IH]; intros s Hi Hc; cbn [run_calls]; [eauto|].
  destruct Hc as [Hc Hcs]. destruct (exec_ok c s Hi Hc) as (s1 & E & Hi1). rewrite E. cbn [mbind partial_bind].
  by apply IH; [|apply Hcs].
Qed.

End Loop.
Arguments system : clear implicits.
Arguments call : clear implicits.

(** C19. Whatever calls a client makes between the rounds of the loop and in its
    handlers: no call fails, follows a bad pointer or runs out of fuel; every
    operation that was started has been completed exactly once or is pending in
    exactly one place; the outstanding work is the number of pending operations,
    and one more while a handler runs. *)
Theorem operations_complete_once {T} `{Time_TraitsLaws T} `{!Time_Range T} {K} `{EpollKernel K}
    (m : gmap Z per_timer_data) hint tf (k : K) (cs : list (call T K)) :
  fresh_timers m -> calls_allowed cs (system_new m hint tf k) ->
  exists s, run_calls cs (system_new m hint tf k) = Some (Ok s) /\
    NoDup (completed s ++ pending (rx s)) /\ started s ≡ₚ completed s ++ pending (rx s) /\
    total_work (io (rx s)) = vlen (pending (rx s)) + (if in_handler (io (rx s)) then 1 else 0) /\
    (task_ (io (rx s)) = true -> queue_shape (states (rx s)) (io_queue_ (io (rx s)))).
Proof.
  intros Hm Hc. destruct (run_calls_ok cs _ (new_inv m hint tf k Hm) Hc) as (s & E & [Hr Hcons Hn]).
  exists s. split_and!; [done|by rewrite <- Hcons|done|apply Hr|].
  intros Ht. pose proof (ok_queue _ _ (ri_io _ Hr)) as Hq. by rewrite Ht in Hq.
Qed.

(** C20. The end of a handler stops the service exactly when no operation is pending
    any more. *)
Theorem service_stops {T} `{Time_TraitsLaws T} `{!Time_Range T} {K} `{EpollKernel K}
    (m : gmap Z per_timer_data) hint tf (k : K) (cs : list (call T K)) s :
  fresh_timers m -> calls_allowed cs (system_new m hint tf k) ->
  run_calls cs (system_new m hint tf k) = Some (Ok s) ->
  stopped_ (io (rx s)) = false -> in_handler (io (rx s)) = true ->
  exists s', exec Return s = Some (Ok s') /\ started s' ≡ₚ completed s' ++ pending (rx s') /\
    (stopped_ (io (rx s')) = true <-> pending (rx s') = []) /\
    (stopped_ (io (rx s')) = true <-> forall a, a ∈ started s' -> a ∈ completed s').
Proof.
  intros Hm Hc E Hs Hh. destruct (run_calls_ok cs _ (new_inv m hint tf k Hm) Hc) as (s2 & E2 & Hi).
  rewrite E in E2. injection E2 as <-. destruct (return_ok s Hi Hh) as [Hi' Hstop]. pose proof Hi' as [Hr' Hc' Hn'].
  eexists. split; [reflexivity|]. cbn [with_rx rx io with_io] in *. rewrite Hs in Hstop. cbn [orb] in Hstop.
  assert (Hiff : stopped_ (work_cleanup (io (rx s))) = true <-> pending (with_io work_cleanup (rx s)) = [])
    by (rewrite Hstop; apply bool_decide_eq_true).
  split_and!; [done|done|]. rewrite Hiff. cbn [started completed] in *. split.
  - intros Hp a Ha. rewrite Hc', Hp, app_nil_r in Ha. done.
  - intros Hall. destruct (pending _) as [|a l] eqn:Ep; [done|]. exfalso.
    assert (Ha : a ∈ started s) by (rewrite Hc'; apply elem_of_app; right; by left).
    rewrite Hc' in Hn'. apply NoDup_app in Hn' as (_ & Hdis & _). apply (Hdis a (Hall a Ha)). by left.
Qed.

(** ** A run *)
#[export] Program Instance chrono_range : Time_Range Z := {| in_range := in_i64 |}.
Next Obligation.
  intros a b Ha Hb. cbn [subtract chrono_time_traits]. rewrite chrono_subtract_saturates by done.
  unfold to_wait_duration. cbn [fmap outcome_fmap]. eexists _, _, _. split; [reflexivity|].
  destruct (chrono_casts _ (saturate_range (a - b))) as [Hm Hu]. split; [exact Hu|exact Hm].
Qed.

(** A kernel that says of each operation whether it is done *)
#[export] Instance list_kernel : EpollKernel (list bool) := {|
  epoll_ctl _ _ _ _ k := (0, k);
  timerfd_settime _ k := k;
  epoll_wait _ k := k;
  perform _ k := match k with b :: k' => (b, error_code_new, k') | [] => (false, try_again, []) end
|}.

Definition sample_loop : list (call Z (list bool)) :=
  [InitTask; Register 5000 7; StartOp read_op 7 5000 (op_at 1) false true; Schedule 0 90000 100 (op_at 2);
   RunOne 50000 50000 [FromInterrupter; FromState 5000 EPOLLIN]; RunOne 50000 50000 [];
   StartOp write_op 7 5000 (op_at 3) true true; Deregister 7 5000 true; Return; RunOne 60000 60000 []; RunOne 60000 60000 []; Return; RunOne 99000 99000 [FromTimer]; RunOne 99000 99000 []].
Definition sample_start : system Z (list bool) := system_new sample_timers 0 true [false; true; false].
Definition sample_end : system Z (list bool) :=
  match run_calls sample_loop sample_start with Some (Ok s) => s | _ => sample_start end.

#[export] Instance chrono_range_dec (x : Z) : Decision (in_range x).
Proof. unfold in_range, chrono_range, in_i64. apply _. Defined.

Lemma sample_allowed : calls_allowed sample_loop sample_start.
Proof. apply check_calls_sound. vm_compute. reflexivity. Qed.

Lemma operations_complete_once_witness :
  exists s, run_calls sample_loop sample_start = Some (Ok s) /\ completed s = [1; 3; 2] /\
    NoDup (completed s ++ pending (rx s)) /\ started s ≡ₚ completed s ++ pending (rx s).
Proof.
  destruct (operations_complete_once sample_timers 0 true [false; true; false] sample_loop)
    as (s & E & Hn & Hc & _); [apply sample_fresh|apply sample_allowed|].
  exists s. split; [exact E|]. split; [|by split].
  assert (Ec : match run_calls sample_loop sample_start with Some (Ok s) => completed s | _ => [] end = [1; 3; 2])
    by (vm_compute; reflexivity).
  unfold sample_start in Ec. by rewrite E in Ec.
Defined.

Lemma service_stops_witness :
  stopped_ (io (rx sample_end)) = false /\
  exists s', exec Return sample_end = Some (Ok s') /\ started s' ≡ₚ completed s' ++ pending (rx s') /\
    stopped_ (io (rx s')) = true.
Proof.
  split; [vm_compute; reflexivity|].
  destruct (service_stops sample_timers 0 true [false; true; false] sample_loop sample_end)
    as (s' & E & Hc & Hs & _); [apply sample_fresh|apply sample_allowed|vm_compute; reflexivity..|].
  exists s'. split; [exact E|]. split; [exact Hc|].
  assert (Eo : match exec Return sample_end with Some (Ok s) => stopped_ (io (rx s)) | _ => false end = true)
    by (vm_compute; reflexivity).
  by rewrite E in Eo.
Defined.
