(* ===== verification/Eventorder.v ===== *)
(** * The order of operations on a descriptor

    The queues of a descriptor are first in, first out: operations of one type on
    one descriptor finish in the order in which they were started, whatever the
    kernel says, whatever is cancelled in between, and also when a new operation is
    tried before it is queued.  [logged] is a kernel that writes down which
    operations it has finished. *)
From S2P Require Import Prelude Socketops Timetraits Binheap Timerqueue Timers Ioservice Epoll Eventloop.
#[local] Open Scope Z_scope.

#[export] Instance op_type_eq_dec : EqDecision op_type.
Proof. solve_decision. Defined.

(** ** Queues and a log, without the loop

    [S]: the operations that were started, [Q]: those that wait, by descriptor and
    type. *)
Definition by_queue : Type := Z -> op_type -> list Z.
Definition in_order (S : by_queue) (log : list Z) (Q : by_queue) : Prop :=
  (forall p t p' t' a, a ∈ S p t -> a ∈ S p' t' -> p = p' /\ t = t') /\
  (forall p t, filter (fun a => a ∈ S p t) log ++ Q p t `sublist_of` S p t).
Definition start_at (p : Z) (t : op_type) (a : Z) (S : by_queue) : by_queue :=
  fun p' t' => if decide (p' = p /\ t' = t) then S p' t' ++ [a] else S p' t'.

Lemma in_order_weaken S log Q Q' : in_order S log Q -> (forall p t, Q' p t `sublist_of` Q p t) -> in_order S log Q'.
Proof.
  intros [Ha Ho] HQ. split; [done|]. intros p t. etrans; [|apply Ho]. apply sublist_app; [done|apply HQ].
Qed.

Lemma filter_none (P : Z -> Prop) `{forall x, Decision (P x)} (l : list Z) : (forall x, x ∈ l -> ~ P x) -> filter P l = [].
Proof.
  induction l as [|x l IH]; intros Hl; [done|]. rewrite filter_cons_False by (apply Hl; by left).
  apply IH. intros y Hy. apply Hl. by right.
Qed.

Lemma filter_all (P : Z -> Prop) `{forall x, Decision (P x)} (l : list Z) : (forall x, x ∈ l -> P x) -> filter P l = l.
Proof.
  induction l as [|x l IH]; intros Hl; [done|]. rewrite filter_cons_True by (apply Hl; by left).
  f_equal. apply IH. intros y Hy. apply Hl. by right.
Qed.

(** The first operations of a queue finish. *)
Lemma in_order_finish S log Q Q' p t l : in_order S log Q -> Q p t = l ++ Q' p t ->
  (forall p' t', ~ (p' = p /\ t' = t) -> Q' p' t' = Q p' t') -> in_order S (log ++ l) Q'.
Proof.
  intros [Ha Ho] Hl Hother. split; [done|]. intros p' t'. rewrite filter_app.
  assert (forall x, x ∈ l -> x ∈ S p t) as Hin.
  { intros x Hx. eapply elem_of_sublist; [|apply Ho]. rewrite Hl, !elem_of_app. auto. }
  destruct (decide (p' = p /\ t' = t)) as [[-> ->]|Hne].
  - rewrite (filter_all _ l) by done. rewrite <- app_assoc, <- Hl. apply Ho.
  - rewrite (filter_none _ l); [rewrite app_nil_r, Hother by done; apply Ho|].
    intros x Hx Hx'. apply Hne. destruct (Ha p t p' t' x); auto.
Qed.

(** A new operation is put at the end of its queue. *)
Lemma in_order_start S log Q p t a : in_order S log Q -> (forall p' t', a ∉ S p' t') -> a ∉ log ->
  in_order (start_at p t a S) log (start_at p t a Q).
Proof.
  intros [Ha Ho] HS Hlog. unfold start_at. split.
  - intros p1 t1 p2 t2 x. case_decide as D1; case_decide as D2; rewrite ?elem_of_app, ?list_elem_of_singleton;
      [destruct D1, D2; subst; auto| | |apply Ha].
    + destruct D1 as [-> ->]. intros [H1| ->] H2; [by eapply Ha|by apply HS in H2].
    + destruct D2 as [-> ->]. intros H1 [H2| ->]; [by eapply Ha|by apply HS in H1].
  - intros p1 t1. case_decide as D; [|apply Ho]. destruct D as [-> ->].
    assert (filter (fun x => x ∈ S p t ++ [a]) log = filter (fun x => x ∈ S p t) log) as ->.
    { clear Ho. induction log as [|x log IH]; [done|].
      apply not_elem_of_cons in Hlog as [Hx Hlog]. specialize (IH Hlog). rewrite !filter_cons.
      destruct (decide (x ∈ S p t ++ [a])) as [Hin|Hin]; destruct (decide (x ∈ S p t)) as [Hin'|Hin'].
      - by rewrite IH.
      - exfalso. apply elem_of_app in Hin as [Hin| ->%list_elem_of_singleton]; done.
      - exfalso. apply Hin, elem_of_app. by left.
      - done. }
    rewrite app_assoc. by apply sublist_app.
Qed.

(** ** Kernels that write down which operations they have finished *)
Class FinishLog (K : Type) `{EpollKernel K} := {
  finished_ops : K -> list Z;
  log_ctl c d e p k : finished_ops (epoll_ctl c d e p k).2 = finished_ops k;
  log_settime t k : finished_ops (timerfd_settime t k) = finished_ops k;
  log_wait t k : finished_ops (epoll_wait t k) = finished_ops k;
  log_perform a k : finished_ops (perform a k).2 = finished_ops k ++ (if (perform a k).1.1 then [a] else [])
}.

(** Every kernel can be watched. *)
Record logged (K : Type) := Logged { lg_kernel : K; lg_finished : list Z }.
Arguments Logged {K}.
Arguments lg_kernel {K}.
Arguments lg_finished {K}.

#[export] Instance logged_kernel {K} `{EpollKernel K} : EpollKernel (logged K) := {|
  epoll_ctl c d e p k := let '(r, k') := epoll_ctl c d e p (lg_kernel k) in (r, Logged k' (lg_finished k));
  timerfd_settime t k := Logged (timerfd_settime t (lg_kernel k)) (lg_finished k);
  epoll_wait t k := Logged (epoll_wait t (lg_kernel k)) (lg_finished k);
  perform a k :=
    let '(finished, ec, k') := perform a (lg_kernel k) in
    (finished, ec, Logged k' (if (finished : bool) then lg_finished k ++ [a] else lg_finished k))
|}.
#[export] Program Instance logged_log {K} `{EpollKernel K} : FinishLog (logged K) := {| finished_ops := lg_finished |}.
Next Obligation. intros. cbn. by destruct (epoll_ctl _ _ _ _ _). Qed.
Next Obligation. done. Qed.
Next Obligation. done. Qed.
Next Obligation. intros. cbn. destruct (perform _ _) as [[[] ec] k']; cbn; by rewrite ?app_nil_r. Qed.

(** The operations of a type that were started on a descriptor, in order *)
Definition started_at {T K} (p : Z) (t : op_type) (cs : list (call T K)) : list Z :=
  omap (fun c => match c with
                 | StartOp t' _ p' op _ _ => if decide (p = p' /\ t = t') then Some (wo_addr op) else None
                 | _ => None
                 end) cs.

Lemma omap_app {A B} (f : A -> option B) l k : omap f (l ++ k) = omap f l ++ omap f k.
Proof. induction l as [|x l IH]; [done|]. cbn. destruct (f x); cbn; by rewrite IH. Qed.

Section Order.
Context {T : Type} `{Time_TraitsLaws T} `{!Time_Range T} {K : Type} `{FinishLog K}.
Implicit Types (r : reactor T K).

Lemma ctl_log c d e p (k : K) result k' : epoll_ctl c d e p k = (result, k') -> finished_ops k' = finished_ops k.
Proof. intros E. pose proof (log_ctl c d e p k) as Hl. by rewrite E in Hl. Qed.

Definition log_of r : list Z := finished_ops (kern r).
Definition queue_at r : by_queue := fun p t =>
  match states r !! p with Some d => addrs_of (op_queue_of t d) | None => [] end.

(** ** What finishes nothing and puts nothing in a queue *)
Definition quiet r r' : Prop := log_of r' = log_of r /\ forall p t, queue_at r' p t `sublist_of` queue_at r p t.
#[local] Instance quiet_preorder : PreOrder quiet.
Proof.
  split; [by split|]. intros r1 r2 r3 [L1 Q1] [L2 Q2]. split; [congruence|]. intros p t. etrans; [apply Q2|apply Q1].
Qed.

Lemma quiet_same r r' : kern r' = kern r -> states r' = states r -> quiet r r'.
Proof. unfold quiet, log_of, queue_at. by intros -> ->. Qed.

Lemma quiet_kern k r : finished_ops k = log_of r -> quiet r (with_kern k r).
Proof. by split. Qed.

Lemma quiet_set p d' r :
  (forall t, addrs_of (op_queue_of t d') `sublist_of` queue_at r p t) -> quiet r (state_set p d' r).
Proof.
  intros Hd. split; [done|]. intros q t. unfold queue_at at 1. cbn [state_set with_states states].
  destruct (decide (q = p)) as [->|Hq]; [rewrite lookup_insert_eq; apply Hd|by rewrite lookup_insert_ne].
Qed.

Lemma queue_at_state p d r t : states r !! p = Some d -> queue_at r p t = addrs_of (op_queue_of t d).
Proof. unfold queue_at. by intros ->. Qed.

Lemma state_get_Ok p r d : state_get p r = Ok d -> p <> 0 /\ states r !! p = Some d.
Proof. unfold state_get. destruct (Z.eqb_spec p 0); [done|]. destruct (states r !! p); [|done]. by intros [= ->]. Qed.

Lemma register_quiet fresh fd r e : register_descriptor fresh fd r = Ok e ->
  (states r !! fresh = None) -> quiet r e.2.
Proof.
  intros E Hf. unfold register_descriptor in E. destruct (object_pool_alloc fresh r) as [p r1] eqn:Ea.
  assert (quiet r r1) as Hq1.
  { unfold object_pool_alloc in Ea. destruct (free_list_ r); injection Ea as <- <-; [|by apply quiet_same].
    transitivity (state_set fresh descriptor_state_new r); [|by apply quiet_same].
    apply quiet_set. intros t. unfold queue_at. rewrite Hf. by destruct t. }
  destruct (state_get p r1) as [d| |] eqn:Eg; try done. apply state_get_Ok in Eg as [_ Eg]. cbn [mbind outcome_bind] in E.
  match type of E with context [state_set p ?d' r1] => set (d1 := d') in E end.
  destruct (epoll_ctl _ _ _ _ _) as [result k] eqn:Ek in E. injection E as <-. cbn [snd].
  etransitivity; [exact Hq1|]. etransitivity; [apply (quiet_set p d1)|].
  - intros t. rewrite (queue_at_state p d) by done. by destruct t.
  - apply quiet_kern. by apply ctl_log in Ek.
Qed.

Lemma cancel_quiet p r r' : rx_cancel_ops p r = Ok r' -> quiet r r'.
Proof.
  unfold rx_cancel_ops. destruct (p =? 0); [intros [= <-]; done|].
  destruct (state_get p r) as [d| |]; try done. intros [= <-].
  etransitivity; [apply (quiet_set p (clear_queues d))|by apply quiet_same]. intros t. destruct t; apply sublist_nil_l.
Qed.

Lemma deregister_quiet fd p closing r e : deregister_descriptor fd p closing r = Ok e -> quiet r e.1.
Proof.
  unfold deregister_descriptor. destruct (p =? 0); [intros [= <-]; done|].
  destruct (state_get p r) as [d| |]; try done. cbn [mbind outcome_bind].
  destruct (ds_shutdown_ d); cbn [negb]; intros [= <-]; [done|]. cbn [fst].
  set (r1 := if closing then r else _). assert (quiet r r1) as Hq.
  { subst r1. destruct closing; [done|]. apply quiet_kern, log_ctl. }
  etransitivity; [exact Hq|].
  etransitivity; [apply (quiet_set p (set_descriptor (-1) true (clear_queues d)))|by apply quiet_same].
  intros t. destruct t; apply sublist_nil_l.
Qed.

Lemma schedule_quiet now time t op r r' : schedule_timer now time t op r = Some (Ok r') -> quiet r r'.
Proof.
  unfold schedule_timer. destruct (rx_shutdown_ r); [intros [= <-]; by apply quiet_same|].
  destruct (enqueue_timer _ _ _ _) as [[[q b]| |]|]; try done. cbn [mbind partial_bind fst snd].
  destruct b; [|intros [= <-]; by apply quiet_same]. unfold update_timeout. cbn [timer_fd_ with_io with_timer_queue].
  destruct (timer_fd_ r); [|intros [= <-]; by apply quiet_same].
  destruct (get_timeout _ _) as [u| |]; try done. intros [= <-].
  etransitivity; [|apply quiet_kern]; [by apply quiet_same|apply log_settime].
Qed.

Lemma cancel_timer_quiet t max r e : rx_cancel_timer t max r = Some (Ok e) -> quiet r e.1.
Proof.
  unfold rx_cancel_timer. destruct (cancel_timer _ _ _ _) as [[c| |]|]; try done. intros [= <-]. by apply quiet_same.
Qed.

Lemma dispatch_events_quiet es : forall ct ops r e, dispatch_events es ct ops r = Ok e -> quiet r e.2.
Proof.
  induction es as [|[| |p ev] es IH]; intros ct ops r e; cbn [dispatch_events]; [intros [= <-]; done|apply IH|apply IH|].
  destruct (state_get p r) as [d| |] eqn:Eg; try done. apply state_get_Ok in Eg as [_ Eg]. cbn [mbind outcome_bind].
  intros E. etransitivity; [|eapply IH, E]. apply quiet_set. intros t. rewrite (queue_at_state p d) by done. by destruct t.
Qed.

Lemma rx_run_quiet block now later es r r' : rx_run block now later es r = Some (Ok r') -> quiet r r'.
Proof.
  unfold rx_run. set (w := if timer_fd_ r then _ else _). destruct w as [timeout| |]; try done. cbn [lift mbind partial_bind].
  destruct (dispatch_events _ _ _ _) as [[[ct ops] r2]| |] eqn:Ed; try done. cbn [mbind partial_bind].
  assert (quiet r r2) as Hq.
  { etransitivity; [|apply (dispatch_events_quiet _ _ _ _ _ Ed)]. apply quiet_kern, log_wait. }
  destruct ct; [|intros [= <-]; etransitivity; [exact Hq|by apply quiet_same]].
  destruct (get_ready_timers _ _ _) as [[t| |]|]; try done. cbn [mbind partial_bind].
  set (r3 := with_io _ _). assert (quiet r r3) as Hq3 by (etransitivity; [exact Hq|by apply quiet_same]).
  destruct (timer_fd_ r3); [|by intros [= <-]]. destruct (get_timeout later r3) as [u| |]; try done.
  intros [= <-]. etransitivity; [exact Hq3|apply quiet_kern, log_settime].
Qed.

(** ** What starts an operation: it is queued, or finished at once, or neither. *)
Lemma perform_log a (k : K) finished ec k' : perform a k = (finished, ec, k') ->
  finished_ops k' = finished_ops k ++ (if finished then [a] else []).
Proof. intros E. pose proof (log_perform a k) as Hl. by rewrite E in Hl. Qed.

Record starts_at (p : Z) (t : op_type) (a : Z) r r' (l rest : list Z) : Prop := {
  sa_split : queue_at r p t ++ [a] = l ++ rest;
  sa_log : log_of r' = log_of r ++ l;
  sa_queue : queue_at r' p t `sublist_of` rest;
  sa_other p' t' : ~ (p' = p /\ t' = t) -> queue_at r' p' t' `sublist_of` queue_at r p' t'
}.

Lemma starts_posted p t a r r' : quiet r r' -> starts_at p t a r r' [] (queue_at r p t ++ [a]).
Proof.
  intros [Hl Hq]. split; [done|by rewrite app_nil_r| |intros; apply Hq]. etrans; [apply Hq|]. by apply sublist_inserts_r.
Qed.

Lemma starts_finished p t a r r1 r' : queue_at r p t = [] -> log_of r1 = log_of r ++ [a] -> states r1 = states r ->
  quiet r1 r' -> starts_at p t a r r' [a] [].
Proof.
  intros Hn Hl Hs [Hl' Hq]. assert (forall p t, queue_at r1 p t = queue_at r p t) as Hq1 by (intros; unfold queue_at; by rewrite Hs).
  split; [by rewrite Hn|by rewrite Hl'| |intros; etrans; [apply Hq|]; by rewrite Hq1].
  etrans; [apply Hq|]. by rewrite Hq1, Hn.
Qed.

Lemma starts_queued p t a d r r1 r' : states r !! p = Some d -> log_of r1 = log_of r -> states r1 = states r ->
  (exists d' op, wo_addr op = a /\ (forall t', op_queue_of t' d' = op_queue_of t' d) /\
     r' = with_io work_started (state_set p (set_op_queue t (op_queue_of t d' ++ [op]) d') r1)) ->
  starts_at p t a r r' [] (queue_at r p t ++ [a]).
Proof.
  intros Hd Hl Hs (d' & op & <- & Hd' & ->). split; [done|cbn; by rewrite app_nil_r, <- Hl| |].
  - unfold queue_at at 1. cbn [with_io state_set with_states states]. rewrite lookup_insert_eq, (queue_at_state p d r t Hd).
    rewrite Hd'. unfold addrs_of. rewrite <- (fmap_app wo_addr _ [op]). by destruct t.
  - intros p' t' Hne. unfold queue_at at 1. cbn [with_io state_set with_states states]. rewrite Hs.
    destruct (decide (p' = p)) as [->|Hp]; [|by rewrite lookup_insert_ne].
    rewrite lookup_insert_eq, (queue_at_state p d r t' Hd), <- Hd'. destruct t, t'; cbn; try done; by destruct Hne.
Qed.

Lemma start_op_starts t fd p op cont spec r r' : start_op t fd p op cont spec r = Ok r' ->
  exists l rest, starts_at p t (wo_addr op) r r' l rest.
Proof.
  unfold start_op. destruct (p =? 0); [intros [= <-]; eexists _, _; by apply starts_posted, quiet_same|].
  destruct (state_get p r) as [d| |] eqn:Eg; try done. apply state_get_Ok in Eg as [_ Hd]. cbn [mbind outcome_bind].
  destruct (ds_shutdown_ d); [intros [= <-]; eexists _, _; by apply starts_posted, quiet_same|].
  pose proof (queue_at_state p d r t Hd) as Hq.
  destruct (op_queue_of t d) as [|o l] eqn:Eq.
  2:{ intros [= <-]. eexists _, _. apply (starts_queued p t _ d r r); try done. exists d, op. by rewrite Eq. }
  destruct (spec && _).
  - destruct (perform (wo_addr op) (kern r)) as [[finished ec] k] eqn:Ep. apply perform_log in Ep.
    destruct finished.
    { intros [= <-]. eexists _, _. apply (starts_finished p t _ r (with_kern k r)); [done|exact Ep|done|by apply quiet_same]. }
    rewrite app_nil_r in Ep.
    assert (forall d' k', finished_ops k' = finished_ops k -> (forall t', op_queue_of t' d' = op_queue_of t' d) ->
      Ok (with_io work_started (state_set p (set_op_queue t (op_queue_of t d' ++ [with_ec ec op]) d') (with_kern k' r))) = Ok r' ->
      exists l rest, starts_at p t (wo_addr op) r r' l rest) as Henq.
    { intros d' k' Hk' Hd' [= <-]. eexists _, _. eapply (starts_queued p t _ d r (with_kern k' r));
        [done|by etransitivity; [exact Hk'|exact Ep]|done|]. exists d', (with_ec ec op). done. }
    pose proof (Henq d k eq_refl (fun _ => eq_refl)) as Henq0. rewrite Eq in Henq0.
    destruct t; [exact Henq0| |exact Henq0]. destruct (_ =? 0); [|exact Henq0].
    destruct (epoll_ctl _ _ _ _ _) as [result k'] eqn:Ek. assert (finished_ops k' = finished_ops k) as Hk'.
    { by apply ctl_log in Ek. }
    destruct (result =? 0).
    + apply (Henq (set_events _ d) k' Hk'). by intros [].
    + intros [= <-]. eexists _, _. apply starts_posted. split; [change (finished_ops k' = log_of r); by rewrite Hk', Ep|done].
  - set (d' := match t with write_op => _ | _ => d end).
    assert (forall t', op_queue_of t' d' = op_queue_of t' d) as Hd' by (intros t'; subst d'; by destruct t, t').
    destruct (epoll_ctl _ _ _ _ _) as [result k'] eqn:Ek. assert (finished_ops k' = log_of r) as Hk'.
    { by apply ctl_log in Ek. }
    intros [= <-]. eexists _, _. apply (starts_queued p t _ d r (with_kern k' r)); [done|exact Hk'|done|]. exists d', op. done.
Qed.

(** ** What performs the operations of a descriptor *)
Lemma perform_queue_log l : forall k : K,
  finished_ops (perform_queue l k).2 = finished_ops k ++ addrs_of (perform_queue l k).1.1.
Proof.
  induction l as [|op l IH]; intros k; cbn [perform_queue]; [by rewrite app_nil_r|].
  destruct (perform (wo_addr op) k) as [[finished ec] k1] eqn:Ep. apply perform_log in Ep.
  destruct finished; [|cbn; by rewrite Ep]. specialize (IH k1). destruct (perform_queue l k1) as [[done_ rest] k2].
  cbn [fst snd] in *. rewrite IH, Ep, <- app_assoc. done.
Qed.

(** The operations [l] finish, some of each type. *)
Lemma perform_type_order S p t ev d (k : K) Q done_ d' k' :
  perform_type t ev d k = (done_, d', k') -> in_order S (finished_ops k) Q -> (forall t', Q p t' = addrs_of (op_queue_of t' d)) ->
  exists Q', in_order S (finished_ops k') Q' /\ (forall t', Q' p t' = addrs_of (op_queue_of t' d')) /\
    (forall p' t', p' <> p -> Q' p' t' = Q p' t') /\ 
    (forall a, a ∈ finished_ops k' -> a ∈ finished_ops k \/ a ∈ S p t).
Proof.
  intros E Ho HQ. unfold perform_type in E. destruct (_ =? 0).
  { injection E as <- <- <-. exists Q. split_and!; auto. }
  pose proof (perform_queue_log (op_queue_of t d) k) as Hl. pose proof (perform_queue_addrs (op_queue_of t d) k) as Ha.
  destruct (perform_queue _ _) as [[done1 rest] k1]. cbn [fst snd] in *. injection E as <- <- <-.
  exists (fun p' t' => if decide (p' = p /\ t' = t) then addrs_of rest else Q p' t'). rewrite Hl. split_and!.
  - apply (in_order_finish _ _ Q _ p t); [done|rewrite decide_True, HQ by done; by rewrite Ha|].
    intros p' t' Hne. by rewrite decide_False.
  - intros t'. case_decide as D; [destruct D as [_ ->]; by destruct t|]. rewrite HQ. destruct t, t'; try done; by destruct D.
  - intros p' t' Hne. rewrite decide_False by (intros [? _]; done). done.
  - intros a. rewrite elem_of_app. intros [?|Hin]; [by left|right]. eapply elem_of_sublist; [|apply (proj2 Ho)].
    apply elem_of_app. right. rewrite HQ, <- Ha. apply elem_of_app. by left.
Qed.

Lemma state_complete_order S p r e : state_complete p r = Ok e -> in_order S (log_of r) (queue_at r) ->
  in_order S (log_of e.2) (queue_at e.2) /\
  (forall a, a ∈ log_of e.2 -> a ∈ log_of r \/ exists t, a ∈ S p t).
Proof.
  intros E Ho. unfold state_complete in E. destruct (state_get p r) as [d| |] eqn:Eg; try done.
  cbn [mbind outcome_bind] in E. unfold perform_io in E. rewrite Eg in E. cbn [mbind outcome_bind] in E.
  apply state_get_Ok in Eg as [_ Hd]. set (ev := task_result_ d) in E.
  destruct (perform_type except_op ev d (kern r)) as [[ops2 d2] k2] eqn:E2.
  destruct (perform_type write_op ev d2 k2) as [[ops1 d1] k1] eqn:E1.
  destruct (perform_type read_op ev d1 k1) as [[ops0 d0] k0] eqn:E0.
  destruct (perform_type_order S p _ _ _ _ (queue_at r) _ _ _ E2 Ho) as (Q2 & Ho2 & HQ2 & Hn2 & Hl2);
    [intros t'; by apply queue_at_state|].
  destruct (perform_type_order S p _ _ _ _ Q2 _ _ _ E1 Ho2 HQ2) as (Q1 & Ho1 & HQ1 & Hn1 & Hl1).
  destruct (perform_type_order S p _ _ _ _ Q1 _ _ _ E0 Ho1 HQ1) as (Q0 & Ho0 & HQ0 & Hn0 & Hl0).
  set (r1 := with_kern k0 (state_set p d0 r)) in E. assert (log_of e.2 = finished_ops k0 /\ states e.2 = states r1) as [Hle Hse].
  { destruct (ops2 ++ ops1 ++ ops0); injection E as <-; done. }
  rewrite Hle. split.
  - apply (in_order_weaken _ _ Q0); [done|]. intros p' t'. unfold queue_at. rewrite Hse.
    cbn [r1 with_kern state_set with_states states]. destruct (decide (p' = p)) as [->|Hne].
    + by rewrite lookup_insert_eq, HQ0.
    + rewrite lookup_insert_ne, Hn0, Hn1, Hn2 by done. done.
  - intros a Ha. destruct (Hl0 a Ha) as [Ha1|]; [|eauto]. destruct (Hl1 a Ha1) as [Ha2|]; [|eauto].
    destruct (Hl2 a Ha2); eauto.
Qed.

(** ** Every call keeps the order; [S]: what has been started so far. *)
Record ordered (S : by_queue) (s : system T K) : Prop := {
  or_order : in_order S (log_of (rx s)) (queue_at (rx s));
  or_started p t a : a ∈ S p t -> a ∈ started s;
  or_log a : a ∈ log_of (rx s) -> a ∈ started s
}.
Definition note (S : by_queue) (c : call T K) : by_queue :=
  match c with StartOp t _ p op _ _ => start_at p t (wo_addr op) S | _ => S end.

Lemma ordered_quiet S s s' : ordered S s -> quiet (rx s) (rx s') -> (forall a, a ∈ started s -> a ∈ started s') ->
  ordered S s'.
Proof.
  intros [Ho Hs Hl] [Hlog Hq] Hst. split.
  - rewrite Hlog. by eapply in_order_weaken.
  - intros p t a. eauto.
  - intros a. rewrite Hlog. eauto.
Qed.

Lemma ordered_starts S s p t a r' l rest : ordered S s -> a ∉ started s -> starts_at p t a (rx s) r' l rest ->
  ordered (start_at p t a S) (System r' (started s ++ [a]) (completed s)).
Proof.
  intros [Ho Hs Hl] Ha [Hsp Hlog Hq Hother].
  assert (in_order (start_at p t a S) (log_of (rx s)) (start_at p t a (queue_at (rx s)))) as Ho1.
  { apply in_order_start; [done|intros p' t' Hin; by apply Ha, (Hs p' t')|intros Hin; by apply Ha, Hl]. }
  set (Q' := fun p' t' => if decide (p' = p /\ t' = t) then rest else queue_at (rx s) p' t').
  assert (in_order (start_at p t a S) (log_of (rx s) ++ l) Q') as Ho2.
  { eapply in_order_finish; [exact Ho1| |].
    - unfold start_at, Q'. rewrite !decide_True by done. exact Hsp.
    - intros p' t' Hne. unfold start_at, Q'. by rewrite !decide_False by done. }
  split; cbn [rx started].
  - rewrite Hlog. eapply in_order_weaken; [exact Ho2|]. intros p' t'. unfold Q'.
    case_decide as D; [destruct D as [-> ->]; done|by apply Hother].
  - intros p' t' b. unfold start_at. rewrite elem_of_app. case_decide; [|intros Hb; left; by eapply Hs].
    rewrite elem_of_app. intros [Hb|Hb]; [left; by eapply Hs|by right].
  - intros b. rewrite Hlog, !elem_of_app. intros [Hb|Hb]; [left; by apply Hl|].
    assert (b ∈ queue_at (rx s) p t ++ [a]) as Hin by (rewrite Hsp; apply elem_of_app; by left).
    apply elem_of_app in Hin as [Hin|Hin]; [left|by right]. apply (Hs p t).
    eapply elem_of_sublist; [|apply (proj2 Ho)]. apply elem_of_app. by right.
Qed.

Lemma ordered_complete S s p i e : ordered S s -> state_complete p (with_io i (rx s)) = Ok e ->
  ordered S (with_rx e.2 s).
Proof.
  intros [Ho Hs Hl] E. apply (state_complete_order S) in E as [Ho' Hl']; [|exact Ho].
  split; cbn [with_rx rx started]; [exact Ho'|exact Hs|].
  intros a Ha. destruct (Hl' a Ha) as [?|[t ?]]; eauto.
Qed.

Lemma run_one_order S now later events s s' : ordered S s -> exec (RunOne now later events) s = Some (Ok s') ->
  ordered S s'.
Proof.
  intros Ho E. cbn [exec] in E. destruct (do_run_one (io (rx s))) as [| |block i|[|p|o] i].
  1,2,4: by injection E as <-.
  - destruct (rx_run _ _ _ _ _) as [[r'| |]|] eqn:Er; try done. injection E as <-. apply rx_run_quiet in Er.
    apply (ordered_quiet _ s); [done| |done]. etransitivity; [|by apply quiet_same].
    etransitivity; [|exact Er]. by apply quiet_same.
  - destruct (state_complete p (with_io (fun _ => i) (rx s))) as [e| |] eqn:Ec; try done.
    cbn [lift mbind partial_bind] in E. pose proof (ordered_complete S s p _ e Ho Ec) as He.
    destruct (e.1); injection E as <-; apply (ordered_quiet _ _ _ He); try done; by apply quiet_same.
  - injection E as <-. apply (ordered_quiet _ s); [done|by apply quiet_same|done].
Qed.

(** The system calls of a client are not those of operations. *)
Definition keeps_log (c : call T K) : Prop :=
  match c with SysCalls f => forall k, finished_ops (f k) = finished_ops k | _ => True end.

Lemma exec_order S c s s' : ordered S s -> allowed c s -> keeps_log c -> exec c s = Some (Ok s') ->
  ordered (note S c) s'.
Proof.
  intros Ho Ha Hc E.
  destruct c as [|fresh fd|t fd p op cont spec|p|fd p closing|now time t op|t max|op cont|op| | |now later events| |f];
    [..|by apply (run_one_order S now later events s)| |]; cbn [exec note] in *.
  - injection E as <-. apply (ordered_quiet _ s); [done|by apply quiet_same|done].
  - destruct (register_descriptor _ _ _) as [e| |] eqn:Er; try done. injection E as <-.
    apply (ordered_quiet _ s); [done| |done]. eapply register_quiet; [exact Er|apply Ha].
  - destruct (start_op _ _ _ _ _ _ _) as [r'| |] eqn:Er; try done. injection E as <-.
    destruct (start_op_starts _ _ _ _ _ _ _ _ Er) as (l & rest & Hst). exact (ordered_starts S s p t _ r' l rest Ho (proj2 Ha) Hst).
  - destruct (rx_cancel_ops _ _) as [r'| |] eqn:Er; try done. injection E as <-.
    apply (ordered_quiet _ s); [done|by eapply cancel_quiet|done].
  - destruct (deregister_descriptor _ _ _ _) as [e| |] eqn:Er; try done. injection E as <-.
    apply (ordered_quiet _ s); [done|by eapply deregister_quiet|done].
  - destruct (schedule_timer _ _ _ _ _) as [[r'| |]|] eqn:Er; try done. injection E as <-.
    apply (ordered_quiet _ s); [done|by eapply schedule_quiet|cbn; intros; apply elem_of_app; by left].
  - destruct (rx_cancel_timer _ _ _) as [[e| |]|] eqn:Er; try done. injection E as <-.
    apply (ordered_quiet _ s); [done|by eapply cancel_timer_quiet|done].
  - injection E as <-. apply (ordered_quiet _ s); [done|by apply quiet_same|cbn; intros; apply elem_of_app; by left].
  - injection E as <-. apply (ordered_quiet _ s); [done|by apply quiet_same|cbn; intros; apply elem_of_app; by left].
  - injection E as <-. apply (ordered_quiet _ s); [done|by apply quiet_same|done].
  - injection E as <-. apply (ordered_quiet _ s); [done|by apply quiet_same|done].
  - injection E as <-. apply (ordered_quiet _ s); [done|by apply quiet_same|done].
  - injection E as <-. apply (ordered_quiet _ s); [done|by apply quiet_kern, Hc|done].
Qed.

Lemma run_order cs : forall S s s', ordered S s -> calls_allowed cs s -> Forall keeps_log cs ->
  run_calls cs s = Some (Ok s') -> ordered (foldl note S cs) s'.
Proof.
  induction cs as [|c cs IH]; intros S s s' Ho Ha Hc E; cbn [run_calls] in E; [by injection E as <-|].
  destruct Ha as [Ha Has]. apply Forall_cons in Hc as [Hc Hcs].
  destruct (exec c s) as [[s1| |]|] eqn:E1; try done. cbn [mbind partial_bind] in E.
  eapply IH; [by eapply exec_order|by apply Has|done|done].
Qed.

Lemma foldl_note cs : forall S p t, foldl note S cs p t = S p t ++ started_at p t cs.
Proof.
  induction cs as [|c cs IH]; intros S p t; cbn [foldl]; [by rewrite app_nil_r|]. rewrite IH.
  unfold started_at. destruct c; try done. cbn. unfold start_at. case_decide; [by rewrite <- app_assoc|done].
Qed.

Lemma new_order m hint tf (k : K) : finished_ops k = [] -> ordered (fun _ _ => []) (system_new m hint tf k).
Proof.
  intros Hk. split; cbn; [|by intros ??? ?%elem_of_nil|unfold log_of; cbn; rewrite Hk; by intros ? ?%elem_of_nil].
  split; [by intros ????? ?%elem_of_nil|]. intros p t. unfold log_of, queue_at. cbn. by rewrite Hk, lookup_empty.
Qed.

(** What the order says of the operations that have finished *)
Lemma ordered_log S s p t : ordered S s -> filter (fun a => a ∈ S p t) (log_of (rx s)) `sublist_of` S p t.
Proof. intros [[_ Ho] _ _]. etrans; [|apply Ho]. by apply sublist_inserts_r. Qed.
End Order.

(** C11. Operations of one type on one descriptor finish in the order in which they
    were started: whatever the clients call, in and out of handlers, whatever the
    kernel says and whatever is cancelled, the operations whose system call was
    carried out follow one another as in the calls, and none overtakes another,
    though an operation may be tried at once when it is started. *)
Theorem operations_in_order {T} `{Time_TraitsLaws T} `{!Time_Range T} {K} `{FinishLog K}
    (m : gmap Z per_timer_data) hint tf (k : K) (cs : list (call T K)) :
  fresh_timers m -> finished_ops k = [] -> calls_allowed cs (system_new m hint tf k) -> Forall keeps_log cs ->
  exists s, run_calls cs (system_new m hint tf k) = Some (Ok s) /\
    forall p t, filter (fun a => a ∈ started_at p t cs) (finished_ops (kern (rx s))) `sublist_of` started_at p t cs.
Proof.
  intros Hm Hk Ha Hc. destruct (run_calls_ok _ _ (new_inv m hint tf k Hm) Ha) as (s & E & _).
  exists s. split; [exact E|]. intros p t.
  pose proof (ordered_log _ s p t (run_order _ _ _ _ (new_order m hint tf k Hk) Ha Hc E)) as Ho.
  by rewrite foldl_note in Ho.
Qed.

(** Three operations that are tried when the descriptor is ready: one that is tried at
    once and waits, two that wait behind it. *)
Definition order_loop : list (call Z (logged (list bool))) :=
  [InitTask; Register 5000 7; StartOp read_op 7 5000 (op_at 1) false true; StartOp read_op 7 5000 (op_at 2) false true;
   StartOp read_op 7 5000 (op_at 3) false false;
   RunOne 50000 50000 [FromState 5000 EPOLLIN]; RunOne 50000 50000 []; Return; RunOne 50000 50000 []].
Definition order_start : system Z (logged (list bool)) :=
  system_new sample_timers 0 true (Logged [false; true; true; false] []).

Lemma operations_in_order_witness :
  exists s, run_calls order_loop order_start = Some (Ok s) /\ finished_ops (kern (rx s)) = [1; 2] /\
    started_at 5000 read_op order_loop = [1; 2; 3] /\
    filter (fun a => a ∈ started_at 5000 read_op order_loop) (finished_ops (kern (rx s))) `sublist_of`
      started_at 5000 read_op order_loop.
Proof.
  destruct (operations_in_order sample_timers 0 true (Logged [false; true; true; false] []) order_loop) as (s & E & Ho);
    [apply sample_fresh|done|apply check_calls_sound; vm_compute; reflexivity|by repeat constructor|].
  exists s. split; [exact E|]. split; [|split; [vm_compute; reflexivity|apply Ho]].
  assert (Ec : match run_calls order_loop order_start with Some (Ok s) => lg_finished (kern (rx s)) | _ => [] end = [1; 2])
    by (vm_compute; reflexivity).
  unfold order_start in Ec. by rewrite E in Ec.
Defined.
