(* ===== verification/Asyncops.v ===== *)
(** * Asynchronous operations of sockets (asio/detail/reactive_socket_service_base.hpp and
    impl/reactive_socket_service_base.ipp, reactive_socket_service.hpp, reactor_op.hpp and
    reactive_socket_recv_op.hpp, _send_op.hpp, _accept_op.hpp, _connect_op.hpp,
    reactive_null_buffers_op.hpp)

    The link between sockets and the event loop: what an operation does when the reactor
    tries it ([do_perform]), and how it is started ([svc_start_op] and its callers).
    [AsyncWorld] is what the reactor calls its kernel: the system, the memory of the
    program, and the two kinds of objects it shares with the reactor, operations and
    sockets.  A call of a client turns into calls of the event loop, so that the theorems
    on the loop hold of asynchronous operations.  A handler has no code here; an accept
    has no peer endpoint, and its peer registers with the reactor of the interface
    [Reactor]. *)
From S2P Require Import Prelude Socketops Asiobuf Asiorw Sockservice.
From S2P Require Import Timetraits Binheap Timerqueue Timers Ioservice Epoll Eventloop Eventorder.
#[local] Open Scope Z_scope.

Definition message_out_of_band := 1.   (* MSG_OOB *)

(** ** Operations *)
Inductive socket_op :=
  | RecvOp (socket state : Z) (buffers : list buffer) (flags : Z)
  | SendOp (socket : Z) (buffers : list buffer) (flags : Z)
  | AcceptOp (socket state peer type : Z)    (* the handle of the peer, and the type of [protocol_] *)
  | ConnectOp (socket : Z)
  | NullBuffersOp.

(** [ro_data] is what a receive has stored in its buffers, and what a send has given to
    the kernel. *)
Record reactor_op := ReactorOp { ro_op : socket_op; ro_ec : error_code; ro_bytes : Z; ro_data : list byte }.
Definition reactor_op_new (o : socket_op) : reactor_op := ReactorOp o error_code_new 0 [].

Definition impls : Type := gmap Z base_implementation.

Section Perform.
Context {K : Type} `{Kernel K} `{Sockservice.Reactor K}.

(** What trying gives: the operation after it and the socket objects, with whether it is
    finished; [None]: out of fuel *)
Definition tried : Type := option (bool * reactor_op * impls).

Definition recv_do_perform (fuel : nat) (socket state : Z) (buffers : list buffer) (flags : Z) (o : reactor_op) (m : impls)
    : Socketops.io K tried :=
  let bufs := buffer_sequence_adapter buffers in
  r ← non_blocking_recv fuel socket (native bufs) (Z.of_nat (count_ bufs)) flags
        (flag_set state stream_oriented) (ro_bytes o);
  mret (match r with
        | Some (finished, bytes, data, ec) => Some (finished, ReactorOp (ro_op o) ec bytes data, m)
        | None => None
        end).

Definition send_do_perform (fuel : nat) (mem : Z -> byte) (socket : Z) (buffers : list buffer) (flags : Z)
    (o : reactor_op) (m : impls) : Socketops.io K tried :=
  let bufs := buffer_sequence_adapter buffers in
  r ← non_blocking_send fuel mem socket (native bufs) (Z.of_nat (count_ bufs)) flags (ro_bytes o);
  let data := concat (iov_bytes mem <$> msg_iov (native bufs) (Z.of_nat (count_ bufs))) in
  mret (match r with
        | Some (finished, bytes, ec) =>
          Some (finished, ReactorOp (ro_op o) ec bytes (if (finished : bool) then take (Z.to_nat bytes) data else []), m)
        | None => None
        end).

Definition accept_do_perform (fuel : nat) (socket state peer type : Z) (o : reactor_op) (m : impls)
    : Socketops.io K tried :=
  r ← non_blocking_accept fuel socket state None;
  match r with
  | None => mret None
  | Some (result, (new_socket, _, ec)) =>
    let finish m ec := Some (result, ReactorOp (ro_op o) ec (ro_bytes o) [], m) in
    if negb (new_socket =? invalid_socket) then
      '(impl, ec) ← do_assign (impl_of m peer) type new_socket;
      (if ec_bool ec then socket_holder_delete new_socket else mret tt) ;;
      mret (finish (<[peer := impl]> m) ec)
    else mret (finish m ec)
  end.

Definition connect_do_perform (socket : Z) (o : reactor_op) (m : impls) : Socketops.io K tried :=
  '(finished, ec) ← non_blocking_connect socket (ro_ec o);
  mret (Some (finished, ReactorOp (ro_op o) ec (ro_bytes o) [], m)).

Definition null_buffers_do_perform (o : reactor_op) (m : impls) : Socketops.io K tried := mret (Some (true, o, m)).

(** [perform_func_] *)
Definition do_perform (fuel : nat) (mem : Z -> byte) (o : reactor_op) (m : impls) : Socketops.io K tried :=
  match ro_op o with
  | RecvOp socket state buffers flags => recv_do_perform fuel socket state buffers flags o m
  | SendOp socket buffers flags => send_do_perform fuel mem socket buffers flags o m
  | AcceptOp socket state peer type => accept_do_perform fuel socket state peer type o m
  | ConnectOp socket => connect_do_perform socket o m
  | NullBuffersOp => null_buffers_do_perform o m
  end.
End Perform.

(** ** The kernel of the reactor *)
Record async_world (K : Type) := AsyncWorld {
  aw_world : world K;
  aw_mem : Z -> byte;
  aw_ops : gmap Z reactor_op;
  aw_impls : impls;
  aw_log : list Z          (* the operations that have finished, in this order *)
}.
Arguments AsyncWorld {K}.
Arguments aw_world {K}.
Arguments aw_mem {K}.
Arguments aw_ops {K}.
Arguments aw_impls {K}.
Arguments aw_log {K}.

Definition the_op {K} (a : Z) (k : async_world K) : reactor_op :=
  default (reactor_op_new NullBuffersOp) (aw_ops k !! a).
Definition set_op {K} (a : Z) (o : reactor_op) (k : async_world K) : async_world K :=
  AsyncWorld (aw_world k) (aw_mem k) (<[a := o]> (aw_ops k)) (aw_impls k) (aw_log k).
Definition set_op_ec {K} (a : Z) (ec : error_code) (k : async_world K) : async_world K :=
  let o := the_op a k in set_op a (ReactorOp (ro_op o) ec (ro_bytes o) (ro_data o)) k.
Definition set_world {K} (w : world K) (k : async_world K) : async_world K :=
  AsyncWorld w (aw_mem k) (aw_ops k) (aw_impls k) (aw_log k).
Definition set_impl {K} (h : Z) (impl : base_implementation) (k : async_world K) : async_world K :=
  AsyncWorld (aw_world k) (aw_mem k) (aw_ops k) (<[h := impl]> (aw_impls k)) (aw_log k).

(** Enough for the loops of the system calls: [perform_returns] *)
Definition op_fuel {K} `{KernelLaws K} (k : async_world K) : nat := S (patience (kernel (aw_world k))).

Definition perform_op {K} `{KernelLaws K} `{Sockservice.Reactor K} (a : Z) (k : async_world K)
    : bool * error_code * async_world K :=
  match do_perform (op_fuel k) (aw_mem k) (the_op a k) (aw_impls k) (aw_world k) with
  | (Some (finished, o, m), w) =>
    (finished, ro_ec o, AsyncWorld w (aw_mem k) (<[a := o]> (aw_ops k)) m (aw_log k ++ if (finished : bool) then [a] else []))
  | (None, w) => (false, ro_ec (the_op a k), set_world w k)
  end.

#[export] Instance async_kernel {K} `{KernelLaws K} `{Sockservice.Reactor K} `{EpollKernel K} : EpollKernel (async_world K) := {|
  epoll_ctl c d e p k :=
    let '(result, k') := epoll_ctl c d e p (kernel (aw_world k)) in
    (result, set_world (World k' (errno_ (aw_world k))) k);
  timerfd_settime t k := set_world (World (timerfd_settime t (kernel (aw_world k))) (errno_ (aw_world k))) k;
  epoll_wait t k := set_world (World (epoll_wait t (kernel (aw_world k))) (errno_ (aw_world k))) k;
  perform := perform_op
|}.
#[export] Program Instance async_log {K} `{KernelLaws K} `{Sockservice.Reactor K} `{EpollKernel K} :
  FinishLog (async_world K) := {| finished_ops := aw_log |}.
Next Obligation. intros. cbn. by destruct (epoll_ctl _ _ _ _ _). Qed.
Next Obligation. done. Qed.
Next Obligation. done. Qed.
Next Obligation.
  intros. cbn. unfold perform_op. destruct (do_perform _ _ _ _ _) as [[[[f o] m]|] w]; [done|]. by rewrite app_nil_r.
Qed.

(** ** Starting operations

    [h] is the handle of the socket, [p] its [reactor_data_], [a] the operation. *)
Section Start.
Context {T : Type} `{Time_Traits T} {K : Type} `{KernelLaws K} `{Sockservice.Reactor K} `{EpollKernel K}.
Implicit Types (r : reactor T (async_world K)).

(** System calls, and changes of the objects, between calls of the reactor *)
Definition sys_io {A} (m : Socketops.io K A) r : A * reactor T (async_world K) :=
  let '(a, w) := m (aw_world (kern r)) in (a, with_kern (set_world w (kern r)) r).
Definition upd_kern (f : async_world K -> async_world K) r : reactor T (async_world K) := with_kern (f (kern r)) r.
Definition impl_at (h : Z) r : base_implementation := impl_of (aw_impls (kern r)) h.
Definition op_of (a : Z) r : wait_op := WaitOp a (ro_ec (the_op a (kern r))).

Definition post_op (a : Z) (is_continuation : bool) r : outcome (reactor T (async_world K)) :=
  Ok (with_io (post_immediate_completion (UserOp (op_of a r)) is_continuation) r).

(** [(impl.state_ & non_blocking) || set_internal_non_blocking(...)], which writes the state
    of the socket and the error of the operation *)
Definition make_non_blocking (h a : Z) r : bool * reactor T (async_world K) :=
  let impl := impl_at h r in
  if flag_set (state_ impl) non_blocking then (true, r)
  else
    let '(result, state, ec, r) := sys_io (set_internal_non_blocking (socket_ impl) (state_ impl) true) r in
    (result, upd_kern (set_op_ec a ec) (upd_kern (set_impl h (BaseImpl (socket_ impl) state)) r)).

Definition svc_start_op (h : Z) (t : op_type) (p a : Z) (is_continuation is_non_blocking noop : bool) r
    : outcome (reactor T (async_world K)) :=
  if negb noop then
    let '(result, r) := make_non_blocking h a r in
    if (result : bool) then start_op t (socket_ (impl_at h r)) p (op_of a r) is_continuation is_non_blocking r
    else post_op a is_continuation r
  else post_op a is_continuation r.

Definition start_accept_op (h p a : Z) (is_continuation peer_is_open : bool) r : outcome (reactor T (async_world K)) :=
  if negb peer_is_open then svc_start_op h read_op p a true is_continuation false r
  else post_op a is_continuation (upd_kern (set_op_ec a already_open) r).

Definition start_connect_op (h p a : Z) (is_continuation : bool) (addr : list byte) (addrlen : Z) r
    : outcome (reactor T (async_world K)) :=
  let '(result, r) := make_non_blocking h a r in
  if (result : bool) then
    let '(connected, ec, r) := sys_io (connect (socket_ (impl_at h r)) addr addrlen) r in
    let r := upd_kern (set_op_ec a ec) r in
    if negb (connected =? 0) then
      if ec_eqb ec in_progress || ec_eqb ec would_block then
        let r := upd_kern (set_op_ec a error_code_new) r in
        start_op connect_op (socket_ (impl_at h r)) p (op_of a r) is_continuation false r
      else post_op a is_continuation r
    else post_op a is_continuation r
  else post_op a is_continuation r.

(** [new (p.v) op(...)] *)
Definition new_op (a : Z) (o : socket_op) r : reactor T (async_world K) := upd_kern (set_op a (reactor_op_new o)) r.

Definition async_send (h p a : Z) (buffers : list buffer) (flags : Z) (is_continuation : bool) r
    : outcome (reactor T (async_world K)) :=
  let impl := impl_at h r in
  svc_start_op h write_op p a is_continuation true
    (flag_set (state_ impl) stream_oriented && all_empty_seq 0 buffers)
    (new_op a (SendOp (socket_ impl) buffers flags) r).

(** With [null_buffers] *)
Definition async_send_null (h p a : Z) (is_continuation : bool) r : outcome (reactor T (async_world K)) :=
  svc_start_op h write_op p a is_continuation false false (new_op a NullBuffersOp r).

Definition async_receive (h p a : Z) (buffers : list buffer) (flags : Z) (is_continuation : bool) r
    : outcome (reactor T (async_world K)) :=
  let impl := impl_at h r in
  svc_start_op h (if flag_set flags message_out_of_band then except_op else read_op) p a is_continuation
    (negb (flag_set flags message_out_of_band))
    (flag_set (state_ impl) stream_oriented && all_empty_seq 0 buffers)
    (new_op a (RecvOp (socket_ impl) (state_ impl) buffers flags) r).

Definition async_receive_null (h p a : Z) (flags : Z) (is_continuation : bool) r : outcome (reactor T (async_world K)) :=
  svc_start_op h (if flag_set flags message_out_of_band then except_op else read_op) p a is_continuation false false
    (new_op a NullBuffersOp r).

Definition async_accept (h p a : Z) (peer type : Z) (is_continuation : bool) r : outcome (reactor T (async_world K)) :=
  let impl := impl_at h r in
  let r := new_op a (AcceptOp (socket_ impl) (state_ impl) peer type) r in
  start_accept_op h p a is_continuation (is_open (impl_at peer r)) r.

Definition async_connect (h p a : Z) (peer_endpoint : list byte) (is_continuation : bool) r
    : outcome (reactor T (async_world K)) :=
  start_connect_op h p a is_continuation peer_endpoint (vlen peer_endpoint)
    (new_op a (ConnectOp (socket_ (impl_at h r))) r).
End Start.

(** ** The calls of a client *)
Section Calls.
Context {T : Type} `{Time_TraitsLaws T} `{!Time_Range T}
  {K : Type} `{KernelLaws K} `{Sockservice.Reactor K} `{EpollKernel K}.

Inductive socket_call :=
  | AsyncSend (buffers : list buffer) (flags : Z)
  | AsyncSendNull
  | AsyncReceive (buffers : list buffer) (flags : Z)
  | AsyncReceiveNull (flags : Z)
  | AsyncAccept (peer type : Z)
  | AsyncConnect (peer_endpoint : list byte).

Inductive async_call :=
  | LoopCall (c : call T (async_world K))
  | SocketCall (c : socket_call) (h p a : Z) (is_continuation : bool).

Definition async_run (c : socket_call) (h p a : Z) (is_continuation : bool) (r : reactor T (async_world K))
    : outcome (reactor T (async_world K)) :=
  match c with
  | AsyncSend buffers flags => async_send h p a buffers flags is_continuation r
  | AsyncSendNull => async_send_null h p a is_continuation r
  | AsyncReceive buffers flags => async_receive h p a buffers flags is_continuation r
  | AsyncReceiveNull flags => async_receive_null h p a flags is_continuation r
  | AsyncAccept peer type => async_accept h p a peer type is_continuation r
  | AsyncConnect peer_endpoint => async_connect h p a peer_endpoint is_continuation r
  end.

Definition async_exec (c : async_call) (s : system T (async_world K)) : partial (system T (async_world K)) :=
  match c with
  | LoopCall c => exec c s
  | SocketCall c h p a cont =>
    r ← lift (async_run c h p a cont (rx s));
    ret (System r (started s ++ [a]) (completed s))
  end.

(** What the caller keeps: the socket is registered or not, and an operation is started
    once. *)
Definition async_allowed (c : async_call) (s : system T (async_world K)) : Prop :=
  match c with
  | LoopCall c => allowed c s
  | SocketCall c h p a cont => (p = 0 \/ p ∈ live_list_ (rx s)) /\ a ∉ started s
  end.

Fixpoint async_exec_all (cs : list async_call) (s : system T (async_world K)) : partial (system T (async_world K)) :=
  match cs with
  | [] => ret s
  | c :: cs' => s ← async_exec c s; async_exec_all cs' s
  end.

Fixpoint all_allowed (cs : list async_call) (s : system T (async_world K)) : Prop :=
  match cs with
  | [] => True
  | c :: cs' => async_allowed c s /\ forall s', async_exec c s = Some (Ok s') -> all_allowed cs' s'
  end.
#[export] Instance async_allowed_dec `{forall x, Decision (in_range x)} c s : Decision (async_allowed c s).
Proof. destruct c; cbn [async_allowed]; apply _. Defined.

(** [all_allowed], by running the calls *)
Fixpoint check_async `{forall x, Decision (in_range x)} (cs : list async_call) (s : system T (async_world K)) : bool :=
  match cs with
  | [] => true
  | c :: cs' =>
    bool_decide (async_allowed c s) && match async_exec c s with Some (Ok s') => check_async cs' s' | _ => true end
  end.

Lemma check_async_sound `{forall x, Decision (in_range x)} cs : forall s, check_async cs s = true -> all_allowed cs s.
Proof.
  induction cs as [|c cs IH]; intros s Hc; [done|]. cbn [check_async] in Hc. apply andb_true_iff in Hc as [Ha Hc].
  split; [by apply bool_decide_eq_true in Ha|]. intros s' E. rewrite E in Hc. by apply IH.
Qed.
End Calls.
Arguments async_call : clear implicits.

(** ** Lemmas: an asynchronous call is system calls and one call of the loop *)
Section Refine.
Context {T : Type} `{Time_TraitsLaws T} `{!Time_Range T}
  {K : Type} `{KernelLaws K} `{Sockservice.Reactor K} `{EpollKernel K}.
Implicit Types (r : reactor T (async_world K)) (s : system T (async_world K)).

(** The queue an asynchronous call is for *)
Definition type_of (c : socket_call) : op_type :=
  match c with
  | AsyncSend _ _ | AsyncSendNull | AsyncConnect _ => write_op
  | AsyncReceive _ flags | AsyncReceiveNull flags => if flag_set flags message_out_of_band then except_op else read_op
  | AsyncAccept _ _ => read_op
  end.

(** How an operation [a] is passed on: to the queue [t] of [p], or to the service *)
Definition passes_on (p : Z) (t : op_type) (a : Z) (c : call T (async_world K)) : Prop :=
  match c with
  | StartOp t' _ p' op _ _ => t' = t /\ p' = p /\ wo_addr op = a
  | Post op _ => wo_addr op = a
  | _ => False
  end.
Definition hands_over (c : call T (async_world K)) r : outcome (reactor T (async_world K)) :=
  match c with
  | StartOp t fd p op cont spec => start_op t fd p op cont spec r
  | Post op cont => Ok (with_io (post_immediate_completion (UserOp op) cont) r)
  | _ => Ok r
  end.
Definition by_calls (p : Z) (t : op_type) (a : Z) r (res : outcome (reactor T (async_world K))) : Prop :=
  exists k c, passes_on p t a c /\ aw_log k = aw_log (kern r) /\ res = hands_over c (with_kern k r).

Lemma by_calls_kern p t a k r res : aw_log k = aw_log (kern r) -> by_calls p t a (with_kern k r) res -> by_calls p t a r res.
Proof. intros Hk (k' & c & Hc & Hl & ->). exists k', c. split_and!; [done|by rewrite Hl|done]. Qed.

Lemma with_kern_self r : with_kern (kern r) r = r.
Proof. by destruct r. Qed.

Lemma by_calls_post p t a cont r : by_calls p t a r (post_op a cont r).
Proof. exists (kern r), (Post (op_of a r) cont). split_and!; [done..|]. by rewrite with_kern_self. Qed.

Lemma by_calls_start t fd p a cont spec r : by_calls p t a r (start_op t fd p (op_of a r) cont spec r).
Proof. exists (kern r), (StartOp t fd p (op_of a r) cont spec). split_and!; [done..|]. by rewrite with_kern_self. Qed.

Lemma sys_io_kern {A} (m : Socketops.io K A) r :
  exists k, (sys_io m r).2 = with_kern k r /\ aw_log k = aw_log (kern r).
Proof. unfold sys_io. destruct (m _) as [x w]. eauto. Qed.

Lemma make_non_blocking_kern h a r :
  exists k, (make_non_blocking h a r).2 = with_kern k r /\ aw_log k = aw_log (kern r).
Proof.
  unfold make_non_blocking. destruct (flag_set _ _); [exists (kern r); by rewrite with_kern_self|].
  destruct (sys_io_kern (set_internal_non_blocking (socket_ (impl_at h r)) (state_ (impl_at h r)) true) r) as (k & E & Hk).
  destruct (sys_io _ r) as [[[result state] ec] r1]. cbn in *. subst r1. eexists. split; [reflexivity|exact Hk].
Qed.

Lemma svc_start_op_by h t p a cont nb noop r : by_calls p t a r (svc_start_op h t p a cont nb noop r).
Proof.
  unfold svc_start_op. destruct noop; [apply by_calls_post|]. cbn [negb].
  destruct (make_non_blocking_kern h a r) as (k & E & Hk).
  destruct (make_non_blocking h a r) as [[] r1]; cbn in E; subst r1;
    (eapply by_calls_kern; [exact Hk|apply by_calls_start || apply by_calls_post]).
Qed.

Lemma start_accept_op_by h p a cont peer_is_open r : by_calls p read_op a r (start_accept_op h p a cont peer_is_open r).
Proof.
  unfold start_accept_op. destruct peer_is_open; [|apply svc_start_op_by].
  eapply by_calls_kern; [|apply by_calls_post]. done.
Qed.

Lemma start_connect_op_by h p a cont addr len r : by_calls p write_op a r (start_connect_op h p a cont addr len r).
Proof.
  unfold start_connect_op. destruct (make_non_blocking_kern h a r) as (k & E & Hk).
  destruct (make_non_blocking h a r) as [[] r1]; cbn in E; subst r1; (eapply by_calls_kern; [exact Hk|]); [|apply by_calls_post].
  destruct (sys_io_kern (connect (socket_ (impl_at h (with_kern k r))) addr len) (with_kern k r)) as (k' & E & Hk').
  destruct (sys_io _ _) as [[connected ec] r2]. cbn in E. subst r2. eapply by_calls_kern; [exact Hk'|].
  destruct (negb _); [|eapply by_calls_kern; [|apply by_calls_post]; done].
  destruct (_ || _); [|eapply by_calls_kern; [|apply by_calls_post]; done].
  eapply by_calls_kern; [|eapply by_calls_kern; [|apply by_calls_start]]; done.
Qed.

Lemma async_run_by c h p a cont r : by_calls p (type_of c) a r (async_run c h p a cont r).
Proof.
  destruct c; cbn [async_run type_of]; (eapply by_calls_kern;
    [|first [apply svc_start_op_by|apply start_accept_op_by|apply start_connect_op_by]]); done.
Qed.

Lemma socket_call_runs c h p a cont s : exists k l, passes_on p (type_of c) a l /\ aw_log k = aw_log (kern (rx s)) /\
  async_exec (SocketCall c h p a cont) s = run_calls [SysCalls (fun _ => k); l] s.
Proof.
  destruct (async_run_by c h p a cont (rx s)) as (k & l & Hl & Hk & E). exists k, l. split; [done|]. split; [done|].
  cbn [async_exec]. rewrite E. cbn [run_calls exec mbind partial_bind].
  destruct l; try done; cbn in Hl; cbn [hands_over exec rx with_rx].
  - destruct Hl as (-> & -> & <-). change (ret ?x ≫= ?f) with (f x). cbn [rx with_rx]. by destruct (start_op _ _ _ _ _ _ _).
  - subst a. done.
Qed.

Lemma async_exec_ok c s : inv s -> async_allowed c s -> exists s', async_exec c s = Some (Ok s') /\ inv s'.
Proof.
  destruct c as [c|c h p a cont]; [apply exec_ok|]. intros Hi [Hp Ha].
  destruct (socket_call_runs c h p a cont s) as (k & l & Hl & _ & ->). apply run_calls_ok; [done|].
  split; [done|]. intros s' [= <-]. split; [|intros; exact I]. destruct l; try done; cbn in *.
  - destruct Hl as (-> & -> & ->). done.
  - by subst a.
Qed.

Lemma async_exec_all_ok cs : forall s, inv s -> all_allowed cs s ->
  exists s', async_exec_all cs s = Some (Ok s') /\ inv s'.
Proof.
  induction cs as [|c cs IH]; intros s Hi Hc; [by exists s|]. destruct Hc as [Hc Hcs].
  destruct (async_exec_ok c s Hi Hc) as (s1 & E & Hi1). cbn [async_exec_all]. rewrite E. cbn [mbind partial_bind].
  apply IH; [done|]. by apply Hcs.
Qed.

(** *** Their order *)
Definition async_note (S : by_queue) (c : async_call T K) : by_queue :=
  match c with
  | LoopCall c => note S c
  | SocketCall c _ p a _ => start_at p (type_of c) a S
  end.
Definition async_keeps_log (c : async_call T K) : Prop := match c with LoopCall c => keeps_log c | _ => True end.

(** The operations of a queue, in the order of the calls *)
Definition issued (p : Z) (t : op_type) (cs : list (async_call T K)) : list Z :=
  cs ≫= fun c => match c with
                 | LoopCall c => started_at p t [c]
                 | SocketCall c _ p' a _ => if decide (p = p' /\ t = type_of c) then [a] else []
                 end.

Lemma foldl_async_note cs : forall S p t, foldl async_note S cs p t = S p t ++ issued p t cs.
Proof.
  induction cs as [|c cs IH]; intros S p t; cbn [foldl]; [by rewrite app_nil_r|]. rewrite IH.
  unfold issued. rewrite bind_cons, app_assoc. f_equal. destruct c as [c|c h p' a cont]; cbn [async_note].
  - rewrite <- (foldl_note [c]). done.
  - unfold start_at. case_decide; [done|by rewrite app_nil_r].
Qed.

Lemma async_exec_order S c s s' : ordered S s -> async_allowed c s -> async_keeps_log c -> async_exec c s = Some (Ok s') ->
  ordered (async_note S c) s'.
Proof.
  destruct c as [c|c h p a cont]; [apply exec_order|]. intros Ho [_ Ha] _ E.
  cbn [async_exec] in E. destruct (async_run_by c h p a cont (rx s)) as (k & l & Hl & Hk & Er). rewrite Er in E. clear Er.
  assert (ordered S (with_rx (with_kern k (rx s)) s)) as Hs1.
  { apply (ordered_quiet _ s); [done|by apply quiet_kern|done]. }
  destruct l; try done; cbn [hands_over] in E; cbn in Hl.
  - destruct Hl as (-> & -> & <-). destruct (start_op _ _ _ _ _ _ _) as [r'| |] eqn:Es; try done. injection E as <-.
    destruct (start_op_starts _ _ _ _ _ _ _ _ Es) as (l & rest & Hst).
    exact (ordered_starts S (with_rx (with_kern k (rx s)) s) p _ _ r' l rest Hs1 Ha Hst).
  - subst a. injection E as <-.
    eapply (ordered_starts S (with_rx (with_kern k (rx s)) s) p _ _ _ _ _ Hs1 Ha), starts_posted. by apply quiet_same.
Qed.

Lemma async_exec_all_order cs : forall S s s', ordered S s -> all_allowed cs s -> Forall async_keeps_log cs ->
  async_exec_all cs s = Some (Ok s') -> ordered (foldl async_note S cs) s'.
Proof.
  induction cs as [|c cs IH]; intros S s s' Ho Ha Hc E; cbn [async_exec_all] in E; [by injection E as <-|].
  destruct Ha as [Ha Has]. apply Forall_cons in Hc as [Hc Hcs].
  destruct (async_exec c s) as [[s1| |]|] eqn:E1; try done. cbn [mbind partial_bind] in E.
  eapply IH; [by eapply async_exec_order|by apply Has|done|done].
Qed.
End Refine.

(** ** Lemmas: what an operation does when it is tried *)
Section Performed.
Context {K : Type} `{DescriptorLaws K}.
Implicit Types (w : world K) (m : impls).

Lemma non_blocking_accept_gives fuel s st addrlen w : (patience (kernel w) < fuel)%nat ->
  exists finished new_s addr ec w', non_blocking_accept fuel s st addrlen w = (Some (finished, (new_s, addr, ec)), w') /\
    gives new_s ec w w' /\ ec <> interrupted /\ finished = negb (accept_retries st ec).
Proof.
  intros Hf. destruct (Z.eq_dec s invalid_socket) as [->|Hs].
  { destruct fuel as [|fuel]; [lia|]. cbn. do 5 eexists. split; [done|]. split; [|done]. left.
    split; [done|]. split; [done|apply goes_refl]. }
  revert w addrlen Hf. induction fuel as [|fuel IH]; intros w addrlen Hf; [lia|]. cbn [non_blocking_accept].
  destruct (accept_gives s addrlen w Hs) as (new_s & addr & ec & w1 & E & Hg & He). io_run. rewrite E. io_run.
  destruct (Z.eqb_spec new_s invalid_socket) as [Hn|Hn]; cbn [negb].
  2:{ destruct Hg as [[? _]|(Hp & -> & Hg)]; [done|]. do 5 eexists. split; [done|]. split; [by right|done]. }
  destruct (He Hn) as (e & -> & Hre). rewrite ec_interrupted. destruct (Z.eqb_spec e EINTR) as [->|Hi].
  2:{ do 5 eexists. split; [done|]. split; [done|]. split; [by intros [= ?]|done]. }
  specialize (Hre ltac:(unfold retry_errno; auto)).
  destruct Hg as [(_ & Heb & Ef & Hl)|(? & _)]; [|subst; unfold invalid_socket in *; lia].
  destruct (IH w1 (snd addr)) as (fi & n & ad & ec' & w3 & -> & Hg3 & Hec); [lia|]. do 5 eexists. split; [done|].
  split; [|done]. unfold gives, goes in *. rewrite Ef in Hg3.
  destruct Hg3 as [(-> & ? & ? & ?)|(? & -> & ? & ? & ?)]; [left|right]; split_and!; try done; lia.
Qed.

(** [o] has been tried with the sockets [m], and is [o'] after that. *)
Definition performed (mem : Z -> byte) (o : reactor_op) m w (finished : bool) (o' : reactor_op) m' w' : Prop :=
  let ec := ro_ec o' in
  ro_op o' = ro_op o /\
  match ro_op o with
  | RecvOp s state buffers flags =>
    let r := vlen (seq_bytes mem (take max_buffers buffers)) in
    m' = m /\ ec <> interrupted /\ (finished = false <-> ec = would_block) /\
    (ec = error_code_new -> ro_bytes o' = vlen (ro_data o') /\ ro_bytes o' <= r /\
       (flag_set state stream_oriented = true -> 0 < ro_bytes o')) /\
    (ec <> error_code_new -> ro_data o' = [])
  | SendOp s buffers flags =>
    let data := seq_bytes mem (take max_buffers buffers) in
    m' = m /\ ec <> interrupted /\ (finished = false <-> ec = would_block) /\
    sent (kernel w') s = sent (kernel w) s ++ ro_data o' /\
    ro_data o' = (if finished then take (Z.to_nat (ro_bytes o')) data else []) /\
    (if finished then 0 <= ro_bytes o' <= vlen data else ro_bytes o' = ro_bytes o)
  | AcceptOp s state peer type =>
    (finished = false -> m' = m /\ accept_retries state ec = true) /\
    (forall h, h <> peer -> impl_of m' h = impl_of m h) /\
    opens (impl_of m peer) (impl_of m' peer) ec w w'
  | ConnectOp s => m' = m /\ (finished = false -> ec = ro_ec o)
  | NullBuffersOp => m' = m /\ finished = true /\ o' = o /\ w' = w
  end.

Lemma perform_returns fuel mem o m w : (patience (kernel w) < fuel)%nat ->
  match ro_op o with
  | RecvOp _ _ buffers _ | SendOp _ buffers _ => sizes_ok buffers /\ vlen (seq_bytes mem buffers) < 2 ^ 64
  | _ => True
  end ->
  exists finished o' m' w', do_perform fuel mem o m w = (Some (finished, o', m'), w') /\
    performed mem o m w finished o' m' w'.
Proof.
  intros Hf Ho. unfold do_perform, performed, recv_do_perform, send_do_perform, accept_do_perform, connect_do_perform. destruct o as [[s st l fl|s l fl|s st peer ty|s|] ec0 n0 d0]; cbn [ro_op] in *.
  - destruct Ho as [Hs Hl]. destruct (adapter_spec mem l Hs Hl) as (Em & _ & _).
    destruct (non_blocking_recv_returns fuel s (native (buffer_sequence_adapter l))
      (Z.of_nat (count_ (buffer_sequence_adapter l))) fl (flag_set st stream_oriented) n0 w Hf)
      as (c & b & d & ec & w' & E & Hi & Hc & Hok & Hbad).
    rewrite Em in Hok. rewrite (room_seq_bytes mem) in Hok by (by apply Forall_take).
    cbn [ro_bytes]. io_run. rewrite E. io_run. do 4 eexists. split; [done|]. cbn [ro_op ro_ec ro_bytes ro_data].
    split_and!; try done; try apply Hc.
    + intros He. destruct (Hok He) as (-> & Hp & Hle). split; [done|]. split; [done|]. intros Hst. by rewrite Hst in Hp.
    + intros He. by destruct (Hbad He).
  - destruct Ho as [Hs Hl]. destruct (adapter_spec mem l Hs Hl) as (_ & Ed & _).
    destruct (non_blocking_send_returns fuel mem s (native (buffer_sequence_adapter l))
      (Z.of_nat (count_ (buffer_sequence_adapter l))) fl n0 w Hf) as (c & b & ec & w' & E & Hi & Hc & Hd).
    rewrite Ed in Hd. cbn [ro_bytes]. io_run. rewrite E. io_run. do 4 eexists. split; [done|].
    cbn [ro_op ro_ec ro_bytes ro_data]. split_and!; try done; try apply Hc.
    + rewrite Ed. destruct c; [by destruct Hd|]. destruct Hd as [_ ->]. by rewrite app_nil_r.
    + by rewrite Ed.
    + destruct c; by destruct Hd.
  - destruct (non_blocking_accept_gives fuel s st None w Hf) as (fi & n & ad & ec & w1 & E & Hg & Hi & Hfi).
    unfold mbind at 1, io_bind at 1. rewrite E. destruct Hg as [(-> & He & Hg)|(Hs & -> & Hn & Hg)].
    { rewrite Z.eqb_refl. cbn [negb]. do 4 eexists. split; [done|]. cbn [ro_op ro_ec]. split; [done|].
      split; [intros ->; split; [done|]; by destruct (accept_retries st ec)|]. split; [done|]. by left. }
    rewrite (proj2 (Z.eqb_neq _ _)) by (unfold invalid_socket; lia). cbn [negb].
    destruct (accepted_opens (fun impl ec => mret (Some (fi, ReactorOp (AcceptOp s st peer ty) ec n0 [], <[peer := impl]> m)))
      (impl_of m peer) ty n w w1 Hs Hn Hg) as (p' & ec & w' & E2 & Hop).
    cbn [ro_bytes]. rewrite E2. do 4 eexists. split; [done|]. cbn [ro_op ro_ec]. split; [done|].
    split; [intros ->; done|]. split.
    + intros h Hh. unfold impl_of. by rewrite (lookup_insert_ne m).
    + unfold impl_of at 2. by rewrite (lookup_insert_eq m).
  - unfold mbind at 1, io_bind at 1. unfold non_blocking_connect. cbn [ro_ec]. io_run.
    destruct (Socketops.call _ w) as [a w1]. destruct (a_ret a =? 0).
    { do 4 eexists. split; [done|]. done. }
    destruct (getsockopt _ _ _ _ _ _ w1) as [[[[r v] len] ec] w2]. destruct (r =? 0); do 4 eexists; (split; [done|]); done.
  - do 4 eexists. split; [done|]. done.
Qed.
End Performed.

(** ** Properties *)

(** C12. Asynchronous operations of sockets complete once, and in order: whatever
    sends, receives, accepts and connects are started on sockets that are registered or
    not, between the rounds of the loop and in handlers, with whatever other calls, no
    call fails or runs out of fuel; every operation that was started has completed
    exactly once or is pending in exactly one place; the outstanding work is the number
    of those, and one more in a handler; and the operations of one kind on one
    descriptor finish in the order in which they were started. *)
Theorem async_complete_once {T} `{Time_TraitsLaws T} `{!Time_Range T}
    {K} `{KernelLaws K} `{Sockservice.Reactor K} `{EpollKernel K}
    (m : gmap Z per_timer_data) hint tf (k : async_world K) (cs : list (async_call T K)) :
  fresh_timers m -> aw_log k = [] -> all_allowed cs (system_new m hint tf k) -> Forall async_keeps_log cs ->
  exists s, async_exec_all cs (system_new m hint tf k) = Some (Ok s) /\
    NoDup (completed s ++ pending (rx s)) /\ started s ≡ₚ completed s ++ pending (rx s) /\
    total_work (Epoll.io (rx s)) = vlen (pending (rx s)) + (if in_handler (Epoll.io (rx s)) then 1 else 0) /\
    forall p t, filter (fun a => a ∈ issued p t cs) (aw_log (kern (rx s))) `sublist_of` issued p t cs.
Proof.
  intros Hm Hk Ha Hc. destruct (async_exec_all_ok cs _ (new_inv m hint tf k Hm) Ha) as (s & E & [Hr Hcons Hn]).
  exists s. split_and!; [done|by rewrite <- Hcons|done|apply Hr|]. intros p t.
  pose proof (ordered_log _ s p t (async_exec_all_order cs _ _ _ (new_order m hint tf k Hk) Ha Hc E)) as Ho.
  by rewrite foldl_async_note in Ho.
Qed.

(** What the reactor gets when it tries an operation ([performed]): no operation
    runs out of tries or reports an interruption; a send or a receive is unfinished
    exactly when the system would block, and then nothing was transferred; what a send
    transfers is what its buffers start with, and a receive from a stream that succeeds
    has stored at least one byte, and no more than there is room; an accept gives the
    new descriptor to its peer or closes it, and an unfinished connect leaves its
    error alone. *)
Theorem operation_performed {K} `{DescriptorLaws K} `{EpollKernel K} (a : Z) (k k' : async_world K) finished ec :
  perform a k = (finished, ec, k') ->
  match ro_op (the_op a k) with
  | RecvOp _ _ buffers _ | SendOp _ buffers _ => sizes_ok buffers /\ vlen (seq_bytes (aw_mem k) buffers) < 2 ^ 64
  | _ => True
  end ->
  performed (aw_mem k) (the_op a k) (aw_impls k) (aw_world k) finished (the_op a k') (aw_impls k') (aw_world k') /\
  ec = ro_ec (the_op a k') /\ aw_mem k' = aw_mem k /\ (forall b, b <> a -> the_op b k' = the_op b k).
Proof.
  intros E Ho.
  destruct (perform_returns (op_fuel k) (aw_mem k) (the_op a k) (aw_impls k) (aw_world k)) as (f & o' & m' & w' & Ep & Hp);
    [unfold op_fuel; lia|done|].
  change (perform a k) with (perform_op a k) in E. unfold perform_op in E. rewrite Ep in E. injection E as <- <- <-.
  unfold the_op in *. cbn [aw_ops aw_impls aw_world aw_mem]. rewrite lookup_insert_eq. cbn [default from_option id].
  split_and!; [exact Hp|done..|]. intros b Hb. by rewrite lookup_insert_ne.
Qed.

(** C13. An accept is tried at once only if its handler is a continuation: the arguments
    [is_continuation] and [is_non_blocking] of [start_op] are swapped.  With a
    connection waiting ([perform] would finish) on a registered, non-blocking acceptor
    with no other operations, the accept of an ordinary handler is queued, and the
    accept of a continuation completes at once, as both would with the arguments in
    their order. *)
Theorem accept_arguments_swapped {T} `{Time_TraitsLaws T} {K} `{KernelLaws K} `{Sockservice.Reactor K} `{EpollKernel K}
    (h p a : Z) (d : descriptor_state) ec k' (r : reactor T (async_world K)) :
  p <> 0 -> states r !! p = Some d -> ds_shutdown_ d = false -> read_queue d = [] -> except_queue d = [] ->
  flag_set (state_ (impl_at h r)) non_blocking = true -> perform a (kern r) = (true, ec, k') ->
  let done_at_once cont := Ok (with_io (post_immediate_completion (UserOp (WaitOp a ec)) cont) (with_kern k' r)) in
  (exists r', start_accept_op h p a false false r = Ok r' /\
     states r' !! p = Some (set_op_queue read_op [op_of a r] d)) /\
  start_accept_op h p a true false r = done_at_once true /\
  forall cont, svc_start_op h read_op p a cont true false r = done_at_once cont.
Proof.
  intros Hp Hd Hsh Hq Hx Hnb Hperf done_at_once.
  unfold start_accept_op, svc_start_op, make_non_blocking, start_op, state_get. rewrite Hnb. cbn [negb].
  rewrite (proj2 (Z.eqb_neq _ _) Hp), Hd. cbn [mbind outcome_bind]. rewrite Hsh. cbn [op_queue_of]. rewrite Hq.
  split; [|split; [|intros cont]]; cbn [andb]; rewrite ?Hx; cbn [wo_addr op_of]; rewrite ?Hperf; try reflexivity.
  destruct (epoll_ctl _ _ _ _ _) as [x k1]. eexists. split; [reflexivity|].
  cbn [with_io state_set with_states states]. by rewrite lookup_insert_eq.
Qed.

(** ** A run: two sends, of which the first waits, and a receive *)
#[export] Instance fd_epoll : EpollKernel fdkernel := {|
  epoll_ctl _ _ _ _ k := (0, k);
  timerfd_settime _ k := k;
  epoll_wait _ k := k;
  perform _ k := (true, error_code_new, k)
|}.

Definition sample_world (answers : list Z) : async_world fdkernel :=
  AsyncWorld (World (FdKernel {[7]} (Script answers ∅ ∅) 0) 0) letters ∅
    {[1 := BaseImpl 7 stream_oriented; 2 := BaseImpl 8 (Z.lor stream_oriented internal_non_blocking)]} [].
Definition sample_async : list (async_call Z fdkernel) :=
  [LoopCall InitTask; LoopCall (Register 5000 7); SocketCall (AsyncSend [Buffer 65 3] 0) 1 5000 1 false;
   SocketCall (AsyncSend [Buffer 70 2] 0) 1 5000 2 false; SocketCall (AsyncReceive [Buffer 0 10] 0) 1 5000 3 false;
   LoopCall (RunOne 50000 50000 [FromState 5000 EPOLLOUT]); LoopCall (RunOne 50000 50000 []); LoopCall Return;
   LoopCall (RunOne 50000 50000 []); LoopCall Return; LoopCall (RunOne 50000 50000 []);
   SocketCall (AsyncConnect [Byte.x41]) 2 0 4 true].
Definition sample_async_start : system Z (async_world fdkernel) :=
  system_new sample_timers 0 true (sample_world [-11; 4; -4; 2; 5]).

Lemma async_complete_once_witness :
  exists s, async_exec_all sample_async sample_async_start = Some (Ok s) /\
    completed s = [3; 1] /\ aw_log (kern (rx s)) = [3; 1; 2] /\
    sent (kernel (aw_world (kern (rx s)))) 7 = letters <$> [65; 66; 70; 71] /\
    NoDup (completed s ++ pending (rx s)) /\ started s ≡ₚ completed s ++ pending (rx s).
Proof.
  destruct (async_complete_once sample_timers 0 true (sample_world [-11; 4; -4; 2; 5]) sample_async) as (s & E & Hn & Hp & _);
    [apply sample_fresh|done|apply check_async_sound; vm_compute; reflexivity|by repeat constructor|].
  exists s. split; [exact E|].
  assert (Ec : match async_exec_all sample_async sample_async_start with
    | Some (Ok s) => (completed s, aw_log (kern (rx s)), sent (kernel (aw_world (kern (rx s)))) 7)
    | _ => ([], [], []) end = ([3; 1], [3; 1; 2], letters <$> [65; 66; 70; 71])) by (vm_compute; reflexivity).
  unfold sample_async_start in Ec. rewrite E in Ec. injection Ec as E1 E2 E3.
  split_and!; [exact E1|exact E2|exact E3|exact Hn|exact Hp].
Defined.

Definition sample_op (o : socket_op) (answers : list Z) : async_world fdkernel := set_op 9 (reactor_op_new o) (sample_world answers).

Lemma operation_performed_witness :
  exists k', perform 9 (sample_op (SendOp 7 [Buffer 65 3] 0) [-4; 2]) = (true, error_code_new, k') /\
    sent (kernel (aw_world k')) 7 = letters <$> [65; 66].
Proof.
  set (k := sample_op (SendOp 7 [Buffer 65 3] 0) [-4; 2]). destruct (perform 9 k) as [[f ec] k'] eqn:E.
  destruct (operation_performed 9 k k' f ec E) as ((_ & _ & _ & _ & Hs & Hd & _) & _ & _ & _).
  { change (ro_op (the_op 9 k)) with (SendOp 7 [Buffer 65 3] 0). split; [repeat constructor; cbn; lia|vm_compute; reflexivity]. }
  assert (Ek : (perform 9 k).1 = (true, error_code_new) /\ ro_bytes (the_op 9 (perform 9 k).2) = 2) by (vm_compute; done).
  rewrite E in Ek. cbn [fst snd] in Ek. destruct Ek as [[= -> ->] Eb].
  exists k'. split; [done|]. rewrite Hs, Hd, Eb. vm_compute. reflexivity.
Defined.

(** An acceptor with a registered descriptor, and a connection that waits *)
Definition sample_acceptor : reactor Z (async_world fdkernel) :=
  let k := set_impl 3 (BaseImpl 7 internal_non_blocking) (sample_op (AcceptOp 7 internal_non_blocking 4 SOCK_STREAM) [1]) in
  match register_descriptor 5000 7 (reactor_new sample_timers 0 true k) with Ok e => e.2 | _ => reactor_new sample_timers 0 true k end.

Lemma accept_arguments_swapped_witness :
  exists d r', states r' !! 5000 = Some d /\ addrs_of (read_queue d) = [9] /\
    start_accept_op 3 5000 9 false false sample_acceptor = Ok r'.
Proof.
  destruct (states sample_acceptor !! 5000) as [d|] eqn:Ed; [|vm_compute in Ed; done].
  destruct (perform 9 (kern sample_acceptor)) as [[f ec] k'] eqn:Ep.
  assert (Ef : (perform 9 (kern sample_acceptor)).1.1 = true) by (vm_compute; reflexivity). rewrite Ep in Ef. cbn in Ef. subst f.
  destruct (accept_arguments_swapped 3 5000 9 d ec k' sample_acceptor) as [(r' & E & Er) _];
    [done|exact Ed|vm_compute in Ed; injection Ed as <-; done..|vm_compute; reflexivity|exact Ep|].
  by exists (set_op_queue read_op [op_of 9 sample_acceptor] d), r'.
Defined.
