(* ===== verification/Streambuf.v ===== *)
(** * A stream buffer (asio/basic_streambuf.hpp)

    One array of characters: the input sequence, what has been put in and not
    taken out, lies from [gptr] to [pptr], the output sequence from [pptr] to
    [epptr].  Pointers are offsets in the array; [eback] is its start.  An
    operation that may throw returns the object it leaves as well.
    [streambuf_refines] shows a queue of bytes with a maximum size;
    [prepare_throws] what an exception leaves. *)
From S2P Require Import Prelude Socketops Asiobuf.

(** The capacity of a vector after [resize], from the one before *)
Class VecResize := resize_capacity : Z -> Z -> Z.
(** What [resize] to a size throws, [bad_alloc] or [length_error], if it does *)
Class Memory := resize_throws : Z -> option exn.
Class MemoryLasts `{Memory} := lasts n : resize_throws n = None.

Record streambuf := Streambuf {
  max_size_ : Z;
  buffer_ : list byte;
  capacity_ : Z;
  gptr : Z;
  egptr : Z;
  pptr : Z;
  epptr : Z
}.

Definition buffer_delta := 128.
Definition traits_eof := -1.
Definition too_long : exn := LogicError (lit "asio::streambuf too long").

Definition setg (next end_ : Z) (sb : streambuf) : streambuf :=
  Streambuf (max_size_ sb) (buffer_ sb) (capacity_ sb) next end_ (pptr sb) (epptr sb).
Definition setp (next end_ : Z) (sb : streambuf) : streambuf :=
  Streambuf (max_size_ sb) (buffer_ sb) (capacity_ sb) (gptr sb) (egptr sb) next end_.
Definition with_buffer (l : list byte) (c : Z) (sb : streambuf) : streambuf :=
  Streambuf (max_size_ sb) l c (gptr sb) (egptr sb) (pptr sb) (epptr sb).
Definition gbump (n : Z) (sb : streambuf) : streambuf := setg (gptr sb + n) (egptr sb) sb.
Definition pbump (n : Z) (sb : streambuf) : streambuf := setp (pptr sb + n) (epptr sb) sb.

(** [vector::resize] on the characters *)
Definition resize_chars (l : list byte) (n : Z) : list byte := resize (Z.to_nat n) Byte.x00 l.
Definition memmove_front (l : list byte) (from n : Z) : list byte :=
  take (Z.to_nat n) (drop (Z.to_nat from) l) ++ drop (Z.to_nat n) l.

Section Streambuf.
Context `{VecResize, Memory}.

(** An object whose first array could be allocated *)
Definition streambuf_new (maximum_size : Z) : streambuf :=
  let pend := Z.min maximum_size buffer_delta in
  let n := Z.max pend 1 in
  Streambuf maximum_size (resize_chars [] n) (resize_capacity 0 n) 0 0 0 pend.

Definition sb_size (sb : streambuf) : Z := u64 (pptr sb - gptr sb).
Definition sb_max_size (sb : streambuf) : Z := max_size_ sb.
Definition sb_data (sb : streambuf) : buffer := Buffer (gptr sb) (u64 (pptr sb - gptr sb)).

Definition sb_reserve (n : Z) (sb : streambuf) : outcome unit * streambuf :=
  let gnext := gptr sb in
  let pnext := pptr sb in
  let pend := epptr sb in
  if n <=? u64 (pend - pnext) then (Ok tt, sb)
  else
    let shift := 0 <? gnext in
    let pnext := if shift then u64 (pnext - gnext) else pnext in
    let sb := if shift then with_buffer (memmove_front (buffer_ sb) gnext pnext) (capacity_ sb) sb else sb in
    let positions pend sb := (Ok tt, setp pnext pend (setg 0 pnext sb)) in
    if u64 (pend - pnext) <? n then
      if (n <=? max_size_ sb) && (pnext <=? u64 (max_size_ sb - n)) then
        let pend := u64 (pnext + n) in
        let size := Z.max pend 1 in
        match resize_throws size with Some e => (Throws e, sb) | None =>
        positions pend (with_buffer (resize_chars (buffer_ sb) size) (resize_capacity (capacity_ sb) size) sb)
        end
      else (Throws too_long, sb)
    else positions pend sb.

Definition sb_prepare (n : Z) (sb : streambuf) : outcome buffer * streambuf :=
  let '(r, sb) := sb_reserve n sb in
  (match r with Ok _ => Ok (Buffer (pptr sb) n) | Throws e => Throws e | Crash x => Crash x end, sb).

Definition sb_commit (n : Z) (sb : streambuf) : streambuf :=
  let n := if epptr sb <? pptr sb + n then u64 (epptr sb - pptr sb) else n in
  let sb := pbump (i32 n) sb in
  setg (gptr sb) (pptr sb) sb.

Definition sb_consume (n : Z) (sb : streambuf) : streambuf :=
  let sb := if egptr sb <? pptr sb then setg (gptr sb) (pptr sb) sb else sb in
  let n := if pptr sb <? gptr sb + n then u64 (pptr sb - gptr sb) else n in
  gbump (i32 n) sb.

(** Characters as [int_type]s; [traits_eof] is none. *)
Definition underflow (sb : streambuf) : outcome Z * streambuf :=
  if gptr sb <? pptr sb then
    let sb := setg (gptr sb) (pptr sb) sb in (uchar <$> vget (buffer_ sb) (gptr sb), sb)
  else (Ok traits_eof, sb).

Definition overflow (c : Z) (sb : streambuf) : outcome Z * streambuf :=
  if negb (c =? traits_eof) then
    let '(r, sb) :=
      if pptr sb =? epptr sb then
        let size := u64 (pptr sb - gptr sb) in
        if (size <? max_size_ sb) && (u64 (max_size_ sb - size) <? buffer_delta)
        then sb_reserve (u64 (max_size_ sb - size)) sb
        else sb_reserve buffer_delta sb
      else (Ok tt, sb) in
    match r with
    | Ok _ =>
      match vset (buffer_ sb) (pptr sb) (of_uchar c) with
      | Ok l => (Ok c, pbump 1 (with_buffer l (capacity_ sb) sb))
      | Throws e => (Throws e, sb)
      | Crash x => (Crash x, sb)
      end
    | Throws e => (Throws e, sb)
    | Crash x => (Crash x, sb)
    end
  else (Ok 0, sb).

Definition read_size_helper (sb : streambuf) (max_size : Z) : Z :=
  Z.min (Z.max 512 (u64 (capacity_ sb - sb_size sb))) (Z.min max_size (u64 (sb_max_size sb - sb_size sb))).
End Streambuf.

(** ** The input sequence *)
Definition contents (sb : streambuf) : list byte :=
  take (Z.to_nat (pptr sb - gptr sb)) (drop (Z.to_nat (gptr sb)) (buffer_ sb)).

Record sb_wf (sb : streambuf) : Prop := {
  sw_get : 0 <= gptr sb <= egptr sb;
  sw_end : egptr sb <= pptr sb;
  sw_put : pptr sb <= epptr sb;
  sw_max : epptr sb <= max_size_ sb < 2 ^ 64;
  sw_buffer : vlen (buffer_ sb) = Z.max (epptr sb) 1
}.

Lemma vlen_resize l n : 0 <= n -> vlen (resize_chars l n) = n.
Proof. intros Hn. unfold vlen, resize_chars. rewrite length_resize. lia. Qed.

Lemma vlen_memmove l from n : 0 <= from -> 0 <= n -> from + n <= vlen l -> vlen (memmove_front l from n) = vlen l.
Proof. unfold vlen, memmove_front. intros. rewrite length_app, length_take, !length_drop. lia. Qed.

Lemma vlen_contents sb : sb_wf sb -> vlen (contents sb) = pptr sb - gptr sb.
Proof.
  intros [? ? ? ? Hb]. unfold contents. unfold vlen in *. rewrite length_take, length_drop. lia.
Qed.

Lemma sb_size_spec sb : sb_wf sb -> sb_size sb = vlen (contents sb).
Proof. intros Hw. rewrite vlen_contents by done. destruct Hw. apply u64_id. ulia. Qed.

(** The same characters, from the start of the array *)
Lemma contents_moved l from n : 0 <= from -> 0 <= n -> from + n <= vlen l ->
  take (Z.to_nat n) (memmove_front l from n) = take (Z.to_nat n) (drop (Z.to_nat from) l).
Proof.
  intros Hf Hn Hl. unfold memmove_front. rewrite take_app_le, take_take, Nat.min_id; [done|].
  unfold vlen in Hl. rewrite length_take, length_drop. lia.
Qed.

Lemma take_resize_chars l k n : 0 <= k <= vlen l -> k <= n -> take (Z.to_nat k) (resize_chars l n) = take (Z.to_nat k) l.
Proof.
  intros [Hk Hl] Hn. unfold vlen in *. unfold resize_chars. rewrite <- !resize_le with (x := Byte.x00) by (rewrite ?length_resize; lia).
  rewrite resize_resize by lia. done.
Qed.

Section Reserve.
Context `{VecResize, Memory}.

(** What [sb_reserve] does with the array, before it looks at the limit *)
Definition shifted (sb : streambuf) : list byte :=
  if 0 <? gptr sb then memmove_front (buffer_ sb) (gptr sb) (pptr sb - gptr sb) else buffer_ sb.

Lemma shifted_spec sb : sb_wf sb ->
  vlen (shifted sb) = vlen (buffer_ sb) /\ take (Z.to_nat (pptr sb - gptr sb)) (shifted sb) = contents sb.
Proof.
  intros [? ? ? ? Hb]. unfold shifted, contents. destruct (Z.ltb_spec 0 (gptr sb)).
  - rewrite vlen_memmove, contents_moved by lia. done.
  - assert (gptr sb = 0) as -> by lia. done.
Qed.

(** There is room afterwards, or the characters may have been moved but the pointers
    not. *)
Lemma sb_reserve_cases n sb : sb_wf sb -> 0 <= n < 2 ^ 64 ->
  (vlen (contents sb) + n <= max_size_ sb /\ exists sb', sb_reserve n sb = (Ok tt, sb') /\
     sb_wf sb' /\ contents sb' = contents sb /\ max_size_ sb' = max_size_ sb /\ n <= epptr sb' - pptr sb') \/
  exists e, sb_reserve n sb = (Throws e, with_buffer (shifted sb) (capacity_ sb) sb) /\
    ((max_size_ sb < vlen (contents sb) + n /\ e = too_long) \/
     (vlen (contents sb) + n <= max_size_ sb /\ exists size, resize_throws size = Some e)).
Proof.
  intros Hw Hn. pose proof Hw as [Hg He Hp Hm Hb]. rewrite vlen_contents by done. unfold sb_reserve.
  rewrite (u64_id (epptr sb - pptr sb)) by ulia.
  destruct (Z.leb_spec n (epptr sb - pptr sb)) as [Hfit|Hfit].
  { left. split; [lia|]. by exists sb. }
  destruct (shifted_spec sb Hw) as [Hsl Hst]. unfold vlen in Hsl.
  assert (Epn : (if 0 <? gptr sb then u64 (pptr sb - gptr sb) else pptr sb) = pptr sb - gptr sb).
  { destruct (Z.ltb_spec 0 (gptr sb)); [apply u64_id; ulia|lia]. }
  assert (Esb : (if 0 <? gptr sb
      then with_buffer (memmove_front (buffer_ sb) (gptr sb)
             (if 0 <? gptr sb then u64 (pptr sb - gptr sb) else pptr sb)) (capacity_ sb) sb else sb)
      = with_buffer (shifted sb) (capacity_ sb) sb).
  { unfold shifted. rewrite Epn. destruct (0 <? gptr sb); [done|by destruct sb]. }
  cbn zeta. rewrite Esb, Epn. rewrite (u64_id (epptr sb - (pptr sb - gptr sb))) by ulia. cbn [max_size_ with_buffer].
  set (k := pptr sb - gptr sb) in *.
  assert (Hwf : forall pend l c, vlen l = Z.max pend 1 -> k <= pend <= max_size_ sb ->
    take (Z.to_nat k) l = contents sb ->
    sb_wf (setp k pend (setg 0 k (with_buffer l c sb))) /\
    contents (setp k pend (setg 0 k (with_buffer l c sb))) = contents sb).
  { intros pend l c Hl Hk Ht. split; [split; cbn; lia|]. unfold contents. cbn. by rewrite Z.sub_0_r. }
  destruct (Z.ltb_spec (epptr sb - k) n) as [Hgrow|Hgrow].
  - rewrite andb_if. destruct (Z.leb_spec n (max_size_ sb)) as [Hn1|Hn1].
    2:{ right. eexists. split; [reflexivity|]. left. split; [lia|done]. }
    rewrite (u64_id (max_size_ sb - n)) by ulia.
    destruct (Z.leb_spec k (max_size_ sb - n)) as [Hn2|Hn2].
    2:{ right. eexists. split; [reflexivity|]. left. split; [lia|done]. }
    rewrite (u64_id (k + n)) by ulia. cbn [buffer_ capacity_ with_buffer].
    destruct (resize_throws (Z.max (k + n) 1)) as [e|] eqn:Er.
    { right. eexists. split; [reflexivity|]. right. split; [lia|by eexists]. }
    left. split; [lia|]. eexists. split; [reflexivity|].
    destruct (Hwf (k + n) (resize_chars (shifted sb) (Z.max (k + n) 1))
      (resize_capacity (capacity_ sb) (Z.max (k + n) 1))) as [Hw' Hc'].
    + rewrite vlen_resize; lia.
    + lia.
    + rewrite take_resize_chars; [done| |lia]. unfold vlen in *. lia.
    + split; [exact Hw'|]. split; [exact Hc'|]. split; [done|]. cbn. lia.
  - left. split; [lia|]. eexists. split; [reflexivity|].
    destruct (Hwf (epptr sb) (shifted sb) (capacity_ sb)) as [Hw' Hc']; [unfold vlen in *; lia|lia|done|].
    split; [exact Hw'|]. split; [exact Hc'|]. split; [done|]. cbn. lia.
Qed.

(** While memory lasts *)
Lemma sb_reserve_spec `{!MemoryLasts} n sb : sb_wf sb -> 0 <= n < 2 ^ 64 ->
  exists sb', sb_reserve n sb = ((if vlen (contents sb) + n <=? max_size_ sb then Ok tt else Throws too_long), sb') /\
    (vlen (contents sb) + n <= max_size_ sb ->
       sb_wf sb' /\ contents sb' = contents sb /\ max_size_ sb' = max_size_ sb /\ n <= epptr sb' - pptr sb').
Proof.
  intros Hw Hn. destruct (sb_reserve_cases n sb Hw Hn) as [(Hle & sb' & -> & Hok)|(e & -> & [[Hlt ->]|(Hle & m & Hm)])].
  - exists sb'. by rewrite (proj2 (Z.leb_le _ _)).
  - eexists. rewrite (proj2 (Z.leb_gt _ _)) by done. split; [done|lia].
  - by rewrite lasts in Hm.
Qed.

(** What a stream does with the buffer from [sb_prepare] *)
Definition sb_store (data : list byte) (sb : streambuf) : streambuf :=
  with_buffer (take (Z.to_nat (pptr sb)) (buffer_ sb) ++ data
               ++ drop (Z.to_nat (pptr sb) + length data) (buffer_ sb)) (capacity_ sb) sb.

Lemma sb_commit_spec data sb : sb_wf sb -> vlen data <= epptr sb - pptr sb -> vlen data < 2 ^ 31 ->
  let sb' := sb_commit (vlen data) (sb_store data sb) in
  sb_wf sb' /\ contents sb' = contents sb ++ data /\ max_size_ sb' = max_size_ sb.
Proof.
  intros [Hg He Hp Hm Hb] Hr Hd. pose proof (vlen_nonneg data). unfold sb_commit, sb_store. cbn.
  rewrite (proj2 (Z.ltb_ge _ _)), i32_id by ulia. unfold vlen in *.
  split; [split; cbn; unfold vlen; rewrite ?length_app, ?length_take, ?length_drop; lia|]. split; [|done].
  unfold contents. cbn. rewrite drop_app_le by (rewrite length_take; lia).
  rewrite app_assoc, take_app_le; [|rewrite length_app, length_drop, length_take; lia].
  rewrite skipn_firstn_comm. rewrite take_ge by (rewrite length_app, length_take, length_drop; lia).
  f_equal. f_equal. lia.
Qed.

Lemma sb_consume_spec n sb : sb_wf sb -> 0 <= n -> Z.min n (vlen (contents sb)) < 2 ^ 31 ->
  sb_wf (sb_consume n sb) /\ contents (sb_consume n sb) = drop (Z.to_nat n) (contents sb)
  /\ max_size_ (sb_consume n sb) = max_size_ sb.
Proof.
  intros Hw Hn Hs. rewrite vlen_contents in Hs by done. destruct Hw as [Hg He Hp Hm Hb].
  unfold sb_consume. set (sb1 := if egptr sb <? pptr sb then _ else _).
  assert (exists e, sb1 = setg (gptr sb) e sb /\ pptr sb <= e /\ gptr sb <= e <= pptr sb) as (e & -> & He1 & He2).
  { subst sb1. destruct (Z.ltb_spec (egptr sb) (pptr sb)); [exists (pptr sb); auto with lia|].
    exists (egptr sb). split; [by destruct sb|lia]. }
  cbn. rewrite (u64_id (pptr sb - gptr sb)) by ulia.
  assert (Ek : i32 (if pptr sb <? gptr sb + n then pptr sb - gptr sb else n) = Z.min n (pptr sb - gptr sb)).
  { destruct (Z.ltb_spec (pptr sb) (gptr sb + n)); rewrite i32_id; ulia. }
  rewrite Ek. split; [split; cbn; lia|]. split; [|done]. unfold contents. cbn.
  rewrite skipn_firstn_comm, drop_drop. destruct (Z.le_gt_cases n (pptr sb - gptr sb)).
  - rewrite Z.min_l by done. f_equal; [lia|]. f_equal. lia.
  - rewrite Z.min_r by lia. replace (Z.to_nat (pptr sb - _)) with 0%nat by lia.
    by replace (Z.to_nat (pptr sb - gptr sb) - Z.to_nat n)%nat with 0%nat by lia.
Qed.

Lemma sb_underflow_spec sb : sb_wf sb ->
  exists sb', underflow sb = (Ok (match contents sb with c :: _ => uchar c | [] => traits_eof end), sb') /\
    sb_wf sb' /\ contents sb' = contents sb /\ max_size_ sb' = max_size_ sb.
Proof.
  intros Hw. pose proof (vlen_contents sb Hw) as Hl. destruct Hw as [Hg He Hp Hm Hb]. unfold underflow.
  destruct (Z.ltb_spec (gptr sb) (pptr sb)).
  - destruct (contents sb) as [|c l] eqn:E; [unfold vlen in Hl; cbn in Hl; lia|]. exists (setg (gptr sb) (pptr sb) sb). split; [|split; [split; cbn; lia|done]].
    cbn. f_equal. assert (Hc : buffer_ sb !! Z.to_nat (gptr sb) = Some c).
    { assert (contents sb !! 0%nat = Some c) as Hc by by rewrite E. unfold contents in Hc.
      apply lookup_take_Some in Hc as [Hc _]. by rewrite lookup_drop, Nat.add_0_r in Hc. }
    by rewrite (proj2 (vget_Ok _ _ c) (conj (proj1 Hg) Hc)).
  - exists sb. split; [|split; [by split|done]]. destruct (contents sb); [done|]. unfold vlen in Hl. cbn in Hl. lia.
Qed.

Lemma sb_put_spec c sb : sb_wf sb -> pptr sb < epptr sb ->
  exists l, vset (buffer_ sb) (pptr sb) c = Ok l /\
    sb_wf (pbump 1 (with_buffer l (capacity_ sb) sb)) /\
    contents (pbump 1 (with_buffer l (capacity_ sb) sb)) = contents sb ++ [c].
Proof.
  intros [Hg He Hp Hm Hb] Hlt. rewrite vset_in_range by lia. eexists. split; [reflexivity|].
  split; [split; cbn; rewrite ?vlen_insert; lia|]. unfold contents. cbn. unfold vlen in Hb.
  replace (Z.to_nat (pptr sb + 1 - gptr sb)) with (S (Z.to_nat (pptr sb - gptr sb))) by lia.
  rewrite drop_insert_ge by lia. replace (Z.to_nat (pptr sb) - Z.to_nat (gptr sb))%nat with (Z.to_nat (pptr sb - gptr sb)) by lia.
  set (k := Z.to_nat (pptr sb - gptr sb)). assert (Hk : (k < length (drop (Z.to_nat (gptr sb)) (buffer_ sb)))%nat)
    by (rewrite length_drop; lia).
  rewrite (take_S_r _ k c) by (by rewrite list_lookup_insert_eq). by rewrite take_insert_ge.
Qed.

Lemma sb_overflow_spec `{!MemoryLasts} c sb : sb_wf sb -> 0 <= c < 256 -> vlen (contents sb) < max_size_ sb ->
  exists sb', overflow c sb = (Ok c, sb') /\ sb_wf sb' /\ contents sb' = contents sb ++ [of_uchar c] /\
    max_size_ sb' = max_size_ sb.
Proof.
  intros Hw Hc Hs. pose proof (vlen_nonneg (contents sb)). pose proof (sw_max _ Hw) as Hm. unfold overflow.
  rewrite (proj2 (Z.eqb_neq c traits_eof)) by (unfold traits_eof; lia). cbn [negb].
  change (u64 (pptr sb - gptr sb)) with (sb_size sb). rewrite sb_size_spec, (u64_id (max_size_ sb - _)) by (done || ulia).
  set (r := if pptr sb =? epptr sb then _ else _).
  assert (exists sb', r = (Ok tt, sb') /\ sb_wf sb' /\ contents sb' = contents sb /\ max_size_ sb' = max_size_ sb
    /\ pptr sb' < epptr sb') as (sb1 & -> & Hw1 & Hc1 & Hm1 & Hr1).
  { assert (Hres : forall n, 0 < n -> n <= max_size_ sb - vlen (contents sb) -> exists sb', sb_reserve n sb = (Ok tt, sb') /\
      sb_wf sb' /\ contents sb' = contents sb /\ max_size_ sb' = max_size_ sb /\ pptr sb' < epptr sb').
    { intros n Hn1 Hn2. destruct (sb_reserve_spec n sb Hw) as (sb1 & -> & Hok); [lia|].
      destruct Hok as (? & ? & ? & ?); [lia|]. rewrite (proj2 (Z.leb_le _ _)) by lia.
      exists sb1. split_and!; done || lia. }
    subst r. pose proof (sw_put _ Hw). destruct (Z.eqb_spec (pptr sb) (epptr sb)).
    - rewrite (proj2 (Z.ltb_lt _ _)) by done. cbn [andb]. unfold buffer_delta in *.
      destruct (Z.ltb_spec (max_size_ sb - vlen (contents sb)) 128); apply Hres; lia.
    - exists sb. split_and!; done || lia. }
  destruct (sb_put_spec (of_uchar c) sb1 Hw1 Hr1) as (l & -> & Hw2 & Hc2). eexists. split; [reflexivity|].
  split; [done|]. by rewrite Hc2, Hc1.
Qed.
End Reserve.

Lemma sb_new_wf `{VecResize} maximum_size : in_u64 maximum_size ->
  sb_wf (streambuf_new maximum_size) /\ contents (streambuf_new maximum_size) = [].
Proof.
  intros Hm. unfold streambuf_new, buffer_delta. split; [|done].
  split; cbn [gptr egptr pptr epptr max_size_ buffer_]; [ulia..|]. rewrite vlen_resize; lia.
Qed.

(** ** A client, which keeps to the limit *)
Inductive sb_op :=
  | SbWrite (n : Z) (data : list byte)     (* prepare [n], store [data], commit it *)
  | SbPut (c : Z)
  | SbConsume (n : Z)
  | SbPeek.

Definition sb_step `{VecResize, Memory} (o : sb_op) (sb : streambuf) : outcome Z * streambuf :=
  match o with
  | SbWrite n data =>
    let '(r, sb) := sb_prepare n sb in
    match r with
    | Ok b => (Ok (size_ b), sb_commit (vlen data) (sb_store data sb))
    | Throws e => (Throws e, sb)
    | Crash x => (Crash x, sb)
    end
  | SbPut c => overflow c sb
  | SbConsume n => (Ok 0, sb_consume n sb)
  | SbPeek => underflow sb
  end.

Fixpoint sb_run `{VecResize, Memory} (ops : list sb_op) (sb : streambuf) : list (outcome Z) * streambuf :=
  match ops with
  | [] => ([], sb)
  | o :: ops' => let '(r, sb) := sb_step o sb in let '(rs, sb) := sb_run ops' sb in (r :: rs, sb)
  end.

Definition bytes_step (o : sb_op) (l : list byte) : Z * list byte :=
  match o with
  | SbWrite n data => (n, l ++ data)
  | SbPut c => (c, l ++ [of_uchar c])
  | SbConsume n => (0, drop (Z.to_nat n) l)
  | SbPeek => (match l with c :: _ => uchar c | [] => traits_eof end, l)
  end.
Fixpoint queue_bytes (ops : list sb_op) (l : list byte) : list Z * list byte :=
  match ops with
  | [] => ([], l)
  | o :: ops' => let '(r, l) := bytes_step o l in let '(rs, l) := queue_bytes ops' l in (r :: rs, l)
  end.

Definition sb_allowed (max : Z) (o : sb_op) (l : list byte) : Prop :=
  match o with
  | SbWrite n data => vlen data <= n < 2 ^ 31 /\ vlen l + n <= max
  | SbPut c => 0 <= c < 256 /\ vlen l < max
  | SbConsume n => 0 <= n < 2 ^ 31
  | SbPeek => True
  end.
Fixpoint sb_all_allowed (max : Z) (ops : list sb_op) (l : list byte) : Prop :=
  match ops with
  | [] => True
  | o :: ops' => sb_allowed max o l /\ sb_all_allowed max ops' (bytes_step o l).2
  end.

Lemma sb_step_spec `{VecResize, MemoryLasts} o sb : sb_wf sb -> sb_allowed (max_size_ sb) o (contents sb) ->
  exists sb', sb_step o sb = (Ok (bytes_step o (contents sb)).1, sb') /\ sb_wf sb' /\
    contents sb' = (bytes_step o (contents sb)).2 /\ max_size_ sb' = max_size_ sb.
Proof.
  intros Hw Ha. destruct o as [n data|c|n|]; cbn [sb_step sb_allowed bytes_step fst snd] in *.
  - pose proof (vlen_nonneg data). destruct (sb_reserve_spec n sb Hw) as (sb1 & E & Hok); [ulia|].
    destruct Hok as (Hw1 & Hc1 & Hm1 & Hr1); [lia|]. unfold sb_prepare. rewrite E, (proj2 (Z.leb_le _ _)) by lia.
    destruct (sb_commit_spec data sb1 Hw1) as (Hw2 & Hc2 & Hm2); [lia..|].
    eexists. split; [reflexivity|]. split; [done|]. split; [by rewrite Hc2, Hc1|by rewrite Hm2].
  - destruct Ha. by apply sb_overflow_spec.
  - destruct (sb_consume_spec n sb Hw) as (? & ? & ?); [lia..|]. eauto.
  - by apply sb_underflow_spec.
Qed.

Lemma sb_run_spec `{VecResize, MemoryLasts} ops : forall sb, sb_wf sb -> sb_all_allowed (max_size_ sb) ops (contents sb) ->
  exists sb', sb_run ops sb = (Ok <$> (queue_bytes ops (contents sb)).1, sb') /\ sb_wf sb' /\
    contents sb' = (queue_bytes ops (contents sb)).2 /\ max_size_ sb' = max_size_ sb.
Proof.
  induction ops as [|o ops IH]; intros sb Hw Ha; [eexists; by split|]. destruct Ha as [Ha Has].
  destruct (sb_step_spec o sb Hw Ha) as (sb1 & E & Hw1 & Hc1 & Hm1). cbn [sb_run queue_bytes]. rewrite E.
  rewrite <- Hc1, <- Hm1 in Has. destruct (IH sb1 Hw1 Has) as (sb2 & -> & Hw2 & Hc2 & Hm2). rewrite Hc1 in *.
  destruct (bytes_step o (contents sb)) as [r l]. cbn [fst snd] in *. destruct (queue_bytes ops l) as [rs l'].
  cbn [fst snd] in *. eexists. split; [reflexivity|]. split; [done|]. split; [done|congruence].
Qed.

(** ** Properties *)

(** A stream buffer is a queue of bytes.  While memory lasts and its client keeps to
    the maximum size, nothing throws, each operation gives what it gives on the queue, the
    input sequence is the queue, [sb_size] its length, and the pointers stay in
    order within the array. *)
Theorem streambuf_refines `{VecResize, MemoryLasts} maximum_size ops :
  in_u64 maximum_size -> sb_all_allowed maximum_size ops [] ->
  exists sb, sb_run ops (streambuf_new maximum_size) = (Ok <$> (queue_bytes ops []).1, sb) /\
    contents sb = (queue_bytes ops []).2 /\ sb_size sb = vlen (contents sb) /\
    size_ (sb_data sb) = vlen (contents sb) /\ sb_wf sb.
Proof.
  intros Hm Ha. destruct (sb_new_wf maximum_size Hm) as [Hw Hc].
  destruct (sb_run_spec ops _ Hw) as (sb & E & Hw' & Hc' & _); [by rewrite Hc|]. rewrite Hc in *.
  exists sb. split; [done|]. split; [done|]. split; [by apply sb_size_spec|]. split; [by apply sb_size_spec|done].
Qed.

#[local] Instance resize_double : VecResize := fun c n => Z.max n (2 * c).
#[export] Instance plenty : Memory := fun _ => None.
#[export] Instance plenty_lasts : MemoryLasts.
Proof. by intros n. Qed.
Definition sample_sb_ops : list sb_op :=
  [SbWrite 200 (lit "GET / HTTP/1.1"); SbPeek; SbConsume 4; SbPut 33; SbConsume 90; SbPeek; SbPut 65; SbWrite 9 (lit "bc")].
Lemma streambuf_refines_witness :
  exists sb, sb_run sample_sb_ops (streambuf_new 210) = (Ok <$> [200; 71; 0; 33; 0; -1; 65; 9], sb) /\
    contents sb = lit "Abc" /\ sb_wf sb.
Proof.
  destruct (streambuf_refines 210 sample_sb_ops) as (sb & E & Hc & _ & _ & Hw).
  - ulia.
  - cbn [sb_all_allowed sample_sb_ops sb_allowed]. repeat (split; [vm_compute; intuition congruence|]). done.
  - exists sb. split; [exact E|]. split; [exact Hc|exact Hw].
Defined.

(** When a request goes beyond the maximum size, [prepare] throws; if nothing has
    been consumed since the characters were last moved, the object is as before.
    Otherwise they have been moved to the start of the array but the pointers not:
    the input sequence now starts as many characters further on as have been
    consumed, and keeps its length. *)
Theorem prepare_throws `{VecResize, Memory} n sb :
  sb_wf sb -> 0 <= n < 2 ^ 64 -> max_size_ sb < vlen (contents sb) + n ->
  exists sb', sb_prepare n sb = (Throws too_long, sb') /\ sb_wf sb' /\ (gptr sb = 0 -> sb' = sb) /\
    vlen (contents sb') = vlen (contents sb) /\
    forall i, 0 <= i -> gptr sb + i < vlen (contents sb) ->
      contents sb' !! Z.to_nat i = contents sb !! Z.to_nat (gptr sb + i).
Proof.
  intros Hw Hn Ht. destruct (sb_reserve_cases n sb Hw Hn) as [[? _]|(e & E & [[_ ->]|[? _]])]; [lia| |lia].
  destruct (shifted_spec sb Hw) as [Hsl Hst]. pose proof Hw as [Hg He Hp Hm Hb]. unfold sb_prepare.
  rewrite E. eexists. split; [reflexivity|].
  assert (Hw' : sb_wf (with_buffer (shifted sb) (capacity_ sb) sb)) by (split; cbn; lia).
  split; [done|]. split; [|split].
  - intros Hz. unfold shifted. rewrite Hz. by destruct sb.
  - by rewrite !vlen_contents.
  - intros i Hi Hlt. rewrite vlen_contents in Hlt by done. rewrite <- Hst. unfold contents. cbn.
    rewrite !lookup_take_lt by lia. rewrite lookup_drop. f_equal. lia.
Qed.

(** A full buffer of which a character has been taken, and one too many *)
Definition taken_sb : streambuf := (sb_run [SbWrite 4 (lit "abcd"); SbConsume 1] (streambuf_new 4)).2.
Lemma prepare_throws_witness :
  contents taken_sb = lit "bcd" /\
  exists sb', sb_prepare 2 taken_sb = (Throws too_long, sb') /\ sb_wf sb' /\
    contents sb' !! 0%nat = Some Byte.x63 /\ contents sb' = lit "cdd".
Proof.
  split; [vm_compute; reflexivity|].
  destruct (sb_run_spec [SbWrite 4 (lit "abcd"); SbConsume 1] (streambuf_new 4)) as (sb & Es & Hw & _ & _);
    [apply sb_new_wf; ulia|vm_compute; intuition congruence|].
  destruct (prepare_throws 2 taken_sb) as (sb' & E & Hw' & _ & _ & Hi).
  - unfold taken_sb. by rewrite Es.
  - lia.
  - vm_compute. reflexivity.
  - exists sb'. split; [done|]. split; [done|]. split; [exact (Hi 0 ltac:(lia) ltac:(vm_compute; reflexivity))|].
    assert (contents (sb_prepare 2 taken_sb).2 = lit "cdd") as Hc by (vm_compute; reflexivity). by rewrite E in Hc.
Defined.

(** [commit] and [consume] cast their argument to [int]: one of 2^31 or more moves
    the pointer back. *)
Lemma sb_consume_wraps sb n : sb_wf sb -> 2 ^ 31 <= n < 2 ^ 32 -> n <= vlen (contents sb) ->
  gptr (sb_consume n sb) = gptr sb + n - 2 ^ 32.
Proof.
  intros Hw Hn Hl. rewrite vlen_contents in Hl by done. unfold sb_consume. destruct (egptr sb <? pptr sb); cbn;
    rewrite (proj2 (Z.ltb_ge _ _)) by lia; unfold i32; replace (n + 2 ^ 31) with ((n - 2 ^ 31) + 1 * 2 ^ 32) by lia;
    rewrite Z.mod_add, Z.mod_small by lia; lia.
Qed.






