(* ===== verification/Readuntil.v ===== *)
(** * Reading up to a delimiter (asio/impl/read_until.hpp)

    The overloads of [read_until] differ in how they look for the end of the
    match: [look] gives its position, or where the next search starts.  The loop
    around it is [read_until_loop]; the chain of handlers of [async_read_until]
    is [until_run].  An iterator is a position in the bytes of the input
    sequence, see Bufiter.  Memory lasts here ([plenty] of Streambuf).  [Searcher] is what the loop needs of [look]; the
    searches for a character and for a string have it, and [read_until_correct]
    holds for both. *)
From S2P Require Import Prelude Socketops Asiobuf Asiorw Streambuf.

Definition not_found : error_code := ErrorCode 3 misc_category.

(** ** Searching; [inl]: the end of a match, [inr]: where the next search starts *)
Definition look_result : Type := Z + Z.

Fixpoint find_char (pos : Z) (t : list byte) (delim : byte) : Z :=
  match t with
  | [] => pos
  | x :: t' => if bool_decide (x = delim) then pos else find_char (pos + 1) t' delim
  end.

Definition look_char (delim : byte) (text : list byte) (search_position : Z) : look_result :=
  let iter := find_char search_position (drop (Z.to_nat search_position) text) delim in
  if negb (iter =? vlen text) then inl (iter + 1) else inr (vlen text).

(** The inner loop of [partial_search]; [started]: [test_iter2 != first2] *)
Inductive test_result := TestFull | TestPartial | TestNone.
Fixpoint test_match (t d : list byte) (started : bool) {struct d} : test_result :=
  match d with
  | [] => TestFull
  | y :: d' =>
    match t with
    | [] => if started then TestPartial else TestNone
    | x :: t' => if negb (bool_decide (x = y)) then TestNone else test_match t' d' true
    end
  end.

Fixpoint partial_search (pos : Z) (t d : list byte) : Z * bool :=
  match t with
  | [] => (pos, false)
  | _ :: t' =>
    match test_match t d false with
    | TestFull => (pos, true)
    | TestPartial => (pos, false)
    | TestNone => partial_search (pos + 1) t' d
    end
  end.

Definition look_string (delim : list byte) (text : list byte) (search_position : Z) : look_result :=
  let '(first, full) := partial_search search_position (drop (Z.to_nat search_position) text) delim in
  if negb (first =? vlen text) then (if full then inl (first + vlen delim) else inr first)
  else inr (vlen text).

(** A [match_condition] is given the text and where to start. *)
Definition look_match (match_condition : list byte -> Z -> Z * bool) (text : list byte) (search_position : Z)
    : look_result :=
  let '(first, full) := match_condition text search_position in
  if full then inl first
  else if negb (first =? vlen text) then inr first
  else inr (vlen text).

(** ** The loop *)
Definition sb_memory (sb : streambuf) (a : Z) : byte := default Byte.x00 (buffer_ sb !! Z.to_nat a).
Definition sb_text (sb : streambuf) : list byte := seq_bytes (sb_memory sb) [sb_data sb].

Section Until.
Context `{VecResize} {K : Type} `{Kernel K}.

Fixpoint read_until_loop (fuel : nat) (look : list byte -> Z -> look_result) (read_some : read_stream (K := K))
    (search_position : Z) (b : streambuf) : io K (option (outcome (Z * error_code) * streambuf)) :=
  match fuel with
  | O => mret None
  | S fuel' =>
    match look (sb_text b) search_position with
    | inl n => mret (Some (Ok (n, error_code_new), b))
    | inr search_position =>
      if sb_size b =? sb_max_size b then mret (Some (Ok (0, not_found), b)) else
      let bytes_to_read := read_size_helper b 65536 in
      match sb_prepare bytes_to_read b with
      | (Ok buf, b) =>
        r ← read_some [buf];
        match r with
        | None => mret None
        | Some (n, data, ec) =>
          let b := sb_commit n (sb_store data b) in
          if ec_bool ec then mret (Some (Ok (0, ec), b))
          else read_until_loop fuel' look read_some search_position b
        end
      | (Throws e, b) => mret (Some (Throws e, b))
      | (Crash x, b) => mret (Some (Crash x, b))
      end
    end
  end.

Definition read_until_char (fuel : nat) (read_some : read_stream) (b : streambuf) (delim : byte) :=
  read_until_loop fuel (look_char delim) read_some 0 b.
Definition read_until_string (fuel : nat) (read_some : read_stream) (b : streambuf) (delim : list byte) :=
  read_until_loop fuel (look_string delim) read_some 0 b.
Definition read_until_match (fuel : nat) (read_some : read_stream) (b : streambuf)
    (match_condition : list byte -> Z -> Z * bool) :=
  read_until_loop fuel (look_match match_condition) read_some 0 b.

(** ** The operation as a chain of handlers

    [async_read_some] is the stream's: what its handler is called with when it is
    given these buffers. *)
Definition op_not_found := SIZE_MAX.

(** The search of a step: the new position, and how much to read *)
Definition until_search (look : list byte -> Z -> look_result) (search_position : Z) (b : streambuf) : Z * Z :=
  match look (sb_text b) search_position with
  | inl n => (n, 0)
  | inr next =>
    if sb_size b =? sb_max_size b then (op_not_found, 0) else (next, read_size_helper b 65536)
  end.

(** What the handler is called with *)
Definition until_result (search_position : Z) (ec : error_code) : error_code * Z :=
  (if search_position =? op_not_found then not_found else ec,
   if ec_bool ec || (search_position =? op_not_found) then 0 else search_position).

(** From the search of a step, [start] telling whether it is the first *)
Fixpoint until_run (fuel : nat) (look : list byte -> Z -> look_result) (async_read_some : read_stream (K := K))
    (start : bool) (search_position : Z) (ec : error_code) (b : streambuf)
    : io K (option (outcome (error_code * Z) * streambuf)) :=
  match fuel with
  | O => mret None
  | S fuel' =>
    let '(search_position, bytes_to_read) := until_search look search_position b in
    if negb start && (bytes_to_read =? 0) then mret (Some (Ok (until_result search_position ec), b)) else
    match sb_prepare bytes_to_read b with
    | (Ok buf, b) =>
      r ← async_read_some [buf];
      match r with
      | None => mret None
      | Some (n, data, ec) =>
        let b := sb_commit n (sb_store data b) in
        if ec_bool ec || (n =? 0) then mret (Some (Ok (until_result search_position ec), b))
        else until_run fuel' look async_read_some false search_position ec b
      end
    | (Throws e, b) => mret (Some (Throws e, b))
    | (Crash x, b) => mret (Some (Crash x, b))
    end
  end.

Definition async_read_until (fuel : nat) (look : list byte -> Z -> look_result) (async_read_some : read_stream (K := K))
    (b : streambuf) : io K (option (outcome (error_code * Z) * streambuf)) :=
  until_run fuel look async_read_some true 0 error_code_new b.
End Until.

(** ** What the loop needs of a search

    [found text n]: a match ends at [n], and it is the first; [safe text p]: no
    match starts before [p], whatever is appended to [text]. *)
Class Searcher (look : list byte -> Z -> look_result) (found : list byte -> Z -> Prop)
    (safe : list byte -> Z -> Prop) := {
  search_start text : safe text 0;
  search_found text p n : safe text p -> 0 <= p <= vlen text -> look text p = inl n -> found text n /\ 0 <= n <= vlen text;
  search_next text p q : safe text p -> 0 <= p <= vlen text -> look text p = inr q ->
    (forall n, ~ found text n) /\ 0 <= q <= vlen text /\ forall ext, safe (text ++ ext) q
}.

Definition occurs_at (text d : list byte) (i : Z) : Prop := take (length d) (drop (Z.to_nat i) text) = d.

Record first_match (d : list byte) (text : list byte) (n : Z) : Prop := {
  fm_start : 0 <= n - vlen d;
  fm_occurs : occurs_at text d (n - vlen d);
  fm_first i : 0 <= i < n - vlen d -> ~ occurs_at text d i
}.
Definition no_match_before (d : list byte) (text : list byte) (p : Z) : Prop :=
  forall i ext, 0 <= i < p -> ~ occurs_at (text ++ ext) d i.

Lemma occurs_bound text d i : d <> [] -> occurs_at text d i -> 0 <= i -> i + vlen d <= vlen text.
Proof.
  intros Hd Ho Hi. apply (f_equal length) in Ho. rewrite length_take, length_drop in Ho. destruct d; [done|].
  cbn [length] in *. unfold vlen. cbn [length]. lia.
Qed.

Lemma no_first_match d text : (forall n, ~ first_match d text n) -> forall i, 0 <= i -> ~ occurs_at text d i.
Proof.
  intros Hno i Hi. revert i Hi. apply (Zlt_0_ind (fun i => ~ occurs_at text d i)). intros i IH Hi Ho.
  apply (Hno (i + vlen d)). replace i with (i + vlen d - vlen d) in Ho by lia. split; [lia|done|].
  intros j Hj. apply IH. lia.
Qed.

Lemma test_match_full t d started : test_match t d started = TestFull <-> exists u, t = d ++ u.
Proof.
  revert t started. induction d as [|y d IH]; intros t started; cbn [test_match]; [split; eauto|].
  destruct t as [|x t]; [split; [by destruct started|intros [u Hu]; done]|].
  case_bool_decide as E; cbn [negb].
  - subst. rewrite IH. split; intros [u Hu]; exists u; [by rewrite Hu|by injection Hu].
  - split; [done|]. intros [u Hu]. by injection Hu.
Qed.

(** Without a match or a part of one, nothing that is appended makes a match. *)
Lemma test_match_none t d started u v :
  test_match t d started = TestNone -> started = true \/ t <> [] -> t ++ u <> d ++ v.
Proof.
  revert t started. induction d as [|y d IH]; intros t started; cbn [test_match]; [done|].
  destruct t as [|x t]; [destruct started; [done|]; by intros _ [?|?]|].
  case_bool_decide as E; cbn [negb].
  - intros Ht _ [= _ Eq]. by apply (IH t true Ht); [left|].
  - intros _ _ [= ? _]. done.
Qed.

Lemma test_match_partial t d started : test_match t d started = TestPartial -> (length t < length d)%nat.
Proof.
  revert t started. induction d as [|y d IH]; intros t started; cbn [test_match]; [done|].
  destruct t as [|x t]; [cbn; lia|]. case_bool_decide; cbn [negb]; [|done]. intros Ht. apply IH in Ht. cbn. lia.
Qed.

Lemma occurs_alt text d i : occurs_at text d i <-> exists u, drop (Z.to_nat i) text = d ++ u.
Proof.
  unfold occurs_at. split.
  - intros Ho. exists (drop (length d) (drop (Z.to_nat i) text)). rewrite <- Ho at 1. by rewrite take_drop.
  - intros [u ->]. by rewrite take_app_length.
Qed.

Lemma partial_search_spec d pre t : d <> [] ->
  let '(first, full) := partial_search (vlen pre) t d in
  vlen pre <= first <= vlen (pre ++ t) /\
  (forall i ext, vlen pre <= i < first -> ~ occurs_at (pre ++ t ++ ext) d i) /\
  (full = true -> first < vlen (pre ++ t) /\ occurs_at (pre ++ t) d first) /\
  (full = false -> forall i, first <= i -> ~ occurs_at (pre ++ t) d i).
Proof.
  intros Hd. revert pre. induction t as [|x t IH]; intros pre; cbn [partial_search].
  { rewrite app_nil_r. split; [lia|]. split; [lia|]. split; [done|]. intros _ i Hi Ho.
    pose proof (vlen_nonneg pre). pose proof (occurs_bound _ _ _ Hd Ho ltac:(lia)). destruct d; [done|].
    unfold vlen in *. cbn [length] in *. lia. }
  pose proof (vlen_nonneg pre). pose proof (vlen_nonneg t).
  assert (Hlen : vlen (pre ++ x :: t) = vlen pre + 1 + vlen t) by (rewrite vlen_app; unfold vlen; cbn [length]; lia).
  assert (Hdrop : forall l, drop (Z.to_nat (vlen pre)) (pre ++ l) = l).
  { intros l. unfold vlen. by rewrite Nat2Z.id, drop_app_length. }
  destruct (test_match (x :: t) d false) eqn:Et.
  - split; [lia|]. split; [lia|]. split; [|done]. intros _. split; [lia|]. apply occurs_alt. rewrite Hdrop.
    by apply test_match_full in Et.
  - split; [lia|]. split; [lia|]. split; [done|]. intros _ i Hi Ho.
    pose proof (occurs_bound _ _ _ Hd Ho ltac:(lia)). apply test_match_partial in Et. unfold vlen in *. cbn [length] in *. lia.
  - assert (Hnone : forall ext, ~ occurs_at (pre ++ (x :: t) ++ ext) d (vlen pre)).
    { intros ext Ho. apply occurs_alt in Ho as [u Hu]. rewrite Hdrop in Hu.
      by eapply (test_match_none _ _ _ ext u Et); [by right|]. }
    specialize (IH (pre ++ [x])). replace (vlen (pre ++ [x])) with (vlen pre + 1) in IH
      by (rewrite vlen_app; done). destruct (partial_search (vlen pre + 1) t d) as [first full].
    rewrite <- !app_assoc in IH. cbn [app] in IH. destruct IH as (A & B & C & D). split; [lia|]. split; [|split].
    + intros i ext Hi. destruct (Z.eq_dec i (vlen pre)) as [->|]; [apply Hnone|]. specialize (B i ext ltac:(lia)).
      by rewrite <- app_assoc in B.
    + exact C.
    + intros Hf. exact (D Hf).
Qed.

#[export] Instance string_searcher d : d <> [] -> Searcher (look_string d) (first_match d) (no_match_before d).
Proof.
  intros Hd.
  assert (Hlook : forall text p, no_match_before d text p -> 0 <= p <= vlen text ->
    let '(first, full) := partial_search p (drop (Z.to_nat p) text) d in
    first <= vlen text /\ (forall i ext, 0 <= i < first -> ~ occurs_at (text ++ ext) d i) /\ p <= first /\
    (full = true -> first < vlen text /\ occurs_at text d first) /\
    (full = false -> forall i, first <= i -> ~ occurs_at text d i)).
  { intros text p Hs Hp. pose proof (partial_search_spec d (take (Z.to_nat p) text) (drop (Z.to_nat p) text) Hd) as Hps.
    replace (vlen (take (Z.to_nat p) text)) with p in Hps by (unfold vlen in *; rewrite length_take; lia).
    destruct (partial_search p _ d) as [first full]. rewrite take_drop in Hps. destruct Hps as (A & B & C & D).
    split_and!; try done; try lia. intros i ext Hi. destruct (Z.lt_ge_cases i p); [apply Hs; lia|].
    specialize (B i ext ltac:(lia)). by rewrite app_assoc, take_drop in B. }
  split.
  - intros text i ext Hi. lia.
  - intros text p n Hs Hp E. specialize (Hlook text p Hs Hp). unfold look_string in E.
    destruct (partial_search p _ d) as [first full]. destruct Hlook as (A & B & P & C & _).
    destruct (Z.eqb_spec first (vlen text)); [done|]. cbn [negb] in E. destruct full; [|done]. injection E as <-.
    destruct (C eq_refl) as [Hlt Ho]. pose proof (occurs_bound _ _ _ Hd Ho ltac:(lia)). pose proof (vlen_nonneg d).
    split; [|lia]. replace first with (first + vlen d - vlen d) in Ho by lia. split; [lia|done|].
    intros i Hi. specialize (B i [] ltac:(lia)). by rewrite app_nil_r in B.
  - intros text p q Hs Hp E. specialize (Hlook text p Hs Hp). unfold look_string in E.
    destruct (partial_search p _ d) as [first full]. destruct Hlook as (A & B & P & C & D).
    assert (full = false /\ q = first) as [-> ->].
    { destruct (Z.eqb_spec first (vlen text)); cbn [negb] in E; destruct full; try done; simplify_eq; try done.
      destruct (C eq_refl). lia. }
    split; [|split; [lia|]].
    + intros n [Hn Ho _]. destruct (Z.lt_ge_cases (n - vlen d) first); [|by eapply D].
      specialize (B (n - vlen d) [] ltac:(lia)). by rewrite app_nil_r in B.
    + intros ext i ext' Hi. rewrite <- app_assoc. by apply B.
Qed.

Lemma find_char_search c pos t : partial_search pos t [c] = (find_char pos t c, negb (find_char pos t c =? pos + vlen t)).
Proof.
  assert (Hr : forall pos t, pos <= find_char pos t c).
  { clear. intros pos t. revert pos. induction t as [|x t IH]; intros pos; cbn; [lia|].
    case_bool_decide; [lia|]. specialize (IH (pos + 1)). lia. }
  revert pos. induction t as [|x t IH]; intros pos; cbn [partial_search find_char test_match].
  { unfold vlen. cbn [length]. by rewrite Z.add_0_r, Z.eqb_refl. }
  pose proof (vlen_nonneg t). replace (vlen (x :: t)) with (vlen t + 1) by (unfold vlen; cbn [length]; lia).
  case_bool_decide; cbn [negb].
  - by rewrite (proj2 (Z.eqb_neq _ _)) by lia.
  - rewrite IH. by replace (pos + 1 + vlen t) with (pos + (vlen t + 1)) by lia.
Qed.

Lemma look_char_string c text p : 0 <= p <= vlen text -> look_char c text p = look_string [c] text p.
Proof.
  intros Hp. unfold look_char, look_string. rewrite find_char_search.
  replace (p + vlen (drop (Z.to_nat p) text)) with (vlen text) by (unfold vlen in *; rewrite length_drop; lia).
  by destruct (find_char p _ c =? vlen text).
Qed.

#[export] Instance char_searcher c : Searcher (look_char c) (first_match [c]) (no_match_before [c]).
Proof.
  destruct (string_searcher [c] ltac:(done)) as [A B C]. split; [done|..]; intros text p q Hs Hp E;
    rewrite look_char_string in E by done; eauto.
Qed.

(** ** The stream *)
Section Reader.
Context `{VecResize} {K : Type} `{Kernel K}.

(** With room for something it gives data or an error; with none it does nothing. *)
Record reader_ok (inv : world K -> Prop) (read_some : read_stream (K := K)) : Prop := {
  rd_returns buf w : 0 < size_ buf < 2 ^ 31 -> inv w ->
    exists data ec w', read_some [buf] w = (Some (vlen data, data, ec), w') /\ inv w' /\
      vlen data <= size_ buf /\ (data = [] <-> ec_bool ec = true) /\ (ec_bool ec = false -> ec = error_code_new);
  rd_empty buf w : size_ buf = 0 -> inv w -> read_some [buf] w = (Some (0, [], error_code_new), w)
}.

Lemma sb_text_contents sb : sb_wf sb -> sb_text sb = contents sb.
Proof.
  intros Hw. pose proof (sb_size_spec sb Hw) as Hz. unfold sb_size in Hz. rewrite vlen_contents in Hz by done.
  destruct Hw as [Hg He Hp Hm Hb]. unfold sb_text, seq_bytes, sb_data. cbn. rewrite app_nil_r.
  unfold buf_bytes, iov_bytes, init_native_buffer. cbn. rewrite Hz. unfold contents.
  apply list_eq. intros i. rewrite list_lookup_fmap. destruct (decide (i < Z.to_nat (pptr sb - gptr sb))%nat) as [Hi|Hi].
  - rewrite lookup_seqZ_lt by lia. rewrite lookup_take_lt, lookup_drop by lia. cbn.
    destruct (lookup_lt_is_Some_2 (buffer_ sb) (Z.to_nat (gptr sb) + i)) as [c Hc]; [unfold vlen in Hb; lia|].
    unfold sb_memory. replace (Z.to_nat (gptr sb + Z.of_nat i)) with (Z.to_nat (gptr sb) + i)%nat by lia. by rewrite Hc.
  - rewrite lookup_seqZ_ge by lia. by rewrite lookup_take_ge by lia.
Qed.

Lemma read_size_bounds sb : sb_wf sb -> vlen (contents sb) <> max_size_ sb ->
  0 < read_size_helper sb 65536 <= 65536 /\ vlen (contents sb) + read_size_helper sb 65536 <= max_size_ sb.
Proof.
  intros Hw Hne. unfold read_size_helper, sb_max_size. rewrite !sb_size_spec by done. pose proof (vlen_contents sb Hw).
  pose proof (u64_nonneg (capacity_ sb - vlen (contents sb))). destruct Hw as [Hg He Hp Hm Hb]. rewrite (u64_id (max_size_ sb - _)) by ulia. lia.
Qed.

(** Reading a piece into a buffer that is not full *)
Lemma read_piece inv rs sb n w : reader_ok inv rs -> inv w -> sb_wf sb -> 0 < n <= 65536 ->
  vlen (contents sb) + n <= max_size_ sb ->
  exists buf sb1 data ec w', sb_prepare n sb = (Ok buf, sb1) /\ rs [buf] w = (Some (vlen data, data, ec), w') /\ inv w' /\
    (data = [] <-> ec_bool ec = true) /\ (ec_bool ec = false -> ec = error_code_new) /\
    let sb' := sb_commit (vlen data) (sb_store data sb1) in
    sb_wf sb' /\ contents sb' = contents sb ++ data /\ max_size_ sb' = max_size_ sb.
Proof.
  intros Hrs Hi Hw Hn Hs. destruct (sb_reserve_spec n sb Hw ltac:(lia)) as (sb1 & E & Hok).
  destruct (Hok Hs) as (Hw1 & Hc1 & Hm1 & Hr1). unfold sb_prepare. rewrite E, (proj2 (Z.leb_le _ _)) by done.
  destruct (rd_returns _ _ Hrs (Buffer (pptr sb1) n) w) as (data & ec & w' & Er & Hi' & Hl & Hec & Hok'); [cbn; lia|done|].
  cbn [size_] in Hl. destruct (sb_commit_spec data sb1 Hw1) as (Hw2 & Hc2 & Hm2); [lia..|].
  do 5 eexists. split; [reflexivity|]. split; [done|]. split; [done|]. split; [done|].
  split; [done|]. split; [done|]. split; [by rewrite Hc2, Hc1|by rewrite Hm2].
Qed.

Definition stream_error (read_some : read_stream (K := K)) (ec : error_code) : Prop :=
  exists buf w w', read_some [buf] w = (Some (0, [], ec), w').

Record until_ok (found : list byte -> Z -> Prop) (read_some : read_stream (K := K)) (sb sb' : streambuf)
    (n : Z) (ec : error_code) : Prop := {
  uo_wf : sb_wf sb';
  uo_max : max_size_ sb' = max_size_ sb;
  uo_data : exists data, contents sb' = contents sb ++ data;
  uo_found : ec_bool ec = false -> found (contents sb') n /\ 0 <= n <= vlen (contents sb');
  uo_error : ec_bool ec = true -> n = 0 /\ (forall n, ~ found (contents sb') n) /\
    (ec = not_found /\ vlen (contents sb') = max_size_ sb \/ stream_error read_some ec)
}.

Lemma read_until_loop_spec look found safe inv rs fuel :
  Searcher look found safe -> reader_ok inv rs -> forall p sb w,
  inv w -> sb_wf sb -> safe (contents sb) p -> 0 <= p <= vlen (contents sb) ->
  max_size_ sb - vlen (contents sb) < Z.of_nat fuel ->
  exists n ec sb' w', read_until_loop fuel look rs p sb w = (Some (Ok (n, ec), sb'), w') /\
    until_ok found rs sb sb' n ec.
Proof.
  intros Hlook Hrs. induction fuel as [|fuel IH]; intros p sb w Hi Hw Hs Hp Hf.
  { pose proof (vlen_contents sb Hw). destruct Hw. lia. }
  cbn [read_until_loop]. rewrite sb_text_contents by done. destruct (look (contents sb) p) as [n|q] eqn:El.
  { destruct (search_found _ _ _ Hs Hp El). do 4 eexists. split; [done|].
    split; try done. exists []. by rewrite app_nil_r. }
  destruct (search_next _ _ _ Hs Hp El) as (Hno & Hq & Hsafe). rewrite sb_size_spec by done. unfold sb_max_size.
  destruct (Z.eqb_spec (vlen (contents sb)) (max_size_ sb)) as [Hfull|Hfull].
  { do 4 eexists. split; [done|]. split; try done; [exists []; by rewrite app_nil_r|]. intros _.
    split; [done|]. split; [done|]. by left. }
  destruct (read_size_bounds sb Hw Hfull) as [Hn1 Hn2].
  destruct (read_piece inv rs sb _ w Hrs Hi Hw Hn1 Hn2)
    as (buf & sb1 & data & ec & w' & -> & Er & Hi' & Hec & _ & Hw2 & Hc2 & Hm2). io_run. rewrite Er.
  destruct (ec_bool ec) eqn:Ee.
  - assert (data = []) as -> by by apply Hec. rewrite app_nil_r in Hc2. do 4 eexists. split; [done|].
    split; try done; [exists []; by rewrite Hc2, app_nil_r|congruence|]. intros _. split; [done|]. rewrite Hc2.
    split; [done|]. right. by exists buf, w, w'.
  - assert (data <> []) as Hd by by intros E; apply Hec in E.
    assert (0 < vlen data) by (destruct data; [done|unfold vlen; cbn [length]; lia]).
    destruct (IH q _ w' Hi' Hw2) as (n & ec' & sb' & w2 & E & Hu); rewrite ?Hc2, ?Hm2, ?vlen_app; try lia; [by apply Hsafe|].
    do 4 eexists. split; [done|]. destruct Hu as [A B [d D] F G]. rewrite Hm2 in *. split; try done.
    exists (data ++ d). by rewrite D, Hc2, app_assoc.
Qed.

(** ** The chain of handlers gives what the loop gives. *)
Lemma until_result_position p ec : ec_bool ec = false -> p <> SIZE_MAX -> until_result p ec = (ec, p).
Proof.
  intros He Hp. unfold until_result, op_not_found. by rewrite He, (proj2 (Z.eqb_neq _ _) Hp).
Qed.

Lemma read_nothing inv rs sb w : reader_ok inv rs -> inv w -> sb_wf sb ->
  exists buf, sb_prepare 0 sb = (Ok buf, sb) /\ rs [buf] w = (Some (0, [], error_code_new), w) /\
    sb_wf (sb_commit 0 (sb_store [] sb)) /\ contents (sb_commit 0 (sb_store [] sb)) = contents sb.
Proof.
  intros Hrs Hi Hw. exists (Buffer (pptr sb) 0). unfold sb_prepare, sb_reserve.
  rewrite (proj2 (Z.leb_le 0 _)) by apply u64_nonneg. split; [done|]. split; [by eapply rd_empty|].
  pose proof (sw_put _ Hw). destruct (sb_commit_spec [] sb Hw) as (Hw' & Hc & _); [unfold vlen; cbn; lia|unfold vlen; cbn; lia|].
  rewrite app_nil_r in Hc. done.
Qed.

Lemma until_run_agrees look found safe inv rs fuel :
  Searcher look found safe -> reader_ok inv rs -> forall p sb w n ec sb' w',
  inv w -> sb_wf sb -> safe (contents sb) p -> 0 <= p <= vlen (contents sb) ->
  read_until_loop fuel look rs p sb w = (Some (Ok (n, ec), sb'), w') -> vlen (contents sb') < SIZE_MAX ->
  forall start, exists sb2, until_run fuel look rs start p error_code_new sb w = (Some (Ok (ec, n), sb2), w') /\
    contents sb2 = contents sb'.
Proof.
  intros Hlook Hrs. induction fuel as [|fuel IH]; intros p sb w n ec sb' w' Hi Hw Hs Hp E Hmax start; [done|].
  cbn [read_until_loop until_run] in *. unfold until_search. rewrite sb_text_contents in E |- * by done.
  destruct (read_nothing inv rs sb w Hrs Hi Hw) as (buf0 & Eb0 & Er0 & Hw0 & Hc0).
  assert (Hdone : forall q, (if negb start && (0 =? 0) then mret (Some (Ok (until_result q error_code_new), sb))
      else match sb_prepare 0 sb with
           | (Ok buf, b) =>
             r ← rs [buf];
             match r with
             | None => mret None
             | Some (n, data, ec) =>
               let b := sb_commit n (sb_store data b) in
               if ec_bool ec || (n =? 0) then mret (Some (Ok (until_result q ec), b))
               else until_run fuel look rs false q ec b
             end
           | (Throws e, b) => mret (Some (Throws e, b))
           | (Crash x, b) => mret (Some (Crash x, b))
           end) w = (Some (Ok (until_result q error_code_new), if start then sb_commit 0 (sb_store [] sb) else sb), w)).
  { intros q. destruct start; cbn [negb andb Z.eqb]; [|done]. rewrite Eb0. io_run. by rewrite Er0. }
  destruct (look (contents sb) p) as [m|q] eqn:El.
  { destruct (search_found _ _ _ Hs Hp El) as [_ Hm]. injection E as <- <- <- <-. rewrite Hdone, until_result_position by (done || lia).
    eexists. split; [done|]. by destruct start. }
  destruct (search_next _ _ _ Hs Hp El) as (Hno & Hq & Hsafe).
  rewrite sb_size_spec in E |- * by done. unfold sb_max_size in *.
  destruct (Z.eqb_spec (vlen (contents sb)) (max_size_ sb)) as [Hfull|Hfull].
  { injection E as <- <- <- <-. rewrite Hdone. eexists. split; [reflexivity|]. by destruct start. }
  destruct (read_size_bounds sb Hw Hfull) as [Hn1 Hn2].
  destruct (read_piece inv rs sb _ w Hrs Hi Hw Hn1 Hn2)
    as (buf & sb1 & data & ec1 & w1 & Eb & Er & Hi1 & Hec & Hok & Hw2 & Hc2 & Hm2). rewrite Eb in E |- *.
  rewrite (proj2 (Z.eqb_neq _ 0)), andb_false_r by lia. revert E. io_run. rewrite Er.
  destruct (ec_bool ec1) eqn:Ee; cbn [orb].
  - assert (data = []) as -> by by apply Hec. rewrite app_nil_r in Hc2. intros [= <- <- <- <-].
    eexists. split; [|reflexivity]. unfold until_result, op_not_found. rewrite Ee, (proj2 (Z.eqb_neq q _)); [done|].
    rewrite Hc2 in Hmax. lia.
  - rewrite (Hok eq_refl). assert (data <> []) as Hd by by intros Ed; apply Hec in Ed.
    assert (0 < vlen data) by (destruct data; [done|unfold vlen; cbn [length]; lia]).
    rewrite (proj2 (Z.eqb_neq (vlen data) 0)) by lia. intros E.
    apply (IH q _ w1 n ec sb' w' Hi1 Hw2); rewrite ?Hc2, ?vlen_app; try done; lia.
Qed.
End Reader.

(** ** A connected socket *)
Section Sockets.
Context {K : Type} `{KernelLaws K} (pfuel : nat) (impl : base_implementation).

Lemma adapter_one buf : in_u64 (size_ buf) ->
  buffer_sequence_adapter [buf] = Adapter [init_native_buffer buf] 1 (size_ buf).
Proof. intros Hb. unfold buffer_sequence_adapter. cbn. unfold buffer_size. by rewrite Z.add_0_l, u64_id. Qed.

Lemma socket_reader_ok : is_open impl = true -> flag_set (state_ impl) stream_oriented = true ->
  reader_ok (fun w : world K => (patience (kernel w) < pfuel)%nat) (socket_read_some pfuel impl).
Proof.
  intros Ho Hst. assert (socket_ impl <> invalid_socket) as Hs.
  { unfold is_open in Ho. by destruct (Z.eqb_spec (socket_ impl) invalid_socket). }
  split; intros buf w Hb Hp; unfold socket_read_some, service_receive, sync_recv; cbn zeta;
    rewrite adapter_one by ulia; rewrite (proj2 (Z.eqb_neq _ _) Hs), Hst; unfold all_empty;
    cbn [total_buffer_size_ native count_ andb].
  - rewrite (proj2 (Z.eqb_neq (size_ buf) 0)) by lia. 
    destruct (sync_recv_returns pfuel (socket_ impl) (state_ impl) [init_native_buffer buf] 1 0 w Hs Hst Hp)
      as (n & data & ec & w' & E & Hp' & -> & Hec).
    exists data, ec, w'. split; [exact E|]. split; [lia|]. change (room _) with (size_ buf + 0) in Hec.
    pose proof (vlen_nonneg data). assert (Hnil : vlen data = 0 -> data = []) by (intros Hz; by destruct data).
    destruct Hec as [[-> Hl]|[[-> Hz]|(_ & Hee & Hz & _)]].
    + split; [lia|]. split; [|done]. split; [intros ->; unfold vlen in Hl; cbn in Hl; lia|done].
    + rewrite Hz. split; [lia|]. split; [split; auto|done].
    + rewrite Hz. split; [lia|]. split; [split; auto|congruence].
  - by rewrite Hb.
Qed.
End Sockets.

(** ** Properties *)

(** C23. [read_until] on a connected socket, for a string that is not empty: it returns,
    whatever the kernel does and however the data arrive; the buffer holds what it
    held and what was read after it, within the maximum size; the result is the
    end of the first match in the buffer, or 0 with an error, and then there is
    no match and the buffer is full, or the stream has failed. *)
Theorem read_until_correct `{VecResize} {K} `{KernelLaws K} fuel pfuel impl sb delim (w : world K) :
  is_open impl = true -> flag_set (state_ impl) stream_oriented = true -> (patience (kernel w) < pfuel)%nat ->
  sb_wf sb -> delim <> [] -> max_size_ sb - vlen (contents sb) < Z.of_nat fuel ->
  let stream := socket_read_some pfuel impl in
  exists n ec sb' w', read_until_string fuel stream sb delim w = (Some (Ok (n, ec), sb'), w') /\
    sb_wf sb' /\ vlen (contents sb') <= max_size_ sb /\ (exists data, contents sb' = contents sb ++ data) /\
    (ec_bool ec = false -> first_match delim (contents sb') n) /\
    (ec_bool ec = true -> n = 0 /\ (forall i, 0 <= i -> ~ occurs_at (contents sb') delim i) /\
       (ec = not_found /\ vlen (contents sb') = max_size_ sb \/ stream_error stream ec)).
Proof.
  intros Ho Hst Hp Hw Hd Hf stream.
  destruct (read_until_loop_spec (look_string delim) (first_match delim) (no_match_before delim) _ _ fuel
    (string_searcher delim Hd) (socket_reader_ok pfuel impl Ho Hst) 0 sb w)
    as (n & ec & sb' & w' & E & [Hw' Hm Hdata Hfound Herr]); try done.
  - apply (@search_start _ _ _ (string_searcher delim Hd)).
  - pose proof (vlen_nonneg (contents sb)). lia.
  - exists n, ec, sb', w'. split; [exact E|]. split; [done|]. split.
    { pose proof (vlen_contents sb' Hw'). destruct Hw'. lia. }
    split; [done|]. split; [intros He; by apply Hfound|]. intros He. destruct (Herr He) as (-> & Hno & Hcase).
    split; [done|]. split; [|exact Hcase]. by apply no_first_match.
Qed.

#[local] Instance resize_exact : VecResize := fun c n => Z.max c n.
Definition half_match : streambuf := (sb_run [SbWrite 9 (lit "xAxAA")] (streambuf_new 40)).2.
Lemma half_match_wf : sb_wf half_match.
Proof.
  destruct (sb_run_spec [SbWrite 9 (lit "xAxAA")] (streambuf_new 40)) as (sb & E & Hw & _);
    [apply sb_new_wf; ulia|vm_compute; intuition congruence|]. unfold half_match. by rewrite E.
Qed.

Lemma read_until_correct_witness :
  exists n ec sb' w', read_until_string 60 (socket_read_some 10 (BaseImpl 4 stream_oriented)) half_match (lit "AAAA")
      (World (Script [-11; 1; 3; 9] ∅ ∅) 0) = (Some (Ok (n, ec), sb'), w') /\
    n = 7 /\ first_match (lit "AAAA") (contents sb') n.
Proof.
  destruct (read_until_correct (K := script) 60 10 (BaseImpl 4 stream_oriented) half_match (lit "AAAA")
    (World (Script [-11; 1; 3; 9] ∅ ∅) 0)) as (n & ec & sb' & w' & E & _ & _ & _ & Hok & _);
    [reflexivity|reflexivity|vm_compute; lia|apply half_match_wf|done|vm_compute; reflexivity|].
  exists n, ec, sb', w'. split; [exact E|].
  assert ((fun x => match x with Some (Ok (n, ec), _) => Some (n, ec_bool ec) | _ => None end)
    (read_until_string 60 (socket_read_some 10 (BaseImpl 4 stream_oriented)) half_match (lit "AAAA")
      (World (Script [-11; 1; 3; 9] ∅ ∅) 0)).1 = Some (7, false)) as Ec by (vm_compute; reflexivity).
  rewrite E in Ec. cbn in Ec. injection Ec as -> Ec. split; [done|]. by apply Hok.
Defined.

(** C24. On any stream whose asynchronous reads complete with what its synchronous
    ones return, [async_read_until] calls its handler with the error and the count
    that [read_until] gives, for every search (the three overloads), leaves the
    stream in the same state and the same input sequence, and both are right: the
    end of the first match, or an error and no match.  When the match is there
    before anything is read it makes one more call, a read of no bytes.  The count
    of a match that ends at byte [SIZE_MAX] would be taken for "not found", hence
    the bound.  (A socket whose user has set it non-blocking is no such stream: its
    [read_some] gives [would_block] where [async_read_some] waits.) *)
Theorem async_read_until_agrees `{VecResize} {K} `{Kernel K} look found safe (stream : read_stream (K := K)) inv fuel sb
    (w : world K) :
  Searcher look found safe -> reader_ok inv stream -> inv w ->
  sb_wf sb -> max_size_ sb - vlen (contents sb) < Z.of_nat fuel ->
  exists n ec sb' w', read_until_loop fuel look stream 0 sb w = (Some (Ok (n, ec), sb'), w') /\
    until_ok found stream sb sb' n ec /\
    (vlen (contents sb') < SIZE_MAX ->
     exists sb2, async_read_until fuel look stream sb w = (Some (Ok (ec, n), sb2), w') /\
       contents sb2 = contents sb').
Proof.
  intros Hlook Hrs Hi Hw Hf. pose proof (vlen_nonneg (contents sb)) as Hc.
  destruct (read_until_loop_spec look found safe _ _ fuel Hlook Hrs 0 sb w)
    as (n & ec & sb' & w' & E & Hu); [done|done|apply (@search_start _ _ _ Hlook)|lia|done|].
  exists n, ec, sb', w'. split; [done|]. split; [done|]. intros Hlt.
  apply (until_run_agrees look found safe _ _ fuel Hlook Hrs 0 sb w n ec sb' w' Hi Hw
    (@search_start _ _ _ Hlook _) ltac:(lia) E Hlt true).
Qed.

(** A socket that its user has not set non-blocking *)
Lemma async_read_until_agrees_witness :
  exists n ec sb' sb2 w', read_until_string 60 (socket_read_some 10 (BaseImpl 4 stream_oriented)) half_match (lit "AAAA")
      (World (Script [-11; 1; 3; 9] ∅ ∅) 0) = (Some (Ok (n, ec), sb'), w') /\
    async_read_until 60 (look_string (lit "AAAA")) (socket_read_some 10 (BaseImpl 4 stream_oriented)) half_match
      (World (Script [-11; 1; 3; 9] ∅ ∅) 0) = (Some (Ok (ec, n), sb2), w') /\ contents sb2 = contents sb'.
Proof.
  destruct (async_read_until_agrees (K := script) (look_string (lit "AAAA")) (first_match (lit "AAAA"))
    (no_match_before (lit "AAAA")) (socket_read_some 10 (BaseImpl 4 stream_oriented))
    (fun w => (patience (kernel w) < 10)%nat) 60 half_match (World (Script [-11; 1; 3; 9] ∅ ∅) 0))
    as (n & ec & sb' & w' & E & Hu & Ha);
    [by apply string_searcher|by apply socket_reader_ok|vm_compute; lia|apply half_match_wf|vm_compute; reflexivity|].
  destruct Ha as (sb2 & E2 & Hc).
  - destruct Hu as [Hw' Hm _ _ _]. pose proof (vlen_contents sb' Hw'). destruct Hw'.
    assert (max_size_ half_match = 40) by (vm_compute; reflexivity). unfold SIZE_MAX. lia.
  - exists n, ec, sb', sb2, w'. split; [exact E|]. split; [exact E2|exact Hc].
Defined.
