(* ===== verification/Bufiter.v ===== *)
(** * Iterators over the bytes of a buffer sequence (asio/buffers_iterator.hpp)

    An iterator is in a buffer of the sequence, at a position in it, and counts
    its position in the whole; [current_] is an index in the sequence, its length
    is [end_].  [iterator_refines] shows that it is a position in the bytes of
    the sequence, whatever empty buffers there are. *)
From S2P Require Import Prelude Socketops Asiobuf.


Record buffers_iterator := BuffersIterator {
  current_buffer_ : buffer;
  current_buffer_position_ : Z;
  current_ : nat;
  position_ : Z
}.

Section Sequence.
Context (buffers : list buffer).
Notation end_ := (length buffers).

(** To the next buffer that is not empty, from [current_] on *)
Fixpoint next_nonempty (fuel : nat) (it : buffers_iterator) : buffers_iterator :=
  match fuel with
  | O => it
  | S fuel' =>
    if bool_decide (current_ it = end_) then it
    else
      let b := deref buffers (current_ it) in
      if 0 <? size_ b then BuffersIterator b (current_buffer_position_ it) (current_ it) (position_ it)
      else next_nonempty fuel' (BuffersIterator b (current_buffer_position_ it) (S (current_ it)) (position_ it))
  end.

Definition bi_begin : buffers_iterator := next_nonempty end_ (BuffersIterator buffer_new 0 0 0).
Definition bi_end : buffers_iterator :=
  BuffersIterator buffer_new 0 end_ (fold_left (fun n b => u64 (n + size_ b)) buffers 0).

Definition bi_deref (mem : Z -> byte) (it : buffers_iterator) : byte :=
  mem (data_ (current_buffer_ it) + current_buffer_position_ it).
Definition bi_equal (a b : buffers_iterator) : bool := position_ a =? position_ b.
Definition distance_to (it other : buffers_iterator) : Z := i64 (position_ other - position_ it).

Definition increment (it : buffers_iterator) : outcome buffers_iterator :=
  assert_ (negb (bool_decide (current_ it = end_))) ;;
  let position := u64 (position_ it + 1) in
  let at_ := u64 (current_buffer_position_ it + 1) in
  if negb (at_ =? size_ (current_buffer_ it)) then
    Ok (BuffersIterator (current_buffer_ it) at_ (current_ it) position)
  else Ok (next_nonempty (end_ - current_ it) (BuffersIterator (current_buffer_ it) 0 (S (current_ it)) position)).

(** To the last byte, or past it, of the buffer before [i] that is not empty;
    [past] is 0 or 1. *)
Fixpoint prev_nonempty (i : nat) (past : Z) (it : buffers_iterator) : buffers_iterator :=
  match i with
  | O => it
  | S i' =>
    let b := deref buffers i' in
    if 0 <? size_ b then BuffersIterator b (u64 (size_ b - 1 + past)) i' (position_ it)
    else prev_nonempty i' past it
  end.

Definition decrement (it : buffers_iterator) : outcome buffers_iterator :=
  assert_ (0 <? position_ it) ;;
  let position := u64 (position_ it - 1) in
  if negb (current_buffer_position_ it =? 0) then
    Ok (BuffersIterator (current_buffer_ it) (u64 (current_buffer_position_ it - 1)) (current_ it) position)
  else Ok (prev_nonempty (current_ it) 0 (BuffersIterator (current_buffer_ it) 0 (current_ it) position)).

(** [None]: out of fuel *)
Fixpoint advance_forward (fuel : nat) (n : Z) (it : buffers_iterator) : option (outcome buffers_iterator) :=
  match fuel with
  | O => None
  | S fuel' =>
    let balance := i64 (size_ (current_buffer_ it) - current_buffer_position_ it) in
    if n <? balance then
      Some (Ok (BuffersIterator (current_buffer_ it) (u64 (current_buffer_position_ it + n)) (current_ it)
                  (u64 (position_ it + n))))
    else
      let n := i64 (n - balance) in
      let position := u64 (position_ it + balance) in
      let current := S (current_ it) in
      if bool_decide (current = end_) then
        Some (assert_ (n =? 0) ;; Ok (BuffersIterator buffer_new 0 current position))
      else advance_forward fuel' n (BuffersIterator (deref buffers current) 0 current position)
  end.

Fixpoint advance_back (fuel : nat) (abs_n : Z) (it : buffers_iterator) : option (outcome buffers_iterator) :=
  match fuel with
  | O => None
  | S fuel' =>
    if abs_n <=? current_buffer_position_ it then
      Some (Ok (BuffersIterator (current_buffer_ it) (u64 (current_buffer_position_ it - abs_n)) (current_ it)
                  (u64 (position_ it - abs_n))))
    else
      let abs_n := u64 (abs_n - current_buffer_position_ it) in
      let position := u64 (position_ it - current_buffer_position_ it) in
      if bool_decide (current_ it = 0%nat) then
        Some (assert_ (abs_n =? 0) ;; Ok (BuffersIterator (current_buffer_ it) 0 (current_ it) position))
      else advance_back fuel' abs_n
             (prev_nonempty (current_ it) 1
                (BuffersIterator (current_buffer_ it) (current_buffer_position_ it) (current_ it) position))
  end.

Definition bi_advance (n : Z) (it : buffers_iterator) : option (outcome buffers_iterator) :=
  if 0 <? n then
    if bool_decide (current_ it = end_) then Some (Crash AssertFails) else advance_forward (S end_) n it
  else if n <? 0 then
    let abs_n := u64 (- n) in
    if position_ it <? abs_n then Some (Crash AssertFails) else advance_back (S (S end_)) abs_n it
  else Some (Ok it).

(** ** Positions *)
Definition sizes (l : list buffer) : Z := foldr (fun b n => size_ b + n) 0 l.

Record at_position (it : buffers_iterator) (p : Z) : Prop := {
  ap_position : position_ it = p;
  ap_current : (current_ it <= end_)%nat;
  ap_sum : sizes (take (current_ it) buffers) + current_buffer_position_ it = p;
  ap_buffer : (current_ it < end_)%nat ->
    current_buffer_ it = deref buffers (current_ it) /\ 0 <= current_buffer_position_ it < size_ (current_buffer_ it);
  ap_end : current_ it = end_ -> current_buffer_position_ it = 0
}.

Lemma sizes_app l1 l2 : sizes (l1 ++ l2) = sizes l1 + sizes l2.
Proof. induction l1 as [|b l1 IH]; cbn; [done|]. unfold sizes in *. cbn in *. rewrite IH. lia. Qed.

Lemma sizes_take i : (i < end_)%nat -> sizes (take (S i) buffers) = sizes (take i buffers) + size_ (deref buffers i).
Proof.
  intros Hi. destruct (lookup_lt_is_Some_2 buffers i Hi) as [b Hb]. unfold deref. rewrite Hb. cbn.
  rewrite (take_S_r _ _ b Hb), sizes_app. cbn. lia.
Qed.

Context (Hsizes : sizes_ok buffers) (Htotal : sizes buffers < 2 ^ 63).

Lemma sizes_nonneg l : sizes_ok l -> 0 <= sizes l.
Proof. induction 1; cbn; [done|]. unfold sizes in *. cbn. lia. Qed.

Lemma sizes_take_le i : 0 <= sizes (take i buffers) <= sizes buffers.
Proof.
  assert (0 <= sizes (drop i buffers)) by by apply sizes_nonneg, Forall_drop.
  assert (0 <= sizes (take i buffers)) by by apply sizes_nonneg, Forall_take.
  rewrite <- (take_drop i buffers) at 3. rewrite sizes_app. lia.
Qed.

Lemma deref_nonneg i : 0 <= size_ (deref buffers i).
Proof.
  unfold deref. destruct (buffers !! i) as [b|] eqn:E; [|done]. cbn. unfold sizes_ok in Hsizes.
  rewrite Forall_lookup in Hsizes. by eapply Hsizes.
Qed.

Lemma bi_next_nonempty_spec fuel b i p :
  (i <= end_)%nat -> (end_ - i <= fuel)%nat -> sizes (take i buffers) = p ->
  at_position (next_nonempty fuel (BuffersIterator b 0 i p)) p.
Proof.
  revert b i. induction fuel as [|fuel IH]; intros b i Hi Hf Hp; cbn [next_nonempty current_ current_buffer_position_ position_].
  - split; cbn [position_ current_ current_buffer_position_ current_buffer_]; [done|lia..|done].
  - case_bool_decide as He; [split; cbn [position_ current_ current_buffer_position_ current_buffer_]; [done|lia..|done]|].
    pose proof (deref_nonneg i). destruct (Z.ltb_spec 0 (size_ (deref buffers i))).
    + split; cbn [position_ current_ current_buffer_position_ current_buffer_]; try lia. split; [done|lia].
    + apply IH; [lia|lia|]. rewrite sizes_take by lia. lia.
Qed.

Lemma bi_begin_spec : at_position bi_begin 0.
Proof. apply bi_next_nonempty_spec; [lia|lia|]. by rewrite take_0. Qed.

Lemma fold_sizes l n : sizes_ok l -> 0 <= n -> n + sizes l < 2 ^ 64 ->
  fold_left (fun n b => u64 (n + size_ b)) l n = n + sizes l.
Proof.
  intros Hl. revert n. induction Hl as [|b l Hb Hl IH]; intros n Hn Ht; cbn; [lia|]. unfold sizes in *. cbn in Ht.
  pose proof (sizes_nonneg l Hl). unfold sizes in *. rewrite u64_id by ulia. rewrite IH; lia.
Qed.

Lemma bi_end_spec : at_position bi_end (sizes buffers).
Proof.
  pose proof (sizes_nonneg _ Hsizes). unfold bi_end.
  rewrite fold_sizes by (done || lia). rewrite Z.add_0_l.
  split; cbn [position_ current_ current_buffer_position_ current_buffer_]; try lia. rewrite firstn_all. lia.
Qed.

(** An iterator before the end is in a buffer. *)
Lemma at_inside it p : at_position it p -> p < sizes buffers -> (current_ it < end_)%nat.
Proof.
  intros [Hp Hc Hs _ He] Hlt. destruct (decide (current_ it = end_)) as [E|E]; [|lia]. rewrite (He E) in Hs.
  rewrite E, firstn_all in Hs. lia.
Qed.

Lemma at_bounds it p : at_position it p -> 0 <= p <= sizes buffers.
Proof.
  intros [Hp Hc Hs Hb He]. pose proof (sizes_take_le (current_ it)). destruct (decide (current_ it = end_)) as [E|E].
  - rewrite (He E) in Hs. lia.
  - destruct Hb as [Hb Hr]; [lia|]. pose proof (sizes_take_le (S (current_ it))) as Hs2.
    rewrite sizes_take in Hs2 by lia. rewrite Hb in Hr. lia.
Qed.

Lemma bi_increment_spec it p : at_position it p -> p < sizes buffers ->
  exists it', increment it = Ok it' /\ at_position it' (p + 1).
Proof.
  intros Ha Hp. pose proof (at_inside _ _ Ha Hp) as Hi. pose proof (at_bounds _ _ Ha). destruct Ha as [H1 H2 H3 H4 H5].
  destruct (H4 Hi) as [Eb Hr]. unfold increment. rewrite bool_decide_eq_false_2 by lia. cbn [negb assert_ mbind outcome_bind].
  pose proof (sizes_take_le (S (current_ it))) as Hs. rewrite sizes_take in Hs by done. rewrite Eb in Hr.
  pose proof (sizes_take_le (current_ it)). rewrite H1, !u64_id, Eb by ulia. destruct (Z.eqb_spec (current_buffer_position_ it + 1) (size_ (deref buffers (current_ it)))); cbn [negb].
  - eexists. split; [reflexivity|]. apply bi_next_nonempty_spec; [lia|lia|]. rewrite sizes_take by done. lia.
  - eexists. split; [reflexivity|]. split; cbn [position_ current_ current_buffer_position_ current_buffer_]; try lia. intros _. split; [done|lia].
Qed.

Lemma bi_prev_nonempty_spec i past b at_ k p :
  (i <= end_)%nat -> 0 <= past <= 1 -> 0 < sizes (take i buffers) ->
  let it := prev_nonempty i past (BuffersIterator b at_ k p) in
  (current_ it < i)%nat /\ position_ it = p /\ current_buffer_ it = deref buffers (current_ it) /\
  current_buffer_position_ it = size_ (current_buffer_ it) - 1 + past /\ 0 < size_ (current_buffer_ it) /\
  sizes (take (current_ it) buffers) + size_ (current_buffer_ it) = sizes (take i buffers).
Proof.
  induction i as [|i IH]; intros Hi Hpast Hs it; subst it; [by rewrite take_0 in Hs|]. cbn [prev_nonempty position_].
  rewrite sizes_take in Hs |- * by lia. pose proof (deref_nonneg i). destruct (Z.ltb_spec 0 (size_ (deref buffers i))).
  - cbn. pose proof (sizes_take_le (S i)) as Hs2. rewrite sizes_take in Hs2 by lia. pose proof (sizes_take_le i).
    rewrite u64_id by ulia. split_and!; done || lia.
  - destruct IH as (A & B & C & D & E & F); [lia|lia|lia|]. split_and!; try done; lia.
Qed.

Lemma bi_decrement_spec it p : at_position it p -> 0 < p ->
  exists it', decrement it = Ok it' /\ at_position it' (p - 1).
Proof.
  intros Ha Hp. pose proof (at_bounds _ _ Ha). destruct Ha as [H1 H2 H3 H4 H5]. pose proof (sizes_take_le (current_ it)).
  unfold decrement. rewrite H1, (proj2 (Z.ltb_lt 0 p)) by done. cbn [assert_ mbind outcome_bind]. rewrite (u64_id (p - 1)) by ulia.
  destruct (Z.eqb_spec (current_buffer_position_ it) 0) as [E|E]; cbn [negb].
  - eexists. split; [reflexivity|].
    destruct (bi_prev_nonempty_spec (current_ it) 0 (current_buffer_ it) 0 (current_ it) (p - 1)) as (A & B & C & D & F & G);
      [lia|lia|lia|]. split; try lia. intros _. split; [done|lia].
  - destruct (decide (current_ it = end_)) as [Ee|Ee]; [by rewrite (H5 Ee) in E|]. destruct H4 as [H4 H6]; [lia|].
    assert (size_ (current_buffer_ it) < 2 ^ 63).
    { rewrite H4. pose proof (sizes_take_le (S (current_ it))) as Hs. rewrite sizes_take in Hs by lia. lia. }
    eexists. split; [reflexivity|]. rewrite u64_id by ulia. split; cbn [position_ current_ current_buffer_position_ current_buffer_]; try lia. intros _. split; [done|lia].
Qed.


Lemma advance_forward_spec fuel n it p :
  (end_ - current_ it <= fuel)%nat -> (current_ it < end_)%nat -> current_buffer_ it = deref buffers (current_ it) ->
  0 <= current_buffer_position_ it <= size_ (current_buffer_ it) ->
  position_ it = p -> sizes (take (current_ it) buffers) + current_buffer_position_ it = p ->
  0 <= n -> p + n <= sizes buffers ->
  exists it', advance_forward fuel n it = Some (Ok it') /\ at_position it' (p + n).
Proof.
  revert n it p. induction fuel as [|fuel IH]; intros n it p Hf Hi Hb Hr Hp Hs Hn Ht; [lia|]. cbn [advance_forward].
  pose proof (sizes_take_le (S (current_ it))) as Hs1. rewrite sizes_take, <- Hb in Hs1 by done.
  pose proof (sizes_take_le (current_ it)). rewrite Hp, (i64_id (size_ _ - _)) by lia.
  destruct (Z.ltb_spec n (size_ (current_buffer_ it) - current_buffer_position_ it)).
  - eexists. split; [reflexivity|]. rewrite !u64_id by ulia.
    split; cbn [position_ current_ current_buffer_position_ current_buffer_]; try lia. intros _. split; [done|lia].
  - rewrite i64_id, u64_id by ulia. case_bool_decide as He.
    + pose proof (sizes_take (current_ it) Hi) as Hall. rewrite He, firstn_all, <- Hb in Hall.
      rewrite (proj2 (Z.eqb_eq _ 0)) by lia. cbn [assert_ mbind outcome_bind]. eexists. split; [reflexivity|].
      split; cbn [position_ current_ current_buffer_position_ current_buffer_]; try lia. rewrite He, firstn_all. lia.
    + destruct (IH (n - (size_ (current_buffer_ it) - current_buffer_position_ it))
        (BuffersIterator (deref buffers (S (current_ it))) 0 (S (current_ it))
           (p + (size_ (current_buffer_ it) - current_buffer_position_ it)))
        (p + (size_ (current_buffer_ it) - current_buffer_position_ it))) as (it' & E & Ha);
        cbn [position_ current_ current_buffer_position_ current_buffer_]; try lia; [done|..].
      * pose proof (deref_nonneg (S (current_ it))). lia.
      * rewrite sizes_take, <- Hb by done. lia.
      * exists it'. split; [done|]. by replace (p + n) with (p + (size_ (current_buffer_ it) - current_buffer_position_ it)
          + (n - (size_ (current_buffer_ it) - current_buffer_position_ it))) by lia.
Qed.

Lemma advance_back_spec fuel n it p :
  (current_ it < fuel)%nat -> (current_ it <= end_)%nat ->
  ((current_ it < end_)%nat -> current_buffer_ it = deref buffers (current_ it) /\
     0 <= current_buffer_position_ it <= size_ (current_buffer_ it)) ->
  (current_ it = end_ -> current_buffer_position_ it = 0) ->
  position_ it = p -> sizes (take (current_ it) buffers) + current_buffer_position_ it = p ->
  0 < n <= p -> p < 2 ^ 63 ->
  exists it', advance_back fuel n it = Some (Ok it') /\ at_position it' (p - n).
Proof.
  revert n it p. induction fuel as [|fuel IH]; intros n it p Hf Hi Hb He Hp Hs Hn Ht; [lia|]. cbn [advance_back].
  pose proof (sizes_take_le (current_ it)). rewrite Hp.
  assert (0 <= current_buffer_position_ it) as Hat.
  { destruct (decide (current_ it = end_)) as [E|E]; [rewrite (He E); lia|apply Hb; lia]. }
  destruct (Z.leb_spec n (current_buffer_position_ it)).
  - destruct (decide (current_ it = end_)) as [E|E]; [rewrite (He E) in *; lia|]. destruct Hb as [Hb Hr]; [lia|].
    rewrite !u64_id by ulia. eexists. split; [reflexivity|].
    split; cbn [position_ current_ current_buffer_position_ current_buffer_]; try lia. intros _. split; [done|lia].
  - rewrite !u64_id by ulia. case_bool_decide as Ez; [rewrite Ez, take_0 in Hs; cbn in Hs; lia|].
    destruct (bi_prev_nonempty_spec (current_ it) 1 (current_buffer_ it) (current_buffer_position_ it) (current_ it)
      (p - current_buffer_position_ it)) as (A & B & C & D & F & G); [lia|lia|lia|].
    set (it1 := prev_nonempty _ _ _) in *.
    destruct (IH (n - current_buffer_position_ it) it1 (p - current_buffer_position_ it)) as (it' & E & Ha); try lia.
    + intros _. split; [done|lia].
    + exists it'. split; [done|]. by replace (p - n) with (p - current_buffer_position_ it - (n - current_buffer_position_ it)) by lia.
Qed.

Lemma bi_advance_spec n it p : at_position it p -> 0 <= p + n <= sizes buffers ->
  exists it', bi_advance n it = Some (Ok it') /\ at_position it' (p + n).
Proof.
  intros Ha Hn. pose proof (at_bounds _ _ Ha). pose proof Ha as [H1 H2 H3 H4 H5]. unfold bi_advance.
  destruct (Z.ltb_spec 0 n).
  - pose proof (at_inside _ _ Ha ltac:(lia)) as Hi. rewrite bool_decide_eq_false_2 by lia. destruct (H4 Hi) as [Eb Hr].
    apply advance_forward_spec; try done; lia.
  - destruct (Z.ltb_spec n 0).
    + rewrite u64_id, H1, (proj2 (Z.ltb_ge _ _)) by ulia. replace (p + n) with (p - - n) by lia.
      apply advance_back_spec; try done; try lia. intros Hi. destruct (H4 Hi). split; [done|lia].
    + exists it. split; [done|]. by replace (p + n) with p by lia.
Qed.

Lemma bi_deref_spec mem it p : at_position it p -> p < sizes buffers ->
  seq_bytes mem buffers !! Z.to_nat p = Some (bi_deref mem it).
Proof.
  intros Ha Hp. pose proof (at_inside _ _ Ha Hp) as Hi. destruct Ha as [H1 H2 H3 H4 H5]. destruct (H4 Hi) as [Eb Hr].
  pose proof (deref_drop_bytes := deref_drop buffers (current_ it) Hi).
  assert (Hv : forall l, sizes_ok l -> vlen (seq_bytes mem l) = sizes l).
  { induction 1 as [|b l Hb Hl IH]; [done|]. rewrite vlen_seq_bytes_cons by done. cbn. unfold sizes in IH. lia. }
  rewrite <- (take_drop (current_ it) buffers) at 1. unfold seq_bytes. rewrite fmap_app, concat_app.
  fold (seq_bytes mem (take (current_ it) buffers)). fold (seq_bytes mem (drop (current_ it) buffers)).
  specialize (Hv (take (current_ it) buffers) ltac:(by apply Forall_take)). unfold vlen in Hv.
  rewrite lookup_app_r by lia. rewrite deref_drop_bytes, seq_bytes_cons, <- Eb.
  replace (Z.to_nat p - length (seq_bytes mem (take (current_ it) buffers)))%nat
    with (Z.to_nat (current_buffer_position_ it)) by lia.
  rewrite lookup_app_l.
  - unfold buf_bytes, iov_bytes, init_native_buffer, bi_deref, buffer_cast, buffer_size. cbn. rewrite list_lookup_fmap.
    rewrite lookup_seqZ_lt by lia. cbn. f_equal. f_equal. lia.
  - assert (vlen (buf_bytes mem (current_buffer_ it)) = size_ (current_buffer_ it)) as Hl by (apply vlen_buf_bytes; lia).
    unfold vlen in Hl. lia.
Qed.
End Sequence.

(** ** A client *)
Inductive iter_op := ItIncrement | ItDecrement | ItAdvance (n : Z).

Definition iter_step (l : list buffer) (o : iter_op) (it : buffers_iterator) : option (outcome buffers_iterator) :=
  match o with
  | ItIncrement => Some (increment l it)
  | ItDecrement => Some (decrement l it)
  | ItAdvance n => bi_advance l n it
  end.
Fixpoint iter_run (l : list buffer) (ops : list iter_op) (it : buffers_iterator) : option (outcome buffers_iterator) :=
  match ops with
  | [] => Some (Ok it)
  | o :: ops' =>
    match iter_step l o it with
    | Some (Ok it) => iter_run l ops' it
    | Some (Throws e) => Some (Throws e)
    | Some (Crash x) => Some (Crash x)
    | None => None
    end
  end.
Definition iter_move (o : iter_op) : Z := match o with ItIncrement => 1 | ItDecrement => -1 | ItAdvance n => n end.
Fixpoint iter_positions (ops : list iter_op) (p : Z) : list Z :=
  match ops with [] => [] | o :: ops' => (p + iter_move o) :: iter_positions ops' (p + iter_move o) end.
Definition iter_final (ops : list iter_op) (p : Z) : Z := default p (last (iter_positions ops p)).

Lemma iter_run_spec l ops : sizes_ok l -> sizes l < 2 ^ 63 -> forall it p,
  at_position l it p -> Forall (fun x => 0 <= x <= sizes l) (iter_positions ops p) ->
  exists it', iter_run l ops it = Some (Ok it') /\ at_position l it' (iter_final ops p).
Proof.
  intros Hl Ht. induction ops as [|o ops IH]; intros it p Ha Hp; [by exists it|].
  cbn [iter_positions] in Hp. apply Forall_cons in Hp as [Hp Hps].
  assert (exists it1, iter_step l o it = Some (Ok it1) /\ at_position l it1 (p + iter_move o)) as (it1 & E1 & Ha1).
  { pose proof (at_bounds l Hl it p Ha). destruct o as [| |n]; cbn [iter_step iter_move] in *.
    - destruct (bi_increment_spec l Hl Ht it p Ha) as (it1 & -> & ?); [lia|]. eauto.
    - destruct (bi_decrement_spec l Hl Ht it p Ha) as (it1 & -> & ?); [lia|]. eauto.
    - by apply bi_advance_spec. }
  destruct (IH it1 _ Ha1 Hps) as (it' & E & Ha'). exists it'. cbn [iter_run]. rewrite E1. split; [done|].
  unfold iter_final in *. cbn [iter_positions]. rewrite last_cons. by destruct (last _).
Qed.

(** Iterators are positions in the bytes of the sequence: [bi_begin] is 0, [bi_end]
    its length, each move adds its distance, however many buffers are empty, and
    two iterators are equal, and their distance is counted, by position; one that
    is not at the end gives the byte there. *)
Theorem iterator_refines mem l ops1 ops2 :
  sizes_ok l -> sizes l < 2 ^ 63 ->
  Forall (fun x => 0 <= x <= sizes l) (iter_positions ops1 0) ->
  Forall (fun x => 0 <= x <= sizes l) (iter_positions ops2 (sizes l)) ->
  exists it1 it2, iter_run l ops1 (bi_begin l) = Some (Ok it1) /\ iter_run l ops2 (bi_end l) = Some (Ok it2) /\
    let p1 := iter_final ops1 0 in let p2 := iter_final ops2 (sizes l) in
    (p1 < sizes l -> seq_bytes mem l !! Z.to_nat p1 = Some (bi_deref mem it1)) /\
    (p2 < sizes l -> seq_bytes mem l !! Z.to_nat p2 = Some (bi_deref mem it2)) /\
    bi_equal it1 it2 = (p1 =? p2) /\ distance_to it1 it2 = p2 - p1.
Proof.
  intros Hl Ht H1 H2.
  destruct (iter_run_spec l ops1 Hl Ht _ _ (bi_begin_spec l Hl) H1) as (it1 & E1 & A1).
  destruct (iter_run_spec l ops2 Hl Ht _ _ (bi_end_spec l Hl Ht) H2) as (it2 & E2 & A2).
  exists it1, it2. split; [done|]. split; [done|]. cbn zeta. split; [by apply bi_deref_spec|]. split; [by apply bi_deref_spec|].
  unfold bi_equal, distance_to. rewrite (ap_position _ _ _ A1), (ap_position _ _ _ A2). split; [done|].
  pose proof (at_bounds l Hl _ _ A1). pose proof (at_bounds l Hl _ _ A2). apply i64_id. lia.
Qed.

Definition holes : list buffer := [Buffer 9 0; Buffer 65 2; Buffer 0 0; Buffer 0 0; Buffer 97 3; Buffer 5 0].
Lemma iterator_refines_witness :
  exists it1 it2, iter_run holes [ItAdvance 4; ItDecrement; ItDecrement; ItIncrement] (bi_begin holes) = Some (Ok it1) /\
    iter_run holes [ItAdvance (-5); ItIncrement] (bi_end holes) = Some (Ok it2) /\
    Some (bi_deref letters it1) = Some (of_uchar 98) /\ distance_to it1 it2 = -2.
Proof.
  destruct (iterator_refines letters holes [ItAdvance 4; ItDecrement; ItDecrement; ItIncrement] [ItAdvance (-5); ItIncrement])
    as (it1 & it2 & E1 & E2 & D1 & _ & _ & Hd).
  - repeat (constructor; [vm_compute; discriminate|]); constructor.
  - vm_compute. reflexivity.
  - repeat (constructor; [vm_compute; split; discriminate|]); constructor.
  - repeat (constructor; [vm_compute; split; discriminate|]); constructor.
  - exists it1, it2. split; [exact E1|]. split; [exact E2|]. split; [|exact Hd]. symmetry. exact (D1 ltac:(vm_compute; reflexivity)).
Defined.
