(* ===== verification/Strand.v ===== *)
(** * Strands (asio/detail/impl/strand_service.ipp, strand_service.hpp)

    A strand runs the handlers it is given one at a time, though several threads
    run the I/O service and any thread may give it handlers.  A step of the
    system is what happens under the strand's mutex, or between two such parts;
    the stack of a thread tells how far it is in the functions of the strand, and
    which handlers it runs.  [strand_serial] is about every interleaving. *)
From S2P Require Import Prelude.

Record strand_impl := StrandImpl {
  locked_ : bool;
  waiting_queue_ : list Z;
  ready_queue_ : list Z
}.
Definition strand_impl_new : strand_impl := StrandImpl false [] [].

Inductive frame :=
  | FAcquired (op : Z)    (* do_post, do_dispatch: has set [locked_], will push [op] *)
  | FPosting              (* will post the strand to the I/O service *)
  | FLoop                 (* the loop of do_complete *)
  | FHandler (op : Z)     (* a handler, called by the loop *)
  | FInline (op : Z)      (* a handler, called by dispatch *)
  | FNested (op : Z)      (* a handler, called by dispatch inside the strand *)
  | FExit.                (* on_do_complete_exit, on_dispatch_exit *)

(** [queued]: the handler was in a queue, and not called at once by dispatch. *)
Inductive run_event := Begins (t op : Z) (queued : bool) | Ends (t op : Z).

(** [scheduled]: how often the strand is in the queue of the I/O service.
    [posted]: the handlers that were put in a queue, in the order of the mutex;
    [run_log]: the calls of handlers. *)
Record strand_system := StrandSystem {
  impl_ : strand_impl;
  scheduled : nat;
  threads : gmap Z (list frame);
  posted : list Z;
  run_log : list run_event
}.
Definition strand_start : strand_system := StrandSystem strand_impl_new 0 ∅ [] [].

Definition with_impl (i : strand_impl) (s : strand_system) : strand_system :=
  StrandSystem i (scheduled s) (threads s) (posted s) (run_log s).
Definition with_stack (t : Z) (l : list frame) (s : strand_system) : strand_system :=
  StrandSystem (impl_ s) (scheduled s) (<[t := l]> (threads s)) (posted s) (run_log s).
Definition with_scheduled (n : nat) (s : strand_system) : strand_system :=
  StrandSystem (impl_ s) n (threads s) (posted s) (run_log s).
Definition with_posted (op : Z) (s : strand_system) : strand_system :=
  StrandSystem (impl_ s) (scheduled s) (threads s) (posted s ++ [op]) (run_log s).
Definition with_event (e : run_event) (s : strand_system) : strand_system :=
  StrandSystem (impl_ s) (scheduled s) (threads s) (posted s) (run_log s ++ [e]).

(** ** The parts of the functions *)

(** do_post under the mutex; the rest is the frame [FAcquired]. *)
Definition do_post (t op : Z) (s : strand_system) : strand_system :=
  let i := impl_ s in
  let s := with_posted op s in
  if locked_ i then with_impl (StrandImpl (locked_ i) (waiting_queue_ i ++ [op]) (ready_queue_ i)) s
  else with_stack t (FAcquired op :: threads s !!! t)
         (with_impl (StrandImpl true (waiting_queue_ i) (ready_queue_ i)) s).

(** do_dispatch under the mutex; whether the handler is called at once *)
Definition do_dispatch (t op : Z) (can_dispatch : bool) (s : strand_system) : bool * strand_system :=
  let i := impl_ s in
  if can_dispatch && negb (locked_ i) then
    (true, with_impl (StrandImpl true (waiting_queue_ i) (ready_queue_ i)) s)
  else
    let s := with_posted op s in
    if locked_ i then (false, with_impl (StrandImpl (locked_ i) (waiting_queue_ i ++ [op]) (ready_queue_ i)) s)
    else (false, with_stack t (FAcquired op :: threads s !!! t)
                   (with_impl (StrandImpl true (waiting_queue_ i) (ready_queue_ i)) s)).

(** The call stack has a context of this strand. *)
Definition in_context (f : frame) : bool := match f with FLoop | FInline _ => true | _ => false end.
Definition running_in_this_thread (t : Z) (s : strand_system) : bool := existsb in_context (threads s !!! t).

Definition dispatch (t op : Z) (can_dispatch : bool) (s : strand_system) : strand_system :=
  if running_in_this_thread t s then with_event (Begins t op false) (with_stack t (FNested op :: threads s !!! t) s)
  else
    let '(dispatch_immediately, s) := do_dispatch t op can_dispatch s in
    if dispatch_immediately then with_event (Begins t op false) (with_stack t (FInline op :: threads s !!! t) s)
    else s.

(** The destructor of on_do_complete_exit and on_dispatch_exit, under the mutex *)
Definition on_exit (i : strand_impl) : bool * strand_impl :=
  let ready := ready_queue_ i ++ waiting_queue_ i in
  let more_handlers := negb (bool_decide (ready = [])) in
  (more_handlers, StrandImpl more_handlers [] ready).

(** The next step of a thread that is in a function of the strand, or the return
    of its handler *)
Definition thread_step (t : Z) (s : strand_system) : option strand_system :=
  let i := impl_ s in
  match threads s !!! t with
  | [] => None
  | FAcquired op :: l =>
    Some (with_stack t (FPosting :: l)
            (with_impl (StrandImpl (locked_ i) (waiting_queue_ i) (ready_queue_ i ++ [op])) s))
  | FPosting :: l => Some (with_stack t l (with_scheduled (S (scheduled s)) s))
  | FLoop :: l =>
    match ready_queue_ i with
    | [] => Some (with_stack t (FExit :: l) s)
    | o :: rest =>
      Some (with_event (Begins t o true) (with_stack t (FHandler o :: FLoop :: l)
              (with_impl (StrandImpl (locked_ i) (waiting_queue_ i) rest) s)))
    end
  | FHandler op :: l => Some (with_event (Ends t op) (with_stack t l s))
  | FNested op :: l => Some (with_event (Ends t op) (with_stack t l s))
  | FInline op :: l => Some (with_event (Ends t op) (with_stack t (FExit :: l) s))
  | FExit :: l =>
    let '(more_handlers, i) := on_exit i in
    Some (with_stack t (if (more_handlers : bool) then FPosting :: l else l) (with_impl i s))
  end.

(** The I/O service gives the strand to a thread that runs nothing. *)
Definition do_complete (t : Z) (s : strand_system) : option strand_system :=
  match scheduled s, threads s !!! t with
  | S n, [] => Some (with_stack t [FLoop] (with_scheduled n s))
  | _, _ => None
  end.

(** ** Interleavings *)
Inductive strand_action :=
  | APost (t op : Z)
  | ADispatch (t op : Z) (can_dispatch : bool)
  | AStep (t : Z)
  | AComplete (t : Z).

(** User code runs outside the strand or in a handler. *)
Definition in_user_code (l : list frame) : bool :=
  match l with [] | FHandler _ :: _ | FInline _ :: _ | FNested _ :: _ => true | _ => false end.

(** [None]: the action is not possible here. *)
Definition strand_act (a : strand_action) (s : strand_system) : option strand_system :=
  match a with
  | APost t op => if in_user_code (threads s !!! t) then Some (do_post t op s) else None
  | ADispatch t op can => if in_user_code (threads s !!! t) then Some (dispatch t op can s) else None
  | AStep t => thread_step t s
  | AComplete t => do_complete t s
  end.

Fixpoint strand_run (l : list strand_action) (s : strand_system) : option strand_system :=
  match l with
  | [] => Some s
  | a :: l' => match strand_act a s with Some s' => strand_run l' s' | None => None end
  end.

(** ** construct: strands share their implementations *)
Definition num_implementations := 193.
Definition strand_index (address salt : Z) : Z :=
  let index := address in
  let index := u64 (index + Z.shiftr address 3) in
  let index := Z.lxor index (u64 (u64 (u64 (salt + 0x9e3779b9) + shl64 index 6) + shr64 index 2)) in
  index mod num_implementations.

(** [fresh]: what [new] gives; the array, the salt and the implementation *)
Definition strand_construct (address fresh : Z) (implementations : gmap Z Z) (salt : Z) : gmap Z Z * Z * Z :=
  let index := strand_index address salt in
  match implementations !! index with
  | Some impl => (implementations, u64 (salt + 1), impl)
  | None => (<[index := fresh]> implementations, u64 (salt + 1), fresh)
  end.

Lemma strand_index_bound address salt : 0 <= strand_index address salt < num_implementations.
Proof. unfold strand_index. apply Z.mod_pos_bound. unfold num_implementations. lia. Qed.

(** A strand has the implementation of its slot, and no other slot changes. *)
Lemma strand_construct_spec address fresh impls salt impls' salt' impl :
  strand_construct address fresh impls salt = (impls', salt', impl) ->
  impls' !! strand_index address salt = Some impl /\
  (forall i, i <> strand_index address salt -> impls' !! i = impls !! i) /\
  (impl = fresh \/ impls' = impls).
Proof.
  unfold strand_construct. destruct (impls !! _) as [p|] eqn:Hp; intros [= <- <- <-]; [auto|].
  split_and!; [by rewrite lookup_insert_eq|intros i Hi; by rewrite lookup_insert_ne|by left].
Qed.

(** ** What the log says: who is in the strand, and how deep; [None] when a
    handler has begun while another thread was in one *)
Definition scan_event (st : option (Z * nat)) (e : run_event) : option (option (Z * nat)) :=
  match st, e with
  | None, Begins t _ _ => Some (Some (t, 1%nat))
  | Some (u, n), Begins t _ _ => if bool_decide (t = u) then Some (Some (u, S n)) else None
  | Some (u, S O), Ends t _ => if bool_decide (t = u) then Some None else None
  | Some (u, S n), Ends t _ => if bool_decide (t = u) then Some (Some (u, n)) else None
  | _, Ends _ _ => None
  end.
Fixpoint scan_log (st : option (Z * nat)) (l : list run_event) : option (option (Z * nat)) :=
  match l with
  | [] => Some st
  | e :: l' => match scan_event st e with Some st => scan_log st l' | None => None end
  end.
Definition serial (l : list run_event) : Prop := is_Some (scan_log None l).

(** The handlers that have begun and were in a queue *)
Definition begun (l : list run_event) : list Z :=
  l ≫= fun e => match e with Begins _ op true => [op] | _ => [] end.

Lemma scan_log_snoc st l e : scan_log st (l ++ [e]) = (scan_log st l ≫= fun st => scan_event st e).
Proof.
  revert st. induction l as [|e' l IH]; intros st; cbn [scan_log app mbind option_bind].
  - by destruct (scan_event st e).
  - destruct (scan_event st e') as [st'|]; [apply IH|done].
Qed.

Lemma begun_snoc l e : begun (l ++ [e]) = begun l ++ match e with Begins _ op true => [op] | _ => [] end.
Proof. unfold begun. rewrite bind_app. cbn. by rewrite app_nil_r. Qed.

(** The thread [t] is in [n] handlers of the strand. *)
Definition in_handlers (t : Z) (n : nat) : option (Z * nat) := match n with O => None | _ => Some (t, n) end.

Lemma scan_begins l t n op q : scan_log None l = Some (in_handlers t n) ->
  scan_log None (l ++ [Begins t op q]) = Some (in_handlers t (S n)).
Proof. intros Hl. rewrite scan_log_snoc, Hl. destruct n as [|[|n]]; cbn -[bool_decide]; [done|by rewrite bool_decide_true..]. Qed.

Lemma scan_ends l t n op : scan_log None l = Some (in_handlers t (S n)) ->
  scan_log None (l ++ [Ends t op]) = Some (in_handlers t n).
Proof. intros Hl. rewrite scan_log_snoc, Hl. destruct n; cbn -[bool_decide]; by rewrite bool_decide_true. Qed.

(** ** Who has the strand *)

(** The stack of the one thread that has it: with the ready queue [r], it will put
    [acq] there, and is in [n] handlers. *)
Inductive own_stack (r : list Z) : list frame -> list Z -> nat -> Prop :=
  | os_acquired op : own_stack r [FAcquired op] [op] 0
  | os_posting : r <> [] -> own_stack r [FPosting] [] 0
  | os_loop : own_stack r [FLoop] [] 0
  | os_exit : r = [] -> own_stack r [FExit] [] 0
  | os_handler op : own_stack r [FHandler op; FLoop] [] 1
  | os_inline op : r = [] -> own_stack r [FInline op] [] 1
  | os_nested op l n : own_stack r l [] (S n) -> own_stack r (FNested op :: l) [] (S (S n)).

Inductive phase (s : strand_system) : list Z -> Prop :=
  | ph_free :
      impl_ s = StrandImpl false [] [] -> scheduled s = 0%nat -> (forall t, threads s !!! t = []) ->
      scan_log None (run_log s) = Some None -> phase s []
  | ph_scheduled w r :
      impl_ s = StrandImpl true w r -> r <> [] -> scheduled s = 1%nat -> (forall t, threads s !!! t = []) ->
      scan_log None (run_log s) = Some None -> phase s []
  | ph_owned t l w r acq n :
      impl_ s = StrandImpl true w r -> scheduled s = 0%nat -> threads s !!! t = l ->
      (forall u, u <> t -> threads s !!! u = []) -> own_stack r l acq n ->
      scan_log None (run_log s) = Some (in_handlers t n) -> phase s acq.

Record strand_inv (s : strand_system) : Prop := {
  si_phase : exists acq, phase s acq /\
    posted s = begun (run_log s) ++ ready_queue_ (impl_ s) ++ acq ++ waiting_queue_ (impl_ s)
}.

Lemma strand_start_inv : strand_inv strand_start.
Proof. split. exists []. split; [|done]. by apply ph_free. Qed.

Lemma own_stack_frames r l acq n : own_stack r l acq n -> l <> [] /\
  (existsb in_context l = true <-> (n <> 0)%nat \/ l = [FLoop]) /\
  (in_user_code l = true <-> (n <> 0)%nat) /\ ((n <> 0)%nat -> acq = []).
Proof.
  induction 1 as [| | | | | |op l n Hl IH]; try (split_and!; cbn; [done|naive_solver lia..]).
Qed.

(** ** Every action keeps the invariant. *)
Ltac sys_cbn := cbn [impl_ scheduled threads posted run_log with_impl with_stack with_scheduled with_posted with_event
  locked_ waiting_queue_ ready_queue_] in *.

Ltac log_eq Hp Ei := sys_cbn; rewrite ?begun_snoc, Hp, ?Ei; sys_cbn; by rewrite ?app_nil_r, <- ?app_assoc.

(** A handler is put in the waiting queue. *)
Lemma push_waiting s op : strand_inv s -> locked_ (impl_ s) = true ->
  strand_inv (with_impl (StrandImpl (locked_ (impl_ s)) (waiting_queue_ (impl_ s) ++ [op]) (ready_queue_ (impl_ s)))
                (with_posted op s)).
Proof.
  intros [(acq & Hph & Hp)] Hl. split. exists acq. split; [|sys_cbn; by rewrite Hp, <- !app_assoc].
  rewrite Hl. destruct Hph as [Ei|w r Ei|t l w r acq n Ei]; rewrite Ei in *; [done|by eapply ph_scheduled|by eapply ph_owned].
Qed.

Lemma free_stack s acq : phase s acq -> locked_ (impl_ s) = false ->
  acq = [] /\ scheduled s = 0%nat /\ impl_ s = StrandImpl false [] [] /\ (forall u, threads s !!! u = []) /\
  scan_log None (run_log s) = Some None.
Proof. intros [Ei|w r Ei|u l w r acq' n Ei] Hl; [done|by rewrite Ei in Hl..]. Qed.

(** The thread that has the strand, from a step of its own *)
Lemma phase_owned_intro s t l w r acq n :
  impl_ s = StrandImpl true w r -> scheduled s = 0%nat -> (forall u, u <> t -> threads s !!! u = []) ->
  threads s !!! t = l -> own_stack r l acq n ->
  scan_log None (run_log s) = Some (in_handlers t n) -> phase s acq.
Proof. intros. by eapply ph_owned. Qed.

Ltac owned t := eapply (phase_owned_intro _ t);
  [sys_cbn; first [reflexivity|eassumption]|sys_cbn; done|sys_cbn; intros ? ?; rewrite total_insert, decide_False by congruence; auto
  |sys_cbn; rewrite total_insert, decide_True by done; reflexivity|..].

Lemma do_post_inv t op s : strand_inv s -> strand_inv (do_post t op s).
Proof.
  intros Hs. unfold do_post. destruct (locked_ (impl_ s)) eqn:El.
  { pose proof (push_waiting s op Hs El) as Hi. by rewrite El in Hi. }
  destruct Hs as [(acq & Hph & Hp)]. destruct (free_stack s acq Hph El) as (-> & Hsch & Ei & Ht & Hsc).
  split. exists [op]. split; [|log_eq Hp Ei]. rewrite Ht, Ei. owned t; [constructor|done].
Qed.

(** A handler of dispatch is called in a thread that is outside the strand. *)
Lemma inline_inv t op s : strand_inv s -> locked_ (impl_ s) = false ->
  strand_inv (with_event (Begins t op false) (with_stack t (FInline op :: threads s !!! t)
    (with_impl (StrandImpl true (waiting_queue_ (impl_ s)) (ready_queue_ (impl_ s))) s))).
Proof.
  intros [(acq & Hph & Hp)] El. destruct (free_stack s acq Hph El) as (-> & Hsch & Ei & Ht & Hsc).
  split. exists []. rewrite Ht, Ei. split; [|log_eq Hp Ei].
  owned t; [by constructor|by apply scan_begins].
Qed.

Lemma dispatch_inv t op can s : strand_inv s -> in_user_code (threads s !!! t) = true -> strand_inv (dispatch t op can s).
Proof.
  intros Hs Hu. unfold dispatch, running_in_this_thread. destruct (existsb _ _) eqn:Ec.
  - pose proof Hs as [(acq & Hph & Hp)]. split. exists acq.
    split; [|sys_cbn; by rewrite begun_snoc, app_nil_r].
    destruct Hph as [Ei Hsch Ht|w r Ei Hr Hsch Ht|u l w r acq n Ei Hsch El Ho Hst Hsc]; try by rewrite Ht in Ec.
    destruct (decide (t = u)) as [->|Hne]; [|by rewrite Ho in Ec]. rewrite El in *.
    destruct (own_stack_frames _ _ _ _ Hst) as (_ & _ & Huc & Hacq). rewrite Hu in Huc.
    assert (n <> 0%nat) as Hn by by apply Huc. rewrite (Hacq Hn) in *. destruct n as [|n]; [done|].
    owned u; [by constructor|by apply scan_begins].
  - unfold do_dispatch. destruct (can && negb (locked_ (impl_ s))) eqn:Ecan.
    + apply andb_true_iff in Ecan as [_ El]. apply negb_true_iff in El. exact (inline_inv t op s Hs El).
    + pose proof (do_post_inv t op s Hs) as Hi. unfold do_post in Hi. by destruct (locked_ (impl_ s)).
Qed.

Lemma complete_inv t s s' : strand_inv s -> do_complete t s = Some s' -> strand_inv s'.
Proof.
  intros [(acq & Hph & Hp)]. unfold do_complete.
  destruct Hph as [Ei Hsch Ht|w r Ei Hr Hsch Ht Hsc|u l w r acq n Ei Hsch El Ho Hst Hsc]; rewrite Hsch; try done.
  rewrite Ht. intros [= <-]. split. exists []. split; [|log_eq Hp Ei]. owned t; [constructor|done].
Qed.

Lemma strand_step_inv t s s' : strand_inv s -> thread_step t s = Some s' -> strand_inv s'.
Proof.
  intros [(acq & Hph & Hp)] Hs. unfold thread_step in Hs.
  destruct Hph as [Ei Hsch Ht|w r Ei Hr Hsch Ht Hsc|u l w r acq n Ei Hsch El Ho Hst Hsc]; try by rewrite Ht in Hs.
  destruct (decide (t = u)) as [->|Hne]; [|by rewrite Ho in Hs]. rewrite El in Hs.
  split. destruct Hst as [op|Hr| | |op|op|op l n Hst]; try rewrite Ei in Hs; rewrite Ei in Hp; sys_cbn.
  - injection Hs as <-. exists []. split; [|log_eq Hp Ei]. owned u; [|done]. constructor. by destruct r.
  - injection Hs as <-. exists []. split; [|log_eq Hp Ei]. eapply ph_scheduled; sys_cbn; eauto.
    intros v. rewrite total_insert. case_decide; auto.
  - destruct r as [|o r]; injection Hs as <-; exists []; (split; [|log_eq Hp Ei]); owned u; try by constructor.
    1: done. by apply scan_begins.
  - unfold on_exit in Hs. sys_cbn. exists []. case_bool_decide as Hb; cbn in Hs; injection Hs as <-.
    + apply app_eq_nil in Hb as [-> ->]. split; [|log_eq Hp Ei]. apply ph_free; sys_cbn; auto.
      intros v. rewrite total_insert. case_decide; auto.
    + split; [|log_eq Hp Ei]. owned u; [by constructor|done].
  - injection Hs as <-. exists []. split; [|log_eq Hp Ei]. owned u; [by constructor|by eapply scan_ends].
  - injection Hs as <-. exists []. split; [|log_eq Hp Ei]. owned u; [by constructor|by eapply scan_ends].
  - injection Hs as <-. exists []. split; [|log_eq Hp Ei]. owned u; [eassumption|by eapply scan_ends].
Qed.

Lemma act_inv a s s' : strand_inv s -> strand_act a s = Some s' -> strand_inv s'.
Proof.
  destruct a as [t op|t op can|t|t]; cbn; intros Hs.
  - destruct (in_user_code _); [|done]. intros [= <-]. by apply do_post_inv.
  - destruct (in_user_code _) eqn:Hu; [|done]. intros [= <-]. by apply dispatch_inv.
  - by apply strand_step_inv.
  - by apply complete_inv.
Qed.

Lemma strand_run_inv l s s' : strand_inv s -> strand_run l s = Some s' -> strand_inv s'.
Proof.
  revert s. induction l as [|a l IH]; intros s Hs; cbn; [by intros [= <-]|].
  destruct (strand_act a s) as [s1|] eqn:Ea; [|done]. eauto using act_inv.
Qed.

(** ** The work that is left *)
Definition frame_work (f : frame) : nat :=
  match f with FAcquired _ => 18 | FPosting => 7 | FLoop | FInline _ => 5 | FExit => 4 | FHandler _ | FNested _ => 1 end.
Definition work (t : Z) (s : strand_system) : nat :=
  20 * length (waiting_queue_ (impl_ s)) + 10 * length (ready_queue_ (impl_ s)) + 6 * scheduled s +
  sum_list (frame_work <$> threads s !!! t).
Definition alone (t : Z) (s : strand_system) : Prop := forall u, u <> t -> threads s !!! u = [].

(** A step of a thread or of the I/O service, not a call of the user's code *)
Definition internal (a : strand_action) : bool := match a with AStep _ | AComplete _ => true | _ => false end.
(** Nothing moves unless user code calls the strand. *)
Definition quiescent (s : strand_system) : Prop := forall a, internal a = true -> strand_act a s = None.

Lemma alone_insert t l s i n p e : alone t s -> alone t (StrandSystem i n (<[t := l]> (threads s)) p e).
Proof. intros Ha u Hu. cbn. rewrite total_insert, decide_False by congruence. auto. Qed.
#[local] Hint Resolve alone_insert : core.

Lemma step_alone t s s' : strand_inv s -> thread_step t s = Some s' -> alone t s.
Proof.
  intros [(acq & Hph & _)] Hs u Hu. unfold thread_step in Hs.
  destruct Hph as [Ei Hsch Ht|w r Ei Hr Hsch Ht|v l w r acq n Ei Hsch El Ho]; auto.
  destruct (decide (t = v)) as [->|Hne]; [by apply Ho|]. by rewrite Ho in Hs by done.
Qed.

Lemma alone_work t u s : alone t s -> alone u s -> work t s = work u s.
Proof.
  intros Ht Hu. destruct (decide (t = u)) as [->|Hne]; [done|].
  unfold work. by rewrite (Ht u), (Hu t) by congruence.
Qed.

Lemma step_work t s s' : strand_inv s -> thread_step t s = Some s' -> alone t s' /\ (work t s' < work t s)%nat.
Proof.
  intros Hi Hs. pose proof (step_alone _ _ _ Hi Hs) as Ha. destruct Hi as [(acq & Hph & _)].
  unfold thread_step in Hs.
  destruct Hph as [Ei Hsch Ht|w r Ei Hr Hsch Ht|v l w r acq n Ei Hsch El Ho Hst]; try by rewrite Ht in Hs.
  destruct (decide (t = v)) as [->|Hne]; [|by rewrite Ho in Hs]. rewrite El in Hs. unfold work. rewrite Ei, El.
  destruct Hst as [op|Hr| |Hr|op|op Hr|op l n Hst]; try rewrite Ei in Hs; sys_cbn.
  all: try (unfold on_exit in Hs; sys_cbn; case_bool_decide as Hb; cbn [negb] in Hs).
  all: try (destruct r as [|o r]).
  all: injection Hs as <-; (split; [by apply alone_insert|]); sys_cbn;
    rewrite ?Ei, total_insert, decide_True by done; sys_cbn; rewrite ?length_app; cbn -[Nat.mul]; rewrite ?length_app; cbn -[Nat.mul]; try done; try lia.
  destruct w as [|x w]; [by destruct Hb|cbn [length]; lia].
Qed.

Lemma complete_work t u s s' : strand_inv s -> alone u s -> do_complete t s = Some s' ->
  alone t s' /\ (work t s' < work u s)%nat.
Proof.
  intros [(acq & Hph & _)] Ha. unfold do_complete. destruct (scheduled s) as [|k] eqn:Hk; [done|].
  destruct (threads s !!! t) eqn:Et; [|done]. intros [= <-].
  destruct Hph as [Ei Hsch Ht|w r Ei Hr Hsch Ht|v l w r acq n Ei Hsch]; rewrite Hk in Hsch; try done.
  split; [apply alone_insert; intros v _; apply Ht|]. unfold work. sys_cbn.
  rewrite total_insert, decide_True, Ei, Hk, Ht by done. cbn. lia.
Qed.

Lemma internal_work a t s s' : strand_inv s -> alone t s -> internal a = true -> strand_act a s = Some s' ->
  exists u, alone u s' /\ (work u s' < work t s)%nat.
Proof.
  destruct a as [| |u|u]; try done; cbn [strand_act]; intros Hi Ha _ Hs; exists u.
  - assert (work t s = work u s) as -> by eauto using alone_work, step_alone. by apply step_work.
  - by eapply complete_work.
Qed.

Lemma internal_run_bounded l t s s' : strand_inv s -> alone t s -> Forall (fun a => internal a = true) l ->
  strand_run l s = Some s' -> (length l <= work t s)%nat.
Proof.
  revert t s. induction l as [|a l IH]; intros t s Hi Ha Hl; cbn [length strand_run]; [lia|].
  apply Forall_cons in Hl as [Hint Hl]. destruct (strand_act a s) as [s1|] eqn:Hs; [|done]. intros Hr.
  destruct (internal_work a t s s1) as (u & Hu & Hlt); auto.
  enough (length l <= work u s1)%nat by lia. eauto using act_inv.
Qed.

Lemma inv_alone s : strand_inv s -> exists t, alone t s.
Proof.
  intros [(acq & Hph & _)]. destruct Hph as [|w r|t]; [exists 0; intros u Hu; eauto..|by exists t].
Qed.

Lemma internal_act_posted a s s' : internal a = true -> strand_act a s = Some s' -> posted s' = posted s.
Proof.
  destruct a as [| |t|t]; try done; cbn; intros _ Hs.
  - unfold thread_step in Hs. destruct (threads s !!! t) as [|[]]; try destruct (ready_queue_ (impl_ s));
      try destruct (on_exit (impl_ s)); by simplify_eq.
  - unfold do_complete in Hs. destruct (scheduled s), (threads s !!! t); by simplify_eq.
Qed.

Lemma internal_posted l s s' : Forall (fun a => internal a = true) l -> strand_run l s = Some s' -> posted s' = posted s.
Proof.
  revert s. induction l as [|a l IH]; intros s Hl; cbn; [by intros [= <-]|]. apply Forall_cons in Hl as [Ha Hl].
  destruct (strand_act a s) as [s1|] eqn:Hs; [|done]. intros Hr.
  rewrite (IH s1) by done. by eapply internal_act_posted.
Qed.

(** Whoever has the strand can go on: a frame always has a next step (a handler
    returns), and a scheduled strand is run by any thread. *)
Lemma quiescent_free s : strand_inv s -> quiescent s -> begun (run_log s) = posted s /\ locked_ (impl_ s) = false.
Proof.
  intros [(acq & Hph & Hp)] Hq.
  destruct Hph as [Ei Hsch Ht|w r Ei Hr Hsch Ht|t l w r acq n Ei Hsch El Ho Hst]; rewrite Hp, Ei; cbn.
  - by rewrite app_nil_r.
  - specialize (Hq (AComplete 0) eq_refl). cbn in Hq. unfold do_complete in Hq. by rewrite Hsch, Ht in Hq.
  - specialize (Hq (AStep t) eq_refl). cbn in Hq. unfold thread_step in Hq. rewrite El in Hq.
    by destruct Hst; try destruct (ready_queue_ (impl_ s)).
Qed.

(** ** The strand *)

(** C25. For every interleaving of threads that post, dispatch, run handlers and run
    the I/O service, the handlers of a strand run one at a time: none begins while
    another thread is in one (a nested one is dispatched by the thread itself).  The
    handlers that were queued begin in the order of the mutex, none twice and none
    skipped; the strand is scheduled at most once; at most one thread is in the code
    that uses [ready_queue_] without the mutex, and none while the strand is scheduled;
    and a strand that is not locked has begun all its handlers. *)
Theorem strand_serial (l : list strand_action) (s : strand_system) :
  strand_run l strand_start = Some s ->
  serial (run_log s) /\ begun (run_log s) `prefix_of` posted s /\
  (scheduled s <= 1)%nat /\
  (forall t u, threads s !!! t <> [] -> threads s !!! u <> [] -> t = u /\ scheduled s = 0%nat) /\
  (locked_ (impl_ s) = false -> begun (run_log s) = posted s).
Proof.
  intros Hr. pose proof (strand_run_inv _ _ _ strand_start_inv Hr) as [(acq & Hph & Hp)].
  split_and!; [|by eexists|destruct Hph; lia| |].
  - unfold serial. destruct Hph as [Ei Hsch Ht Hsc|w r Ei Hrn Hsch Ht Hsc|t st w r acq n Ei Hsch El Ho Hst Hsc];
      by rewrite Hsc.
  - intros t u Ht Hu. destruct Hph as [Ei Hsch Hn|w r Ei Hrn Hsch Hn|v st w r acq n Ei Hsch El Ho]; [by rewrite Hn in Ht..|].
    split; [|done]. destruct (decide (t = v)) as [->|]; [|by rewrite Ho in Ht].
    destruct (decide (u = v)) as [->|]; [done|by rewrite Ho in Hu].
  - intros Hl. destruct (free_stack _ _ Hph Hl) as (-> & _ & Ei & _). rewrite Hp, Ei. cbn. by rewrite app_nil_r.
Qed.

(** C26. Nothing that is given to a strand waits for ever: from every reachable state,
    when user code makes no more calls and its handlers return, every schedule of the
    threads and the I/O service ends after a bounded number of steps, and when nothing
    moves any more every handler has begun, and the strand is unlocked. *)
Theorem strand_drains (l : list strand_action) (s : strand_system) :
  strand_run l strand_start = Some s ->
  exists bound : nat, forall l' s', Forall (fun a => internal a = true) l' -> strand_run l' s = Some s' ->
    (length l' <= bound)%nat /\
    (quiescent s' -> begun (run_log s') = posted s' /\ posted s' = posted s /\ locked_ (impl_ s') = false).
Proof.
  intros Hr. pose proof (strand_run_inv _ _ _ strand_start_inv Hr) as Hi. destruct (inv_alone s Hi) as [t Ha].
  exists (work t s). intros l' s' Hl Hr'. split; [by eapply internal_run_bounded|]. intros Hq.
  destruct (quiescent_free s') as [Hb Hlk]; [by eapply strand_run_inv|done|].
  split_and!; [done|by eapply internal_posted|done].
Qed.

(** Four threads: three give the strand handlers, one runs it; the first handler
    dispatches one more, at once. *)
Definition four_threads : list strand_action :=
  [APost 1 10; APost 4 11; AStep 1; AStep 1; AComplete 2; ADispatch 3 12 true; AStep 2; ADispatch 2 13 true; AStep 2;
   APost 1 14; AStep 2].

Lemma strand_serial_witness :
  strand_run four_threads strand_start =
    Some (StrandSystem (StrandImpl true [11; 12; 14] []) 0 (<[2 := [FLoop]]> (<[1 := []]> ∅)) [10; 11; 12; 14]
            [Begins 2 10 true; Begins 2 13 false; Ends 2 13; Ends 2 10]) /\
  is_Some (scan_log None [Begins 2 10 true; Begins 2 13 false; Ends 2 13; Ends 2 10]) /\
  [10] `prefix_of` [10; 11; 12; 14].
Proof.
  assert (strand_run four_threads strand_start =
    Some (StrandSystem (StrandImpl true [11; 12; 14] []) 0 (<[2 := [FLoop]]> (<[1 := []]> ∅)) [10; 11; 12; 14]
            [Begins 2 10 true; Begins 2 13 false; Ends 2 13; Ends 2 10])) as Hr by (vm_compute; reflexivity).
  split; [exact Hr|]. destruct (strand_serial _ _ Hr) as (Hs & Hb & _). split; [exact Hs|exact Hb].
Defined.

(** The rest of the run: the strand is put back twice, and everything begins. *)
Definition drained : list strand_action :=
  [AStep 2; AStep 2; AStep 2; AComplete 1; AStep 1; AStep 1; AStep 1; AStep 1; AStep 1; AStep 1; AStep 1; AStep 1].

Lemma strand_drains_witness : exists s bound,
  strand_run four_threads strand_start = Some s /\
  (length drained <= bound)%nat /\
  exists s', strand_run drained s = Some s' /\ begun (run_log s') = [10; 11; 12; 14].
Proof.
  destruct (strand_run four_threads strand_start) as [s|] eqn:Hr; [|exfalso; vm_compute in Hr; discriminate].
  destruct (strand_drains _ _ Hr) as [bound Hb]. exists s, bound. split; [reflexivity|].
  assert (strand_run four_threads strand_start ≫= strand_run drained = strand_run drained s) as He by (rewrite Hr; reflexivity).
  destruct (strand_run drained s) as [s'|] eqn:Hd; [|exfalso; vm_compute in He; discriminate].
  destruct (Hb drained s') as [Hl _]; [repeat constructor|exact Hd|]. split; [exact Hl|].
  exists s'. split; [reflexivity|]. vm_compute in He. injection He as <-. reflexivity.
Defined.
