(* ===== verification/Threads.v ===== *)
(** * The I/O service in several threads (asio/detail/impl/task_io_service.ipp,
    task_io_service_thread_info.hpp, posix_event.hpp)

    Any number of threads call [run], [run_one], [poll] or [poll_one], post operations
    and stop the service.  A step is what a thread does with the mutex locked, or an atomic change
    between two such sections, and the steps of the threads come in any order; the
    stack of a thread says how far it is.  A [pthread_cond_signal] is a step of its
    own, after the mutex is unlocked, and a waiting thread may wake up without one.
    The queue holds what Ioservice's queue holds, an operation being a number; the
    reactor gives back operations ([AReactor]) and can be interrupted.  [state_] of the
    event is a [size_t] that counts threads, and does not wrap.  Nested calls of
    these functions, and shutting down, are not modelled. *)
From S2P Require Import Prelude.

(** The member function that a thread has called *)
Inductive entry := Run | RunOne | Poll | PollOne.
Definition one_op (how : entry) : bool := match how with RunOne | PollOne => true | _ => false end.
Definition polls (how : entry) : bool := match how with Poll | PollOne => true | _ => false end.

Inductive frame :=
  | FLoop (how : entry)              (* about to lock and to run the loop of do_run_one *)
  | FWaiting (how : entry)           (* in pthread_cond_wait *)
  | FWoken (how : entry)             (* woken up, about to lock *)
  | FTask (how : entry) (block : bool)        (* runs the reactor *)
  | FCleanup (how : entry)           (* ~task_cleanup, about to lock *)
  | FHandler (how : entry) (op : Z)  (* runs a handler *)
  | FReturn                          (* run_one, poll_one: ~work_cleanup, about to lock *)
  | FPost (ops : list Z)             (* about to lock and to push *)
  | FSignal                          (* about to call pthread_cond_signal *)
  | FStop.                           (* stop(), about to lock *)

Record thread_info := ThreadInfo {
  stack : list frame;
  private_op_queue : list Z;
  private_outstanding_work : Z
}.
#[export] Instance thread_info_inhabited : Inhabited thread_info := populate (ThreadInfo [] [] 0).

Inductive queued := QTask | QOp (op : Z).
#[export] Instance queued_eq_dec : EqDecision queued.
Proof. solve_decision. Defined.

(** [interrupted]: the interrupter of the reactor is set.  [held]: the work that others
    have counted, timers and operations of descriptors among it.  [given], [begun]: the
    operations that were given to the service, and those whose handlers were called. *)
Record task_io_service := Service {
  one_thread_ : bool;
  task_ : bool;
  task_interrupted_ : bool;
  outstanding_work_ : Z;
  op_queue_ : list queued;
  stopped_ : bool;
  event_state_ : Z;                  (* wakeup_event_.state_ *)
  interrupted : bool;
  threads : gmap Z thread_info;
  held : Z;
  given : list Z;
  begun : list Z
}.
Definition task_io_service_new (concurrency_hint : Z) : task_io_service :=
  Service (concurrency_hint =? 1) false true 0 [] false 0 false ∅ 0 [] [].

Definition with_flags (task ti stop intr : bool) (s : task_io_service) : task_io_service :=
  Service (one_thread_ s) task ti (outstanding_work_ s) (op_queue_ s) stop (event_state_ s) intr (threads s)
    (held s) (given s) (begun s).
Definition with_event (e : Z) (s : task_io_service) : task_io_service :=
  Service (one_thread_ s) (task_ s) (task_interrupted_ s) (outstanding_work_ s) (op_queue_ s) (stopped_ s) e
    (interrupted s) (threads s) (held s) (given s) (begun s).
Definition with_threads (m : gmap Z thread_info) (s : task_io_service) : task_io_service :=
  Service (one_thread_ s) (task_ s) (task_interrupted_ s) (outstanding_work_ s) (op_queue_ s) (stopped_ s)
    (event_state_ s) (interrupted s) m (held s) (given s) (begun s).
Definition with_work (n h : Z) (s : task_io_service) : task_io_service :=
  Service (one_thread_ s) (task_ s) (task_interrupted_ s) n (op_queue_ s) (stopped_ s)
    (event_state_ s) (interrupted s) (threads s) h (given s) (begun s).
Definition with_queue (l : list queued) (s : task_io_service) : task_io_service :=
  Service (one_thread_ s) (task_ s) (task_interrupted_ s) (outstanding_work_ s) l (stopped_ s)
    (event_state_ s) (interrupted s) (threads s) (held s) (given s) (begun s).
Definition with_given (l : list Z) (s : task_io_service) : task_io_service :=
  Service (one_thread_ s) (task_ s) (task_interrupted_ s) (outstanding_work_ s) (op_queue_ s) (stopped_ s)
    (event_state_ s) (interrupted s) (threads s) (held s) (given s ++ l) (begun s).
Definition with_begun (o : Z) (s : task_io_service) : task_io_service :=
  Service (one_thread_ s) (task_ s) (task_interrupted_ s) (outstanding_work_ s) (op_queue_ s) (stopped_ s)
    (event_state_ s) (interrupted s) (threads s) (held s) (given s) (begun s ++ [o]).

Definition set_thread (t : Z) (th : thread_info) (s : task_io_service) : task_io_service :=
  with_threads (<[t := th]> (threads s)) s.
Definition set_stack (t : Z) (l : list frame) (s : task_io_service) : task_io_service :=
  let th := threads s !!! t in
  set_thread t (ThreadInfo l (private_op_queue th) (private_outstanding_work th)) s.
Definition push_frame (t : Z) (f : frame) (s : task_io_service) : task_io_service :=
  set_stack t (f :: stack (threads s !!! t)) s.
Definition push (l : list queued) (s : task_io_service) : task_io_service := with_queue (op_queue_ s ++ l) s.

(** ** posix_event *)
Definition event_set (state : Z) : Z := Z.lor state 1.
Definition event_clear (state : Z) : Z := Z.ldiff state 1.
Definition event_signalled (state : Z) : bool := negb (Z.land state 1 =? 0).

(** [pthread_cond_broadcast] and [pthread_cond_signal] on the stack of a thread *)
Definition wake_frame (f : frame) : frame := match f with FWaiting how => FWoken how | _ => f end.
Definition wake_thread (th : thread_info) : thread_info :=
  ThreadInfo (wake_frame <$> stack th) (private_op_queue th) (private_outstanding_work th).

Definition signal_all (s : task_io_service) : task_io_service :=
  with_threads (wake_thread <$> threads s) (with_event (event_set (event_state_ s)) s).

Definition unlock_and_signal_one (t : Z) (s : task_io_service) : task_io_service :=
  let s := with_event (event_set (event_state_ s)) s in
  let have_waiters := 1 <? event_state_ s in
  if have_waiters then push_frame t FSignal s else s.

Definition maybe_unlock_and_signal_one (t : Z) (s : task_io_service) : bool * task_io_service :=
  let s := with_event (event_set (event_state_ s)) s in
  if 1 <? event_state_ s then (true, push_frame t FSignal s) else (false, s).

(** ** The sections of task_io_service *)
Definition interrupt_task (s : task_io_service) : task_io_service :=
  if negb (task_interrupted_ s) && task_ s then with_flags (task_ s) true (stopped_ s) true s else s.

Definition wake_one_thread_and_unlock (t : Z) (s : task_io_service) : task_io_service :=
  let '(signalled, s) := maybe_unlock_and_signal_one t s in
  if (signalled : bool) then s else interrupt_task s.

Definition stop_all_threads (s : task_io_service) : task_io_service :=
  interrupt_task (signal_all (with_flags (task_ s) (task_interrupted_ s) true (interrupted s) s)).

(** A handler is taken from the queue; [rest] is behind it. *)
Definition take_op (t : Z) (how : entry) (op : Z) (rest : list queued) (s : task_io_service) : task_io_service :=
  let s := with_queue rest s in
  let more_handlers := match op_queue_ s with [] => false | _ => true end in
  let s := set_stack t [FHandler how op] (with_begun op s) in
  if more_handlers && negb (one_thread_ s) then wake_one_thread_and_unlock t s else s.

(** The loop of do_run_one, with the mutex locked, up to where it is unlocked *)
Definition do_run_one (t : Z) (how : entry) (s : task_io_service) : task_io_service :=
  if stopped_ s then set_stack t [] s
  else
    match op_queue_ s with
    | [] => set_stack t [FWaiting how] (with_event (event_clear (event_state_ s) + 2) s)
    | QTask :: rest =>
      let more_handlers := match rest with [] => false | _ => true end in
      let s := set_stack t [FTask how (negb more_handlers)]
                 (with_flags (task_ s) more_handlers (stopped_ s) (interrupted s) (with_queue rest s)) in
      if more_handlers && negb (one_thread_ s) then unlock_and_signal_one t s else s
    | QOp op :: rest => take_op t how op rest s
    end.

(** do_poll_one up to where it runs the reactor, and what follows the reactor *)
Definition do_poll_one (t : Z) (how : entry) (s : task_io_service) : task_io_service :=
  if stopped_ s then set_stack t [] s
  else
    match op_queue_ s with
    | [] => set_stack t [] s
    | QTask :: rest => set_stack t [FTask how false] (with_queue rest s)
    | QOp op :: rest => take_op t how op rest s
    end.
Definition poll_after_task (t : Z) (how : entry) (s : task_io_service) : task_io_service :=
  match op_queue_ s with
  | [] => set_stack t [] s
  | QTask :: _ => snd (maybe_unlock_and_signal_one t (set_stack t [] s))
  | QOp op :: rest => take_op t how op rest s
  end.
Definition run_loop (t : Z) (how : entry) (s : task_io_service) : task_io_service :=
  if polls how then do_poll_one t how s else do_run_one t how s.

(** The rest of [wait] in a thread that has locked the mutex again *)
Definition resume_wait (t : Z) (how : entry) (s : task_io_service) : task_io_service :=
  let s := with_event (event_state_ s - 2) s in
  if event_signalled (event_state_ s) then do_run_one t how s
  else set_stack t [FWaiting how] (with_event (event_state_ s + 2) s).

(** What the destructors of work_cleanup and task_cleanup push *)
Definition push_private (t : Z) (s : task_io_service) : task_io_service :=
  let th := threads s !!! t in
  push (QOp <$> private_op_queue th) (set_thread t (ThreadInfo (stack th) [] (private_outstanding_work th)) s).

Definition task_cleanup (t : Z) (how : entry) (s : task_io_service) : task_io_service :=
  let s := with_flags (task_ s) true (stopped_ s) (interrupted s) s in
  let s := push [QTask] (push_private t s) in
  if polls how then poll_after_task t how s else do_run_one t how s.

(** ~work_cleanup up to where it locks; run_one and poll_one return after it *)
Definition work_cleanup (t : Z) (how : entry) (s : task_io_service) : task_io_service :=
  let th := threads s !!! t in
  let w := private_outstanding_work th in
  let next := [if one_op how then FReturn else FLoop how] in
  let s := set_thread t (ThreadInfo next (private_op_queue th) 0) s in
  if 1 <? w then with_work (outstanding_work_ s + (w - 1)) (held s) s
  else if w <? 1 then
    let s := with_work (outstanding_work_ s - 1) (held s) s in
    if outstanding_work_ s =? 0 then push_frame t FStop s else s
  else s.

(** ** Interleavings *)
Inductive action :=
  | ARun (t : Z) (how : entry)
  | APost (t op : Z) (is_continuation : bool)
  | ADeferred (t : Z) (ops : list Z)            (* operations whose work is counted already *)
  | AWorkStarted (t : Z)
  | AWorkFinished (t : Z)
  | AStop (t : Z)
  | AReset (t : Z)
  | AInitTask (t : Z)
  | AReturn (t : Z)                             (* the handler returns *)
  | AReactor (t : Z) (ops : list Z) (consumed : bool)   (* so does the reactor *)
  | AStep (t wakes : Z)                         (* the thread goes on; [wakes]: whom a signal wakes *)
  | ASpurious (t : Z).

(** Where a thread runs code of the program: outside the service, or in a handler *)
Definition in_user_code (l : list frame) : bool := match l with [] | FHandler _ _ :: _ => true | _ => false end.
Definition in_run (l : list frame) : bool := match l with [] => false | _ => true end.

Definition count (p : frame -> bool) (l : list frame) : Z := vlen (filter (fun f => p f = true) l).
Definition is_waiting (f : frame) : bool := match f with FWaiting _ => true | _ => false end.
Definition tot (p : frame -> bool) (m : gmap Z thread_info) : Z := msum (fun th => count p (stack th)) m.

Definition push_private_ops (t : Z) (ops : list Z) (work : Z) (s : task_io_service) : task_io_service :=
  let th := threads s !!! t in
  set_thread t (ThreadInfo (stack th) (private_op_queue th ++ ops) (private_outstanding_work th + work)) s.

(** pthread_cond_signal wakes a thread if there is one that waits. *)
Definition cond_signal (w : Z) (s : task_io_service) : option task_io_service :=
  match stack (threads s !!! w) with
  | [FWaiting how] => Some (set_stack w [FWoken how] s)
  | _ => if tot is_waiting (threads s) =? 0 then Some s else None
  end.

Definition run_enter (t : Z) (how : entry) (s : task_io_service) : task_io_service :=
  set_thread t (ThreadInfo (if outstanding_work_ s =? 0 then [FStop] else [FLoop how]) [] 0) s.

Definition post_immediate_completion (t op : Z) (is_continuation : bool) (s : task_io_service) : task_io_service :=
  let s := with_given [op] s in
  if (one_thread_ s || is_continuation) && in_run (stack (threads s !!! t)) then push_private_ops t [op] 1 s
  else push_frame t (FPost [op]) (with_work (outstanding_work_ s + 1) (held s) s).

Definition post_deferred_completions (t : Z) (ops : list Z) (s : task_io_service) : task_io_service :=
  let s := with_given ops (with_work (outstanding_work_ s) (held s - vlen ops) s) in
  if one_thread_ s && in_run (stack (threads s !!! t)) then push_private_ops t ops 0 s
  else push_frame t (FPost ops) s.

Definition work_started (s : task_io_service) : task_io_service := with_work (outstanding_work_ s + 1) (held s + 1) s.
Definition work_finished (t : Z) (s : task_io_service) : task_io_service :=
  let s := with_work (outstanding_work_ s - 1) (held s - 1) s in
  if outstanding_work_ s =? 0 then push_frame t FStop s else s.

Definition init_task (t : Z) (s : task_io_service) : task_io_service :=
  if negb (task_ s) then
    wake_one_thread_and_unlock t
      (push [QTask] (with_flags true (task_interrupted_ s) (stopped_ s) (interrupted s) s))
  else s.

(** The reactor has run; ~task_cleanup up to where it locks *)
Definition task_done (t : Z) (how : entry) (ops : list Z) (consumed : bool) (s : task_io_service) : task_io_service :=
  let s := push_private_ops t ops 0 (with_given ops (with_work (outstanding_work_ s) (held s - vlen ops) s)) in
  let s := with_flags (task_ s) (task_interrupted_ s) (stopped_ s) (interrupted s && negb consumed) s in
  let th := threads s !!! t in
  let w := private_outstanding_work th in
  let s := if 0 <? w then with_work (outstanding_work_ s + w) (held s) s else s in
  set_thread t (ThreadInfo [FCleanup how] (private_op_queue th) 0) s.

(** The next section of a thread that is in a function of the service *)
Definition thread_step (t w : Z) (s : task_io_service) : option task_io_service :=
  match stack (threads s !!! t) with
  | [FLoop how] => Some (run_loop t how (push_private t s))
  | [FWoken how] => Some (resume_wait t how s)
  | [FCleanup how] => Some (task_cleanup t how s)
  | [FReturn] => Some (set_stack t [] (push_private t s))
  | FPost ops :: l => Some (wake_one_thread_and_unlock t (push (QOp <$> ops) (set_stack t l s)))
  | FSignal :: l => cond_signal w (set_stack t l s)
  | FStop :: l => Some (stop_all_threads (set_stack t l s))
  | _ => None
  end.

(** [None]: the action is not possible here. *)
Definition act (a : action) (s : task_io_service) : option task_io_service :=
  let st t := stack (threads s !!! t) in
  match a with
  | ARun t how => match st t with [] => Some (run_enter t how s) | _ => None end
  | APost t op cont => if in_user_code (st t) then Some (post_immediate_completion t op cont s) else None
  | ADeferred t ops =>
    if in_user_code (st t) && negb (bool_decide (ops = [])) && (vlen ops <=? held s)
    then Some (post_deferred_completions t ops s) else None
  | AWorkStarted t => if in_user_code (st t) then Some (work_started s) else None
  | AWorkFinished t => if in_user_code (st t) && (0 <? held s) then Some (work_finished t s) else None
  | AStop t => if in_user_code (st t) then Some (push_frame t FStop s) else None
  | AReset t =>
    if in_user_code (st t) then Some (with_flags (task_ s) (task_interrupted_ s) false (interrupted s) s) else None
  | AInitTask t => if in_user_code (st t) then Some (init_task t s) else None
  | AReturn t => match st t with [FHandler how op] => Some (work_cleanup t how s) | _ => None end
  | AReactor t ops consumed =>
    match st t with
    | [FTask how block] => if vlen ops <=? held s then Some (task_done t how ops consumed s) else None
    | _ => None
    end
  | AStep t w => thread_step t w s
  | ASpurious t => match st t with [FWaiting how] => Some (set_stack t [FWoken how] s) | _ => None end
  end.

Fixpoint acts (l : list action) (s : task_io_service) : option task_io_service :=
  match l with
  | [] => Some s
  | a :: l' => match act a s with Some s' => acts l' s' | None => None end
  end.


(** ** Lemmas: frames and threads are counted *)
Lemma count_cons p f l : count p (f :: l) = Z.b2z (p f) + count p l.
Proof. unfold count, vlen. rewrite filter_cons. case_decide as E; destruct (p f); try done; cbn [length Z.b2z]; lia. Qed.

Lemma count_nil p : count p [] = 0.
Proof. done. Qed.

Lemma count_nonneg p l : 0 <= count p l.
Proof. apply vlen_nonneg. Qed.

Lemma count_le2 (p q r : frame -> bool) l : (forall f, Z.b2z (p f) + Z.b2z (q f) <= Z.b2z (r f)) -> count p l + count q l <= count r l.
Proof.
  intros Hle. induction l as [|f l IH]; [done|]. rewrite !count_cons. specialize (Hle f). lia.
Qed.

Lemma tot_nonneg p m : 0 <= tot p m.
Proof. apply msum_nonneg. intros. apply count_nonneg. Qed.

Lemma tot_le2 (p q r : frame -> bool) m : (forall f, Z.b2z (p f) + Z.b2z (q f) <= Z.b2z (r f)) -> tot p m + tot q m <= tot r m.
Proof. intros Hle. unfold tot. rewrite <- msum_add. apply msum_le. intros th. by apply count_le2. Qed.

Lemma tot_none p m : (forall f, p f = false) -> tot p m = 0.
Proof.
  intros Hp. unfold tot. rewrite (msum_ext _ (fun _ => 0)); [apply msum_zero|]. intros th.
  induction (stack th) as [|f l IH]; [done|]. by rewrite count_cons, Hp, IH.
Qed.

Lemma tot_add (p q r : frame -> bool) m : (forall f, Z.b2z (r f) = Z.b2z (p f) + Z.b2z (q f)) -> tot r m = tot p m + tot q m.
Proof.
  intros Hr. unfold tot. rewrite <- msum_add. apply msum_ext. intros th.
  induction (stack th) as [|f l IH]; [done|]. rewrite !count_cons, Hr, IH. lia.
Qed.

Lemma tot_ext p q m : (forall f, p f = q f) -> tot p m = tot q m.
Proof.
  intros Hpq. apply msum_ext. intros th. induction (stack th) as [|f l IH]; [done|]. by rewrite !count_cons, Hpq, IH.
Qed.

Lemma tot_wake p m : tot p (wake_thread <$> m) = tot (fun f => p (wake_frame f)) m.
Proof.
  unfold tot. rewrite msum_fmap. apply msum_ext. intros th. cbn [wake_thread stack].
  induction (stack th) as [|f l IH]; [done|]. by rewrite fmap_cons, !count_cons, IH.
Qed.

Lemma tot_insert p m t th : tot p (<[t := th]> m) = tot p m - count p (stack (m !!! t)) + count p (stack th).
Proof. by apply (msum_insert (fun th => count p (stack th))). Qed.

Lemma tot_ge p m t : count p (stack (m !!! t)) <= tot p m.
Proof. apply (msum_ge (fun th => count p (stack th))); [intros; apply count_nonneg|done]. Qed.

(** ** No wake-up is lost *)
Definition is_woken (f : frame) : bool := match f with FWoken _ => true | _ => false end.
Definition is_signal (f : frame) : bool := match f with FSignal => true | _ => false end.
Definition is_blocked (f : frame) : bool := match f with FTask _ true => true | _ => false end.
Definition is_cleanup (f : frame) : bool := match f with FCleanup _ => true | _ => false end.
Definition is_reactor (f : frame) : bool := match f with FTask _ _ | FCleanup _ => true | _ => false end.
(** The thread will look at the queue. *)
Definition is_awake (f : frame) : bool :=
  match f with FLoop _ | FWoken _ | FCleanup _ | FTask _ false => true | _ => false end.
Definition is_once (f : frame) : bool :=
  match f with
  | FLoop how | FWaiting how | FWoken how | FTask how _ | FCleanup how | FHandler how _ => one_op how
  | FReturn => true
  | _ => false
  end.

Definition tasks (l : list queued) : Z := vlen (filter (fun o => o = QTask) l).

Ltac frames := let f := fresh in intros f; destruct f as [| | |? []| | | | | |]; cbn; lia.

Section Awake.
Implicit Types (s : task_io_service) (m : gmap Z thread_info).

Definition bit s : Z := event_state_ s mod 2.

(** What holds wherever the mutex is free, or could be unlocked *)
Record event_ok s : Prop := {
  eo_count : event_state_ s = bit s + 2 * (tot is_waiting (threads s) + tot is_woken (threads s));
  eo_reactor : tasks (op_queue_ s) + tot is_reactor (threads s) = Z.b2z (task_ s);
  eo_interrupted : 0 < tot is_blocked (threads s) -> task_interrupted_ s = true -> interrupted s = true;
  eo_stopped : stopped_ s = true -> bit s = 1 /\ tot is_waiting (threads s) = 0 /\
    (0 < tot is_blocked (threads s) -> interrupted s = true);
  eo_run : tot is_once (threads s) = 0
}.

(** If an operation is queued, somebody will look, or nobody sleeps. *)
Definition attended s : Prop :=
  0 < tot is_awake (threads s) \/
  (0 < tot is_signal (threads s) /\ 0 < tot is_waiting (threads s)) \/
  (0 < tot is_blocked (threads s) /\ interrupted s = true) \/
  (tot is_waiting (threads s) = 0 /\ tot is_blocked (threads s) = 0).

Record service_ok s : Prop := {
  so_event : event_ok s;
  so_bit : one_thread_ s = false -> op_queue_ s <> [] -> bit s = 1;
  so_attended : one_thread_ s = false -> stopped_ s = false -> op_queue_ s <> [] -> attended s
}.

Lemma bit_range s : 0 <= bit s < 2.
Proof. apply Z.mod_pos_bound. lia. Qed.

Lemma event_set_spec e : event_set e = 1 + 2 * (e / 2).
Proof.
  unfold event_set. pose proof (Z.div_mod e 2 ltac:(lia)) as E. pose proof (Z.mod_pos_bound e 2 ltac:(lia)) as Hm.
  assert (forall w, Z.lor (2 * w) 1 = 1 + 2 * w) as Heven.
  { intros w. rewrite Z.add_comm, <- Z.add_nocarry_lor; [done|]. change 1 with (Z.ones 1). rewrite Z.land_ones by lia.
    change (2 ^ 1) with 2. rewrite Z.mul_comm. apply Z.mod_mul. lia. }
  assert (e mod 2 = 0 \/ e mod 2 = 1) as [Hr|Hr] by lia; rewrite Hr in E.
  - rewrite E at 1. rewrite Z.add_0_r. apply Heven.
  - rewrite E at 1. rewrite (Z.add_comm _ 1), <- Heven, <- Z.lor_assoc. done.
Qed.

Lemma event_clear_spec e : event_clear e = 2 * (e / 2).
Proof.
  unfold event_clear. change 1 with (Z.ones 1) at 1. rewrite Z.ldiff_ones_r, Z.shiftl_mul_pow2, Z.shiftr_div_pow2 by lia.
  change (2 ^ 1) with 2. lia.
Qed.

Lemma event_signalled_spec e : event_signalled e = (e mod 2 =? 1).
Proof.
  unfold event_signalled. change 1 with (Z.ones 1) at 1. rewrite Z.land_ones by lia. change (2 ^ 1) with 2.
  pose proof (Z.mod_pos_bound e 2 ltac:(lia)). destruct (Z.eqb_spec (e mod 2) 0), (Z.eqb_spec (e mod 2) 1); try done; lia.
Qed.

(** The event as a bit and a number of threads *)
Lemma event_parts b w : 0 <= b < 2 -> (b + 2 * w) / 2 = w /\ (b + 2 * w) mod 2 = b.
Proof.
  intros Hb. rewrite Z.mul_comm. rewrite Z.div_add, Z.mod_add, Z.div_small, Z.mod_small by lia. split; lia.
Qed.

(** What is asked of [s], in numbers: [ev] its event, [w], [k], ... its frames *)
Lemma event_ok_set s b : event_ok s -> bit s = b ->
  event_set (event_state_ s) = 1 + 2 * (tot is_waiting (threads s) + tot is_woken (threads s)).
Proof.
  intros [He _ _ _ _] <-. rewrite event_set_spec. f_equal. f_equal. rewrite He.
  by destruct (event_parts (bit s) (tot is_waiting (threads s) + tot is_woken (threads s)) (bit_range s)).
Qed.

Lemma bit_with_event e w s : event_state_ s = e + 2 * w -> 0 <= e < 2 -> bit s = e.
Proof. intros E He. unfold bit. rewrite E. by apply event_parts. Qed.

Lemma tot_facts m :
  0 <= tot is_waiting m /\ 0 <= tot is_blocked m /\ 0 <= tot is_signal m /\ 0 <= tot is_woken m <= tot is_awake m /\
  tot is_blocked m + tot is_cleanup m <= tot is_reactor m /\ 0 <= tot is_cleanup m.
Proof.
  split_and!; try apply tot_nonneg.
  - pose proof (tot_le2 is_woken (fun _ => false) is_awake m) as Hle. pose proof (tot_nonneg (fun _ => false) m).
    specialize (Hle ltac:(frames)). lia.
  - apply tot_le2. frames.
Qed.
End Awake.

Ltac service_fields := cbn [threads event_state_ op_queue_ task_ task_interrupted_ interrupted stopped_ one_thread_ outstanding_work_ held
  with_flags with_event with_threads with_work with_queue with_given with_begun set_thread set_stack push_frame push push_private_ops].
Ltac service_fields_in H := cbn [threads event_state_ op_queue_ task_ task_interrupted_ interrupted stopped_ one_thread_ outstanding_work_ held
  with_flags with_event with_threads with_work with_queue with_given with_begun set_thread set_stack push_frame push push_private_ops] in H.
Ltac counts := service_fields; rewrite ?tot_insert; cbn [stack]; rewrite ?count_cons, ?count_nil;
  cbn [is_waiting is_woken is_signal is_blocked is_cleanup is_reactor is_awake is_once Z.b2z].

Section Wake.
Implicit Types (s : task_io_service).

Lemma interrupt_task_ok s : event_ok s -> event_ok (interrupt_task s) /\
  (tot is_waiting (threads s) = 0 ->
     (0 < tot is_blocked (threads s) /\ interrupted (interrupt_task s) = true) \/ tot is_blocked (threads s) = 0).
Proof.
  intros [He Hr Hi Hs Ho]. unfold interrupt_task. pose proof (tot_facts (threads s)) as (Hw & Hb & _ & _ & Hbr & Hc).
  pose proof (vlen_nonneg (filter (fun o => o = QTask) (op_queue_ s))) as Hq. fold (tasks (op_queue_ s)) in Hq.
  destruct (task_interrupted_ s) eqn:Eti; cbn [negb andb].
  - split; [by split; rewrite ?Eti|]. intros _. destruct (Z.eq_dec (tot is_blocked (threads s)) 0); [by right|left]. split; [lia|].
    apply Hi; [lia|done].
  - destruct (task_ s) eqn:Et.
    + split; [|intros _; service_fields; destruct (Z.eq_dec (tot is_blocked (threads s)) 0); [by right|left; split; [lia|done]]].
      split; service_fields; try done. intros Hst. destruct (Hs Hst) as (? & ? & ?). done.
    + split; [by split; rewrite ?Eti, ?Et|]. intros _. right. cbn [Z.b2z] in Hr. lia.
Qed.

Lemma set_event_ok s : event_ok s ->
  let s1 := with_event (event_set (event_state_ s)) s in event_ok s1 /\ bit s1 = 1.
Proof.
  intros Hok s1. pose proof (event_ok_set s _ Hok eq_refl) as Hset. pose proof Hok as [He Hr Hi Hs Ho].
  assert (bit s1 = 1) as Hb1 by (eapply (bit_with_event 1); [exact Hset|lia]). split; [|done].
  split; try done; [rewrite Hb1; exact Hset|]. intros Hst. destruct (Hs Hst) as (_ & ? & ?). done.
Qed.

(** Frames that sleep or run nothing of the service *)
Definition plain (f : frame) : bool := match f with FSignal | FStop | FPost _ => true | _ => false end.

Lemma push_frame_ok t f s : plain f = true -> event_ok s -> event_ok (push_frame t f s).
Proof.
  intros Hf [He Hr Hi Hs Ho].
  assert (forall p, p = is_waiting \/ p = is_woken \/ p = is_reactor \/ p = is_blocked \/ p = is_once ->
    tot p (threads (push_frame t f s)) = tot p (threads s)) as Ht.
  { intros p Hp. counts. assert (p f = false) as -> by (destruct f; try done; intuition (subst; done)). cbn [Z.b2z]. lia. }
  split; rewrite ?Ht by auto 10; done.
Qed.

Lemma wake_ok t s : event_ok s -> service_ok (wake_one_thread_and_unlock t s).
Proof.
  intros Hok. destruct (set_event_ok s Hok) as [Hok1 Hb1].
  unfold wake_one_thread_and_unlock, maybe_unlock_and_signal_one. set (s1 := with_event _ s) in *.
  pose proof (tot_facts (threads s)) as (Hw & Hb & Hsg & Hk & Hbr & Hc).
  change (event_state_ s1) with (event_set (event_state_ s)). rewrite (event_ok_set s _ Hok eq_refl).
  destruct (Z.ltb_spec 1 (1 + 2 * (tot is_waiting (threads s) + tot is_woken (threads s)))) as [Hlt|Hge].
  - split; [by apply push_frame_ok|intros _ _; exact Hb1|]. intros _ _ _. unfold attended. counts.
    change (threads s1) with (threads s) in *. lia.
  - destruct (interrupt_task_ok s1 Hok1) as [Hok2 Hint].
    assert (threads (interrupt_task s1) = threads s /\ bit (interrupt_task s1) = bit s1) as [Hth Hbit]
      by (unfold interrupt_task; by destruct (negb _ && _)).
    split; [done|intros; by rewrite Hbit|]. intros _ _ _. unfold attended. rewrite Hth.
    change (threads s1) with (threads s) in Hint. right; right. destruct Hint as [Hint|Hint]; [lia|by left|right]. split; [lia|done].
Qed.

Lemma set_stack_twice t l l' s : set_stack t l (set_stack t l' s) = set_stack t l s.
Proof.
  unfold set_stack, set_thread, with_threads. cbn. rewrite lookup_total_insert_eq, insert_insert_eq. done.
Qed.

Lemma tasks_cons o l : tasks (o :: l) = (if decide (o = QTask) then 1 else 0) + tasks l.
Proof. unfold tasks, vlen. rewrite filter_cons. case_decide; cbn [length]; lia. Qed.

Lemma tasks_app l l' : tasks (l ++ l') = tasks l + tasks l'.
Proof. unfold tasks. by rewrite filter_app, vlen_app. Qed.

Lemma tasks_ops l : tasks (QOp <$> l) = 0.
Proof. induction l as [|o l IH]; [done|]. rewrite fmap_cons, tasks_cons, IH. done. Qed.

Lemma tasks_nonneg l : 0 <= tasks l.
Proof. apply vlen_nonneg. Qed.

Lemma idle_ok s rest (more : bool) : event_ok s -> op_queue_ s = rest -> rest = [] \/ more = true ->
  more && negb (one_thread_ s) = false -> service_ok s.
Proof.
  intros Hok Hq [Hr| ->] Hm; subst rest; [by split; rewrite ?Hr|]. cbn [andb] in Hm. apply negb_false_iff in Hm.
  split; congruence.
Qed.

(** The thread [t] has locked the mutex: its frame does not count any more. *)
Lemma take_op_ok t how op rest s : one_op how = false -> event_ok (set_stack t [] s) ->
  op_queue_ s = QOp op :: rest -> service_ok (take_op t how op rest s).
Proof.
  intros Hone Hok Eq. assert (Z.b2z (one_op how) = 0) as Hz by (by rewrite Hone).
  pose proof Hok as [He Hr Hi Hs Ho]. revert He Hr Hi Hs Ho. unfold bit. counts. rewrite Eq, tasks_cons, decide_False by done.
  intros He Hr Hi Hs Ho.
  unfold take_op. service_fields. set (more := match rest with [] => false | _ => true end).
  assert (rest = [] \/ more = true) as Hrest by (destruct rest; auto).
  set (s1 := set_stack t [FHandler how op] _). assert (event_ok s1) as Hok1.
  { split; subst s1; unfold bit; counts; done || lia || auto. }
  match goal with |- context [if ?b then _ else _] => destruct b eqn:Em end; [by apply wake_ok|by apply (idle_ok s1 rest more)].
Qed.

Lemma do_run_one_ok t how s : one_op how = false -> event_ok (set_stack t [] s) -> service_ok (do_run_one t how s).
Proof.
  intros Hone Hok. unfold do_run_one. destruct (stopped_ s) eqn:Est.
  { destruct (eo_stopped _ Hok) as (Hb & _); [done|]. split; [done|done|]. service_fields. congruence. }
  assert (Z.b2z (one_op how) = 0) as Hz by (by rewrite Hone).
  destruct (op_queue_ s) as [|[|op] rest] eqn:Eq; [| |by apply take_op_ok];
    pose proof Hok as [He Hr Hi Hs Ho]; revert He Hr Hi Ho; unfold bit; counts; rewrite Eq; intros He Hr Hi Ho;
    pose proof (Z.mod_pos_bound (event_state_ s) 2 ltac:(lia)) as Hbit.
  - split; [split| |]; [..|done|done]; unfold bit; counts; try done; try lia.
    + rewrite event_clear_spec. rewrite He at 1 2. rewrite !(proj1 (event_parts _ _ Hbit)).
      set (w := tot is_waiting (threads s) - _ + _ + _). replace (2 * w + 2) with (0 + 2 * (w + 1)) by lia.
      rewrite (proj2 (event_parts 0 (w + 1) ltac:(lia))). subst w. lia.
    + rewrite Eq. lia.
    + congruence.
  - set (more := match rest with [] => false | _ => true end).
    assert (rest = [] \/ more = true) as Hrest by (destruct rest; auto).
    rewrite tasks_cons, decide_True in Hr by done. pose proof (tasks_nonneg rest) as Htr.
    pose proof (tot_facts (threads (set_stack t [] s))) as Hf. revert Hf. counts. intros (Hw & Hb & Hsg & Hk & Hbr & Hc).
    set (s1 := set_stack t [FTask how (negb more)] _). assert (event_ok s1) as Hok1.
    { assert (Z.b2z (task_ s) <= 1) by (destruct (task_ s); cbn; lia). split; subst s1; unfold bit; counts; destruct more; cbn [negb Z.b2z]; try done; try lia; try congruence; intros; exfalso; lia. }
    assert (more = true -> 0 < tot is_awake (threads s1)) as Hawake.
    { intros Em. subst s1. counts. rewrite Em. cbn [negb Z.b2z]. lia. }
    match goal with |- context [if ?b then _ else _] => destruct b eqn:Em end; [|by apply (idle_ok s1 rest more)].
    apply andb_true_iff in Em as [Em _]. destruct (set_event_ok s1 Hok1) as [Hok2 Hb2].
    unfold unlock_and_signal_one. destruct (1 <? _); [|split; [exact Hok2|intros; exact Hb2|intros _ _ _; left; by apply Hawake]].
    split; [by apply push_frame_ok|intros; exact Hb2|]. intros _ _ _. left. specialize (Hawake Em). revert Hawake. service_fields. rewrite tot_insert.
    cbn [stack]. rewrite count_cons. cbn [is_awake Z.b2z]. lia.
Qed.

(** The reactor is in the queue: no thread is blocked in it. *)
Lemma queued_task s rest : event_ok s -> op_queue_ s = QTask :: rest -> tot is_blocked (threads s) = 0.
Proof.
  intros [_ Hr _ _ _] Eq. rewrite Eq, tasks_cons, decide_True in Hr by done. pose proof (tasks_nonneg rest).
  pose proof (tot_facts (threads s)). assert (Z.b2z (task_ s) <= 1) by (destruct (task_ s); cbn; lia). lia.
Qed.

Lemma do_poll_one_ok t how s : one_op how = false -> event_ok (set_stack t [] s) ->
  (one_thread_ s = false -> forall rest, op_queue_ s = QTask :: rest -> bit s = 1) -> service_ok (do_poll_one t how s).
Proof.
  intros Hone Hok Hbit. unfold do_poll_one. destruct (stopped_ s) eqn:Est.
  { destruct (eo_stopped _ Hok) as (Hb & _); [done|]. split; [done|done|]. service_fields. congruence. }
  destruct (op_queue_ s) as [|[|op] rest] eqn:Eq; [split; [done|..]; service_fields; congruence| |by apply take_op_ok].
  assert (Z.b2z (one_op how) = 0) as Hz by (by rewrite Hone).
  pose proof (queued_task _ rest Hok Eq) as Hnb. revert Hnb. counts. intros Hnb.
  pose proof Hok as [He Hr Hi Hs Ho]. revert He Hr Hi Ho. unfold bit. counts. rewrite Eq, tasks_cons, decide_True by done. intros He Hr Hi Ho.
  split; [split| |]; unfold bit; counts; try lia; [congruence|intros H1 _; by eapply Hbit|]. intros _ _ _. left. counts.
  pose proof (tot_nonneg is_awake (threads (set_stack t [] s))) as Ha. revert Ha. counts. lia.
Qed.

Lemma poll_after_task_ok t how s : one_op how = false -> event_ok (set_stack t [] s) -> service_ok (poll_after_task t how s).
Proof.
  intros Hone Hok. unfold poll_after_task. destruct (op_queue_ s) as [|[|op] rest] eqn:Eq; [| |by apply take_op_ok].
  - split; [done|..]; service_fields; congruence.
  - pose proof (queued_task _ rest Hok Eq) as Hnb. set (s0 := set_stack t [] s) in *. clearbody s0.
    destruct (set_event_ok s0 Hok) as [Hok1 Hb1]. pose proof (tot_nonneg is_signal (threads s0)).
    unfold maybe_unlock_and_signal_one. set (s1 := with_event _ s0) in *.
    change (event_state_ s1) with (event_set (event_state_ s0)). rewrite (event_ok_set s0 _ Hok eq_refl).
    destruct (Z.ltb_spec 1 (1 + 2 * (tot is_waiting (threads s0) + tot is_woken (threads s0)))) as [Hlt|Hge]; cbn [snd].
    + split; [by apply push_frame_ok|intros _ _; exact Hb1|]. intros _ _ _. unfold attended. counts.
      pose proof (tot_facts (threads s0)). change (threads s1) with (threads s0) in *. lia.
    + split; [done|done|]. intros _ _ _. right; right; right. change (threads s1) with (threads s0).
      pose proof (tot_nonneg is_waiting (threads s0)). pose proof (tot_nonneg is_woken (threads s0)). lia.
Qed.

Lemma counted p t l s : stack (threads s !!! t) = l -> count p l <= tot p (threads s).
Proof. intros <-. apply tot_ge. Qed.

(** Nothing changes but frames that do not matter, or that help. *)
Record helps s s' : Prop := {
  hp_fields : event_state_ s' = event_state_ s /\ op_queue_ s' = op_queue_ s /\ task_ s' = task_ s /\
    task_interrupted_ s' = task_interrupted_ s /\ interrupted s' = interrupted s /\ stopped_ s' = stopped_ s /\
    one_thread_ s' = one_thread_ s;
  hp_same p : p = is_waiting \/ p = is_woken \/ p = is_reactor \/ p = is_blocked \/ p = is_once ->
    tot p (threads s') = tot p (threads s);
  hp_more : tot is_awake (threads s) <= tot is_awake (threads s') /\ tot is_signal (threads s) <= tot is_signal (threads s')
}.

Lemma helps_ok s s' : helps s s' -> service_ok s -> service_ok s'.
Proof.
  intros [(F1 & F2 & F3 & F4 & F5 & F6 & F7) Ht [Ha Hs]] [[He Hr Hi Hst Ho] Hb Hat].
  assert (bit s' = bit s) as Hbit by (unfold bit; by rewrite F1).
  split; [split| |]; rewrite ?Hbit, ?Ht, ?F1, ?F2, ?F3, ?F4, ?F5, ?F6, ?F7 by auto 10; try done.
  intros H1 H2 H3. specialize (Hat H1 H2 H3). unfold attended in *. rewrite F5, (Ht is_waiting), (Ht is_blocked) by auto 10. intuition lia.
Qed.

Lemma helps_refl s : helps s s.
Proof. split; [done..|lia]. Qed.

Lemma helps_trans s1 s2 s3 : helps s1 s2 -> helps s2 s3 -> helps s1 s3.
Proof.
  intros [(? & ? & ? & ? & ? & ? & ?) T1 [? ?]] [(? & ? & ? & ? & ? & ? & ?) T2 [? ?]].
  split; [split_and!; congruence|intros p Hp; by rewrite T2, T1|lia].
Qed.

(** A thread with the stack [l ++ rest] gets [l'] for [l]. *)
Lemma helps_thread t th s : 
  (forall p, p = is_waiting \/ p = is_woken \/ p = is_reactor \/ p = is_blocked \/ p = is_once ->
     count p (stack th) = count p (stack (threads s !!! t))) ->
  count is_awake (stack (threads s !!! t)) <= count is_awake (stack th) ->
  count is_signal (stack (threads s !!! t)) <= count is_signal (stack th) -> helps s (set_thread t th s).
Proof.
  intros Hp Ha Hs. split; [done| |].
  - intros p Hq. specialize (Hp p Hq). service_fields. rewrite tot_insert. lia.
  - service_fields. rewrite !tot_insert. lia.
Qed.

Lemma helps_push_frame t f s : plain f = true -> helps s (push_frame t f s).
Proof.
  intros Hf. apply helps_thread; cbn [stack]; rewrite ?count_cons; [|destruct f; try done; cbn; lia..].
  intros p Hp. rewrite count_cons. assert (p f = false) as -> by (destruct f; try done; intuition (subst; done)). done.
Qed.

Lemma helps_with_work n h s : helps s (with_work n h s).
Proof. split; [done..|service_fields; lia]. Qed.
Lemma helps_with_given l s : helps s (with_given l s).
Proof. split; [done..|service_fields; lia]. Qed.
Lemma helps_private t ops w s : helps s (push_private_ops t ops w s).
Proof. by apply helps_thread. Qed.

(** run and poll, and not run_one and poll_one *)
Definition runs_on (a : action) : Prop := match a with ARun _ how => one_op how = false | _ => True end.

Lemma not_once t f l s : event_ok s -> stack (threads s !!! t) = f :: l -> is_once f = false.
Proof.
  intros [_ _ _ _ Ho] E. pose proof (counted is_once t _ s E) as Hc. rewrite count_cons in Hc.
  pose proof (count_nonneg is_once l). destruct (is_once f); [cbn in Hc; lia|done].
Qed.

Lemma push_private_ok t s : event_ok (set_stack t [] s) -> event_ok (set_stack t [] (push_private t s)).
Proof.
  intros [He Hr Hi Hs Ho]. revert He Hr Hi Hs Ho. unfold push_private, bit. service_fields. rewrite !tot_insert, ?lookup_total_insert_eq.
  cbn [stack]. intros He Hr Hi Hs Ho. split; unfold bit; service_fields; rewrite ?tot_insert, ?lookup_total_insert_eq; cbn [stack]; rewrite ?count_nil in *.
  - lia.
  - rewrite tasks_app, tasks_ops. lia.
  - intros Hb. apply Hi. lia.
  - intros Hst. destruct (Hs Hst) as (? & ? & Hx). split_and!; [done|lia|]. intros Hb. apply Hx. lia.
  - lia.
Qed.

(** A frame that the event does not count *)
Lemma drop_frame_ok t f s : stack (threads s !!! t) = [f] ->
  is_waiting f = false -> is_woken f = false -> is_reactor f = false -> event_ok s -> event_ok (set_stack t [] s).
Proof.
  intros E H1 H2 H3 Hok. pose proof (not_once t f [] s Hok E) as H4. destruct Hok as [He Hr Hi Hs Ho].
  assert (is_blocked f = false) as H5 by (by destruct f as [| | |? []| | | | | |]).
  split; unfold bit in *; service_fields; rewrite ?tot_insert, ?E; cbn [stack]; rewrite ?count_cons, ?count_nil, ?H1, ?H2, ?H3, ?H4, ?H5;
    cbn [Z.b2z]; try lia.
  - intros Hb. apply Hi. lia.
  - intros Hst. destruct (Hs Hst) as (? & ? & Hx). split_and!; [done|lia|]. intros Hb. apply Hx. lia.
Qed.

Lemma loop_ok t how s : service_ok s -> stack (threads s !!! t) = [FLoop how] ->
  service_ok (run_loop t how (push_private t s)).
Proof.
  intros [Hok Hb _] E. pose proof (not_once t _ _ s Hok E) as Hf. cbn in Hf.
  assert (event_ok (set_stack t [] (push_private t s))) as H1 by (by eapply push_private_ok, drop_frame_ok).
  unfold run_loop. destruct (polls how); [|by apply do_run_one_ok]. apply do_poll_one_ok; [done..|].
  intros H2 rest Hq. apply Hb; [done|]. revert Hq. unfold push_private. service_fields.
  destruct (op_queue_ s); [|done]. by destruct (private_op_queue _).
Qed.

Lemma resume_ok t how s : service_ok s -> stack (threads s !!! t) = [FWoken how] -> service_ok (resume_wait t how s).
Proof.
  intros [Hok Hb Hat] E. pose proof (not_once t _ _ s Hok E) as Hf. cbn in Hf.
  assert (Z.b2z (one_op how) = 0) as Hz by (by rewrite Hf).
  pose proof Hok as [He Hr Hi Hs Ho].
  unfold resume_wait. set (s1 := with_event _ s). rewrite event_signalled_spec.
  assert (bit s1 = bit s) as Hbit.
  { eapply (bit_with_event (bit s) (tot is_waiting (threads s) + tot is_woken (threads s) - 1)); [|apply bit_range].
    subst s1. service_fields. lia. }
  change (event_state_ s1 mod 2) with (bit s1). rewrite Hbit.
  destruct (Z.eqb_spec (bit s) 1) as [H1|H1].
  - apply do_run_one_ok; [done|]. change (bit (set_stack t [] s1)) with (bit s1).
    split; change (bit (set_stack t [] s1)) with (bit s1); rewrite ?Hbit; subst s1; counts; rewrite ?E, ?count_cons, ?count_nil;
      cbn [is_waiting is_woken is_signal is_blocked is_cleanup is_reactor is_awake is_once Z.b2z]; try lia.
    + intros Hp. apply Hi. lia.
    + intros Hst. destruct (Hs Hst) as (? & ? & Hx). split_and!; [done|lia|]. intros Hp. apply Hx. lia.
  - set (s2 := set_stack t _ _). assert (bit s2 = bit s) as Hbit2.
    { subst s2 s1. unfold bit. service_fields. do 2 f_equal. lia. }
    assert (stopped_ s = false) as Hst by (destruct (stopped_ s); [destruct (Hs eq_refl); lia|done]).
    split; [split| |]; rewrite ?Hbit2; subst s2 s1; counts; rewrite ?E, ?count_cons, ?count_nil;
      cbn [is_waiting is_woken is_signal is_blocked is_cleanup is_reactor is_awake is_once Z.b2z]; try lia; try congruence; try done.
    + intros Hp. apply Hi. lia.
    + intros H2 H3 H4. exfalso. by apply H1, Hb.
Qed.

Lemma cleanup_ok t how s : service_ok s -> stack (threads s !!! t) = [FCleanup how] -> service_ok (task_cleanup t how s).
Proof.
  intros [Hok _ _] E. pose proof (not_once t _ _ s Hok E) as Hf. cbn in Hf.
  assert (Z.b2z (one_op how) = 0) as Hz by (by rewrite Hf).
  pose proof Hok as [He Hr Hi Hs Ho].
  unfold task_cleanup. set (s1 := push _ _). assert (event_ok (set_stack t [] s1)); [subst s1|destruct (polls how); [by apply poll_after_task_ok|by apply do_run_one_ok]].
  pose proof (tot_facts (threads s)) as (Hw & Hb & Hsg & Hk & Hbr & Hc).
  pose proof (counted is_cleanup t _ s E) as Hcl. rewrite count_cons, count_nil in Hcl. cbn [is_cleanup Z.b2z] in Hcl.
  assert (Z.b2z (task_ s) <= 1) by (destruct (task_ s); cbn; lia). pose proof (tasks_nonneg (op_queue_ s)).
  unfold push_private. split; unfold bit in *; service_fields; rewrite ?tot_insert, ?lookup_total_insert_eq; cbn [stack];
    rewrite ?E, ?count_cons, ?count_nil, ?tasks_app, ?tasks_ops;
    cbn [is_waiting is_woken is_signal is_blocked is_cleanup is_reactor is_awake is_once Z.b2z]; try (intros; exfalso; lia); try lia.
  - change (tasks [QTask]) with 1. lia.
  - intros Hst. destruct (Hs Hst) as (? & ? & Hx). split_and!; [done|lia|]. intros Hp. apply Hx. lia.
Qed.

(** A frame on top that the event does not count *)
Lemma pop_plain_ok t f l s : stack (threads s !!! t) = f :: l -> plain f = true -> event_ok s -> event_ok (set_stack t l s).
Proof.
  intros E Hf [He Hr Hi Hs Ho].
  assert (forall p, p = is_waiting \/ p = is_woken \/ p = is_reactor \/ p = is_blocked \/ p = is_once ->
    tot p (threads (set_stack t l s)) = tot p (threads s)) as Ht.
  { intros p Hp. service_fields. rewrite tot_insert, E. cbn [stack]. rewrite count_cons.
    assert (p f = false) as -> by (destruct f; try done; intuition (subst; done)). cbn [Z.b2z]. lia. }
  split; rewrite ?Ht by auto 10; done.
Qed.

Lemma post_frame_ok t ops l s : service_ok s -> stack (threads s !!! t) = FPost ops :: l ->
  service_ok (wake_one_thread_and_unlock t (push (QOp <$> ops) (set_stack t l s))).
Proof.
  intros [Hok _ _] E. apply wake_ok. destruct (pop_plain_ok t _ l s E eq_refl Hok) as [He Hr Hi Hs Ho].
  split; try done. service_fields. rewrite tasks_app, tasks_ops. revert Hr. service_fields. lia.
Qed.

Lemma init_ok t s : service_ok s -> task_ s = false ->
  service_ok (wake_one_thread_and_unlock t (push [QTask] (with_flags true (task_interrupted_ s) (stopped_ s) (interrupted s) s))).
Proof.
  intros [[He Hr Hi Hs Ho] _ _] Ht. apply wake_ok. split; try done. service_fields. rewrite tasks_app.
  change (tasks [QTask]) with 1. rewrite Ht in Hr. cbn [Z.b2z] in *. lia.
Qed.

Lemma with_flags_self s : s = with_flags (task_ s) (task_interrupted_ s) (stopped_ s) (interrupted s) s.
Proof. by destruct s. Qed.

Lemma stop_ok t l s : service_ok s -> stack (threads s !!! t) = FStop :: l -> service_ok (stop_all_threads (set_stack t l s)).
Proof.
  intros [Hok _ _] E. pose proof (pop_plain_ok t _ l s E eq_refl Hok) as Hok1. clear Hok E. set (s0 := set_stack t l s) in *. clearbody s0.
  destruct (set_event_ok s0 Hok1) as [[He Hr Hi Hs Ho] Hb]. unfold stop_all_threads.
  set (s1 := signal_all _). assert (bit s1 = 1) as Hb1 by exact Hb.
  assert (forall p, (forall f, p (wake_frame f) = p f) -> tot p (threads s1) = tot p (threads s0)) as Ht.
  { intros p Hp. change (threads s1) with (wake_thread <$> threads s0). rewrite tot_wake. by apply tot_ext. }
  assert (tot is_waiting (threads s1) = 0) as Hw.
  { change (threads s1) with (wake_thread <$> threads s0). rewrite tot_wake. apply tot_none. by intros []. }
  assert (tot is_woken (threads s1) = tot is_waiting (threads s0) + tot is_woken (threads s0)) as Hk.
  { change (threads s1) with (wake_thread <$> threads s0). rewrite tot_wake. apply tot_add. by intros []. }
  pose proof (tot_facts (threads s1)) as (_ & Hb0 & _ & _ & Hbr & Hc). pose proof (tasks_nonneg (op_queue_ s0)) as Hq.
  assert (forall p, p = is_reactor \/ p = is_blocked \/ p = is_once -> tot p (threads s1) = tot p (threads s0)) as Ht'.
  { intros p [->|[->| ->]]; apply Ht; by intros []. }
  assert (exists ti intr, interrupt_task s1 = with_flags (task_ s0) ti true intr s1 /\
    (0 < tot is_blocked (threads s0) -> intr = true)) as (ti & intr & -> & Hintr).
  { unfold interrupt_task. change (task_interrupted_ s1) with (task_interrupted_ s0). change (task_ s1) with (task_ s0).
    destruct (task_interrupted_ s0) eqn:Eti; cbn [negb andb].
    - exists true, (interrupted s0). split; [|intros Hp; by apply Hi]. apply with_flags_self.
    - destruct (task_ s0) eqn:Et.
      + exists true, true. split; [|done]. change (stopped_ s1) with true. done.
      + exists false, (interrupted s0). split.
        { etransitivity; [apply (with_flags_self s1)|]. change (task_ s1) with (task_ s0) || idtac. by rewrite ?Et. }
        revert Hr Hbr. rewrite (Ht' is_reactor), (Ht' is_blocked) by auto. service_fields.
        rewrite Et. cbn [Z.b2z]. lia. }
  split; [split|by intros|by intros _ ?]; service_fields; rewrite ?(Ht' is_reactor), ?(Ht' is_blocked), ?(Ht' is_once) by auto; try done.
  - change (bit _) with (bit s1). rewrite Hw, Hk, Hb1, Z.add_0_l. rewrite Hb in He. exact He.
  - intros Hp _. by apply Hintr.
Qed.

Lemma woken_ok t how s : event_ok s -> (one_thread_ s = false -> op_queue_ s <> [] -> bit s = 1) ->
  stack (threads s !!! t) = [FWaiting how] -> service_ok (set_stack t [FWoken how] s).
Proof.
  intros Hok Hb E. pose proof (not_once t _ _ s Hok E) as Hf. cbn in Hf.
  assert (Z.b2z (one_op how) = 0) as Hz by (by rewrite Hf).
  pose proof Hok as [He Hr Hi Hs Ho].
  pose proof (counted is_waiting t _ s E) as Hw. rewrite count_cons, count_nil in Hw. cbn [is_waiting Z.b2z] in Hw.
  pose proof (tot_nonneg is_awake (threads s)).
  split; [split| |]; change (bit (set_stack t [FWoken how] s)) with (bit s); unfold attended; counts;
    rewrite ?E, ?count_cons, ?count_nil;
    cbn [is_waiting is_woken is_signal is_blocked is_cleanup is_reactor is_awake is_once Z.b2z]; try lia; try done.
  - intros Hp. apply Hi. lia.
  - intros Hst. destruct (Hs Hst) as (? & ? & ?). lia.
Qed.

Lemma signal_ok t w l s s' : service_ok s -> stack (threads s !!! t) = FSignal :: l ->
  cond_signal w (set_stack t l s) = Some s' -> service_ok s'.
Proof.
  intros [Hok Hb Hat] E Ec. pose proof (pop_plain_ok t _ l s E eq_refl Hok) as Hok1.
  assert (tot is_awake (threads (set_stack t l s)) = tot is_awake (threads s) /\
    tot is_waiting (threads (set_stack t l s)) = tot is_waiting (threads s) /\
    tot is_blocked (threads (set_stack t l s)) = tot is_blocked (threads s)) as (Ha & Hw & Hbl).
  { service_fields. rewrite !tot_insert, E. cbn [stack]. rewrite !count_cons. cbn [is_awake is_waiting is_blocked Z.b2z]. lia. }
  unfold cond_signal in Ec. set (s1 := set_stack t l s) in *.
  assert (tot is_waiting (threads s1) = 0 -> service_ok s1) as Hnone.
  { intros H0. split; [done|exact Hb|]. intros H1 H2 H3. specialize (Hat H1 H2 H3). unfold attended in *. rewrite Ha, Hw, Hbl.
    change (interrupted s1) with (interrupted s). intuition lia. }
  assert (forall (b : bool), (if tot is_waiting (threads s1) =? 0 then Some s1 else None) = Some s' -> service_ok s') as Hz.
  { intros _ Ez. destruct (Z.eqb_spec (tot is_waiting (threads s1)) 0); [|done]. injection Ez as <-. by apply Hnone. }
  destruct (stack (threads s1 !!! w)) as [|f rest] eqn:Ew; [by apply (Hz true)|].
  destruct f as [|how| | | | | | | |]; try by apply (Hz true). destruct rest; [|by apply (Hz true)].
  injection Ec as <-. by apply woken_ok.
Qed.

Lemma task_done_ok t how block ops consumed s : service_ok s -> stack (threads s !!! t) = [FTask how block] ->
  service_ok (task_done t how ops consumed s).
Proof.
  intros [Hok Hb Hat] E. pose proof (not_once t _ _ s Hok E) as Hf. cbn in Hf.
  assert (Z.b2z (one_op how) = 0) as Hz by (by rewrite Hf).
  pose proof Hok as [He Hr Hi Hs Ho].
  set (s' := task_done t how ops consumed s).
  assert (threads s' = <[t := ThreadInfo [FCleanup how] (private_op_queue (threads s !!! t) ++ ops) 0]> (threads s)) as Hth.
  { subst s'. unfold task_done, push_private_ops. destruct (0 <? _); service_fields; rewrite lookup_total_insert_eq, insert_insert_eq; done. }
  assert (event_state_ s' = event_state_ s /\ op_queue_ s' = op_queue_ s /\ task_ s' = task_ s /\
    task_interrupted_ s' = task_interrupted_ s /\ stopped_ s' = stopped_ s /\ one_thread_ s' = one_thread_ s)
    as (F1 & F2 & F3 & F4 & F5 & F6) by (subst s'; unfold task_done; by destruct (0 <? _)).
  assert (bit s' = bit s) as Hbit by (unfold bit; by rewrite F1).
  assert (forall p, tot p (threads s') = tot p (threads s) - Z.b2z (p (FTask how block)) + Z.b2z (p (FCleanup how))) as Ht.
  { intros p. rewrite Hth, tot_insert, E. cbn [stack]. rewrite !count_cons, count_nil. lia. }
  pose proof (tot_facts (threads s')) as (_ & Hb0 & _ & Hk & Hbr & _).
  pose proof (counted is_cleanup t [FCleanup how] s') as Hc. rewrite Hth, lookup_total_insert_eq in Hc. specialize (Hc eq_refl).
  rewrite <- Hth, count_cons, count_nil in Hc. cbn [is_cleanup Z.b2z] in Hc.
  assert (Z.b2z (task_ s) <= 1) by (destruct (task_ s); cbn; lia). pose proof (tasks_nonneg (op_queue_ s)).
  assert (tot is_reactor (threads s') = tot is_reactor (threads s)) as Htr by (rewrite Ht; cbn [is_reactor Z.b2z]; lia).
  assert (tot is_blocked (threads s') = 0) as Hzero by lia.
  assert (0 < tot is_awake (threads s')) as Hawake.
  { pose proof (counted is_awake t [FCleanup how] s') as Hc'. rewrite Hth, lookup_total_insert_eq in Hc'. specialize (Hc' eq_refl).
    rewrite <- Hth, count_cons, count_nil in Hc'. cbn [is_awake Z.b2z] in Hc'. lia. }
  split; [split| |]; rewrite ?Hbit, ?F1, ?F2, ?F3, ?F5, ?F6, ?Hzero; try lia; try done.
  - rewrite !Ht. cbn [is_waiting is_woken Z.b2z]. lia.
  - intros Hst. destruct (Hs Hst) as (? & Hw & _). rewrite Ht. cbn [is_waiting Z.b2z]. split; [done|]. lia.
  - rewrite Ht. cbn [is_once Z.b2z]. lia.
  - intros _ _ _. by left.
Qed.

Lemma reset_ok s : service_ok s -> service_ok (with_flags (task_ s) (task_interrupted_ s) false (interrupted s) s).
Proof.
  intros [[He Hr Hi Hs Ho] Hb Hat]. split; [by split|done|]. intros H1 _ H3. service_fields_in H3. unfold attended. service_fields.
  destruct (stopped_ s) eqn:Est; [|by apply Hat]. destruct (Hs eq_refl) as (_ & Hw & Hx).
  destruct (Z.eq_dec (tot is_blocked (threads s)) 0); [by right; right; right|].
  pose proof (tot_nonneg is_blocked (threads s)). right; right; left. split; [lia|apply Hx; lia].
Qed.

Lemma helps_return t how op s : one_op how = false -> stack (threads s !!! t) = [FHandler how op] -> helps s (work_cleanup t how s).
Proof.
  intros Hone E. unfold work_cleanup. rewrite Hone. set (s1 := set_thread t _ s). assert (helps s s1) as Hs1.
  { apply helps_thread; rewrite E; cbn [stack]; [|apply count_nonneg..]. intros p Hp. rewrite !count_cons. intuition (subst; done). }
  destruct (1 <? _); [eapply helps_trans; [exact Hs1|apply helps_with_work]|].
  destruct (_ <? 1); [|done]. destruct (_ =? 0); [|eapply helps_trans; [exact Hs1|apply helps_with_work]].
  eapply helps_trans; [exact Hs1|]. eapply helps_trans; [apply helps_with_work|by apply helps_push_frame].
Qed.

Lemma act_ok a s s' : service_ok s -> runs_on a -> act a s = Some s' -> service_ok s'.
Proof.
  intros Hok Hrun E. destruct a as [t how|t op cont|t ops|t|t|t|t|t|t|t ops consumed|t w|t]; cbn [act] in E.
  - destruct (stack (threads s !!! t)) eqn:Es; [|done]. injection E as <-. cbn in Hrun.
    eapply helps_ok; [|exact Hok]. unfold run_enter. apply helps_thread; rewrite Es; cbn [stack].
    + intros p Hp. rewrite count_nil. destruct (_ =? 0); rewrite count_cons, count_nil; intuition (subst; cbn; rewrite ?Hrun; done).
    + apply count_nonneg.
    + apply count_nonneg.
  - destruct (in_user_code _); [|done]. injection E as <-. eapply helps_ok; [|exact Hok]. unfold post_immediate_completion.
    destruct (_ && _); (eapply helps_trans; [apply helps_with_given|]);
      [apply helps_private|eapply helps_trans; [apply helps_with_work|by apply helps_push_frame]].
  - destruct (_ && _); [|done]. injection E as <-. eapply helps_ok; [|exact Hok]. unfold post_deferred_completions.
    destruct (_ && _); (eapply helps_trans; [eapply helps_trans; [apply helps_with_work|apply helps_with_given]|]);
      [apply helps_private|by apply helps_push_frame].
  - destruct (in_user_code _); [|done]. injection E as <-. eapply helps_ok; [apply helps_with_work|exact Hok].
  - destruct (_ && _); [|done]. injection E as <-. eapply helps_ok; [|exact Hok]. unfold work_finished.
    destruct (_ =? 0); [eapply helps_trans; [apply helps_with_work|by apply helps_push_frame]|apply helps_with_work].
  - destruct (in_user_code _); [|done]. injection E as <-. eapply helps_ok; [by apply helps_push_frame|exact Hok].
  - destruct (in_user_code _); [|done]. injection E as <-. by apply reset_ok.
  - destruct (in_user_code _); [|done]. injection E as <-. unfold init_task. destruct (task_ s) eqn:Et; [done|]. by apply init_ok.
  - destruct (stack (threads s !!! t)) as [|[| | | | |how op| | | |] [|]] eqn:Es; try done. injection E as <-.
    pose proof (not_once t _ _ s (so_event _ Hok) Es) as Hf. cbn in Hf.
    eapply helps_ok; [|exact Hok]. by apply (helps_return t how op).
  - destruct (stack (threads s !!! t)) as [|[| | |how block| | | | | |] [|]] eqn:Es; try done. destruct (_ <=? _); [|done].
    injection E as <-. by eapply task_done_ok.
  - unfold thread_step in E. destruct (stack (threads s !!! t)) as [|[how| |how|how block|how|how op| |ops| |] l] eqn:Es; try done.
    + destruct l; [|done]. injection E as <-. by apply loop_ok.
    + destruct l; [|done]. injection E as <-. by apply resume_ok.
    + destruct l; [|done]. injection E as <-. by apply cleanup_ok.
    + pose proof (not_once t _ _ s (so_event _ Hok) Es). done.
    + injection E as <-. by apply post_frame_ok.
    + by eapply signal_ok.
    + injection E as <-. by apply stop_ok.
  - destruct (stack (threads s !!! t)) as [|[|how| | | | | | | |] [|]] eqn:Es; try done. injection E as <-.
    apply woken_ok; [apply Hok|apply Hok|done].
Qed.

Lemma acts_ok l : forall s s', service_ok s -> Forall runs_on l -> acts l s = Some s' -> service_ok s'.
Proof.
  induction l as [|a l IH]; intros s s' Hok Hr E; cbn [acts] in E; [by injection E as <-|].
  apply Forall_cons in Hr as [Ha Hr]. destruct (act a s) as [s1|] eqn:E1; [|done]. eapply IH; [by eapply act_ok|done|done].
Qed.

Lemma new_ok hint : service_ok (task_io_service_new hint).
Proof.
  assert (forall p, tot p (threads (task_io_service_new hint)) = 0) as Ht by (intros p; apply msum_empty).
  split; [split| |]; rewrite ?Ht; try done; cbn; lia.
Qed.
End Wake.

(** ** Lemmas: stacks, and where the operations are *)
Section Places.
Implicit Types (s : task_io_service) (th : thread_info).

(** Below the frames on top there is at most one that the thread comes back to; what is
    in the private queue then, and how much work. *)
Definition on_top (l : list frame) : option (list frame) :=
  match l with [FWaiting _] | [FWoken _] | [FCleanup _] => None | _ => Some l end.
Fixpoint base (l : list frame) : option (list frame) :=
  match l with
  | [] => Some []
  | f :: l' => if plain f then base l' ≫= on_top else match l' with [] => Some [f] | _ => None end
  end.
Definition calls_from (l : list frame) : Prop := base l ≫= on_top = base l.
Definition private_ok th : Prop :=
  match base (stack th) with
  | Some [FHandler _ _] => 0 <= private_outstanding_work th <= vlen (private_op_queue th)
  | Some [FLoop _] | Some [FCleanup _] | Some [FReturn] => private_outstanding_work th = 0
  | Some _ => private_op_queue th = [] /\ private_outstanding_work th = 0
  | None => False
  end.

Definition running (f : frame) : Z := match f with FHandler _ _ => 1 | _ => 0 end.
Definition posting (f : frame) : list Z := match f with FPost ops => ops | _ => [] end.
Definition queued_ops (l : list queued) : list Z := l ≫= fun o => match o with QOp op => [op] | QTask => [] end.

(** The operations that a thread has: in its private queue, and about to be pushed *)
Definition own_ops th : list Z := private_op_queue th ++ (stack th ≫= posting).
Definition all_own (m : gmap Z thread_info) : list Z := mcat own_ops m.

(** What a thread does not owe the count of the service *)
Definition own_work th : Z := vlen (own_ops th) - private_outstanding_work th + foldr (fun f n => running f + n) 0 (stack th).

Record places_ok s : Prop := {
  po_threads t : private_ok (threads s !!! t);
  po_work : outstanding_work_ s = vlen (queued_ops (op_queue_ s)) + msum own_work (threads s) + held s;
  po_held : 0 <= held s;
  po_given : given s ≡ₚ begun s ++ queued_ops (op_queue_ s) ++ all_own (threads s)
}.

Lemma queued_ops_app l l' : queued_ops (l ++ l') = queued_ops l ++ queued_ops l'.
Proof. apply bind_app. Qed.

Lemma queued_ops_ops l : queued_ops (QOp <$> l) = l.
Proof. induction l as [|o l IH]; [done|]. rewrite fmap_cons. cbn. by f_equal. Qed.

Lemma own_work_insert m t th : msum own_work (<[t := th]> m) = msum own_work m - own_work (m !!! t) + own_work th.
Proof. by apply msum_insert. Qed.

Lemma all_own_insert m t th : all_own (<[t := th]> m) ++ own_ops (m !!! t) ≡ₚ all_own m ++ own_ops th.
Proof. by apply mcat_insert. Qed.

(** One thread changes, with [g] given to the service and [b] begun. *)
Record changes t th (g b : list Z) s s' : Prop := {
  ch_threads : threads s' = <[t := th]> (threads s);
  ch_private : private_ok th;
  ch_held : 0 <= held s';
  ch_given : given s' = given s ++ g;
  ch_begun : begun s' = begun s ++ b;
  ch_ops : g ++ queued_ops (op_queue_ s) ++ own_ops (threads s !!! t) ≡ₚ b ++ queued_ops (op_queue_ s') ++ own_ops th;
  ch_work : outstanding_work_ s' - outstanding_work_ s = vlen (queued_ops (op_queue_ s')) - vlen (queued_ops (op_queue_ s))
    + (own_work th - own_work (threads s !!! t)) + (held s' - held s)
}.

Lemma changes_ok t th g b s s' : changes t th g b s s' -> places_ok s -> places_ok s'.
Proof.
  intros [Ht Hp Hh Hg Hb Ho Hw] [Pt Pw Ph Pg]. split.
  - intros t'. rewrite Ht. destruct (decide (t' = t)) as [->|Hne]; [by rewrite lookup_total_insert_eq|by rewrite lookup_total_insert_ne].
  - rewrite Ht, own_work_insert. lia.
  - done.
  - rewrite Hg, Hb, Ht, Pg. apply (Permutation_app_inv_r (own_ops (threads s !!! t))).
    pose proof (all_own_insert (threads s) t th) as Ha.
    transitivity ((begun s ++ all_own (threads s)) ++ (g ++ queued_ops (op_queue_ s) ++ own_ops (threads s !!! t))); [solve_Permutation|].
    rewrite Ho. transitivity ((begun s ++ b ++ queued_ops (op_queue_ s')) ++ (all_own (threads s) ++ own_ops th)); [solve_Permutation|].
    rewrite <- Ha. solve_Permutation.
Qed.

(** Nothing of it changes. *)
Lemma same_ok s s' : threads s' = threads s -> queued_ops (op_queue_ s') = queued_ops (op_queue_ s) ->
  outstanding_work_ s' = outstanding_work_ s ->
  held s' = held s -> given s' = given s -> begun s' = begun s -> places_ok s -> places_ok s'.
Proof. intros E1 E2 E3 E4 E5 E6 [Pt Pw Ph Pg]. split; by rewrite ?E1, ?E2, ?E3, ?E4, ?E5, ?E6. Qed.

Lemma interrupt_places s : places_ok s -> places_ok (interrupt_task s).
Proof. unfold interrupt_task. destruct (_ && _); [by apply same_ok|done]. Qed.

Lemma push_quiet_frame t f s : f = FSignal \/ f = FStop -> calls_from (stack (threads s !!! t)) -> places_ok s ->
  places_ok (push_frame t f s).
Proof.
  intros Hf Hc Hok. eapply (changes_ok t _ [] []); [|exact Hok]. pose proof (po_threads _ Hok t) as Hp.
  split; try (by rewrite app_nil_r); try done; try apply Hok.
  - unfold private_ok in *. cbn [stack private_op_queue private_outstanding_work base].
    assert (plain f = true) as -> by (by destruct Hf as [-> | ->]). by rewrite Hc.
  - unfold own_ops. cbn [stack private_op_queue]. rewrite bind_cons. by destruct Hf as [-> | ->].
  - unfold own_work, own_ops. cbn [stack private_op_queue private_outstanding_work foldr]. rewrite bind_cons.
    destruct Hf as [-> | ->]; cbn [posting running app]; service_fields; lia.
Qed.

Lemma wake_places t s : calls_from (stack (threads s !!! t)) -> places_ok s -> places_ok (wake_one_thread_and_unlock t s).
Proof.
  intros Hc Hok. unfold wake_one_thread_and_unlock, maybe_unlock_and_signal_one.
  assert (places_ok (with_event (event_set (event_state_ s)) s)) as Hok1 by (by apply (same_ok s)).
  destruct (1 <? _); [apply push_quiet_frame; [by left|done|done]|by apply interrupt_places].
Qed.

Definition runs (l : list frame) : Z := foldr (fun f n => running f + n) 0 l.

(** A thread that has nothing *)
Definition idle t s : Prop :=
  private_op_queue (threads s !!! t) = [] /\ private_outstanding_work (threads s !!! t) = 0 /\
  (stack (threads s !!! t) ≫= posting) = [] /\ runs (stack (threads s !!! t)) = 0.

Lemma idle_own_none t s : idle t s -> own_ops (threads s !!! t) = [] /\ own_work (threads s !!! t) = 0.
Proof. intros (Hq & Hw & Hp & Hr). unfold own_work, own_ops. fold (runs (stack (threads s !!! t))). by rewrite Hq, Hp, Hw, Hr. Qed.

Lemma idle_set t l s s0 : idle t s -> places_ok s0 -> threads s0 = threads s ->
  l = [] \/ (exists how, l = [FWaiting how]) \/ (exists how b, l = [FTask how b]) -> places_ok (set_stack t l s0).
Proof.
  intros Hidle H0 Et Hl. destruct (idle_own_none t s Hidle) as [Eo Ew]. destruct Hidle as (Hq & Hw & _ & _).
  apply (changes_ok t (ThreadInfo l (private_op_queue (threads s !!! t)) (private_outstanding_work (threads s !!! t))) [] [] s0); [|exact H0].
  split; unfold set_stack; service_fields; rewrite ?Et; try (by rewrite app_nil_r); try done; try apply H0.
  - unfold private_ok. cbn [stack private_op_queue private_outstanding_work]. by destruct Hl as [->|[[how ->]|(how & bl & ->)]].
  - rewrite Eo. unfold own_ops. cbn [stack private_op_queue]. rewrite Hq. by destruct Hl as [->|[[how ->]|(how & bl & ->)]].
  - rewrite Ew. unfold own_work, own_ops. cbn [stack private_op_queue private_outstanding_work]. rewrite Hq, Hw. service_fields.
    destruct Hl as [->|[[how ->]|(how & bl & ->)]]; unfold vlen; cbn; lia.
Qed.

Lemma take_op_places t how op rest s : idle t s -> op_queue_ s = QOp op :: rest -> places_ok s -> places_ok (take_op t how op rest s).
Proof.
  intros Hidle Eq Hok. destruct (idle_own_none t s Hidle) as [Eo Ew]. destruct Hidle as (Hq & Hw & _ & _).
  unfold take_op. set (s1 := set_stack t _ _). assert (places_ok s1) as H1.
  { eapply (changes_ok t _ [] [op]); [|exact Hok]. split; try (by rewrite app_nil_r); try done; try apply Hok.
    - unfold private_ok. cbn. rewrite Hq, Hw. unfold vlen. cbn. lia.
    - rewrite Eo. subst s1. service_fields. rewrite Eq. unfold own_ops. cbn [stack private_op_queue]. rewrite Hq. cbn. done.
    - rewrite Ew. subst s1. unfold own_work, own_ops. service_fields. rewrite Eq. cbn [stack private_op_queue private_outstanding_work].
      rewrite Hq, Hw. change (queued_ops (QOp op :: rest)) with (op :: queued_ops rest). unfold vlen. cbn. lia. }
  match goal with |- context [if ?b then _ else _] => destruct b end;
    [apply wake_places; [|done]; subst s1; service_fields; by rewrite lookup_total_insert_eq|done].
Qed.

(** Taking the reactor from the queue changes nothing of it. *)
Lemma take_task_places rest s : op_queue_ s = QTask :: rest -> places_ok s -> places_ok (with_queue rest s).
Proof. intros Eq [Pt Pw Ph Pg]. rewrite Eq in Pw, Pg. by split. Qed.

Lemma signal_places t s : calls_from (stack (threads s !!! t)) -> places_ok s ->
  places_ok (unlock_and_signal_one t s) /\ places_ok (snd (maybe_unlock_and_signal_one t s)).
Proof.
  intros Hc H1. unfold unlock_and_signal_one, maybe_unlock_and_signal_one.
  destruct (1 <? _); cbn [snd]; (split; [|]); try (by apply (same_ok s)); apply push_quiet_frame; try done; try (by left); by apply (same_ok s).
Qed.

Lemma do_run_one_places t how s : idle t s -> places_ok s -> places_ok (do_run_one t how s).
Proof.
  intros Hidle Hok. unfold do_run_one. destruct (stopped_ s); [apply (idle_set t _ s); auto|].
  destruct (op_queue_ s) as [|[|op] rest] eqn:Eq; [| |by apply take_op_places].
  - apply (idle_set t _ s); [done|by apply (same_ok s)|done|eauto].
  - set (s1 := set_stack t _ _). assert (places_ok s1) as H1.
    { subst s1. apply (idle_set t _ s); [done| |done|eauto]. apply (same_ok (with_queue rest s)); try done. by apply take_task_places. }
    match goal with |- context [if ?b then _ else _] => destruct b end; [|done].
    apply signal_places; [|done]. subst s1. service_fields. by rewrite lookup_total_insert_eq.
Qed.

Lemma do_poll_one_places t how s : idle t s -> places_ok s -> places_ok (do_poll_one t how s).
Proof.
  intros Hidle Hok. unfold do_poll_one. destruct (stopped_ s); [apply (idle_set t _ s); auto|].
  destruct (op_queue_ s) as [|[|op] rest] eqn:Eq; [apply (idle_set t _ s); auto| |by apply take_op_places].
  apply (idle_set t _ s); [done|by apply take_task_places|done|eauto].
Qed.

Lemma poll_after_task_places t how s : idle t s -> places_ok s -> places_ok (poll_after_task t how s).
Proof.
  intros Hidle Hok. unfold poll_after_task.
  destruct (op_queue_ s) as [|[|op] rest] eqn:Eq; [apply (idle_set t _ s); auto| |by apply take_op_places].
  apply signal_places; [|apply (idle_set t _ s); auto]. service_fields. by rewrite lookup_total_insert_eq.
Qed.

Lemma run_loop_places t how s : idle t s -> places_ok s -> places_ok (run_loop t how s).
Proof. intros. unfold run_loop. destruct (polls how); [by apply do_poll_one_places|by apply do_run_one_places]. Qed.

(** Only the stack changes. *)
Lemma restack_ok t l s : places_ok s ->
  (private_ok (threads s !!! t) -> private_ok (ThreadInfo l (private_op_queue (threads s !!! t)) (private_outstanding_work (threads s !!! t)))) ->
  l ≫= posting = stack (threads s !!! t) ≫= posting -> runs l = runs (stack (threads s !!! t)) -> places_ok (set_stack t l s).
Proof.
  intros Hok Hp Hpost Hrun.
  apply (changes_ok t (ThreadInfo l (private_op_queue (threads s !!! t)) (private_outstanding_work (threads s !!! t))) [] [] s); [|done].
  split; try (by rewrite app_nil_r); try done; try apply Hok; [apply Hp, Hok| |].
  - unfold own_ops. cbn [stack private_op_queue]. by rewrite Hpost.
  - unfold own_work, own_ops. cbn [stack private_op_queue private_outstanding_work]. unfold runs in Hrun. rewrite Hpost, Hrun. service_fields. lia.
Qed.

Lemma push_private_places t f s : stack (threads s !!! t) = [f] -> (exists how, f = FLoop how \/ f = FCleanup how \/ f = FReturn) ->
  places_ok s -> places_ok (push_private t s) /\ threads (push_private t s) !!! t = ThreadInfo [f] [] 0.
Proof.
  intros E Hf Hok. pose proof (po_threads _ Hok t) as Hp. unfold private_ok in Hp. rewrite E in Hp.
  assert (private_outstanding_work (threads s !!! t) = 0) as Hw by (by destruct Hf as (b & [->|[->| ->]])). clear Hp.
  assert (running f = 0 /\ posting f = []) as [Hr Hpost] by (by destruct Hf as (b & [->|[->| ->]])).
  unfold push_private. rewrite E, Hw. split; [|service_fields; by rewrite lookup_total_insert_eq].
  apply (changes_ok t (ThreadInfo [f] [] 0) [] [] s); [|done].
  split; try (by rewrite app_nil_r); try done; try apply Hok; service_fields.
  - unfold private_ok. by destruct Hf as (b & [->|[->| ->]]).
  - rewrite queued_ops_app, queued_ops_ops. unfold own_ops. rewrite E. cbn. rewrite Hpost. cbn. by rewrite !app_nil_r.
  - rewrite queued_ops_app, queued_ops_ops, vlen_app. unfold own_work, own_ops. rewrite E, Hw.
    cbn [stack private_op_queue private_outstanding_work foldr]. rewrite !bind_cons, Hr, Hpost, !vlen_app. unfold vlen. cbn. lia.
Qed.

Lemma wake_thread_private th : private_ok th -> private_ok (wake_thread th).
Proof.
  unfold private_ok. cbn [wake_thread stack private_op_queue private_outstanding_work].
  assert (base (wake_frame <$> stack th) = fmap wake_frame <$> base (stack th)) as ->.
  { induction (stack th) as [|f l IH]; [done|]. rewrite fmap_cons. cbn [base]. 
    assert (plain (wake_frame f) = plain f) as -> by (by destruct f). destruct (plain f); [|by destruct l]. rewrite IH.
    destruct (base l) as [[|g []]|]; try done; by destruct g. }
  destruct (base (stack th)) as [[|f []]|]; try done; by destruct f.
Qed.

Lemma wake_thread_own th : own_ops (wake_thread th) = own_ops th /\ own_work (wake_thread th) = own_work th.
Proof.
  assert (own_ops (wake_thread th) = own_ops th) as E.
  { unfold own_ops. cbn [wake_thread stack private_op_queue]. f_equal. induction (stack th) as [|f l IH]; [done|].
    rewrite fmap_cons, !bind_cons, IH. by destruct f. }
  split; [done|]. unfold own_work. rewrite E. cbn [wake_thread stack private_outstanding_work]. f_equal.
  induction (stack th) as [|f l IH]; [done|]. rewrite fmap_cons. cbn [foldr]. rewrite IH. by destruct f.
Qed.

Lemma signal_all_places s : places_ok s -> places_ok (signal_all s).
Proof.
  intros [Pt Pw Ph Pg]. split; unfold signal_all; service_fields; try done.
  - intros t. rewrite lookup_total_alt, lookup_fmap. specialize (Pt t). rewrite lookup_total_alt in Pt.
    destruct (threads s !! t); cbn; [by apply wake_thread_private|done].
  - rewrite msum_fmap. rewrite (msum_ext _ own_work); [done|]. intros th. apply wake_thread_own.
  - cbn [given begun with_threads with_event]. rewrite Pg. unfold all_own. rewrite mcat_fmap; [done|]. intros th. apply wake_thread_own.
Qed.

Lemma base_user l : in_user_code l = true -> in_run l = true -> base l <> None -> exists how op, l = [FHandler how op].
Proof. destruct l as [|[| | | | |how op| | | |] [|]]; try done. intros. by exists how, op. Qed.

Lemma user_calls l : in_user_code l = true -> calls_from l.
Proof. by destruct l as [|[| | | | |how op| | | |] [|]]. Qed.

Lemma push_post t ops s : in_user_code (stack (threads s !!! t)) = true -> places_ok s ->
  private_ok (ThreadInfo (FPost ops :: stack (threads s !!! t)) (private_op_queue (threads s !!! t))
    (private_outstanding_work (threads s !!! t))).
Proof.
  intros Hu Hok. pose proof (po_threads _ Hok t) as Hp. unfold private_ok in *. cbn [stack private_op_queue private_outstanding_work base plain].
  by rewrite (user_calls _ Hu).
Qed.

Lemma post_places t op cont s : in_user_code (stack (threads s !!! t)) = true -> places_ok s ->
  places_ok (post_immediate_completion t op cont s).
Proof.
  intros Hu Hok. pose proof (po_threads _ Hok t) as Hp. unfold post_immediate_completion.
  change (one_thread_ (with_given [op] s)) with (one_thread_ s). change (threads (with_given [op] s)) with (threads s).
  destruct (_ && _) eqn:Eb.
  - apply andb_true_iff in Eb as [_ Eb]. unfold private_ok in Hp.
    destruct (base_user _ Hu Eb ltac:(by destruct (base _))) as (how & o & E). rewrite E in Hp. cbn [base plain] in Hp.
    eapply (changes_ok t (ThreadInfo (stack (threads s !!! t)) (private_op_queue (threads s !!! t) ++ [op])
      (private_outstanding_work (threads s !!! t) + 1)) [op] [] s); [|done].
    split; try (by rewrite app_nil_r); try done; try apply Hok.
    + unfold private_ok. rewrite E. cbn. rewrite vlen_app. unfold vlen at 2. cbn. lia.
    + unfold own_ops. cbn [stack private_op_queue]. service_fields. solve_Permutation.
    + unfold own_work, own_ops. cbn [stack private_op_queue private_outstanding_work]. service_fields. rewrite !vlen_app. change (vlen [op]) with 1. lia.
  - eapply (changes_ok t (ThreadInfo (FPost [op] :: stack (threads s !!! t)) (private_op_queue (threads s !!! t))
      (private_outstanding_work (threads s !!! t))) [op] [] s); [|done].
    split; try (by rewrite app_nil_r); try done; try apply Hok.
    + by apply push_post.
    + unfold own_ops. cbn [stack private_op_queue]. rewrite bind_cons. service_fields. cbn [posting]. solve_Permutation.
    + unfold own_work, own_ops. cbn [stack private_op_queue private_outstanding_work foldr]. rewrite bind_cons. service_fields.
      cbn [posting running]. rewrite !vlen_app. change (vlen [op]) with 1. lia.
Qed.

Lemma deferred_places t ops s : in_user_code (stack (threads s !!! t)) = true -> vlen ops <= held s -> places_ok s ->
  places_ok (post_deferred_completions t ops s).
Proof.
  intros Hu Hh Hok. pose proof (po_threads _ Hok t) as Hp. unfold post_deferred_completions. set (s1 := with_given _ _).
  change (one_thread_ s1) with (one_thread_ s). change (threads s1) with (threads s).
  destruct (_ && _) eqn:Eb.
  - apply andb_true_iff in Eb as [_ Eb]. unfold private_ok in Hp.
    destruct (base_user _ Hu Eb ltac:(by destruct (base _))) as (how & o & E). rewrite E in Hp. cbn [base plain] in Hp.
    eapply (changes_ok t (ThreadInfo (stack (threads s !!! t)) (private_op_queue (threads s !!! t) ++ ops)
      (private_outstanding_work (threads s !!! t) + 0)) ops [] s); [|done].
    split; try (by rewrite app_nil_r); try done; subst s1; service_fields.
    + unfold private_ok. rewrite E. cbn. rewrite vlen_app. pose proof (vlen_nonneg ops). lia.
    + lia.
    + unfold own_ops. cbn [stack private_op_queue]. solve_Permutation.
    + unfold own_work, own_ops. cbn [stack private_op_queue private_outstanding_work]. rewrite !vlen_app. lia.
  - eapply (changes_ok t (ThreadInfo (FPost ops :: stack (threads s !!! t)) (private_op_queue (threads s !!! t))
      (private_outstanding_work (threads s !!! t))) ops [] s); [|done].
    split; try (by rewrite app_nil_r); try done; subst s1; service_fields.
    + by apply push_post.
    + lia.
    + unfold own_ops. cbn [stack private_op_queue]. rewrite bind_cons. cbn [posting]. solve_Permutation.
    + unfold own_work, own_ops. cbn [stack private_op_queue private_outstanding_work foldr]. rewrite bind_cons.
      cbn [posting running]. rewrite !vlen_app. lia.
Qed.

Lemma return_places t how op s : stack (threads s !!! t) = [FHandler how op] -> places_ok s -> places_ok (work_cleanup t how s).
Proof.
  intros E Hok. pose proof (po_threads _ Hok t) as Hp. unfold private_ok in Hp. rewrite E in Hp. cbn [base plain] in Hp.
  unfold work_cleanup. set (w := private_outstanding_work _) in *. set (next := if one_op how then FReturn else FLoop how).
  set (s1 := set_thread t _ s).
  assert (places_ok (with_work (outstanding_work_ s + (w - 1)) (held s) s1)) as H1.
  { eapply (changes_ok t (ThreadInfo [next] (private_op_queue (threads s !!! t)) 0) [] [] s); [|done].
    split; try (by rewrite app_nil_r); try done; try apply Hok; service_fields.
    - unfold private_ok. subst next. by destruct (one_op how).
    - unfold own_ops. rewrite E. subst next s1. by destruct (one_op how).
    - unfold own_work, own_ops. rewrite E. fold w. subst next s1. service_fields. destruct (one_op how); cbn; rewrite !app_nil_r; lia. }
  change (outstanding_work_ s1) with (outstanding_work_ s). change (held s1) with (held s).
  destruct (Z.ltb_spec 1 w); [done|]. destruct (Z.ltb_spec w 1).
  - replace (outstanding_work_ s + (w - 1)) with (outstanding_work_ s - 1) in H1 by lia.
    destruct (_ =? 0); [|done]. apply push_quiet_frame; [by right| |done]. subst s1. service_fields. rewrite lookup_total_insert_eq. subst next.
    by destruct (one_op how).
  - eapply same_ok; [..|exact H1]; service_fields; try done. subst s1. service_fields. lia.
Qed.

Lemma task_done_places t how block ops consumed s : stack (threads s !!! t) = [FTask how block] -> vlen ops <= held s ->
  places_ok s -> places_ok (task_done t how ops consumed s).
Proof.
  intros E Hh Hok. pose proof (po_threads _ Hok t) as Hp. unfold private_ok in Hp. rewrite E in Hp. destruct Hp as [Hq Hw].
  unfold task_done, push_private_ops. service_fields. rewrite !lookup_total_insert_eq. cbn [private_outstanding_work private_op_queue stack].
  rewrite Hq, Hw. change (0 <? 0 + 0) with false. cbv iota.
  eapply (changes_ok t (ThreadInfo [FCleanup how] ([] ++ ops) 0) ops [] s); [|done].
  split; try (by rewrite app_nil_r); try done; service_fields.
  - apply insert_insert_eq.
  - lia.
  - unfold own_ops. rewrite E, Hq. cbn. rewrite !app_nil_r. apply Permutation_app_comm.
  - unfold own_work, own_ops. rewrite E, Hq, Hw. cbn. rewrite !app_nil_r. unfold vlen. cbn. lia.
Qed.

Lemma pop_private t f l s : plain f = true -> stack (threads s !!! t) = f :: l -> private_ok (threads s !!! t) ->
  private_ok (ThreadInfo l (private_op_queue (threads s !!! t)) (private_outstanding_work (threads s !!! t))) /\ calls_from l.
Proof.
  intros Hf Es Hp. unfold private_ok, calls_from in *. rewrite Es in Hp. cbn [stack private_op_queue private_outstanding_work base] in *.
  rewrite Hf in Hp. destruct (base l) as [b|]; [|done]. change (Some b ≫= on_top) with (on_top b) in *.
  assert (on_top b = Some b) as Hb by (destruct b as [|[] []]; try done). rewrite Hb in Hp. done.
Qed.

Lemma step_places t w s s' : places_ok s -> thread_step t w s = Some s' -> places_ok s'.
Proof.
  intros Hok E. unfold thread_step in E. pose proof (po_threads _ Hok t) as Hp. unfold private_ok in Hp.
  destruct (stack (threads s !!! t)) as [|[how|how|how|how block|how|how op| |ops| |] l] eqn:Es; try done.
  - destruct l; [|done]. injection E as <-. destruct (push_private_places t _ s Es) as [H1 H2]; [by exists how; left|done|].
    apply run_loop_places; [unfold idle; by rewrite H2|done].
  - destruct l; [|done]. injection E as <-. destruct Hp as [Hq Hw]. unfold resume_wait.
    assert (places_ok (with_event (event_state_ s - 2) s)) as H1 by (by apply (same_ok s)).
    destruct (event_signalled _); [apply do_run_one_places; [unfold idle; service_fields; by rewrite Es|done]|].
    apply restack_ok; [by apply (same_ok s)|service_fields; by rewrite ?Es..].
  - destruct l; [|done]. injection E as <-. unfold task_cleanup.
    set (s1 := with_flags _ _ _ _ s). assert (places_ok s1) as H1 by (by apply (same_ok s)).
    destruct (push_private_places t (FCleanup how) s1 Es) as [H2 H3]; [by exists how; auto|done|].
    assert (idle t (push [QTask] (push_private t s1))) as Hidle by (unfold idle; service_fields; by rewrite H3).
    assert (places_ok (push [QTask] (push_private t s1))) as H4.
    { eapply same_ok; [..|exact H2]; try done. service_fields. by rewrite queued_ops_app, app_nil_r. }
    destruct (polls how); [by apply poll_after_task_places|by apply do_run_one_places].
  - destruct l; [|done]. injection E as <-. destruct (push_private_places t FReturn s Es) as [H1 H2]; [by exists RunOne; auto|done|].
    apply restack_ok; rewrite ?H2; done.
  - injection E as <-. destruct (pop_private t (FPost ops) l s eq_refl Es (po_threads _ Hok t)) as [Hp1 Hc]. apply wake_places.
    { service_fields. by rewrite lookup_total_insert_eq. }
    eapply (changes_ok t (ThreadInfo l (private_op_queue (threads s !!! t)) (private_outstanding_work (threads s !!! t))) [] [] s); [|done].
    split; try (by rewrite app_nil_r); try done; try apply Hok; service_fields.
    + rewrite queued_ops_app, queued_ops_ops. unfold own_ops. rewrite Es, bind_cons. cbn [stack private_op_queue posting]. solve_Permutation.
    + rewrite queued_ops_app, queued_ops_ops. unfold own_work, own_ops. rewrite Es, bind_cons.
      cbn [stack private_op_queue private_outstanding_work posting foldr running]. rewrite !vlen_app. lia.
  - assert (places_ok (set_stack t l s)) as H1.
    { apply restack_ok; [done|intros; by eapply (pop_private t FSignal)|by rewrite Es|by rewrite Es]. }
    unfold cond_signal in E. destruct (stack (threads (set_stack t l s) !!! w)) as [|f rest] eqn:Ew.
    { destruct (_ =? 0); [by injection E as <-|done]. }
    assert ((if tot is_waiting (threads (set_stack t l s)) =? 0 then Some (set_stack t l s) else None) = Some s' -> places_ok s') as Hz.
    { destruct (_ =? 0); [by intros [= <-]|done]. }
    destruct f; try by apply Hz. destruct rest; [|by apply Hz]. injection E as <-.
    apply restack_ok; [done|unfold private_ok; rewrite Ew; done|by rewrite Ew|by rewrite Ew].
  - injection E as <-. unfold stop_all_threads. apply interrupt_places, signal_all_places.
    assert (places_ok (set_stack t l s)) as H1; [|by apply (same_ok (set_stack t l s))].
    apply restack_ok; [done|intros; by eapply (pop_private t FStop)|by rewrite Es|by rewrite Es].
Qed.

Lemma act_places a s s' : places_ok s -> act a s = Some s' -> places_ok s'.
Proof.
  intros Hok E. destruct a as [t how|t op cont|t ops|t|t|t|t|t|t|t ops consumed|t w|t]; cbn [act] in E; [..|by eapply step_places|].
  - pose proof (po_threads _ Hok t) as Hp. unfold private_ok in Hp.
    destruct (stack (threads s !!! t)) eqn:Es; [|done]. destruct Hp as [Hq Hw]. injection E as <-. unfold run_enter.
    eapply (changes_ok t (ThreadInfo _ [] 0) [] [] s); [|done].
    split; try (by rewrite app_nil_r); try apply Hok; try reflexivity; service_fields.
    + unfold private_ok. by destruct (_ =? 0).
    + unfold own_ops. rewrite Es, Hq. by destruct (_ =? 0).
    + unfold own_work, own_ops. rewrite Es, Hq, Hw. destruct (_ =? 0); unfold vlen; cbn; lia.
  - destruct (in_user_code _) eqn:Hu; [|done]. injection E as <-. by apply post_places.
  - destruct (_ && _) eqn:Hu; [|done]. injection E as <-. apply andb_true_iff in Hu as [Hu Hh].
    apply andb_true_iff in Hu as [Hu _]. apply Z.leb_le in Hh. by apply deferred_places.
  - destruct (in_user_code _); [|done]. injection E as <-. unfold work_started. destruct Hok. split; try done; service_fields; lia.
  - destruct (_ && _) eqn:Hu; [|done]. injection E as <-. apply andb_true_iff in Hu as [Hu Hh]. apply Z.ltb_lt in Hh.
    assert (places_ok (with_work (outstanding_work_ s - 1) (held s - 1) s)) as H1 by (destruct Hok; split; try done; service_fields; lia).
    unfold work_finished. destruct (_ =? 0); [|done]. apply push_quiet_frame; [by right| |done]. by apply user_calls.
  - destruct (in_user_code _) eqn:Hu; [|done]. injection E as <-. apply push_quiet_frame; [by right|by apply user_calls|done].
  - destruct (in_user_code _); [|done]. injection E as <-. by apply (same_ok s).
  - destruct (in_user_code _) eqn:Hu; [|done]. injection E as <-. unfold init_task. destruct (task_ s); [done|]. cbn [negb].
    apply wake_places; [by apply user_calls|]. eapply same_ok; [..|exact Hok]; try done. service_fields. by rewrite queued_ops_app, app_nil_r.
  - destruct (stack (threads s !!! t)) as [|[| | | | |how op| | | |] [|]] eqn:Es; try done. injection E as <-. by eapply return_places.
  - destruct (stack (threads s !!! t)) as [|[| | |how block| | | | | |] [|]] eqn:Es; try done.
    destruct (Z.leb_spec (vlen ops) (held s)); [|done]. injection E as <-. by eapply task_done_places.
  - destruct (stack (threads s !!! t)) as [|[|how| | | | | | | |] [|]] eqn:Es; try done. injection E as <-.
    apply restack_ok; [done|unfold private_ok; rewrite Es; done|by rewrite Es|by rewrite Es].
Qed.

Lemma acts_places l : forall s s', places_ok s -> acts l s = Some s' -> places_ok s'.
Proof.
  induction l as [|a l IH]; intros s s' Hok E; cbn [acts] in E; [by injection E as <-|].
  destruct (act a s) as [s1|] eqn:E1; [|done]. eapply IH; [by eapply act_places|done].
Qed.

Lemma new_places hint : places_ok (task_io_service_new hint).
Proof.
  split; cbn; [|by rewrite msum_empty|done|].
  - intros t. by rewrite lookup_total_alt, lookup_empty.
  - unfold all_own. by rewrite mcat_empty.
Qed.
End Places.

(** ** Threads that go on *)
Section Go.
Implicit Types (s : task_io_service).

Definition someone (p : frame -> bool) s : Prop := exists t f, f ∈ stack (threads s !!! t) /\ p f = true.

(** [t] goes on without an event, a call of the program or a spurious wake-up. *)
Definition can_go (t : Z) s : Prop :=
  (exists w s', thread_step t w s = Some s') \/
  (exists how block, stack (threads s !!! t) = [FTask how block] /\ (block = true -> interrupted s = true)).

(** ... to the queue, or to wake a thread that goes there *)
Definition heads_for_queue (t : Z) s : Prop :=
  exists f, f ∈ stack (threads s !!! t) /\
    (is_awake f = true \/ (is_signal f = true /\ someone is_waiting s) \/ (is_blocked f = true /\ interrupted s = true)).

Lemma interrupt_one s : one_thread_ (interrupt_task s) = one_thread_ s.
Proof. unfold interrupt_task. by destruct (_ && _). Qed.

Lemma wake_one t s : one_thread_ (wake_one_thread_and_unlock t s) = one_thread_ s.
Proof. unfold wake_one_thread_and_unlock, maybe_unlock_and_signal_one. destruct (_ <? _); [done|]. by rewrite interrupt_one. Qed.

Lemma take_one t how op rest s : one_thread_ (take_op t how op rest s) = one_thread_ s.
Proof. unfold take_op. destruct (_ && _); [|done]. by rewrite wake_one. Qed.

Lemma run_one_one t how s : one_thread_ (do_run_one t how s) = one_thread_ s.
Proof.
  unfold do_run_one. destruct (stopped_ s); [done|]. destruct (op_queue_ s) as [|[|op] rest]; [done| |apply take_one].
  destruct (_ && _); [|done]. unfold unlock_and_signal_one. by destruct (_ <? _).
Qed.

Lemma poll_one_one t how s : one_thread_ (do_poll_one t how s) = one_thread_ s /\
  one_thread_ (poll_after_task t how s) = one_thread_ s.
Proof.
  unfold do_poll_one, poll_after_task, maybe_unlock_and_signal_one. destruct (op_queue_ s) as [|[|op] rest].
  - by destruct (stopped_ s).
  - by destruct (stopped_ s), (_ <? _).
  - split; [destruct (stopped_ s); [done|]|]; apply take_one.
Qed.

Lemma step_one t w s s' : thread_step t w s = Some s' -> one_thread_ s' = one_thread_ s.
Proof.
  unfold thread_step. intros E. destruct (stack _) as [|[how|how|how|how block|how|how op| |ops| |] l]; try done.
  1-4: destruct l; [|done]; injection E as <-.
  - unfold run_loop. destruct (polls how); [by rewrite (proj1 (poll_one_one _ _ _))|by rewrite run_one_one].
  - unfold resume_wait. destruct (event_signalled _); [by rewrite run_one_one|done].
  - unfold task_cleanup. destruct (polls how); [by rewrite (proj2 (poll_one_one _ _ _))|by rewrite run_one_one].
  - done.
  - injection E as <-. by rewrite wake_one.
  - unfold cond_signal in E. repeat case_match; by simplify_eq.
  - injection E as <-. unfold stop_all_threads. by rewrite interrupt_one.
Qed.

Lemma act_one_thread a s s' : act a s = Some s' -> one_thread_ s' = one_thread_ s.
Proof.
  intros E. destruct a; cbn [act] in E; [..|by eapply step_one|]; repeat case_match; try done; injection E as <-; try done.
  all: unfold post_immediate_completion, post_deferred_completions, work_finished, init_task, work_cleanup, task_done; rewrite ?wake_one.
  all: repeat case_match; rewrite ?wake_one; done.
Qed.

Lemma acts_one_thread l : forall s s', acts l s = Some s' -> one_thread_ s' = one_thread_ s.
Proof.
  induction l as [|a l IH]; intros s s' E; cbn [acts] in E; [by injection E as <-|].
  destruct (act a s) as [s1|] eqn:E1; [|done]. by rewrite (IH _ _ E), (act_one_thread _ _ _ E1).
Qed.

Lemma count_elem p l : 0 < count p l -> exists f, f ∈ l /\ p f = true.
Proof.
  induction l as [|f l IH]; [done|]. rewrite count_cons. destruct (p f) eqn:E; [exists f; split; [by left|done]|].
  intros Hc. destruct IH as (g & Hg & Hp); [done|]. exists g. split; [by right|done].
Qed.

Lemma elem_count p f l : f ∈ l -> p f = true -> 0 < count p l.
Proof.
  induction l as [|g l IH]; [by intros ?%elem_of_nil|]. rewrite count_cons. pose proof (count_nonneg p l).
  intros [->|Hf]%elem_of_cons Hp; [rewrite Hp; cbn; lia|]. specialize (IH Hf Hp). destruct (p g); cbn; lia.
Qed.

Lemma tot_someone p s : 0 < tot p (threads s) <-> someone p s.
Proof.
  split.
  - intros (t & th & E & Hc)%msum_pos. apply count_elem in Hc as (f & Hf & Hp). exists t, f.
    rewrite lookup_total_alt, E. done.
  - intros (t & f & Hf & Hp). pose proof (tot_ge p (threads s) t). pose proof (elem_count p f _ Hf Hp). lia.
Qed.

Lemma base_waiting f l : f ∈ l -> is_waiting f = true -> base l <> None -> l = [f].
Proof.
  induction l as [|g l IH]; [by intros ?%elem_of_nil|]. intros Hf Hw Hb. cbn [base] in Hb. destruct (plain g) eqn:Eg.
  - apply elem_of_cons in Hf as [->|Hf]; [by destruct g|]. destruct (base l) as [b|] eqn:Eb; [|done].
    rewrite (IH Hf Hw) in Eb by done. cbn [base] in Eb. destruct f; try done. by injection Eb as <-.
  - destruct l; [|done]. by apply list_elem_of_singleton in Hf as ->.
Qed.

Lemma places_base s t : places_ok s -> base (stack (threads s !!! t)) <> None.
Proof. intros Hok E. pose proof (po_threads _ Hok t) as Hp. unfold private_ok in Hp. by rewrite E in Hp. Qed.

Lemma signal_possible s : places_ok s -> exists w s', cond_signal w s = Some s'.
Proof.
  intros Hok. destruct (Z.eq_dec (tot is_waiting (threads s)) 0) as [H0|H0].
  - exists 0. unfold cond_signal. rewrite (proj2 (Z.eqb_eq _ _) H0). destruct (stack (threads s !!! 0)) as [|[] [|]]; eauto.
  - pose proof (tot_nonneg is_waiting (threads s)). destruct (proj1 (tot_someone is_waiting s)) as (w & f & Hf & Hw); [lia|].
    pose proof (base_waiting f _ Hf Hw (places_base s w Hok)) as E. exists w. unfold cond_signal. rewrite E. destruct f; try done. eauto.
Qed.

Lemma goes_on t f s : places_ok s -> f ∈ stack (threads s !!! t) ->
  (is_awake f = true \/ is_signal f = true \/ (is_blocked f = true /\ interrupted s = true)) -> can_go t s.
Proof.
  intros Hok Hf Hc. pose proof (places_base s t Hok) as Hb. pose proof (po_threads _ Hok t) as Hp.
  unfold can_go, thread_step. destruct (stack (threads s !!! t)) as [|g l] eqn:E; [by apply elem_of_nil in Hf|].
  destruct (plain g) eqn:Eg.
  - left. destruct g as [| | | | | | |ops| |]; try done; [eexists 0, _; reflexivity| |eexists 0, _; reflexivity].
    apply signal_possible. apply restack_ok; [done|intros; by eapply (pop_private t FSignal)|by rewrite E|by rewrite E].
  - cbn [base] in Hb. rewrite Eg in Hb. destruct l; [|done]. apply list_elem_of_singleton in Hf as ->.
    destruct Hc as [Ha|[Hs|[Hbl Hi]]]; [| by destruct g|right; destruct g as [| | |how []| | | | | |]; try done; by exists how, true].
    destruct g as [how| |how|how []|how| | | | |]; try done; [left; eexists 0, _; reflexivity..|right|left; eexists 0, _; reflexivity].
    by exists how, false.
Qed.

Lemma base_runs l b : base l = Some b -> runs l = runs b.
Proof.
  revert b. induction l as [|f l IH]; intros b; cbn [base]; [by intros [= <-]|]. destruct (plain f) eqn:Ef.
  - destruct (base l) as [c|]; [|done]. change (Some c ≫= on_top) with (on_top c). intros Hc.
    assert (b = c) as -> by (destruct c as [|[] [|]]; cbn in Hc; congruence).
    rewrite <- (IH c eq_refl). by destruct f.
  - destruct l; [by intros [= <-]|done].
Qed.

Lemma runs_pos l : 0 <= runs l /\ (runs l = 0 -> forall how op, FHandler how op ∉ l).
Proof.
  induction l as [|f l [IH1 IH2]]; [split; [done|intros _ ? ? ?%elem_of_nil; done]|]. change (runs (f :: l)) with (running f + runs l).
  assert (0 <= running f) by (by destruct f). split; [lia|]. intros H0 how op [<-|Hin]%elem_of_cons; [cbn in H0; lia|].
  eapply IH2; [|done]. lia.
Qed.

(** What a thread has is counted, a running handler too. *)
Lemma private_ok_work th : private_ok th ->
  0 <= own_work th /\ (own_work th = 0 -> own_ops th = [] /\ forall how op, FHandler how op ∉ stack th).
Proof.
  unfold private_ok, own_work. fold (runs (stack th)). destruct (base (stack th)) as [b|] eqn:Eb; [|done].
  pose proof (base_runs _ _ Eb) as Er. intros Hp.
  assert (private_outstanding_work th <= vlen (own_ops th) /\ (runs (stack th) = 0 -> private_outstanding_work th = 0)) as [H1 H2].
  { rewrite Er. unfold own_ops. rewrite vlen_app. pose proof (vlen_nonneg (stack th ≫= posting)). pose proof (vlen_nonneg (private_op_queue th)).
    destruct b as [|[] [|]]; try (destruct Hp; split; [lia|intros; done]); split; try lia; intros Hr; cbn in Hr; lia. }
  destruct (runs_pos (stack th)) as [H3 H4]. split; [lia|]. intros H0. assert (runs (stack th) = 0) as Hr by lia.
  split; [|by apply H4]. apply vlen_zero. rewrite (H2 Hr) in H0. lia.
Qed.

Lemma idle_own m : (forall t, private_ok (m !!! t)) -> (forall t th, m !! t = Some th -> own_work th = 0) -> all_own m = [].
Proof.
  intros Hp Hz. apply mcat_nil. intros t th Hm. specialize (Hp t). rewrite lookup_total_alt, Hm in Hp.
  destruct (private_ok_work th Hp) as [_ H1]. by destruct (H1 (Hz t th Hm)) as [H2 _].
Qed.

Lemma attended_go s : places_ok s -> attended s ->
  (exists t, can_go t s /\ heads_for_queue t s) \/ (~ someone is_waiting s /\ ~ someone is_blocked s).
Proof.
  intros Hok [Ha|[[Hs Hw]|[[Hb Hi]|[Hw Hb]]]].
  - apply tot_someone in Ha as (t & f & Hf & Ha). left. exists t. split; [eapply goes_on; eauto|exists f; auto].
  - apply tot_someone in Hs as (t & f & Hf & Hs). apply tot_someone in Hw. left. exists t. split; [eapply goes_on; eauto|exists f; auto].
  - apply tot_someone in Hb as (t & f & Hf & Hb). left. exists t. split; [eapply goes_on; eauto|exists f; auto 10].
  - right. rewrite <- !tot_someone. lia.
Qed.
End Go.

(** One thread waits, and another is out. *)
Lemma two_threads_stuck s :
  threads s = <[1 := ThreadInfo [FWaiting Run] [] 0]> (<[2 := ThreadInfo [] [] 0]> ∅) -> forall t, ~ can_go t s.
Proof.
  intros Em t. assert (stack (threads s !!! t) = [] \/ stack (threads s !!! t) = [FWaiting Run]) as Hs.
  { rewrite Em. destruct (Z.eq_dec t 1) as [->|H1]; [right; by rewrite lookup_total_insert_eq|left].
    rewrite lookup_total_insert_ne by done. destruct (Z.eq_dec t 2) as [->|H2]; [by rewrite lookup_total_insert_eq|].
    rewrite lookup_total_insert_ne by done. by rewrite lookup_total_alt, lookup_empty. }
  unfold can_go, thread_step. destruct Hs as [-> | ->]; by intros [(w & s' & H)|(how & block & H & _)].
Qed.

Definition one_op_trace (how : entry) : list action :=
  [AWorkStarted 0; APost 2 10 false; AStep 2 0; ARun 2 how; AStep 2 0; ARun 1 Run; AStep 1 0; APost 2 11 true;
   AReturn 2; AStep 2 0].

(** ** Properties *)

(** C8. No wake-up is lost, in a service whose concurrency hint is not 1 (that hint
    promises a single thread, and the service then wakes nobody): whatever the number of
    threads that call run and poll, post, stop, reset and finish handlers, and in whatever
    order their steps come, with spurious wake-ups: while an operation is in the queue of a service that is not stopped, and a
    thread waits for the event or blocks in the reactor, some thread can go on by itself
    and is on its way to the queue, about to wake a waiting thread, or in a reactor that
    has been interrupted. *)
Theorem no_lost_wakeup hint l s : hint <> 1 -> Forall runs_on l -> acts l (task_io_service_new hint) = Some s ->
  stopped_ s = false -> op_queue_ s <> [] -> someone is_waiting s \/ someone is_blocked s ->
  exists t, can_go t s /\ heads_for_queue t s.
Proof.
  intros Hh Hr E Hst Hq Hsleep. pose proof (acts_ok l _ _ (new_ok hint) Hr E) as [_ _ Hat].
  pose proof (acts_places l _ _ (new_places hint) E) as Hok.
  assert (one_thread_ s = false) as Hone.
  { rewrite (acts_one_thread l _ _ E). cbn. by apply Z.eqb_neq. }
  destruct (attended_go s Hok (Hat Hone Hst Hq)) as [?|[Hw Hb]]; [done|]. by destruct Hsleep.
Qed.

(** C9. No work is forgotten: every operation that was given to the service has been
    begun once, or is in one place, the queue, a thread's private queue or a call that
    is about to push it; and when the count of outstanding work is zero, which is when
    the service stops by itself, every operation has been begun, no handler runs, and
    nobody holds work. *)
Theorem work_counted hint l s : acts l (task_io_service_new hint) = Some s ->
  given s ≡ₚ begun s ++ queued_ops (op_queue_ s) ++ all_own (threads s) /\
  vlen (queued_ops (op_queue_ s)) + held s <= outstanding_work_ s /\
  (outstanding_work_ s = 0 -> given s ≡ₚ begun s /\ held s = 0 /\
     forall t how op, FHandler how op ∉ stack (threads s !!! t)).
Proof.
  intros E. pose proof (acts_places l _ _ (new_places hint) E) as Hok. pose proof Hok as [Ht Hw Hh Hg].
  pose proof (vlen_nonneg (queued_ops (op_queue_ s))) as Hn.
  destruct (msum_nonneg_in own_work (threads s)) as [H0 Hz].
  { intros t th Et. apply private_ok_work. specialize (Ht t). by rewrite lookup_total_alt, Et in Ht. }
  split; [done|]. split; [lia|]. intros Ho. assert (msum own_work (threads s) = 0) as Hs by lia. specialize (Hz Hs).
  split; [|split; [lia|]].
  - rewrite Hg, (idle_own (threads s) Ht Hz). assert (queued_ops (op_queue_ s) = []) as ->; [|by rewrite !app_nil_r].
    apply vlen_zero. lia.
  - intros t how op Hin. specialize (Ht t). rewrite lookup_total_alt in Ht, Hin.
    destruct (threads s !! t) as [th|] eqn:Et; [|by apply elem_of_nil in Hin]. cbn in Ht, Hin.
    destruct (private_ok_work th Ht) as [_ Hr]. apply Hr in Hin; [done|by eapply Hz].
Qed.

(** C10. [run_one] and [poll_one] lose a wake-up: a handler that they call posts a
    continuation, which is pushed when they return, and no thread is woken up for it.
    Another thread waits in [run]; the operation stays in the queue of a service that is
    not stopped, and no thread of the service can go on. *)
Theorem run_one_loses_wakeup : Forall (fun how => exists s, acts (one_op_trace how) (task_io_service_new 2) = Some s /\
  stopped_ s = false /\ op_queue_ s = [QOp 11] /\ stack (threads s !!! 1) = [FWaiting Run] /\
  forall t, ~ can_go t s) [RunOne; PollOne].
Proof.
  repeat constructor; (eexists; split; [vm_compute; reflexivity|]; do 3 (split; [done|]); apply two_threads_stuck; vm_compute; reflexivity).
Qed.

Definition posted_trace : list action :=
  [AWorkStarted 0; ARun 1 Run; AStep 1 0; APost 0 7 false; AStep 0 0].

Lemma no_lost_wakeup_witness : exists s, acts posted_trace (task_io_service_new 2) = Some s /\
  exists t, can_go t s /\ heads_for_queue t s.
Proof.
  eexists. split; [vm_compute; reflexivity|]. apply (no_lost_wakeup 2 posted_trace).
  - done.
  - repeat constructor.
  - vm_compute. reflexivity.
  - reflexivity.
  - discriminate.
  - left. exists 1, (FWaiting Run). split; [left|reflexivity].
Defined.

Definition finished_trace : list action :=
  posted_trace ++ [AStep 0 1; AWorkFinished 0; AStep 1 0; APost 1 8 true; AReturn 1; AStep 1 0; AReturn 1].

Lemma work_counted_witness : exists s, acts finished_trace (task_io_service_new 2) = Some s /\
  given s = [7; 8] /\ given s ≡ₚ begun s /\ held s = 0.
Proof.
  eexists. split; [vm_compute; reflexivity|]. split; [reflexivity|].
  destruct (work_counted 2 finished_trace _ ltac:(vm_compute; reflexivity)) as (_ & _ & H).
  destruct (H eq_refl) as (H1 & H2 & _). split; assumption.
Defined.
