(* ===== verification/Hashmap.v ===== *)
(** * hash_map (asio/detail/hash_map.hpp)

    One doubly linked list holds all the entries, those of a bucket next to each other,
    and a bucket is the first and the last of its entries.  An iterator is the address of
    a node, or none for [end()]; a node keeps_place its address when it moves.  Nodes that are
    erased are kept as spares.  The type of the values has the operations of C++
    ([ValueType]), which a program may define so that they do not copy. *)
From S2P Require Import Prelude.

(** ** std::list, by the addresses of its nodes *)
Definition iterator := option Z.

Record node (K V : Type) := Node { node_id : Z; node_key : K; node_val : V }.
Arguments Node {K V} _ _ _.
Arguments node_id {K V} _.
Arguments node_key {K V} _.
Arguments node_val {K V} _.

Class ValueType (V : Type) := {
  value_default : V;
  value_copy : V -> V;                (* the copy constructor *)
  value_assign : V -> V -> V          (* what an object holds after [old = new] *)
}.

Section StdList.
Context {K V : Type}.
Implicit Types (l : list (node K V)) (it : iterator).

Definition it_is it (x : node K V) : bool := bool_decide (it = Some (node_id x)).
Definition list_begin l : iterator := node_id <$> head l.

Fixpoint nodes_from it l : list (node K V) :=
  match l with [] => [] | x :: l' => if it_is it x then l else nodes_from it l' end.

Definition it_deref it l : outcome (node K V) :=
  match nodes_from it l with x :: _ => Ok x | [] => Crash OutOfBounds end.
(** [++it] and [--it] *)
Definition it_next it l : outcome iterator :=
  match nodes_from it l with _ :: rest => Ok (list_begin rest) | [] => Crash OutOfBounds end.
Fixpoint it_prev it l : outcome iterator :=
  match l with
  | [] => Crash OutOfBounds
  | x :: l' =>
    if bool_decide (list_begin l' = it) then Ok (Some (node_id x)) else it_prev it l'
  end.

(** [insert(pos, x)], and [splice], which takes a node out first *)
Fixpoint list_insert (pos : iterator) (x : node K V) l : outcome (list (node K V)) :=
  match l with
  | [] => match pos with None => Ok [x] | Some _ => Crash OutOfBounds end
  | y :: l' => if it_is pos y then Ok (x :: l) else l'' ← list_insert pos x l'; Ok (y :: l'')
  end.
Fixpoint list_remove it l : outcome (node K V * list (node K V)) :=
  match l with
  | [] => Crash OutOfBounds
  | y :: l' => if it_is it y then Ok (y, l') else '(x, l'') ← list_remove it l'; Ok (x, y :: l'')
  end.
Definition list_splice (pos it : iterator) l : outcome (list (node K V)) :=
  '(x, l') ← list_remove it l; list_insert pos x l'.
(** Assigning to a node *)
Definition list_set it (f : node K V -> node K V) l : list (node K V) :=
  (fun x => if it_is it x then f x else x) <$> l.
End StdList.

(** ** hash_map *)
Definition calculate_hash_value (i : Z) : Z := u64 i.
Definition calculate_hash_value_ptr (p : Z) : Z := u64 (p + Z.shiftr p 3).

Definition hash_sizes : list Z :=
  [3; 13; 23; 53; 97; 193; 389; 769; 1543; 3079; 6151; 12289; 24593; 49157; 98317; 196613; 393241; 786433; 1572869;
   3145739; 6291469; 12582917; 25165843].
(** The last size is for all that are larger. *)
Fixpoint hash_size_from (sizes : list Z) (num_elems : Z) : Z :=
  match sizes with
  | [] => 0
  | [n] => n
  | n :: sizes' => if num_elems <? n then n else hash_size_from sizes' num_elems
  end.
Definition hash_size (num_elems : Z) : Z := hash_size_from hash_sizes num_elems.

(** [fresh]: the address that the allocator gives to the next node *)
Record hash_map (K V : Type) := HashMap {
  size_ : Z;
  values_ : list (node K V);
  spares_ : list (node K V);
  buckets_ : list (iterator * iterator);
  fresh : Z
}.
Arguments HashMap {K V} _ _ _ _ _.
Arguments size_ {K V} _.
Arguments values_ {K V} _.
Arguments spares_ {K V} _.
Arguments buckets_ {K V} _.
Arguments fresh {K V} _.

Section Operations.
Context {K V : Type} `{EqDecision K} `{Inhabited K} `{ValueType V} (hash : K -> Z).
Implicit Types (h : hash_map K V) (it : iterator) (l : list (node K V)).

Definition hash_map_new : hash_map K V := HashMap 0 [] [] [] 0.

Definition num_buckets_ h : Z := vlen (buckets_ h).
(** A bucket whose first and last are both [end()] *)
Definition no_entries : iterator * iterator := (None, None).
Definition bucket_in (n : Z) (k : K) : Z := hash k mod n.

(** The loop of [find] and [insert], from an iterator to another *)
Fixpoint walk (l : list (node K V)) (end_it : iterator) (k : K) : outcome iterator :=
  match l with
  | [] => match end_it with None => Ok None | Some _ => Crash OutOfBounds end
  | x :: l' =>
    if it_is end_it x then Ok None
    else if bool_decide (node_key x = k) then Ok (Some (node_id x)) else walk l' end_it k
  end.

Definition hm_find (k : K) h : outcome iterator :=
  if num_buckets_ h =? 0 then Ok None
  else
    '(first, last) ← vget (buckets_ h) (bucket_in (num_buckets_ h) k);
    match first with
    | None => Ok None
    | Some _ => end_it ← it_next last (values_ h); walk (nodes_from first (values_ h)) end_it k
    end.

(** The loop of [rehash]; [todo] is what [iter] still has to visit. *)
Fixpoint rehash_loop (n : Z) (todo : list (node K V)) l (bs : list (iterator * iterator)) :
    outcome (list (node K V) * list (iterator * iterator)) :=
  match todo with
  | [] => Ok (l, bs)
  | x :: todo' =>
    let iter : iterator := Some (node_id x) in
    let bucket := bucket_in n (node_key x) in
    '(first, last) ← vget bs bucket;
    match last with
    | None => bs ← vset bs bucket (iter, iter); rehash_loop n todo' l bs
    | Some _ =>
      last ← it_next last l;
      if bool_decide (last = iter) then bs ← vset bs bucket (first, last); rehash_loop n todo' l bs
      else
        l ← list_splice last iter l;
        last ← it_prev last l;
        bs ← vset bs bucket (first, last);
        rehash_loop n todo' l bs
    end
  end.

Definition rehash (num_buckets : Z) h : outcome (hash_map K V) :=
  if num_buckets =? num_buckets_ h then Ok h
  else
    assert_ (negb (num_buckets =? 0)) ;;
    '(l, bs) ← rehash_loop num_buckets (values_ h) (values_ h) (replicate (Z.to_nat num_buckets) no_entries);
    Ok (HashMap (size_ h) l (spares_ h) bs (fresh h)).

Definition values_insert it (k : K) (v : V) h : outcome (iterator * hash_map K V) :=
  match spares_ h with
  | [] =>
    l ← list_insert it (Node (fresh h) k (value_copy v)) (values_ h);
    Ok (Some (fresh h), HashMap (size_ h) l [] (buckets_ h) (fresh h + 1))
  | x :: spares =>
    l ← list_insert it (Node (node_id x) k (value_assign (node_val x) v)) (values_ h);
    it ← it_prev it l;
    Ok (it, HashMap (size_ h) l spares (buckets_ h) (fresh h))
  end.

Definition values_erase it h : outcome (hash_map K V) :=
  '(x, l) ← list_remove it (values_ h);
  Ok (HashMap (size_ h) l (Node (node_id x) inhabitant (value_assign (node_val x) value_default) :: spares_ h)
        (buckets_ h) (fresh h)).

Definition with_bucket (b : Z) (p : iterator * iterator) h : outcome (hash_map K V) :=
  bs ← vset (buckets_ h) b p; Ok (HashMap (size_ h) (values_ h) (spares_ h) bs (fresh h)).
Definition with_size (n : Z) h : hash_map K V := HashMap n (values_ h) (spares_ h) (buckets_ h) (fresh h).

Definition hm_insert (k : K) (v : V) h : outcome (iterator * bool * hash_map K V) :=
  h ← (if num_buckets_ h <=? u64 (size_ h + 1) then rehash (hash_size (u64 (size_ h + 1))) h else Ok h);
  let bucket := bucket_in (num_buckets_ h) k in
  '(first, last) ← vget (buckets_ h) bucket;
  match first with
  | None =>
    '(it, h) ← values_insert None k v h;
    h ← with_bucket bucket (it, it) h;
    Ok (it, true, with_size (u64 (size_ h + 1)) h)
  | Some _ =>
    end_it ← it_next last (values_ h);
    it ← walk (nodes_from first (values_ h)) end_it k;
    match it with
    | Some _ => Ok (it, false, h)
    | None =>
      '(it, h) ← values_insert end_it k v h;
      h ← with_bucket bucket (first, it) h;
      Ok (it, true, with_size (u64 (size_ h + 1)) h)
    end
  end.

(** erase(iterator) *)
Definition hm_erase_at it h : outcome (hash_map K V) :=
  assert_ (bool_decide (it <> None)) ;;
  assert_ (negb (num_buckets_ h =? 0)) ;;
  x ← it_deref it (values_ h);
  let bucket := bucket_in (num_buckets_ h) (node_key x) in
  '(first, last) ← vget (buckets_ h) bucket;
  let is_first := bool_decide (it = first) in
  let is_last := bool_decide (it = last) in
  p ← (if is_first && is_last then Ok no_entries
       else if is_first then first ← it_next first (values_ h); Ok (first, last)
       else if is_last then last ← it_prev last (values_ h); Ok (first, last)
       else Ok (first, last));
  h ← with_bucket bucket p h;
  h ← values_erase it h;
  Ok (with_size (u64 (size_ h - 1)) h).

Definition hm_erase (k : K) h : outcome (hash_map K V) :=
  it ← hm_find k h;
  match it with None => Ok h | Some _ => hm_erase_at it h end.

Definition hm_clear h : hash_map K V :=
  HashMap 0 [] (spares_ h) (replicate (length (buckets_ h)) no_entries) (fresh h).
End Operations.

(** ** Lemmas: iterators in a list whose nodes have different addresses *)
Section Iterators.
Context {K V : Type}.
Implicit Types (l : list (node K V)) (x y : node K V).

Definition ids l : list Z := node_id <$> l.

Lemma it_is_self x : it_is (Some (node_id x)) x = true.
Proof. unfold it_is. by rewrite bool_decide_true. Qed.

Lemma it_is_first x l : it_is (list_begin (x :: l)) x = true.
Proof. apply it_is_self. Qed.

Lemma it_is_begin l y : node_id y ∉ ids l -> it_is (list_begin l) y = false.
Proof.
  intros Hy. apply bool_decide_eq_false_2. destruct l as [|z l]; [done|]. intros [= E]. apply Hy. rewrite <- E. by left.
Qed.

Lemma ids_app l l' : ids (l ++ l') = ids l ++ ids l'.
Proof. apply fmap_app. Qed.

Lemma ids_mid l1 x l2 : NoDup (ids (l1 ++ x :: l2)) ->
  node_id x ∉ ids l1 /\ node_id x ∉ ids l2 /\ NoDup (ids (l1 ++ l2)).
Proof.
  rewrite !ids_app. intros (H1 & H2 & H3)%NoDup_app. apply NoDup_cons in H3 as [H3 H4]. split_and!; [|done|].
  - intros Hin. apply (H2 _ Hin). by left.
  - apply NoDup_app. split_and!; [done| |done]. intros y Hy Hy2. apply (H2 _ Hy). by right.
Qed.

Lemma from_mid l1 x l2 : node_id x ∉ ids l1 -> nodes_from (Some (node_id x)) (l1 ++ x :: l2) = x :: l2.
Proof.
  induction l1 as [|y l1 IH]; intros Hx; cbn [app nodes_from]; [by rewrite it_is_self|].
  unfold it_is. rewrite bool_decide_false; [apply IH; set_solver|]. intros [= E]. apply Hx. rewrite E. by left.
Qed.

Lemma from_segment l1 l l2 : l <> [] -> NoDup (ids (l1 ++ l ++ l2)) -> nodes_from (list_begin l) (l1 ++ l ++ l2) = l ++ l2.
Proof. destruct l as [|x l]; [done|]. intros _ Hnd. cbn [list_begin head fmap option_fmap]. apply from_mid, (ids_mid _ _ _ Hnd). Qed.

Lemma next_mid l1 x l2 : node_id x ∉ ids l1 -> it_next (Some (node_id x)) (l1 ++ x :: l2) = Ok (list_begin l2).
Proof. intros Hx. unfold it_next. by rewrite from_mid. Qed.

Lemma deref_mid l1 x l2 : node_id x ∉ ids l1 -> it_deref (Some (node_id x)) (l1 ++ x :: l2) = Ok x.
Proof. intros Hx. unfold it_deref. by rewrite from_mid. Qed.

Lemma insert_mid x l1 l2 : NoDup (ids (l1 ++ l2)) -> list_insert (list_begin l2) x (l1 ++ l2) = Ok (l1 ++ x :: l2).
Proof.
  induction l1 as [|y l1 IH]; intros Hnd; cbn [app list_insert].
  - destruct l2 as [|y l2]; [done|]. cbn [list_insert]. by rewrite it_is_first.
  - apply NoDup_cons in Hnd as [Hy Hnd]. rewrite it_is_begin; [by rewrite IH|]. rewrite ids_app in Hy. set_solver.
Qed.

Lemma remove_mid l1 x l2 : node_id x ∉ ids l1 -> list_remove (Some (node_id x)) (l1 ++ x :: l2) = Ok (x, l1 ++ l2).
Proof.
  induction l1 as [|y l1 IH]; intros Hx; cbn [app list_remove]; [by rewrite it_is_self|].
  unfold it_is. rewrite bool_decide_false; [rewrite IH; [done|set_solver]|]. intros [= E]. apply Hx. rewrite E. by left.
Qed.

Lemma prev_mid l1 x l2 : NoDup (ids (l1 ++ x :: l2)) -> it_prev (list_begin l2) (l1 ++ x :: l2) = Ok (Some (node_id x)).
Proof.
  induction l1 as [|y l1 IH]; intros Hnd; cbn [app it_prev]; [by rewrite bool_decide_true|].
  apply NoDup_cons in Hnd as [Hy Hnd]. rewrite bool_decide_false; [by apply IH|].
  pose proof (ids_mid _ _ _ Hnd) as (Hx1 & Hx2 & _). destruct l1 as [|z l1]; destruct l2 as [|w l2]; cbn; try done; intros [= E].
  - apply Hx2. rewrite E. by left.
  - apply (ids_mid (z :: l1) x (w :: l2)) in Hnd as (_ & _ & Hnd). rewrite ids_app in Hnd.
    apply NoDup_app in Hnd as (_ & Hd & _). apply (Hd (node_id z)); [by left|]. rewrite E. by left.
Qed.

Lemma splice_mid x l1 l2 l3 : NoDup (ids (l1 ++ l2 ++ x :: l3)) ->
  list_splice (list_begin (l2 ++ l3)) (Some (node_id x)) (l1 ++ l2 ++ x :: l3) = Ok (l1 ++ x :: l2 ++ l3).
Proof.
  intros Hnd. rewrite app_assoc in Hnd. destruct (ids_mid _ _ _ Hnd) as (H1 & _ & H3). rewrite <- app_assoc in H3.
  unfold list_splice. rewrite app_assoc, remove_mid by done. cbn [mbind outcome_bind]. rewrite <- app_assoc. by apply insert_mid.
Qed.
End Iterators.

(** ** Lemmas: looking for a key in a list *)
Section Keys.
Context {K V : Type} `{EqDecision K}.
Implicit Types (l g : list (node K V)) (k : K).

(** The first node with the key *)
Fixpoint it_of k l : iterator :=
  match l with [] => None | x :: l' => if bool_decide (node_key x = k) then Some (node_id x) else it_of k l' end.
Definition no_key k l : Prop := Forall (fun x => node_key x <> k) l.

Lemma it_of_app k l l' : no_key k l -> it_of k (l ++ l') = it_of k l'.
Proof. induction 1 as [|x l Hx _ IH]; [done|]. cbn [app it_of]. by rewrite bool_decide_false. Qed.

Lemma it_of_app_r k l l' : no_key k l' -> it_of k (l ++ l') = it_of k l.
Proof.
  intros Hl. induction l as [|x l IH]; cbn [app it_of]; [|by rewrite IH].
  rewrite <- (app_nil_r l'), it_of_app; done.
Qed.

Lemma it_of_none k l : it_of k l = None <-> no_key k l.
Proof.
  unfold no_key. induction l as [|x l IH]; cbn [it_of]; [done|]. rewrite Forall_cons. case_bool_decide as Hx; [|by rewrite IH; intuition].
  split; [done|]. intros [Hn _]. done.
Qed.

Lemma it_of_some k l i : it_of k l = Some i -> exists x, x ∈ l /\ node_key x = k /\ node_id x = i.
Proof.
  induction l as [|x l IH]; cbn [it_of]; [done|]. case_bool_decide as Hx.
  - intros [= <-]. exists x. split_and!; [by left|done..].
  - intros (y & Hy & ?)%IH. exists y. split; [by right|done].
Qed.

Lemma walk_spec k g rest : NoDup (ids (g ++ rest)) -> walk (g ++ rest) (list_begin rest) k = Ok (it_of k g).
Proof.
  induction g as [|x g IH]; intros Hnd; cbn [app walk it_of].
  - destruct rest as [|y rest]; [done|]. cbn [walk]. by rewrite it_is_first.
  - change (NoDup (node_id x :: ids (g ++ rest))) in Hnd. apply NoDup_cons in Hnd as [Hx Hnd].
    rewrite it_is_begin; [case_bool_decide; [done|by apply IH]|].
    rewrite ids_app in Hx. set_solver.
Qed.

Lemma it_of_perm k l l' : l ≡ₚ l' -> NoDup (node_key <$> l) -> it_of k l = it_of k l'.
Proof.
  induction 1 as [|x l l' _ IH|x y l|l1 l2 l3 E1 IH1 E2 IH2]; intros Hnd; [done|..].
  - apply NoDup_cons in Hnd as [_ Hnd]. cbn [it_of]. by rewrite IH.
  - cbn [it_of]. case_bool_decide as Hy; case_bool_decide as Hx; try done. exfalso.
    apply NoDup_cons in Hnd as [Hnd _]. apply Hnd. cbn. rewrite Hx, Hy. by left.
  - rewrite IH1 by done. apply IH2. by rewrite <- E1.
Qed.
End Keys.

(** ** Lemmas: the entries of a bucket are next to each other *)
Section Groups.
Context {K V : Type} `{EqDecision K} `{Inhabited K} (hash : K -> Z).
Implicit Types (l g : list (node K V)) (gs : list (Z * list (node K V))).

Definition flat gs : list (node K V) := gs ≫= snd.
Fixpoint group (b : Z) gs : list (node K V) :=
  match gs with [] => [] | (b', g) :: gs' => if b' =? b then g else group b gs' end.
Definition ends g : iterator * iterator := (list_begin g, node_id <$> last g).

Record groups_ok (n : Z) gs : Prop := {
  go_buckets : NoDup gs.*1;
  go_members b g : (b, g) ∈ gs -> 0 <= b < n /\ g <> [] /\ Forall (fun x => bucket_in hash n (node_key x) = b) g
}.
Definition table_ok (n : Z) gs (bs : list (iterator * iterator)) : Prop :=
  vlen bs = n /\ forall b, 0 <= b < n -> vget bs b = Ok (ends (group b gs)).

Lemma flat_app gs1 gs2 : flat (gs1 ++ gs2) = flat gs1 ++ flat gs2.
Proof. apply bind_app. Qed.

Lemma flat_cons b g gs : flat ((b, g) :: gs) = g ++ flat gs.
Proof. apply bind_cons. Qed.

Lemma group_none b gs : b ∉ gs.*1 -> group b gs = [].
Proof.
  induction gs as [|[b' g] gs IH]; [done|]. cbn [fmap list_fmap fst group]. intros [Hb Hi]%not_elem_of_cons.
  destruct (Z.eqb_spec b' b); [congruence|by apply IH].
Qed.

Lemma group_app b gs1 gs2 : b ∉ gs1.*1 -> group b (gs1 ++ gs2) = group b gs2.
Proof.
  induction gs1 as [|[b' g] gs1 IH]; [done|]. cbn [fmap list_fmap fst app group]. intros [Hb Hi]%not_elem_of_cons.
  destruct (Z.eqb_spec b' b); [congruence|by apply IH].
Qed.

Lemma group_other b b' g g' gs1 gs2 : b <> b' -> group b (gs1 ++ (b', g) :: gs2) = group b (gs1 ++ (b', g') :: gs2).
Proof.
  intros Hne. induction gs1 as [|[c h] gs1 IH]; cbn [app group]; [by destruct (Z.eqb_spec b' b)|by rewrite IH].
Qed.

Lemma group_removed b b' g gs1 gs2 : b <> b' -> group b (gs1 ++ (b', g) :: gs2) = group b (gs1 ++ gs2).
Proof.
  intros Hne. induction gs1 as [|[c h] gs1 IH]; cbn [app group]; [by destruct (Z.eqb_spec b' b)|by rewrite IH].
Qed.

Lemma group_split b gs : group b gs <> [] ->
  exists gs1 gs2, gs = gs1 ++ (b, group b gs) :: gs2 /\ b ∉ gs1.*1.
Proof.
  induction gs as [|[b' g] gs IH]; [done|]. cbn [group]. destruct (Z.eqb_spec b' b) as [->|Hne]; intros Hg.
  - exists [], gs. split; [done|]. apply not_elem_of_nil.
  - destruct (IH Hg) as (gs1 & gs2 & E & Hb). exists ((b', g) :: gs1), gs2. split; [cbn; by f_equal|].
    cbn [fmap list_fmap fst]. apply not_elem_of_cons. done.
Qed.

(** The group of [b] becomes [g']; it may have been empty, or become empty. *)
Definition regroup (b : Z) (g' : list (node K V)) (gs1 gs2 : list (Z * list (node K V))) :=
  gs1 ++ (match g' with [] => [] | _ => [(b, g')] end) ++ gs2.

Lemma regroup_ok n b g g' gs1 gs2 : groups_ok n (gs1 ++ (b, g) :: gs2) ->
  Forall (fun x => bucket_in hash n (node_key x) = b) g' -> groups_ok n (regroup b g' gs1 gs2).
Proof.
  intros [Hnd Hm] Hg'. assert (0 <= b < n) as Hb by (eapply (Hm b g); set_solver). unfold regroup. split.
  - rewrite !fmap_app in *. cbn [fmap list_fmap fst] in Hnd. destruct g'; [|done].
    apply NoDup_app in Hnd as (H1 & H2 & [H3 H4]%NoDup_cons). apply NoDup_app. split_and!; [done| |done].
    intros x Hx Hx2. apply (H2 _ Hx). by right.
  - intros b' h Hin. destruct g' as [|x g']; [apply (Hm b' h); set_solver|].
    apply elem_of_app in Hin as [Hin|[[-> ->]%pair_equal_spec|Hin]%elem_of_cons]; [apply (Hm b' h); set_solver|done|apply (Hm b' h); set_solver].
Qed.

Lemma regroup_table n b g g' gs1 gs2 bs : b ∉ gs1.*1 -> b ∉ gs2.*1 -> 0 <= b < n ->
  table_ok n (gs1 ++ (b, g) :: gs2) bs ->
  exists bs', vset bs b (ends g') = Ok bs' /\ table_ok n (regroup b g' gs1 gs2) bs'.
Proof.
  intros H1 H2 Hb [Hlen Ht]. exists (<[Z.to_nat b := ends g']> bs). split; [apply vset_in_range; lia|].
  split; [by rewrite vlen_insert|]. intros b' Hb'. unfold vget. rewrite (proj2 (Z.leb_le 0 b')) by lia.
  assert (group b (regroup b g' gs1 gs2) = g') as Eg.
  { unfold regroup. rewrite group_app by done. destruct g'; [by apply group_none|]. cbn. by rewrite Z.eqb_refl. }
  destruct (Z.eq_dec b' b) as [->|Hne].
  - rewrite list_lookup_insert_eq, Eg; [done|]. unfold vlen in Hlen. lia.
  - rewrite list_lookup_insert_ne by lia. specialize (Ht b' Hb'). unfold vget in Ht. rewrite (proj2 (Z.leb_le 0 b')) in Ht by lia.
    rewrite Ht. do 2 f_equal. unfold regroup. destruct g' as [|x g']; [by rewrite group_removed|]. by apply group_other.
Qed.

(** A bucket gets its first entry. *)
Lemma new_group n gs bs x : 0 < n -> groups_ok n gs -> table_ok n gs bs -> group (bucket_in hash n (node_key x)) gs = [] ->
  exists bs', vset bs (bucket_in hash n (node_key x)) (Some (node_id x) : iterator, Some (node_id x) : iterator) = Ok bs' /\
    groups_ok n (gs ++ [(bucket_in hash n (node_key x), [x])]) /\ table_ok n (gs ++ [(bucket_in hash n (node_key x), [x])]) bs'.
Proof.
  intros Hn [Hnd Hm] [Hlen Ht] Hg. set (b := bucket_in hash n (node_key x)) in *.
  assert (0 <= b < n) as Hb by (apply Z.mod_pos_bound; lia).
  assert (b ∉ gs.*1) as Hin.
  { intros Hin. apply list_elem_of_fmap in Hin as ([b' g] & Eb & Hin). cbn in Eb. subst b'.
    destruct (Hm _ _ Hin) as (_ & Hne & _). apply list_elem_of_split in Hin as (gs1 & gs2 & ->).
    rewrite fmap_app in Hnd. apply NoDup_app in Hnd as (_ & Hd & _). apply Hne.
    rewrite <- Hg, group_app; [cbn; by rewrite Z.eqb_refl|]. intros Hb1. apply (Hd b Hb1). by left. }
  exists (<[Z.to_nat b := (Some (node_id x), Some (node_id x))]> bs). split_and!; [apply vset_in_range; lia| |].
  - split.
    + rewrite fmap_app. apply NoDup_app. split_and!; [done| |apply NoDup_singleton]. intros y Hy ->%list_elem_of_singleton. done.
    + intros b' g [Hin'|E%list_elem_of_singleton]%elem_of_app; [by apply Hm|]. injection E as -> ->.
      split_and!; [lia..|done|]. by apply Forall_singleton.
  - split; [by rewrite vlen_insert|]. intros b' Hb'. specialize (Ht b' Hb'). unfold vget in *.
    rewrite (proj2 (Z.leb_le 0 b')) in * by lia. destruct (Z.eq_dec b' b) as [->|Hne].
    + rewrite list_lookup_insert_eq by (unfold vlen in Hlen; lia). rewrite group_app by done. cbn. by rewrite Z.eqb_refl.
    + rewrite list_lookup_insert_ne, Ht by lia. do 2 f_equal. rewrite <- (app_nil_r gs) at 1. symmetry. by apply group_removed.
Qed.

Lemma ends_some g : g <> [] -> exists y g', g = g' ++ [y] /\ ends g = (list_begin g, Some (node_id y)).
Proof.
  intros Hg. destruct (exists_last Hg) as (g' & y & ->). exists y, g'. split; [done|]. unfold ends. by rewrite last_snoc.
Qed.

Lemma ends_snoc g x : g <> [] -> ends (g ++ [x]) = (list_begin g, Some (node_id x)).
Proof. intros Hg. unfold ends. rewrite last_snoc. by destruct g. Qed.

Lemma flat_regroup b g gs1 gs2 : flat (regroup b g gs1 gs2) = flat gs1 ++ g ++ flat gs2.
Proof. unfold regroup. rewrite !flat_app. f_equal. destruct g; [done|]. rewrite flat_cons. by rewrite <- app_assoc. Qed.

Lemma group_bucket n b gs1 g gs2 : groups_ok n (gs1 ++ (b, g) :: gs2) ->
  b ∉ gs1.*1 /\ b ∉ gs2.*1 /\ g <> [] /\ Forall (fun x => bucket_in hash n (node_key x) = b) g.
Proof.
  intros [Hnd Hm]. rewrite fmap_app in Hnd. apply NoDup_app in Hnd as (_ & H2 & [H3 H4]%NoDup_cons).
  destruct (Hm b g) as (_ & Hg & Hf); [set_solver|]. split_and!; [|done..]. intros Hin. apply (H2 _ Hin). by left.
Qed.

(** A bucket that has entries gets one more, behind them. *)
Lemma grow_group n gs1 b g gs2 bs x : 0 <= b < n -> groups_ok n (gs1 ++ (b, g) :: gs2) -> table_ok n (gs1 ++ (b, g) :: gs2) bs ->
  bucket_in hash n (node_key x) = b ->
  exists bs', vset bs b (list_begin g, Some (node_id x) : iterator) = Ok bs' /\
    groups_ok n (regroup b (g ++ [x]) gs1 gs2) /\ table_ok n (regroup b (g ++ [x]) gs1 gs2) bs'.
Proof.
  intros Hb Hok Ht Hx. destruct (group_bucket _ _ _ _ _ Hok) as (H1 & H2 & H3 & H4).
  destruct (regroup_table n b g (g ++ [x]) gs1 gs2 bs H1 H2 Hb Ht) as (bs' & E & Ht'). rewrite ends_snoc in E by done.
  exists bs'. split_and!; [done| |done]. eapply regroup_ok; [done|]. apply Forall_app. split; [done|]. by apply Forall_singleton.
Qed.

Lemma rehash_loop_spec n todo : forall gs bs, 0 < n -> groups_ok n gs -> table_ok n gs bs -> NoDup (ids (flat gs ++ todo)) ->
  exists gs' bs', rehash_loop hash n todo (flat gs ++ todo) bs = Ok (flat gs', bs') /\
    groups_ok n gs' /\ table_ok n gs' bs' /\ flat gs' ≡ₚ flat gs ++ todo.
Proof.
  induction todo as [|x todo IH]; intros gs bs Hn Hok Ht Hnd; cbn [rehash_loop].
  { exists gs, bs. by rewrite app_nil_r. }
  set (b := bucket_in hash n (node_key x)). assert (0 <= b < n) as Hb by (apply Z.mod_pos_bound; lia).
  rewrite (proj2 Ht b Hb). cbn [mbind outcome_bind]. destruct (group b gs) as [|y0 g0] eqn:Eg.
  - cbn [ends last fmap option_fmap]. destruct (new_group n gs bs x Hn Hok Ht Eg) as (bs' & E & Hok' & Ht').
    fold b in E, Hok', Ht'. change (node_id <$> None) with (@None Z). cbv iota. rewrite E. cbn [mbind outcome_bind].
    assert (flat gs ++ x :: todo = flat (gs ++ [(b, [x])]) ++ todo) as El by (rewrite flat_app, <- app_assoc; done).
    rewrite El in *. by apply IH.
  - assert (y0 :: g0 <> []) as Hg by done. rewrite <- Eg in Hg. destruct (group_split b gs Hg) as (gs1 & gs2 & E & Hb1).
    rewrite Eg in *. set (g := y0 :: g0) in *. clearbody g. clear Eg y0 g0.
    destruct (ends_some g Hg) as (y & g' & Eg & Ee). rewrite Ee. cbv iota beta.
    rewrite E in *. destruct (grow_group n gs1 b g gs2 bs x Hb Hok Ht eq_refl) as (bs' & Ebs & Hok' & Ht').
    rewrite flat_app, flat_cons in Hnd |- *. rewrite <- !app_assoc in Hnd |- *.
    assert (flat (regroup b (g ++ [x]) gs1 gs2) ++ todo = flat gs1 ++ g ++ x :: flat gs2 ++ todo) as El
      by (rewrite flat_regroup, <- !app_assoc; done).
    assert (flat (regroup b (g ++ [x]) gs1 gs2) ++ todo ≡ₚ flat gs1 ++ g ++ flat gs2 ++ x :: todo) as Ep.
    { rewrite El. do 2 f_equiv. apply Permutation_middle. }
    destruct (IH (regroup b (g ++ [x]) gs1 gs2) bs' Hn Hok' Ht') as (gs' & bs'' & Er & Hok'' & Ht'' & Hp).
    { unfold ids in *. rewrite Ep. exact Hnd. }
    exists gs', bs''. split; [|split_and!; [done..|by rewrite Hp]]. rewrite El in Er.
    assert (it_next (Some (node_id y)) (flat gs1 ++ g ++ flat gs2 ++ x :: todo) = Ok (list_begin (flat gs2 ++ x :: todo))) as En.
    { rewrite Eg, <- app_assoc. rewrite (app_assoc (flat gs1)). apply next_mid.
      rewrite Eg, <- app_assoc, (app_assoc (flat gs1)) in Hnd. apply (ids_mid _ _ _ Hnd). }
    rewrite En. cbn [mbind outcome_bind]. case_bool_decide as Hnext.
    + assert (flat gs2 = []) as E2.
      { destruct (flat gs2) as [|z l2] eqn:E2; [done|]. exfalso. pose proof Hnext as Hz. injection Hz as Hz.
        rewrite (app_assoc (flat gs1)), (app_assoc (flat gs1 ++ g)) in Hnd. apply ids_mid in Hnd as (Hin & _). apply Hin.
        rewrite ids_app. apply elem_of_app. right. rewrite <- Hz. by left. }
      rewrite Hnext, Ebs. rewrite E2 in *. exact Er.
    + destruct (flat gs2) as [|z l2] eqn:E2; [done|].
      change (list_begin ((z :: l2) ++ x :: todo)) with (list_begin ((z :: l2) ++ todo)).
      rewrite (app_assoc (flat gs1)) in Hnd |- *. rewrite splice_mid by done. cbn [mbind outcome_bind].
      rewrite prev_mid; [cbn [mbind outcome_bind]; rewrite Ebs; cbn [mbind outcome_bind]|].
      * rewrite <- app_assoc. exact Er.
      * unfold ids in *. rewrite <- app_assoc. rewrite <- El, Ep, app_assoc. exact Hnd.
Qed.

(** ** Lemmas: the invariant of a map, and finding a key *)
Context `{HV : ValueType V}.
Implicit Types (h : hash_map K V) (k : K).

Record hm_inv gs h : Prop := {
  hi_values : values_ h = flat gs;
  hi_groups : groups_ok (num_buckets_ h) gs;
  hi_table : table_ok (num_buckets_ h) gs (buckets_ h);
  hi_keys : NoDup (node_key <$> values_ h);
  hi_ids : NoDup (ids (values_ h ++ spares_ h));
  hi_fresh i : i ∈ ids (values_ h ++ spares_ h) -> i < fresh h;
  hi_size : size_ h = vlen (values_ h) /\ vlen (values_ h) < 2 ^ 64
}.
Definition hm_ok h : Prop := exists gs, hm_inv gs h.

(** Where the entries of a bucket are, and that the others have other keys *)
Lemma bucket_split n gs k : 0 < n -> groups_ok n gs ->
  (group (bucket_in hash n k) gs = [] /\ no_key k (flat gs)) \/
  exists gs1 g gs2, gs = gs1 ++ (bucket_in hash n k, g) :: gs2 /\ group (bucket_in hash n k) gs = g /\ g <> [] /\
    no_key k (flat gs1) /\ no_key k (flat gs2).
Proof.
  intros Hn Hok. set (b := bucket_in hash n k). destruct Hok as [Hnd Hm].
  assert (forall b' g, (b', g) ∈ gs -> b' <> b -> no_key k g) as Hother.
  { intros b' g Hin Hne. destruct (Hm _ _ Hin) as (_ & _ & Hf). eapply Forall_impl; [exact Hf|]. intros x Hx Hk. apply Hne. by rewrite <- Hx, Hk. }
  assert (forall gs', (forall b' g, (b', g) ∈ gs' -> (b', g) ∈ gs /\ b' <> b) -> no_key k (flat gs')) as Hflat.
  { induction gs' as [|[b' g] gs' IH]; intros Hin; [constructor|]. rewrite flat_cons. apply Forall_app. split.
    - destruct (Hin b' g) as [? ?]; [by left|]. by eapply Hother.
    - apply IH. intros c h Hc. apply Hin. by right. }
  destruct (decide (b ∈ gs.*1)) as [Hin|Hin].
  - right. apply list_elem_of_fmap in Hin as ([b' g] & Eb & Hin). cbn in Eb. subst b'.
    destruct (Hm _ _ Hin) as (_ & Hg & _). apply list_elem_of_split in Hin as (gs1 & gs2 & ->).
    destruct (group_bucket n b gs1 g gs2 (Build_groups_ok n _ Hnd Hm)) as (H1 & H2 & _).
    exists gs1, g, gs2. split_and!; [done| |done|..].
    + rewrite group_app by done. cbn. by rewrite Z.eqb_refl.
    + apply Hflat. intros c h Hc. split; [set_solver|]. intros ->. apply H1. apply list_elem_of_fmap. by exists (b, h).
    + apply Hflat. intros c h Hc. split; [set_solver|]. intros ->. apply H2. apply list_elem_of_fmap. by exists (b, h).
  - left. split; [by apply group_none|]. apply Hflat. intros c h Hc. split; [done|]. intros ->. apply Hin. apply list_elem_of_fmap. by exists (b, h).
Qed.

Lemma no_buckets gs h : hm_inv gs h -> num_buckets_ h = 0 -> values_ h = [].
Proof.
  intros [Hv [_ Hm] _ _ _ _ _] Hn. rewrite Hv. destruct gs as [|[b g] gs]; [done|].
  destruct (Hm b g) as [? _]; [by left|lia].
Qed.

Lemma inv_ids gs h : hm_inv gs h -> NoDup (ids (flat gs)).
Proof. intros Hi. rewrite <- (hi_values _ _ Hi). pose proof (hi_ids _ _ Hi) as Hnd. rewrite ids_app in Hnd. by apply NoDup_app in Hnd as [? _]. Qed.

(** Both ends of the loop over a bucket *)
Lemma bucket_walk gs1 b g gs2 k : g <> [] -> NoDup (ids (flat (gs1 ++ (b, g) :: gs2))) ->
  exists y : node K V, ends g = (list_begin g, Some (node_id y)) /\
    it_next (Some (node_id y)) (flat (gs1 ++ (b, g) :: gs2)) = Ok (list_begin (flat gs2)) /\
    walk (nodes_from (list_begin g) (flat (gs1 ++ (b, g) :: gs2))) (list_begin (flat gs2)) k = Ok (it_of k g).
Proof.
  intros Hg Hnd. destruct (ends_some g Hg) as (y & g' & Eg & Ee). exists y. rewrite flat_app, flat_cons in *. split_and!; [done| |].
  - rewrite Eg, <- app_assoc, (app_assoc (flat gs1)) in *. apply next_mid. apply (ids_mid _ _ _ Hnd).
  - rewrite from_segment by done. apply walk_spec. rewrite ids_app in Hnd. by apply NoDup_app in Hnd as (_ & _ & ?).
Qed.

Lemma hm_find_spec k h : hm_ok h -> hm_find hash k h = Ok (it_of k (values_ h)).
Proof.
  intros [gs Hi]. unfold hm_find. destruct (Z.eqb_spec (num_buckets_ h) 0) as [H0|H0]; [by rewrite (no_buckets gs h)|].
  assert (0 < num_buckets_ h) as Hn by (pose proof (vlen_nonneg (buckets_ h)); unfold num_buckets_ in *; lia).
  rewrite (proj2 (hi_table _ _ Hi)) by (apply Z.mod_pos_bound; lia). cbn [mbind outcome_bind]. rewrite (hi_values _ _ Hi).
  destruct (bucket_split _ gs k Hn (hi_groups _ _ Hi)) as [[E Hk]|(gs1 & g & gs2 & E & Eg & Hg & H1 & H2)].
  - rewrite E. cbn. by rewrite (proj2 (it_of_none _ _)).
  - rewrite Eg. pose proof (inv_ids _ _ Hi) as Hnd. rewrite E in *.
    destruct (bucket_walk gs1 (bucket_in hash (num_buckets_ h) k) g gs2 k Hg Hnd) as (y & -> & En & Ew).
    destruct (list_begin g) eqn:Eb; [|by destruct g]. rewrite En. cbn [mbind outcome_bind]. rewrite Ew.
    rewrite flat_app, flat_cons, it_of_app, it_of_app_r by done. done.
Qed.

Lemma hash_size_pos n : 0 < hash_size n.
Proof.
  unfold hash_size, hash_sizes. cbn [hash_size_from]. repeat (match goal with |- context [if ?b then _ else _] => destruct b end; [lia|]). lia.
Qed.

Lemma empty_table n : 0 <= n -> table_ok n [] (replicate (Z.to_nat n) no_entries).
Proof.
  intros Hn. split; [unfold vlen; rewrite length_replicate; lia|]. intros b Hb. unfold vget. rewrite (proj2 (Z.leb_le 0 b)) by lia.
  by rewrite lookup_replicate_2 by lia.
Qed.

Lemma no_groups n : groups_ok n [].
Proof. split; [apply NoDup_nil_2|]. intros b g Hin. by apply elem_of_nil in Hin. Qed.

Lemma rehash_spec gs n h : hm_inv gs h -> 0 < n ->
  exists gs' h', rehash hash n h = Ok h' /\ hm_inv gs' h' /\ values_ h' ≡ₚ values_ h /\ spares_ h' = spares_ h /\
    fresh h' = fresh h /\ num_buckets_ h' = n.
Proof.
  intros Hi Hn. unfold rehash. destruct (Z.eqb_spec n (num_buckets_ h)) as [E|E]; [by exists gs, h|].
  assert (negb (n =? 0) = true) as -> by (apply negb_true_iff, Z.eqb_neq; lia). cbn [assert_ mbind outcome_bind].
  destruct (rehash_loop_spec n (values_ h) [] _ Hn (no_groups n) (empty_table n ltac:(lia))) as (gs' & bs' & Er & Hok & Ht & Hp).
  { rewrite (hi_values _ _ Hi). apply (inv_ids _ _ Hi). }
  change (flat [] ++ values_ h) with (values_ h) in *. rewrite Er. cbn [mbind outcome_bind].
  exists gs', (HashMap (size_ h) (flat gs') (spares_ h) bs' (fresh h)).
  assert (num_buckets_ (HashMap (size_ h) (flat gs') (spares_ h) bs' (fresh h)) = n) as En by apply Ht.
  split_and!; try done. pose proof Hi as [_ _ _ Hk Hid Hf Hs]. split; rewrite ?En; cbn [values_ spares_ buckets_ fresh size_]; try done.
  - by rewrite Hp.
  - unfold ids in *. by rewrite Hp.
  - intros i. unfold ids in *. rewrite Hp. apply Hf.
  - unfold vlen in *. by rewrite Hp.
Qed.

(** What a new node holds *)
Definition stored (v : V) h : V := match spares_ h with [] => value_copy v | y :: _ => value_assign (node_val y) v end.

Lemma values_insert_spec l1 l2 k (v : V) h : values_ h = l1 ++ l2 -> NoDup (ids (values_ h ++ spares_ h)) ->
  (forall i, i ∈ ids (values_ h ++ spares_ h) -> i < fresh h) ->
  exists x h', values_insert (list_begin l2) k v h = Ok (Some (node_id x) : iterator, h') /\ node_key x = k /\ node_val x = stored v h /\
    values_ h' = l1 ++ x :: l2 /\ spares_ h' = tail (spares_ h) /\ buckets_ h' = buckets_ h /\ size_ h' = size_ h /\
    NoDup (ids (values_ h' ++ spares_ h')) /\ (forall i, i ∈ ids (values_ h' ++ spares_ h') -> i < fresh h').
Proof.
  intros Hv Hnd Hf. unfold values_insert, stored. assert (NoDup (ids (l1 ++ l2))) as Hnd1.
  { rewrite Hv, ids_app in Hnd. by apply NoDup_app in Hnd as [? _]. }
  destruct (spares_ h) as [|y spares] eqn:Es.
  - rewrite Hv, insert_mid by done. cbn [mbind outcome_bind]. eexists (Node (fresh h) k _), _. split; [reflexivity|].
    cbn [node_key node_val values_ spares_ buckets_ size_ fresh tail]. rewrite app_nil_r in *. rewrite Hv in Hnd, Hf.
    assert (forall i, i ∈ ids (l1 ++ Node (fresh h) k (value_copy v) :: l2) -> i = fresh h \/ i < fresh h) as Hin.
    { intros i. rewrite ids_app. cbn [ids fmap list_fmap node_id]. rewrite elem_of_app, elem_of_cons. intros [Hi|[->|Hi]]; [right|by left|right];
        apply Hf; rewrite ids_app; apply elem_of_app; [by left|by right]. }
    split_and!; try done.
    + unfold ids. rewrite <- Permutation_middle. apply NoDup_cons. split; [|done]. intros Hi. specialize (Hf _ Hi). cbn in Hf. lia.
    + intros i Hi. destruct (Hin i Hi); lia.
  - set (x := Node (node_id y) k _). rewrite Hv in Hnd, Hf |- *. rewrite insert_mid by done. cbn [mbind outcome_bind].
    assert (ids ((l1 ++ x :: l2) ++ spares) ≡ₚ ids ((l1 ++ l2) ++ y :: spares)) as Hp.
    { rewrite !ids_app. change (ids (x :: l2)) with (node_id y :: ids l2). change (ids (y :: spares)) with (node_id y :: ids spares). solve_Permutation. }
    rewrite prev_mid; [cbn [mbind outcome_bind]|rewrite <- Hp, ids_app in Hnd; by apply NoDup_app in Hnd as [? _]].
    eexists x, _. split; [reflexivity|]. cbn [values_ spares_ buckets_ size_ fresh tail]. split_and!; try done; [by rewrite Hp|].
    intros i. rewrite Hp. apply Hf.
Qed.

Lemma grow_ok gs h : hm_inv gs h ->
  exists gs' h', (if num_buckets_ h <=? u64 (size_ h + 1) then rehash hash (hash_size (u64 (size_ h + 1))) h else Ok h) = Ok h' /\
    hm_inv gs' h' /\ values_ h' ≡ₚ values_ h /\ spares_ h' = spares_ h /\ 0 < num_buckets_ h'.
Proof.
  intros Hi. pose proof (u64_nonneg (size_ h + 1)). destruct (Z.leb_spec (num_buckets_ h) (u64 (size_ h + 1))) as [Hle|Hlt].
  - destruct (rehash_spec gs (hash_size (u64 (size_ h + 1))) h Hi (hash_size_pos _)) as (gs' & h' & E & Hi' & Hv & Hs & _ & Hn).
    exists gs', h'. split_and!; try done. rewrite Hn. apply hash_size_pos.
  - exists gs, h. split_and!; try done. lia.
Qed.

(** A new entry: its place, and that the invariant holds with it *)
Lemma insert_new gs gs' h h' x n bs l1 l2 : hm_inv gs h -> values_ h = l1 ++ l2 -> no_key (node_key x) (values_ h) ->
  values_ h' = l1 ++ x :: l2 -> flat gs' = l1 ++ x :: l2 -> n = u64 (size_ h + 1) -> vlen (values_ h) + 1 < 2 ^ 64 ->
  NoDup (ids (values_ h' ++ spares_ h')) -> (forall i, i ∈ ids (values_ h' ++ spares_ h') -> i < fresh h') ->
  vlen bs = num_buckets_ h -> groups_ok (num_buckets_ h) gs' -> table_ok (num_buckets_ h) gs' bs ->
  hm_inv gs' (HashMap n (values_ h') (spares_ h') bs (fresh h')).
Proof.
  intros [_ _ _ Hk _ _ Hs] E Hnk E' Ef -> Hsz Hnd Hf Hlen Hg Ht.
  assert (num_buckets_ (HashMap (u64 (size_ h + 1)) (values_ h') (spares_ h') bs (fresh h')) = num_buckets_ h) as En by done.
  split; rewrite ?En; cbn [values_ spares_ buckets_ fresh size_]; try done; [congruence|..].
  - rewrite E', <- Permutation_middle, <- E. cbn. apply NoDup_cons. split; [|done].
    intros (y & Ey & Hy)%list_elem_of_fmap. unfold no_key in Hnk. rewrite Forall_forall in Hnk. by apply (Hnk y).
  - destruct Hs as [-> _]. rewrite E in Hsz |- *. rewrite E', !vlen_app in *. unfold vlen in *. cbn [length] in *.
    rewrite u64_id by ulia. lia.
Qed.

Lemma hm_insert_spec k (v : V) h : hm_ok h -> vlen (values_ h) + 1 < 2 ^ 64 -> exists h', hm_ok h' /\
  match it_of k (values_ h) with
  | Some i => hm_insert hash k v h = Ok (Some i, false, h') /\ values_ h' ≡ₚ values_ h /\ spares_ h' = spares_ h
  | None => exists x, hm_insert hash k v h = Ok (Some (node_id x), true, h') /\ node_key x = k /\ node_val x = stored v h /\
      values_ h' ≡ₚ x :: values_ h /\ spares_ h' = tail (spares_ h)
  end.
Proof.
  intros [gs0 Hi0] Hsz. unfold hm_insert. destruct (grow_ok gs0 h Hi0) as (gs & h1 & -> & Hi & Hp & Hsp & Hn). cbn [mbind outcome_bind].
  rewrite (it_of_perm k _ _ (symmetry Hp) (hi_keys _ _ Hi0)).
  assert (stored v h = stored v h1) as -> by (unfold stored; by rewrite Hsp).
  assert (vlen (values_ h1) + 1 < 2 ^ 64) as Hsz1 by (unfold vlen in *; by rewrite Hp). clear Hi0 Hsz.
  set (b := bucket_in hash (num_buckets_ h1) k). assert (0 <= b < num_buckets_ h1) as Hb by (apply Z.mod_pos_bound; lia).
  rewrite (proj2 (hi_table _ _ Hi) b Hb). cbn [mbind outcome_bind]. pose proof Hi as [Hv Hg Ht Hk Hid Hf Hs].
  destruct (bucket_split _ gs k Hn Hg) as [[E Hnk]|(gs1 & g & gs2 & E & Eg & Hne & H1 & H2)].
  - fold b in E. rewrite E. cbn [ends list_begin head fmap option_fmap option_map].
    change (node_id <$> None) with (@None Z). cbv iota. rewrite Hv, (proj2 (it_of_none k _) Hnk).
    destruct (values_insert_spec (values_ h1) [] k v h1 (symmetry (app_nil_r _)) Hid Hf) as (x & h2 & Ei & Hx & Hxv & Hv2 & Hs2 & Hb2 & Hz2 & Hd2 & Hf2).
    change (list_begin []) with (@None Z) in Ei. rewrite Ei. cbn [mbind outcome_bind].
    destruct (new_group (num_buckets_ h1) gs (buckets_ h1) x Hn Hg Ht) as (bs & Eb & Hg' & Ht'); [by rewrite Hx|].
    rewrite Hx in Eb, Hg', Ht'. fold b in Eb, Hg', Ht'. unfold with_bucket. rewrite Hb2, Eb. cbn [mbind outcome_bind].
    eexists. split; [|exists x; split; [reflexivity|]]; [|split_and!; try done].
    + exists (gs ++ [(b, [x])]). unfold with_size. cbn [values_ spares_ buckets_ fresh size_]. rewrite Hz2.
      eapply (insert_new gs _ h1 h2 x _ bs (values_ h1) []); try done; [by rewrite app_nil_r|by rewrite Hx, Hv| |].
      * rewrite flat_app, <- Hv. done.
      * apply Ht'.
    + cbn [values_ with_size]. rewrite Hv2, <- Permutation_middle, app_nil_r, Hp. done.
    + cbn [spares_ with_size]. by rewrite Hs2, Hsp.
  - fold b in E, Eg. rewrite Eg, Hv. pose proof (inv_ids _ _ Hi) as Hnd. rewrite E in Hnd |- *.
    destruct (bucket_walk gs1 b g gs2 k Hne Hnd) as (y & -> & En & Ew).
    destruct (list_begin g) eqn:Eb; [|by destruct g]. rewrite En. cbn [mbind outcome_bind]. rewrite Ew. cbn [mbind outcome_bind].
    rewrite flat_app, flat_cons, it_of_app, it_of_app_r by done. destruct (it_of k g) as [i|] eqn:Ei.
    { exists h1. split; [by exists gs|]. done. }
    assert (values_ h1 = (flat gs1 ++ g) ++ flat gs2) as Hv1 by (rewrite Hv, E, flat_app, flat_cons, <- app_assoc; done).
    destruct (values_insert_spec (flat gs1 ++ g) (flat gs2) k v h1 Hv1 Hid Hf) as (x & h2 & Einc & Hx & Hxv & Hv2 & Hs2 & Hb2 & Hz2 & Hd2 & Hf2).
    rewrite Einc. cbn [mbind outcome_bind]. rewrite E in Hg, Ht.
    destruct (grow_group (num_buckets_ h1) gs1 b g gs2 (buckets_ h1) x Hb Hg Ht) as (bs & Ebs & Hg' & Ht'); [by rewrite Hx|].
    rewrite Eb in Ebs. unfold with_bucket. rewrite Hb2. 
    match goal with |- context [vset ?l ?i ?p] => rewrite (Ebs : vset l i p = Ok bs) end. cbn [mbind outcome_bind].
    eexists. split; [|exists x; split; [reflexivity|]]; [|split_and!; try done].
    + exists (regroup b (g ++ [x]) gs1 gs2). unfold with_size. cbn [values_ spares_ buckets_ fresh size_]. rewrite Hz2.
      eapply (insert_new gs _ h1 h2 x _ bs (flat gs1 ++ g) (flat gs2)); try done.
      * rewrite Hx, Hv1. unfold no_key in *. rewrite !Forall_app. split_and!; [done| |done]. by apply it_of_none.
      * by rewrite flat_regroup, <- !app_assoc.
      * apply Ht'.
    + cbn [values_ with_size]. by rewrite Hv2, <- Permutation_middle, <- Hv1, Hp.
    + cbn [spares_ with_size]. by rewrite Hs2, Hsp.
Qed.

Lemma id_eqb_mid (x y : node K V) l1 l2 : NoDup (ids (l1 ++ x :: l2)) -> y ∈ l1 \/ y ∈ l2 -> node_id x <> node_id y.
Proof.
  intros Hnd Hy E. destruct (ids_mid _ _ _ Hnd) as (H1 & H2 & _). destruct Hy as [Hy|Hy]; [apply H1|apply H2]; rewrite E; by apply list_elem_of_fmap_2.
Qed.

(** The bucket of a node that is erased *)
Definition shrunk first last it l : outcome (iterator * iterator) :=
  if bool_decide (it = first) && bool_decide (it = last) then Ok no_entries
  else if bool_decide (it = first) then first ← it_next first l; Ok (first, last)
  else if bool_decide (it = last) then last ← it_prev last l; Ok (first, last)
  else Ok (first, last).

Lemma shrunk_spec (x : node K V) g1 g2 l1 l2 : NoDup (ids (l1 ++ (g1 ++ x :: g2) ++ l2)) ->
  shrunk (ends (g1 ++ x :: g2)).1 (ends (g1 ++ x :: g2)).2 (Some (node_id x)) (l1 ++ (g1 ++ x :: g2) ++ l2) = Ok (ends (g1 ++ g2)).
Proof.
  intros Hnd. assert (NoDup (ids (g1 ++ x :: g2))) as Hg.
  { rewrite !ids_app in Hnd. apply NoDup_app in Hnd as (_ & _ & Hnd). apply NoDup_app in Hnd as (Hnd & _). by rewrite ids_app. }
  assert (forall y g, g1 = y :: g -> Some (node_id x) <> list_begin (g1 ++ x :: g2)) as Hfirst.
  { intros y g -> [= E]. apply (id_eqb_mid x y (y :: g) g2) in Hg; [done|]. left; left. }
  assert (forall y g, g2 = y :: g -> Some (node_id x) <> node_id <$> last (g1 ++ x :: g2)) as Hlast.
  { intros y g ->. rewrite last_app_cons, last_cons_cons. destruct (last (y :: g)) as [z|] eqn:Ez; [|done]. intros [= E].
    apply last_Some_elem_of in Ez. eapply (id_eqb_mid x z); [exact Hg|by right|done]. }
  assert (g2 = [] -> Some (node_id x) = node_id <$> last (g1 ++ x :: g2)) as Hlast' by (intros ->; by rewrite last_snoc).
  unfold shrunk, ends. cbn [fst snd].
  destruct g1 as [|y1 g1 _] using rev_ind; destruct g2 as [|y2 g2].
  - rewrite !bool_decide_true by (done || by apply Hlast'). done.
  - rewrite bool_decide_true by done. rewrite bool_decide_false by (by eapply Hlast). cbn [andb].
    change (list_begin ([] ++ x :: y2 :: g2)) with (Some (node_id x)). rewrite <- app_assoc in Hnd |- *. cbn [app] in *.
    rewrite next_mid by apply (ids_mid _ _ _ Hnd). done.
  - assert (Some (node_id x) <> list_begin ((g1 ++ [y1]) ++ [x])) as Hf by (destruct g1; by eapply Hfirst).
    rewrite bool_decide_false by done. rewrite bool_decide_true by (by apply Hlast'). cbn [andb].
    rewrite last_snoc, app_nil_r. cbn [fmap option_fmap option_map].
    replace (l1 ++ ((g1 ++ [y1]) ++ [x]) ++ l2) with ((l1 ++ g1) ++ y1 :: (x :: l2)) in * by (by rewrite <- !app_assoc).
    change (Some (node_id x)) with (list_begin (x :: l2)). rewrite prev_mid by done. cbn [mbind outcome_bind].
    rewrite last_snoc. by destruct g1.
  - assert (Some (node_id x) <> list_begin ((g1 ++ [y1]) ++ x :: y2 :: g2)) as Hf by (destruct g1; by eapply Hfirst).
    rewrite bool_decide_false by done. rewrite bool_decide_false by (by eapply Hlast). cbn [andb].
    rewrite !last_app_cons, last_cons_cons. by destruct g1.
Qed.

Lemma hm_erase_at_spec x h : hm_ok h -> x ∈ values_ h -> exists h', hm_erase_at hash (Some (node_id x)) h = Ok h' /\ hm_ok h' /\
  values_ h ≡ₚ x :: values_ h' /\
  spares_ h' = Node (node_id x) inhabitant (value_assign (node_val x) value_default) :: spares_ h.
Proof.
  intros [gs Hi] Hx. pose proof Hi as [Hv Hg Ht Hk Hid Hf Hs].
  assert (0 < num_buckets_ h) as Hn.
  { assert (num_buckets_ h <> 0) by (intros E; rewrite (no_buckets gs h Hi E) in Hx; by apply elem_of_nil in Hx).
    pose proof (vlen_nonneg (buckets_ h)). unfold num_buckets_ in *. lia. }
  set (b := bucket_in hash (num_buckets_ h) (node_key x)). assert (0 <= b < num_buckets_ h) as Hb by (apply Z.mod_pos_bound; lia).
  assert (forall l, x ∈ l -> ~ no_key (node_key x) l) as Hno.
  { intros l Hl Hnk. unfold no_key in Hnk. rewrite Forall_forall in Hnk. by apply (Hnk x). }
  destruct (bucket_split _ gs (node_key x) Hn Hg) as [[_ Hnk]|(gs1 & g & gs2 & E & Eg & Hne & H1 & H2)].
  { exfalso. apply (Hno (flat gs)); [by rewrite <- Hv|done]. }
  fold b in E, Eg. assert (x ∈ g) as Hxg.
  { rewrite Hv, E, flat_app, flat_cons, !elem_of_app in Hx. destruct Hx as [Hx|[Hx|Hx]]; [|done|]; exfalso; by eapply Hno. }
  apply list_elem_of_split in Hxg as (g1 & g2 & ->). set (g := g1 ++ x :: g2) in *.
  assert (values_ h = flat gs1 ++ g ++ flat gs2) as Hv1 by (by rewrite Hv, E, flat_app, flat_cons).
  assert (NoDup (ids (flat gs1 ++ g ++ flat gs2))) as Hnd by (rewrite <- Hv1, Hv; apply (inv_ids _ _ Hi)).
  unfold hm_erase_at. rewrite bool_decide_true by done. cbn [assert_ mbind outcome_bind].
  rewrite (proj2 (Z.eqb_neq (num_buckets_ h) 0)) by lia. cbn [negb assert_ mbind outcome_bind].
  assert (values_ h = (flat gs1 ++ g1) ++ x :: (g2 ++ flat gs2)) as Hv2 by (rewrite Hv1; subst g; by rewrite <- !app_assoc).
  assert (node_id x ∉ ids (flat gs1 ++ g1)) as Hx1 by (rewrite <- Hv1, Hv2 in Hnd; apply (ids_mid _ _ _ Hnd)).
  rewrite Hv2, deref_mid by done. rewrite <- Hv2. cbn [mbind outcome_bind]. fold b.
  rewrite (proj2 Ht b Hb), Eg. cbn [mbind outcome_bind].
  pose proof (shrunk_spec x g1 g2 (flat gs1) (flat gs2) Hnd) as Hshr. fold g in Hshr. rewrite <- Hv1 in Hshr. unfold shrunk in Hshr.
  destruct (ends g) as [first last]. cbn [fst snd] in Hshr. rewrite Hshr. cbn [mbind outcome_bind].
  rewrite E in Hg, Ht. destruct (group_bucket _ _ _ _ _ Hg) as (B1 & B2 & _ & Bf).
  destruct (regroup_table _ b g (g1 ++ g2) gs1 gs2 _ B1 B2 Hb Ht) as (bs & Ebs & Ht'). unfold with_bucket. rewrite Ebs. cbn [mbind outcome_bind].
  unfold values_erase. cbn [values_]. rewrite Hv2, remove_mid by done. cbn [mbind outcome_bind].
  eexists. split; [reflexivity|]. assert (num_buckets_ h = vlen bs) as En by (symmetry; apply Ht').
  assert ((flat gs1 ++ g1) ++ g2 ++ flat gs2 = flat (regroup b (g1 ++ g2) gs1 gs2)) as Hfl by (by rewrite flat_regroup, <- !app_assoc).
  assert (ids (((flat gs1 ++ g1) ++ g2 ++ flat gs2) ++ Node (node_id x) inhabitant (value_assign (node_val x) value_default) :: spares_ h)
    ≡ₚ ids (values_ h ++ spares_ h)) as Hp.
  { rewrite Hv2, !ids_app. unfold ids. cbn [fmap list_fmap node_id]. rewrite !fmap_app. solve_Permutation. }
  unfold with_size. cbn [values_ spares_ buckets_ fresh size_].
  split_and!; [exists (regroup b (g1 ++ g2) gs1 gs2); split; cbn [values_ spares_ buckets_ fresh size_];
      change (num_buckets_ (HashMap ?a ?b ?c ?d ?e)) with (vlen d); rewrite <- ?En|symmetry; apply Permutation_middle|done].
  - done.
  - eapply regroup_ok; [exact Hg|]. subst g. rewrite Forall_app, Forall_cons in Bf. rewrite Forall_app. tauto.
  - exact Ht'.
  - rewrite Hv2, fmap_app, fmap_cons, <- Permutation_middle in Hk. apply NoDup_cons in Hk as [_ Hk]. by rewrite fmap_app.
  - by rewrite Hp.
  - intros i. rewrite Hp. apply Hf.
  - assert (vlen (values_ h) = 1 + vlen ((flat gs1 ++ g1) ++ g2 ++ flat gs2)) as Hlen.
    { rewrite Hv2, !vlen_app. unfold vlen. cbn [length]. rewrite length_app. lia. }
    destruct Hs as [-> Hs]. pose proof (vlen_nonneg ((flat gs1 ++ g1) ++ g2 ++ flat gs2)). rewrite u64_id by ulia. lia.
Qed.
End Groups.

(** ** A map of keys to values *)
Section Map.
Context {K V : Type} `{Countable K} `{Inhabited K} `{HV : ValueType V} (hash : K -> Z).
Implicit Types (h : hash_map K V) (l : list (node K V)) (k : K).

Definition entries l : gmap K V := list_to_map ((fun x => (node_key x, node_val x)) <$> l).

Lemma entries_keys l : ((fun x : node K V => (node_key x, node_val x)) <$> l).*1 = node_key <$> l.
Proof. by rewrite <- list_fmap_compose. Qed.

Lemma entries_perm l l' : NoDup (node_key <$> l) -> l ≡ₚ l' -> entries l = entries l'.
Proof. intros Hnd Hp. apply list_to_map_proper; [by rewrite entries_keys|by rewrite Hp]. Qed.

Lemma entries_cons x l : entries (x :: l) = <[node_key x := node_val x]> (entries l).
Proof. done. Qed.

Lemma entries_none k l : it_of k l = None <-> entries l !! k = None.
Proof.
  rewrite it_of_none. unfold entries, no_key. rewrite <- not_elem_of_list_to_map, entries_keys, list_elem_of_fmap, Forall_forall.
  split; [intros Hk (x & -> & Hx); by apply (Hk x)|]. intros Hk x Hx <-. apply Hk. by exists x.
Qed.

(** What the iterator that [find] returns points to *)
Lemma entries_some k l i : NoDup (ids l) -> it_of k l = Some i ->
  exists x, it_deref (Some i) l = Ok x /\ x ∈ l /\ node_key x = k /\ node_id x = i /\ entries l !! k = Some (node_val x).
Proof.
  intros Hnd Hi. induction l as [|x l IH]; cbn [it_of] in Hi; [done|]. rewrite entries_cons.
  change (NoDup (node_id x :: ids l)) in Hnd. apply NoDup_cons in Hnd as [Hx Hnd]. case_bool_decide as Hk.
  - injection Hi as <-. exists x. split_and!; [apply (deref_mid []), not_elem_of_nil|by left|done..|]. by rewrite <- Hk, lookup_insert_eq.
  - destruct (IH Hnd Hi) as (y & Hd & Hy & Hyk & Hyi & He). exists y. split_and!; [|by right|done..|by rewrite lookup_insert_ne].
    unfold it_deref in *. cbn [nodes_from]. unfold it_is. rewrite bool_decide_false; [done|]. intros [= E]. apply Hx.
    rewrite <- E, <- Hyi. by apply list_elem_of_fmap_2.
Qed.

Lemma ok_ids h : hm_ok hash h -> NoDup (ids (values_ h)) /\ NoDup (node_key <$> values_ h).
Proof.
  intros [gs Hi]. split; [|apply (hi_keys _ _ _ Hi)]. pose proof (hi_ids _ _ _ Hi) as Hnd. rewrite ids_app in Hnd. by apply NoDup_app in Hnd as [? _].
Qed.

Definition hm_get k h : outcome (option V) :=
  it ← hm_find hash k h;
  match it with None => Ok None | Some _ => x ← it_deref it (values_ h); Ok (Some (node_val x)) end.

Lemma hm_get_spec k h : hm_ok hash h -> hm_get k h = Ok (entries (values_ h) !! k).
Proof.
  intros Hok. unfold hm_get. rewrite hm_find_spec by done. cbn [mbind outcome_bind]. destruct (it_of k (values_ h)) as [i|] eqn:Ei.
  - destruct (entries_some k _ i (proj1 (ok_ids h Hok)) Ei) as (x & -> & _ & _ & _ & ->). done.
  - by rewrite (proj1 (entries_none k _) Ei).
Qed.

(** An erased key leaves a spare node. *)
Lemma hm_erase_spec k h : hm_ok hash h -> exists h', hm_erase hash k h = Ok h' /\ hm_ok hash h' /\
  entries (values_ h') = delete k (entries (values_ h)).
Proof.
  intros Hok. unfold hm_erase. rewrite hm_find_spec by done. cbn [mbind outcome_bind]. destruct (it_of k (values_ h)) as [i|] eqn:Ei.
  - destruct (ok_ids h Hok) as [Hnd Hkeys]. destruct (entries_some k _ i Hnd Ei) as (x & _ & Hx & Hk & <- & _).
    destruct (hm_erase_at_spec hash x h Hok Hx) as (h' & E & Hok' & Hp & _). exists h'. split_and!; [done..|].
    rewrite (entries_perm _ _ Hkeys Hp), entries_cons, Hk, delete_insert_id; [done|].
    apply entries_none, it_of_none. rewrite Hp in Hkeys. apply NoDup_cons in Hkeys as [Hn _]. unfold no_key. rewrite Forall_forall.
    intros y Hy Hyk. apply Hn. rewrite Hk, <- Hyk. by apply list_elem_of_fmap_2.
  - exists h. split_and!; [done..|]. by rewrite delete_id by (by apply entries_none).
Qed.

Lemma hm_clear_ok h : hm_ok hash h -> hm_ok hash (hm_clear h).
Proof.
  intros [gs Hi]. pose proof Hi as [Hv Hg Ht Hk Hid Hf Hs]. exists []. unfold hm_clear.
  assert (num_buckets_ (HashMap 0 [] (spares_ h) (replicate (length (buckets_ h)) no_entries) (fresh h)) = num_buckets_ h) as En
    by (unfold num_buckets_, vlen; cbn [buckets_]; by rewrite length_replicate).
  split; rewrite ?En; cbn [values_ spares_ buckets_ fresh size_].
  - done.
  - apply no_groups.
  - replace (length (buckets_ h)) with (Z.to_nat (num_buckets_ h)) by (unfold num_buckets_, vlen; lia). apply empty_table. apply vlen_nonneg.
  - constructor.
  - rewrite ids_app in Hid. by apply NoDup_app in Hid as (_ & _ & ?).
  - intros i Hin. apply Hf. rewrite ids_app. apply elem_of_app. by right.
  - by split.
Qed.

Lemma hm_new_ok : hm_ok hash (hash_map_new : hash_map K V).
Proof.
  exists []. split; cbn; [done|apply no_groups|split; [done|intros b Hb; change (0 <= b < 0) in Hb; lia]|constructor|constructor|intros i Hi; by apply elem_of_nil in Hi|by split].
Qed.

(** Calls of a map, and of the map it stands for *)
Inductive hm_call := HFind (k : K) | HInsert (k : K) (v : V) | HErase (k : K) | HClear.
Inductive hm_result := RFound (v : option V) | RInserted (b : bool) | RDone.

Definition hm_do (c : hm_call) h : outcome (hm_result * hash_map K V) :=
  match c with
  | HFind k => v ← hm_get k h; Ok (RFound v, h)
  | HInsert k v => '(_, b, h) ← hm_insert hash k v h; Ok (RInserted b, h)
  | HErase k => h ← hm_erase hash k h; Ok (RDone, h)
  | HClear => Ok (RDone, hm_clear h)
  end.
Fixpoint hm_run (l : list hm_call) h : outcome (list hm_result * hash_map K V) :=
  match l with
  | [] => Ok ([], h)
  | c :: l' => '(r, h) ← hm_do c h; '(rs, h) ← hm_run l' h; Ok (r :: rs, h)
  end.

Definition map_do (c : hm_call) (m : gmap K V) : hm_result * gmap K V :=
  match c with
  | HFind k => (RFound (m !! k), m)
  | HInsert k v => match m !! k with Some _ => (RInserted false, m) | None => (RInserted true, <[k := v]> m) end
  | HErase k => (RDone, delete k m)
  | HClear => (RDone, ∅)
  end.
Fixpoint map_run (l : list hm_call) (m : gmap K V) : list hm_result * gmap K V :=
  match l with
  | [] => ([], m)
  | c :: l' => let '(r, m) := map_do c m in let '(rs, m) := map_run l' m in (r :: rs, m)
  end.

(** A type whose values are copied *)
Class PodType : Prop := {
  pod_copy v : value_copy v = v;
  pod_assign old v : value_assign old v = v
}.

Lemma stored_pod `{PodType} v h : stored v h = v.
Proof. unfold stored. destruct (spares_ h); [apply pod_copy|apply pod_assign]. Qed.

Lemma entries_size l : NoDup (node_key <$> l) -> vlen l = Z.of_nat (size (entries l)).
Proof. intros Hnd. unfold vlen, entries. rewrite map_size_list_to_map by (by rewrite entries_keys). by rewrite length_fmap. Qed.

Lemma hm_do_refines `{PodType} c h : hm_ok hash h -> vlen (values_ h) + 1 < 2 ^ 64 ->
  exists h', hm_do c h = Ok ((map_do c (entries (values_ h))).1, h') /\ hm_ok hash h' /\
    entries (values_ h') = (map_do c (entries (values_ h))).2 /\ vlen (values_ h') <= vlen (values_ h) + 1.
Proof.
  intros Hok Hsz. destruct (ok_ids h Hok) as [_ Hkeys]. destruct c as [k|k v|k|]; cbn [hm_do map_do].
  - rewrite hm_get_spec by done. exists h. split_and!; [done..|lia].
  - destruct (hm_insert_spec hash k v h Hok Hsz) as (h' & Hok' & E). destruct (ok_ids h' Hok') as [_ Hkeys'].
    destruct (it_of k (values_ h)) as [i|] eqn:Ei.
    + destruct E as (-> & Hp & _). destruct (entries_some k _ i (proj1 (ok_ids h Hok)) Ei) as (x & _ & _ & _ & _ & ->).
      exists h'. split_and!; [done..|by apply entries_perm|]. unfold vlen. rewrite Hp. lia.
    + destruct E as (x & -> & Hk & Hv & Hp & _). rewrite (proj1 (entries_none k _) Ei). exists h'. split_and!; [done..| |].
      * rewrite (entries_perm _ _ Hkeys' Hp), entries_cons, Hk, Hv, stored_pod. done.
      * unfold vlen. rewrite Hp. cbn [length]. lia.
  - destruct (hm_erase_spec k h Hok) as (h' & -> & Hok' & E). exists h'. split_and!; [done..|].
    destruct (ok_ids h' Hok') as [_ Hkeys']. rewrite (entries_size _ Hkeys), (entries_size _ Hkeys'), E.
    pose proof (map_size_delete k (entries (values_ h))) as Hd. rewrite Hd. case_match; unfold id; lia.
  - exists (hm_clear h). split_and!; [done|by apply hm_clear_ok|done|]. pose proof (vlen_nonneg (values_ h)). cbn. unfold vlen at 1. cbn. lia.
Qed.

Lemma hm_run_refines `{PodType} cs : forall h, hm_ok hash h -> vlen (values_ h) + vlen cs < 2 ^ 64 ->
  exists h', hm_run cs h = Ok ((map_run cs (entries (values_ h))).1, h') /\ hm_ok hash h' /\
    entries (values_ h') = (map_run cs (entries (values_ h))).2.
Proof.
  induction cs as [|c cs IH]; intros h Hok Hsz; cbn [hm_run map_run]; [by exists h|].
  assert (vlen (c :: cs) = 1 + vlen cs) as Hl by (unfold vlen; cbn [length]; lia). pose proof (vlen_nonneg cs).
  destruct (hm_do_refines c h Hok ltac:(lia)) as (h1 & -> & Hok1 & E1 & Hle). cbn [mbind outcome_bind].
  destruct (map_do c (entries (values_ h))) as [r m]. cbn [fst snd] in *. subst m.
  destruct (IH h1 Hok1 ltac:(lia)) as (h2 & -> & Hok2 & E2). cbn [mbind outcome_bind].
  destruct (map_run cs (entries (values_ h1))) as [rs m]. by exists h2.
Qed.
End Map.

(** ** Lemmas: changing the values *)
Section Nodes.
Context {K V : Type} `{Countable K} `{Inhabited K} `{HV : ValueType V} (hash : K -> Z).
Implicit Types (h : hash_map K V) (l : list (node K V)) (x : node K V) (f : node K V -> node K V).

(** Changing values keeps_place the map in order. *)
Definition keeps_place f : Prop := forall x, node_id (f x) = node_id x /\ node_key (f x) = node_key x.
Definition map_nodes f h : hash_map K V := HashMap (size_ h) (f <$> values_ h) (spares_ h) (buckets_ h) (fresh h).

Lemma keeps_ids f l : keeps_place f -> ids (f <$> l) = ids l /\ node_key <$> (f <$> l) = node_key <$> l.
Proof. intros Hf. unfold ids. split; rewrite <- list_fmap_compose; apply list_fmap_ext; intros i x _; apply Hf. Qed.

Lemma map_nodes_ok f h : keeps_place f -> hm_ok hash h -> hm_ok hash (map_nodes f h).
Proof.
  intros Hf [gs [Hv [Hg1 Hg2] [Ht1 Ht2] Hk Hid Hfr Hs]]. exists ((fun g : Z * list (node K V) => (g.1, f <$> g.2)) <$> gs).
  destruct (keeps_ids f (values_ h) Hf) as [Ei Ek].
  assert (forall b, group b ((fun g : Z * list (node K V) => (g.1, f <$> g.2)) <$> gs) = f <$> group b gs) as Eg.
  { intros b. clear. induction gs as [|[b' g] gs IH]; [done|]. cbn [fmap list_fmap fst snd group]. destruct (b' =? b); [done|exact IH]. }
  assert (forall g, ends (f <$> g) = ends g) as Ee.
  { intros g. unfold ends. rewrite fmap_last. f_equal; [destruct g as [|x g]; [done|]; unfold list_begin; cbn; f_equal; apply Hf|].
    destruct (last g) as [x|]; [|done]. cbn. f_equal. apply Hf. }
  split; unfold map_nodes; cbn [values_ spares_ buckets_ fresh size_].
  - rewrite Hv. clear. induction gs as [|[b g] gs IH]; [done|]. rewrite flat_cons, fmap_app, IH. done.
  - split; [by rewrite <- list_fmap_compose|]. intros b g ([b' g'] & [= -> ->] & Hin)%list_elem_of_fmap. cbn [fst snd] in *.
    destruct (Hg2 _ _ Hin) as (Hb & Hne & Hfa). split_and!; [apply Hb|apply Hb|by destruct g'|]. apply Forall_fmap. eapply Forall_impl; [exact Hfa|].
    intros x Hx. cbn. by rewrite (proj2 (Hf x)).
  - split; [done|]. intros b Hb. rewrite Eg, Ee. by apply Ht2.
  - by rewrite Ek.
  - by rewrite ids_app, Ei, <- ids_app.
  - intros i. rewrite ids_app, Ei, <- ids_app. apply Hfr.
  - unfold vlen in *. by rewrite length_fmap.
Qed.
End Nodes.

(** ** Properties *)

(** C28. hash_map is a map: from the empty map, every sequence of finds, insertions,
    erasures and clearings, through all the rehashing they cause and with nodes that are
    recycled, returns without error what the same calls of a finite map return (an
    insertion of a key that is there changes nothing), and leaves the same entries. *)
Theorem hash_map_refines {K V} `{Countable K} `{Inhabited K} `{ValueType V} `{!PodType} (hash : K -> Z) (cs : list hm_call) :
  vlen cs < 2 ^ 64 ->
  exists h : hash_map K V, hm_run hash cs hash_map_new = Ok ((map_run cs ∅).1, h) /\
    entries (values_ h) = (map_run cs ∅).2 /\ size_ h = Z.of_nat (size (map_run cs (∅ : gmap K V)).2).
Proof.
  intros Hsz. destruct (hm_run_refines hash cs hash_map_new (hm_new_ok hash) ltac:(change (0 + vlen cs < 2 ^ 64); lia)) as (h & E & Hok & He).
  exists h. split_and!; [exact E|exact He|]. change (entries (values_ hash_map_new)) with (∅ : gmap K V) in He. rewrite <- He.
  destruct (ok_ids hash h Hok) as [_ Hkeys]. rewrite <- entries_size by done. destruct Hok as [gs Hi]. apply (hi_size _ _ _ Hi).
Qed.

#[local] Instance int_value : ValueType Z := {| value_default := 0; value_copy v := v; value_assign _ v := v |}.
#[local] Instance int_pod : PodType (V := Z).
Proof. by split. Qed.

Definition map_calls : list (@hm_call Z Z) :=
  [HInsert 1 10; HInsert 4 40; HInsert 2 20; HInsert 14 140; HInsert 27 270; HErase 14; HInsert 1 11; HInsert 40 400; HFind 27; HFind 14; HFind 1].
Lemma hash_map_refines_witness : vlen map_calls < 2 ^ 64 /\
  exists h, hm_run calculate_hash_value map_calls hash_map_new =
    Ok ([RInserted true; RInserted true; RInserted true; RInserted true; RInserted true; RDone; RInserted false; RInserted true;
         RFound (Some 270); RFound None; RFound (Some 10)], h) /\ size_ h = 5.
Proof.
  split; [reflexivity|]. destruct (hash_map_refines calculate_hash_value map_calls) as (h & E & _ & Hs); [reflexivity|].
  exists h. split; [exact E|exact Hs].
Defined.
