(* ===== verification/Reactorqueue.v ===== *)
(** * reactor_op_queue (asio/detail/reactor_op_queue.hpp)

    The operations that wait for a descriptor are the value of its entry in a hash map.
    The type of the values declares copy operations that do nothing, so that a queue is
    never copied: the map relies on the nodes it recycles having empty queues. *)
From S2P Require Import Prelude Hashmap.

Record rq_op := RqOp { rq_id : Z; rq_ec : Z }.
#[export] Instance mapped_type_value : ValueType (list rq_op) := {
  value_default := [];
  value_copy _ := [];
  value_assign old _ := old
}.

Section ReactorOpQueue.
Context {W : Type} (perform : rq_op -> W -> bool * rq_op * W).
Notation op_map := (hash_map Z (list rq_op)).
Implicit Types (q : op_map) (ops l : list rq_op).

Definition rq_with_ec (ec : Z) (op : rq_op) : rq_op := RqOp (rq_id op) ec.
Definition rq_set_ops (it : iterator) l q : op_map :=
  HashMap (size_ q) (list_set it (fun x => Node (node_id x) (node_key x) l) (values_ q)) (spares_ q) (buckets_ q) (fresh q).

Definition enqueue_operation (descriptor : Z) (op : rq_op) q : outcome (bool * op_map) :=
  '(it, is_new, q) ← hm_insert calculate_hash_value descriptor [] q;
  x ← it_deref it (values_ q);
  Ok (is_new, rq_set_ops it (node_val x ++ [op]) q).

(** The loops of [cancel_operations] and [perform_operations] *)
Fixpoint rq_cancel_loop (ec : Z) l ops : list rq_op :=
  match l with [] => ops | op :: l' => rq_cancel_loop ec l' (ops ++ [rq_with_ec ec op]) end.
Fixpoint rq_perform_loop l ops (w : W) : list rq_op * list rq_op * W :=
  match l with
  | [] => ([], ops, w)
  | op :: l' =>
    let '(done, op, w) := perform op w in
    if (done : bool) then rq_perform_loop l' (ops ++ [op]) w else (op :: l', ops, w)
  end.

Definition cancel_at (it : iterator) (ec : Z) ops q : outcome (bool * list rq_op * op_map) :=
  match it with
  | None => Ok (false, ops, q)
  | Some _ =>
    x ← it_deref it (values_ q);
    q ← hm_erase_at calculate_hash_value it (rq_set_ops it [] q);
    Ok (true, rq_cancel_loop ec (node_val x) ops, q)
  end.
Definition cancel_operations (descriptor ec : Z) ops q : outcome (bool * list rq_op * op_map) :=
  it ← hm_find calculate_hash_value descriptor q; cancel_at it ec ops q.

Definition has_operation (descriptor : Z) q : outcome bool :=
  it ← hm_find calculate_hash_value descriptor q; Ok (bool_decide (it <> None)).

Definition perform_at (it : iterator) ops q (w : W) : outcome (bool * list rq_op * op_map * W) :=
  match it with
  | None => Ok (false, ops, q, w)
  | Some _ =>
    x ← it_deref it (values_ q);
    let '(rest, ops, w) := rq_perform_loop (node_val x) ops w in
    let q := rq_set_ops it rest q in
    match rest with
    | [] => q ← hm_erase_at calculate_hash_value it q; Ok (false, ops, q, w)
    | _ => Ok (true, ops, q, w)
    end
  end.
Definition perform_operations (descriptor : Z) ops q (w : W) : outcome (bool * list rq_op * op_map * W) :=
  it ← hm_find calculate_hash_value descriptor q; perform_at it ops q w.

(** The loop of [get_all_operations]; [todo] is what the iterator still has to visit. *)
Fixpoint rq_get_all_loop (todo : list (node Z (list rq_op))) ops q : outcome (list rq_op * op_map) :=
  match todo with
  | [] => Ok (ops, q)
  | x :: todo' =>
    let op_iter : iterator := Some (node_id x) in
    x ← it_deref op_iter (values_ q);
    q ← hm_erase_at calculate_hash_value op_iter (rq_set_ops op_iter [] q);
    rq_get_all_loop todo' (ops ++ node_val x) q
  end.
Definition get_all_operations ops q : outcome (list rq_op * op_map) := rq_get_all_loop (values_ q) ops q.
End ReactorOpQueue.

(** ** Lemmas: the operations of a descriptor *)
Section Queues.
Context {W : Type} (perform : rq_op -> W -> bool * rq_op * W).
Notation op_map := (hash_map Z (list rq_op)).
Implicit Types (q : op_map) (ops l : list rq_op) (x : node Z (list rq_op)).

(** No descriptor has an empty queue, and the spare nodes have nothing. *)
Record rq_ok q : Prop := {
  rq_map : hm_ok calculate_hash_value q;
  rq_queues : Forall (fun x => node_val x <> []) (values_ q);
  rq_spares : Forall (fun x => node_val x = []) (spares_ q)
}.
Notation queues q := (entries (values_ q)).

Lemma rq_set_ops_keeps it l : keeps_place (fun x => if it_is it x then Node (node_id x) (node_key x) l else x).
Proof. intros x. by destruct (it_is it x). Qed.

Lemma set_ops_ok it l q : hm_ok calculate_hash_value q -> hm_ok calculate_hash_value (rq_set_ops it l q).
Proof. apply map_nodes_ok, rq_set_ops_keeps. Qed.

Lemma set_ops_values x l q r : NoDup (ids (values_ q)) -> values_ q ≡ₚ x :: r ->
  values_ (rq_set_ops (Some (node_id x)) l q) ≡ₚ Node (node_id x) (node_key x) l :: r.
Proof.
  intros Hnd Hp. unfold rq_set_ops, list_set. cbn [values_]. unfold ids in Hnd. rewrite Hp in Hnd |- *. rewrite fmap_cons, it_is_self.
  change (NoDup (node_id x :: ids r)) in Hnd. apply NoDup_cons in Hnd as [Hx _]. f_equiv. apply reflexive_eq.
  rewrite <- (list_fmap_id r) at 2. apply list_fmap_ext. intros i y Hy. unfold it_is. rewrite bool_decide_false; [done|].
  intros [= E]. apply Hx. rewrite E. by eapply list_elem_of_fmap_2, list_elem_of_lookup_2.
Qed.

Lemma set_ops_len it l q : vlen (values_ (rq_set_ops it l q)) = vlen (values_ q).
Proof. unfold vlen, rq_set_ops, list_set. cbn [values_]. by rewrite length_fmap. Qed.

(** An entry whose queue has been emptied is erased. *)
Lemma emptied x q r : rq_ok q -> values_ q ≡ₚ x :: r ->
  exists q', hm_erase_at calculate_hash_value (Some (node_id x)) (rq_set_ops (Some (node_id x)) [] q) = Ok q' /\ rq_ok q' /\
    values_ q' ≡ₚ r /\ queues q' = delete (node_key x) (queues q).
Proof.
  intros [Hm Hq Hs] Hp. destruct (ok_ids _ _ Hm) as [Hnd Hkeys].
  pose proof (set_ops_values x [] q r Hnd Hp) as Hp1. set (q1 := rq_set_ops _ _ q) in *.
  assert (hm_ok calculate_hash_value q1) as Hm1 by (by apply set_ops_ok).
  destruct (hm_erase_at_spec calculate_hash_value (Node (node_id x) (node_key x) []) q1 Hm1) as (q' & E & Hm' & Hp' & Hs').
  { rewrite Hp1. by left. }
  cbn [node_id node_val] in *. exists q'. assert (values_ q' ≡ₚ r) as Hr.
  { apply (Permutation_cons_inv (a := Node (node_id x) (node_key x) [])). by rewrite <- Hp', Hp1. }
  destruct (ok_ids _ _ Hm') as [_ Hkeys']. split_and!; [done| |done|].
  - split; [done| |].
    + rewrite Hr. rewrite Hp in Hq. by apply Forall_cons in Hq as [_ Hq].
    + rewrite Hs'. constructor; [done|exact Hs].
  - rewrite (entries_perm _ _ Hkeys' Hr), (entries_perm _ _ Hkeys Hp), entries_cons, delete_insert_id; [done|].
    apply entries_none, it_of_none. rewrite Hp in Hkeys. apply NoDup_cons in Hkeys as [Hn _]. unfold no_key. rewrite Forall_forall.
    intros y Hy Hyk. apply Hn. rewrite <- Hyk. by apply list_elem_of_fmap_2.
Qed.

(** The queue of a descriptor is replaced by one that is not empty. *)
Lemma replaced x l q r : hm_ok calculate_hash_value q -> Forall (fun x => node_val x <> []) r ->
  Forall (fun x => node_val x = []) (spares_ q) -> l <> [] -> values_ q ≡ₚ x :: r ->
  rq_ok (rq_set_ops (Some (node_id x)) l q) /\
  queues (rq_set_ops (Some (node_id x)) l q) = <[node_key x := l]> (entries r).
Proof.
  intros Hm Hq Hs Hl Hp. destruct (ok_ids _ _ Hm) as [Hnd _]. pose proof (set_ops_values x l q r Hnd Hp) as Hp1.
  set (q1 := rq_set_ops _ _ q) in *. assert (hm_ok calculate_hash_value q1) as Hm1 by (by apply set_ops_ok). split.
  - split; [done|rewrite Hp1; by constructor|exact Hs].
  - destruct (ok_ids _ _ Hm1) as [_ Hkeys]. by rewrite (entries_perm _ _ Hkeys Hp1).
Qed.

Lemma find_queue d q : rq_ok q ->
  (hm_find calculate_hash_value d q = Ok None /\ queues q !! d = None) \/
  exists x r, hm_find calculate_hash_value d q = Ok (Some (node_id x)) /\ it_deref (Some (node_id x)) (values_ q) = Ok x /\
    node_key x = d /\ values_ q ≡ₚ x :: r /\ queues q !! d = Some (node_val x).
Proof.
  intros [Hm _ _]. rewrite hm_find_spec by done. destruct (it_of d (values_ q)) as [i|] eqn:Ei.
  - right. destruct (entries_some d _ i (proj1 (ok_ids _ _ Hm)) Ei) as (x & Hd & Hx & Hk & <- & He).
    apply elem_of_Permutation in Hx as [r Hp]. by exists x, r.
  - left. split; [done|]. by apply entries_none.
Qed.

Lemma enqueue_spec d op q : rq_ok q -> vlen (values_ q) + 1 < 2 ^ 64 ->
  exists q', enqueue_operation d op q = Ok (bool_decide (queues q !! d = None), q') /\ rq_ok q' /\
    queues q' = <[d := default [] (queues q !! d) ++ [op]]> (queues q) /\ vlen (values_ q') <= vlen (values_ q) + 1.
Proof.
  intros [Hm Hq Hs] Hsz. unfold enqueue_operation. destruct (ok_ids _ _ Hm) as [Hnd Hkeys].
  destruct (hm_insert_spec calculate_hash_value d [] q Hm Hsz) as (q1 & Hm1 & E). destruct (ok_ids _ _ Hm1) as [Hnd1 Hkeys1].
  destruct (it_of d (values_ q)) as [i|] eqn:Ei.
  - destruct E as (-> & Hp & Hsp). cbn [mbind outcome_bind].
    rewrite <- (it_of_perm d _ _ Hp Hkeys1) in Ei.
    destruct (entries_some d _ i Hnd1 Ei) as (x & -> & Hx & Hk & <- & He). cbn [mbind outcome_bind].
    apply elem_of_Permutation in Hx as [r Hpx]. rewrite <- (entries_perm _ _ Hkeys1 Hp), He. cbn [default from_option id].
    rewrite bool_decide_false by done. eexists. split; [done|]. rewrite <- Hp, Hpx in Hq. apply Forall_cons in Hq as [_ Hq].
    destruct (replaced x (node_val x ++ [op]) q1 r Hm1 Hq) as [H1 H2]; [by rewrite Hsp|by destruct (node_val x)|done|].
    split_and!; [done| |].
    + rewrite H2, (entries_perm _ _ Hkeys1 Hpx), entries_cons, Hk, insert_insert_eq. done.
    + rewrite set_ops_len. unfold vlen. rewrite Hp. lia.
  - destruct E as (x & -> & Hk & Hv & Hp & Hsp). cbn [mbind outcome_bind]. rewrite (proj1 (entries_none d _) Ei). cbn [default from_option id].
    assert (node_val x = []) as Hx.
    { rewrite Hv. unfold stored. destruct (spares_ q) as [|y sp]; [done|]. by apply Forall_cons in Hs as [-> _]. }
    assert (x ∈ values_ q1) as Hin by (rewrite Hp; by left). apply list_elem_of_split in Hin as (l1 & l2 & El).
    rewrite El, deref_mid by (rewrite El in Hnd1; apply (ids_mid _ _ _ Hnd1)). cbn [mbind outcome_bind].
    rewrite bool_decide_true, Hx by done. eexists. split; [done|].
    destruct (replaced x ([] ++ [op]) q1 (values_ q) Hm1 Hq) as [H1 H2]; [by rewrite Hsp; destruct Hs|done|done|].
    split_and!; [done|by rewrite H2, Hk|]. rewrite set_ops_len. unfold vlen. rewrite Hp. cbn [length]. lia.
Qed.

Lemma rq_cancel_loop_map ec l ops : rq_cancel_loop ec l ops = ops ++ (rq_with_ec ec <$> l).
Proof. revert ops. induction l as [|op l IH]; intros ops; cbn [rq_cancel_loop]; [by rewrite app_nil_r|]. rewrite IH, <- app_assoc. done. Qed.

Lemma cancel_spec d ec ops q : rq_ok q ->
  exists q', cancel_operations d ec ops q =
      Ok (bool_decide (queues q !! d <> None), ops ++ (rq_with_ec ec <$> default [] (queues q !! d)), q') /\ rq_ok q' /\
    queues q' = delete d (queues q) /\ vlen (values_ q') <= vlen (values_ q).
Proof.
  intros Hok. unfold cancel_operations. destruct (find_queue d q Hok) as [[-> Hd]|(x & r & -> & Hx & Hk & Hp & Hd)]; cbn [mbind outcome_bind cancel_at].
  - exists q. rewrite Hd, delete_id by done. cbn. rewrite app_nil_r. done.
  - rewrite Hx. cbn [mbind outcome_bind]. destruct (emptied x q r Hok Hp) as (q' & -> & Hok' & Hr & E). cbn [mbind outcome_bind].
    exists q'. rewrite Hd, rq_cancel_loop_map. split_and!; [done|done|by rewrite E, Hk|]. unfold vlen. rewrite Hp, Hr. cbn. lia.
Qed.

Lemma perform_spec d ops q w : rq_ok q ->
  let '(rest, ops', w') := rq_perform_loop perform (default [] (queues q !! d)) ops w in
  exists q', perform_operations perform d ops q w = Ok (bool_decide (rest <> []), ops', q', w') /\ rq_ok q' /\
    queues q' = (match rest with [] => delete d (queues q) | _ => <[d := rest]> (queues q) end) /\ vlen (values_ q') <= vlen (values_ q).
Proof.
  intros Hok. unfold perform_operations. destruct (find_queue d q Hok) as [[-> Hd]|(x & r & -> & Hx & Hk & Hp & Hd)]; cbn [mbind outcome_bind perform_at].
  - rewrite Hd. cbn [default rq_perform_loop]. exists q. rewrite delete_id by done. done.
  - rewrite Hd, Hx. cbn [default from_option id mbind outcome_bind].
    destruct (rq_perform_loop perform (node_val x) ops w) as [[rest ops'] w']. destruct rest as [|op rest].
    + destruct (emptied x q r Hok Hp) as (q' & -> & Hok' & Hr & E). cbn [mbind outcome_bind]. exists q'.
      split_and!; [done|done|by rewrite E, Hk|]. unfold vlen. rewrite Hp, Hr. cbn. lia.
    + destruct Hok as [Hm Hq Hs]. rewrite Hp in Hq. apply Forall_cons in Hq as [_ Hq].
      destruct (replaced x (op :: rest) q r Hm Hq Hs) as [H1 H2]; [done|done|]. eexists. split_and!; [done|done| |].
      * destruct (ok_ids _ _ Hm) as [_ Hkeys]. by rewrite H2, (entries_perm _ _ Hkeys Hp), entries_cons, Hk, insert_insert_eq.
      * rewrite set_ops_len. lia.
Qed.

Lemma get_all_spec todo : forall ops q, rq_ok q -> values_ q ≡ₚ todo ->
  exists q', rq_get_all_loop todo ops q = Ok (ops ++ (todo ≫= node_val), q') /\ rq_ok q' /\ values_ q' = [].
Proof.
  induction todo as [|x todo IH]; intros ops q Hok Hp; cbn [rq_get_all_loop].
  - exists q. rewrite app_nil_r. split_and!; [done..|]. by apply Permutation_nil_r.
  - destruct (ok_ids _ _ (rq_map _ Hok)) as [Hnd _]. assert (x ∈ values_ q) as Hin by (rewrite Hp; by left).
    apply list_elem_of_split in Hin as (l1 & l2 & El).
    rewrite El, deref_mid by (rewrite El in Hnd; apply (ids_mid _ _ _ Hnd)). cbn [mbind outcome_bind].
    destruct (emptied x q todo Hok Hp) as (q' & -> & Hok' & Hr & _). cbn [mbind outcome_bind].
    destruct (IH (ops ++ node_val x) q' Hok' Hr) as (q'' & -> & ? & ?). exists q''. rewrite bind_cons, app_assoc. done.
Qed.

(** Calls of a queue, and of the map from descriptors to operations it stands for *)
Inductive rq_call := REnqueue (d : Z) (op : rq_op) | RCancel (d ec : Z) | RHas (d : Z) | RPerform (d : Z).

Definition rq_do (c : rq_call) (s : list rq_op * op_map * W) : outcome (bool * (list rq_op * op_map * W)) :=
  let '(ops, q, w) := s in
  match c with
  | REnqueue d op => '(b, q) ← enqueue_operation d op q; Ok (b, (ops, q, w))
  | RCancel d ec => '(b, ops, q) ← cancel_operations d ec ops q; Ok (b, (ops, q, w))
  | RHas d => b ← has_operation d q; Ok (b, s)
  | RPerform d => '(b, ops, q, w) ← perform_operations perform d ops q w; Ok (b, (ops, q, w))
  end.
Definition rqm_do (c : rq_call) (s : list rq_op * gmap Z (list rq_op) * W) : bool * (list rq_op * gmap Z (list rq_op) * W) :=
  let '(ops, m, w) := s in
  let waiting d := default [] (m !! d) in
  match c with
  | REnqueue d op => (bool_decide (m !! d = None), (ops, <[d := waiting d ++ [op]]> m, w))
  | RCancel d ec => (bool_decide (m !! d <> None), (ops ++ (rq_with_ec ec <$> waiting d), delete d m, w))
  | RHas d => (bool_decide (m !! d <> None), s)
  | RPerform d =>
    let '(rest, ops, w) := rq_perform_loop perform (waiting d) ops w in
    (bool_decide (rest <> []), (ops, match rest with [] => delete d m | _ => <[d := rest]> m end, w))
  end.
Fixpoint rq_run (l : list rq_call) s : outcome (list bool * (list rq_op * op_map * W)) :=
  match l with
  | [] => Ok ([], s)
  | c :: l' => '(b, s) ← rq_do c s; '(bs, s) ← rq_run l' s; Ok (b :: bs, s)
  end.
Fixpoint rqm_run (l : list rq_call) s : list bool * (list rq_op * gmap Z (list rq_op) * W) :=
  match l with
  | [] => ([], s)
  | c :: l' => let '(b, s) := rqm_do c s in let '(bs, s) := rqm_run l' s in (b :: bs, s)
  end.

Lemma rq_do_refines c ops q w : rq_ok q -> vlen (values_ q) + 1 < 2 ^ 64 ->
  exists b ops' q' w', rq_do c (ops, q, w) = Ok (b, (ops', q', w')) /\ rqm_do c (ops, queues q, w) = (b, (ops', queues q', w')) /\
    rq_ok q' /\ vlen (values_ q') <= vlen (values_ q) + 1.
Proof.
  intros Hok Hsz. destruct c as [d op|d ec|d|d]; cbn [rq_do rqm_do].
  - destruct (enqueue_spec d op q Hok Hsz) as (q' & -> & Hok' & <- & Hl). cbn [mbind outcome_bind]. eauto 10.
  - destruct (cancel_spec d ec ops q Hok) as (q' & -> & Hok' & <- & Hl). cbn [mbind outcome_bind].
    eexists _, _, _, _. split_and!; [done..|lia].
  - unfold has_operation. destruct (find_queue d q Hok) as [[-> ->]|(x & r & -> & _ & _ & _ & ->)]; cbn [mbind outcome_bind];
      (eexists _, _, _, _; split_and!; [done..|lia]).
  - pose proof (perform_spec d ops q w Hok) as Hp. destruct (rq_perform_loop _ _ _ _) as [[rest ops'] w'].
    destruct Hp as (q' & -> & Hok' & <- & Hl). cbn [mbind outcome_bind]. eexists _, _, _, _. split_and!; [done..|lia].
Qed.

Lemma rq_run_refines cs : forall ops q w, rq_ok q -> vlen (values_ q) + vlen cs < 2 ^ 64 ->
  exists bs ops' q' w', rq_run cs (ops, q, w) = Ok (bs, (ops', q', w')) /\
    rqm_run cs (ops, queues q, w) = (bs, (ops', queues q', w')) /\ rq_ok q'.
Proof.
  induction cs as [|c cs IH]; intros ops q w Hok Hsz; cbn [rq_run rqm_run]; [by eexists _, _, _, _|].
  assert (vlen (c :: cs) = 1 + vlen cs) as Hl by (unfold vlen; cbn [length]; lia). pose proof (vlen_nonneg cs).
  destruct (rq_do_refines c ops q w Hok ltac:(lia)) as (b & ops1 & q1 & w1 & -> & -> & Hok1 & Hle). cbn [mbind outcome_bind].
  destruct (IH ops1 q1 w1 Hok1 ltac:(lia)) as (bs & ops2 & q2 & w2 & -> & -> & Hok2). cbn [mbind outcome_bind].
  by eexists _, _, _, _.
Qed.

Lemma rq_new_ok : rq_ok hash_map_new.
Proof. split; [apply hm_new_ok|constructor|constructor]. Qed.

Lemma queues_list q : NoDup (node_key <$> values_ q) -> (map_to_list (queues q) ≫= snd) ≡ₚ (values_ q ≫= node_val).
Proof.
  intros Hnd. unfold entries. rewrite map_to_list_to_map by (by rewrite entries_keys). apply reflexive_eq.
  induction (values_ q) as [|x l IH]; [done|]. rewrite fmap_cons, !bind_cons. f_equal. apply IH. by apply NoDup_cons in Hnd as [_ ?].
Qed.
End Queues.

(** ** Properties *)

(** C29. reactor_op_queue keeps_place a queue for each descriptor: adding, cancelling, testing
    and performing operations returns, and hands out in the same order, what the same
    calls of a map from descriptors to lists do, although the queues are stored in nodes
    that are recycled and whose assignment copies nothing; get_all_operations then hands
    out every operation that is left and leaves nothing. *)
Theorem reactor_op_queue_refines {W} (perform : rq_op -> W -> bool * rq_op * W) (cs : list rq_call) (w : W) : vlen cs < 2 ^ 64 ->
  exists bs ops q w', rq_run perform cs ([], hash_map_new, w) = Ok (bs, (ops, q, w')) /\
    rqm_run perform cs ([], ∅, w) = (bs, (ops, entries (values_ q), w')) /\
    exists rest q', get_all_operations ops q = Ok (ops ++ rest, q') /\ rest ≡ₚ (map_to_list (entries (values_ q)) ≫= snd) /\ values_ q' = [].
Proof.
  intros Hsz. destruct (rq_run_refines perform cs [] hash_map_new w rq_new_ok ltac:(change (0 + vlen cs < 2 ^ 64); lia)) as (bs & ops & q & w' & E1 & E2 & Hok).
  exists bs, ops, q, w'. split_and!; [exact E1|exact E2|].
  destruct (get_all_spec (values_ q) ops q Hok (reflexivity _)) as (q' & E & _ & Hq). exists (values_ q ≫= node_val), q'.
  split_and!; [exact E| |done]. symmetry. apply queues_list. apply (ok_ids _ _ (rq_map _ Hok)).
Qed.

(** An operation is done when its number is even. *)
Definition example_perform (op : rq_op) (n : Z) : bool * rq_op * Z := (Z.even (rq_id op), op, n + 1).
Definition queue_calls : list rq_call :=
  [REnqueue 5 (RqOp 2 0); REnqueue 5 (RqOp 3 0); REnqueue 18 (RqOp 4 0); RPerform 5; RPerform 18; REnqueue 31 (RqOp 7 0); RCancel 5 125; RHas 5].
Lemma reactor_op_queue_refines_witness : vlen queue_calls < 2 ^ 64 /\
  exists ops q, rq_run example_perform queue_calls ([], hash_map_new, 0) =
      Ok ([true; false; true; true; false; true; true; false], (ops, q, 3)) /\
    ops = [RqOp 2 0; RqOp 4 0; RqOp 3 125].
Proof.
  split; [reflexivity|]. destruct (reactor_op_queue_refines example_perform queue_calls 0) as (bs & ops & q & w' & E1 & E2 & _); [reflexivity|].
  vm_compute in E2. injection E2 as <- <- _ <-. exists [RqOp 2 0; RqOp 4 0; RqOp 3 125], q. split; [exact E1|reflexivity].
Defined.
