(* ===== verification/Registry.v ===== *)
(** * service_registry (asio/detail/impl/service_registry.ipp and .hpp)

    The services of an io_service, created when they are first used.  Any number of
    threads call the registry, also in the constructors and the destructors of services.
    A step is what a thread does with the mutex locked; a constructor runs without the
    mutex, and so other threads may create the same service meanwhile.  The service that
    comes too late is destroyed at the end of do_use_service, where the lock, which was
    declared first, is still held.  An object is an address; [uses] records which services
    the constructor of an object has asked for. *)
From S2P Require Import Prelude.

(** io_service::service::key, and the two functions that fill it *)
Record service_key := ServiceKey { type_info_ : option Z; id_ : option Z }.
#[export] Instance service_key_eq_dec : EqDecision service_key.
Proof. solve_decision. Defined.
Definition init_key (id : Z) : service_key := ServiceKey None (Some id).
Definition init_key_type (type_info : Z) : service_key := ServiceKey (Some type_info) None.

Definition keys_match (key1 key2 : service_key) : bool :=
  match id_ key1, id_ key2 with
  | Some i1, Some i2 => i1 =? i2
  | _, _ => false
  end ||
  match type_info_ key1, type_info_ key2 with
  | Some t1, Some t2 => t1 =? t2
  | _, _ => false
  end.

Record service := Svc { key_ : service_key; object : Z }.

(** The loops over [first_service_] and [next_] *)
Fixpoint find_service (key : service_key) (services : list service) : option Z :=
  match services with
  | [] => None
  | s :: rest => if keys_match (key_ s) key then Some (object s) else find_service key rest
  end.

(** ~service_registry, and notify_fork *)
Inductive service_event := Shutdown (o : Z) | Destroy (o : Z) | Fork (o : Z).
Fixpoint shutdown_all (services : list service) : list service_event :=
  match services with [] => [] | s :: rest => Shutdown (object s) :: shutdown_all rest end.
Fixpoint destroy_all (services : list service) : list service_event :=
  match services with [] => [] | s :: rest => Destroy (object s) :: destroy_all rest end.
Definition registry_delete (services : list service) : list service_event := shutdown_all services ++ destroy_all services.

Fixpoint fork_up (n : nat) (i : Z) (services : list service) : outcome (list service_event) :=
  match n with
  | O => Ok []
  | S n' => s ← vget services i; rest ← fork_up n' (i + 1) services; Ok (Fork (object s) :: rest)
  end.
Fixpoint fork_down (n : nat) (services : list service) : outcome (list service_event) :=
  match n with
  | O => Ok []
  | S n' => s ← vget services (Z.of_nat n - 1); rest ← fork_down n' services; Ok (Fork (object s) :: rest)
  end.
Definition notify_fork (prepare : bool) (services : list service) : outcome (list service_event) :=
  let num_services := length services in
  if prepare then fork_up num_services 0 services else fork_down num_services services.

(** ** Threads *)
Inductive frame :=
  | FUse (key : service_key)                    (* do_use_service, about to lock *)
  | FMake (key : service_key) (used : list Z)   (* the factory runs, and has used services *)
  | FCheck (key : service_key) (o : Z)          (* [o] is made, about to lock again *)
  | FLoser (key : service_key) (o result : Z)   (* the destructor of [o] runs, with the mutex locked *)
  | FAdd (key : service_key) (o : Z)            (* do_add_service, about to lock *)
  | FHas (key : service_key).                   (* do_has_service, about to lock *)

Record registry := Registry {
  first_service_ : list service;
  locked : bool;
  stacks : gmap Z (list frame);
  uses : list (Z * Z);
  made : list Z;
  destroyed : list Z;
  refused : list Z;                    (* objects that do_add_service left to its caller *)
  returned : list (service_key * Z)    (* what do_use_service returned *)
}.
Definition registry_new (key : service_key) (o : Z) : registry := Registry [Svc key o] false ∅ [] [o] [] [] [].

Definition set_calls (t : Z) (l : list frame) (r : registry) : registry :=
  Registry (first_service_ r) (locked r) (<[t := l]> (stacks r)) (uses r) (made r) (destroyed r) (refused r) (returned r).
Definition set_locked (b : bool) (r : registry) : registry :=
  Registry (first_service_ r) b (stacks r) (uses r) (made r) (destroyed r) (refused r) (returned r).
Definition add_front (key : service_key) (o : Z) (r : registry) : registry :=
  Registry (Svc key o :: first_service_ r) (locked r) (stacks r) (uses r) (made r) (destroyed r) (refused r) (returned r).
Definition add_made (o : Z) (used : list Z) (r : registry) : registry :=
  Registry (first_service_ r) (locked r) (stacks r) (uses r ++ ((fun d => (o, d)) <$> used)) (made r ++ [o]) (destroyed r) (refused r) (returned r).
Definition add_destroyed (o : Z) (r : registry) : registry :=
  Registry (first_service_ r) (locked r) (stacks r) (uses r) (made r) (destroyed r ++ [o]) (refused r) (returned r).
Definition add_refused (o : Z) (r : registry) : registry :=
  Registry (first_service_ r) (locked r) (stacks r) (uses r) (made r) (destroyed r) (refused r ++ [o]) (returned r).

(** do_use_service returns [o] to the frame below, a constructor perhaps. *)
Definition return_service (t : Z) (key : service_key) (o : Z) (l : list frame) (r : registry) : registry :=
  let l := match l with FMake key' used :: l' => FMake key' (used ++ [o]) :: l' | _ => l end in
  Registry (first_service_ r) (locked r) (<[t := l]> (stacks r)) (uses r) (made r) (destroyed r) (refused r) (returned r ++ [(key, o)]).

(** ** Interleavings *)
Inductive action :=
  | AUse (t : Z) (key : service_key)
  | AHas (t : Z) (key : service_key)
  | AAdd (t : Z) (key : service_key) (o : Z) (owned : bool)  (* [owned]: the object belongs to this io_service *)
  | AMade (t o : Z)                   (* the factory returns a new object *)
  | AThrow (t : Z)                    (* ... or throws *)
  | ADestructed (t : Z)               (* the destructor of the object that came too late returns *)
  | AStep (t : Z).                    (* the thread locks the mutex, and goes on to where it unlocks *)

(** Outside the registry, in a constructor or in a destructor *)
Definition in_user_code (l : list frame) : bool := match l with [] | FMake _ _ :: _ | FLoser _ _ _ :: _ => true | _ => false end.
Definition calls_of (t : Z) (r : registry) : list frame := stacks r !!! t.

(** do_use_service with the mutex locked, before and after the factory *)
Definition use_section (t : Z) (key : service_key) (l : list frame) (r : registry) : registry :=
  match find_service key (first_service_ r) with
  | Some o => return_service t key o l r
  | None => set_calls t (FMake key [] :: l) r
  end.
Definition check_section (t : Z) (key : service_key) (o : Z) (l : list frame) (r : registry) : registry :=
  match find_service key (first_service_ r) with
  | Some o' => set_locked true (set_calls t (FLoser key o o' :: l) r)
  | None => return_service t key o l (add_front key o r)
  end.
(** do_add_service with the mutex locked *)
Definition add_section (t : Z) (key : service_key) (o : Z) (l : list frame) (r : registry) : registry :=
  match find_service key (first_service_ r) with
  | Some _ => add_refused o (set_calls t l r)
  | None => add_front key o (set_calls t l r)
  end.
(** ... and what do_has_service finds, which changes nothing *)
Definition do_has_service (key : service_key) (services : list service) : bool :=
  match find_service key services with Some _ => true | None => false end.

Definition locked_section (t : Z) (r : registry) : option registry :=
  match calls_of t r with
  | FUse key :: l => Some (use_section t key l r)
  | FCheck key o :: l => Some (check_section t key o l r)
  | FAdd key o :: l => Some (add_section t key o l r)
  | FHas key :: l => Some (set_calls t l r)
  | _ => None
  end.

(** [None]: the action is not possible here. *)
Definition act (a : action) (r : registry) : option registry :=
  let new o := bool_decide (o ∉ made r) in
  let call t f := if in_user_code (calls_of t r) then Some (set_calls t (f :: calls_of t r) r) else None in
  match a with
  | AUse t key => call t (FUse key)
  | AHas t key => call t (FHas key)
  | AAdd t key o owned =>
    if in_user_code (calls_of t r) && new o then
      let r := add_made o [] r in
      Some (if owned then set_calls t (FAdd key o :: calls_of t r) r else add_refused o (set_calls t (calls_of t r) r))
    else None
  | AMade t o =>
    match calls_of t r with
    | FMake key used :: l => if new o then Some (set_calls t (FCheck key o :: l) (add_made o used r)) else None
    | _ => None
    end
  | AThrow t => match calls_of t r with FMake key used :: l => Some (set_calls t l r) | _ => None end
  | ADestructed t =>
    match calls_of t r with
    | FLoser key o result :: l => Some (return_service t key result l (set_locked false (add_destroyed o r)))
    | _ => None
    end
  | AStep t => if locked r then None else locked_section t r
  end.

Fixpoint acts (l : list action) (r : registry) : option registry :=
  match l with [] => Some r | a :: l' => match act a r with Some r' => acts l' r' | None => None end end.

(** ** Lemmas: keys *)
Definition good_key (k : service_key) : Prop := (exists i, k = init_key i) \/ exists ti, k = init_key_type ti.

Lemma keys_match_eq k1 k2 : good_key k1 -> good_key k2 -> keys_match k1 k2 = true <-> k1 = k2.
Proof.
  intros [[i ->]|[i ->]] [[j ->]|[j ->]]; unfold keys_match, init_key, init_key_type; cbn; rewrite ?orb_false_r, ?Z.eqb_eq; split; congruence.
Qed.

Definition objects (l : list service) : list Z := object <$> l.

Lemma find_service_some k l o : good_key k -> Forall (fun s => good_key (key_ s)) l -> find_service k l = Some o -> Svc k o ∈ l.
Proof.
  intros Hk. induction 1 as [|[k' o'] l Hs _ IH]; cbn [find_service key_ object]; [done|]. destruct (keys_match k' k) eqn:E.
  - intros [= ->]. apply keys_match_eq in E as ->; [by left|done|done].
  - intros Hf. right. by apply IH.
Qed.

Lemma find_service_none k l : good_key k -> Forall (fun s => good_key (key_ s)) l -> find_service k l = None -> k ∉ (key_ <$> l).
Proof.
  intros Hk. induction 1 as [|[k' o'] l Hs _ IH]; cbn [find_service key_ object]; [by intros _ ?%elem_of_nil|]. destruct (keys_match k' k) eqn:E; [done|].
  intros Hf. cbn. apply not_elem_of_cons. split; [|by apply IH]. intros ->. by rewrite (proj2 (keys_match_eq k' k' Hs Hs) eq_refl) in E.
Qed.

(** ** Lemmas: what holds between the sections *)
Section Invariant.
Implicit Types (r : registry) (k : service_key).

(** The object that a frame has, which nobody else owns *)
Definition pending (f : frame) : list Z := match f with FCheck _ o | FLoser _ o _ | FAdd _ o => [o] | _ => [] end.
Definition all_pending (l : list frame) : list Z := l ≫= pending.

Definition frame_ok r (f : frame) : Prop :=
  match f with
  | FUse k | FHas k => good_key k
  | FMake k used => good_key k /\ forall d, d ∈ used -> d ∈ objects (first_service_ r)
  | FCheck k o | FAdd k o => good_key k /\ o ∈ made r /\ forall d, (o, d) ∈ uses r -> d ∈ objects (first_service_ r)
  | FLoser k o result => good_key k /\ Svc k result ∈ first_service_ r
  end.

Record registry_ok r : Prop := {
  ro_good : Forall (fun s => good_key (key_ s)) (first_service_ r);
  ro_keys : NoDup (key_ <$> first_service_ r);
  ro_frames t : Forall (frame_ok r) (calls_of t r);
  ro_returned k o : (k, o) ∈ returned r -> Svc k o ∈ first_service_ r;
  ro_places : made r ≡ₚ objects (first_service_ r) ++ mcat all_pending (stacks r) ++ destroyed r ++ refused r;
  ro_made : NoDup (made r);
  ro_uses o d : (o, d) ∈ uses r -> o ∈ made r;
  ro_order l1 s l2 d : first_service_ r = l1 ++ s :: l2 -> (object s, d) ∈ uses r -> d ∈ objects l2
}.

(** Services are only added, in front, and what an object used is known when it is made. *)
Record grows r r' : Prop := {
  gr_services : exists new, first_service_ r' = new ++ first_service_ r;
  gr_made o : o ∈ made r -> o ∈ made r';
  gr_uses o d : o ∈ made r -> (o, d) ∈ uses r' -> (o, d) ∈ uses r
}.

Lemma grows_frame r r' f : grows r r' -> frame_ok r f -> frame_ok r' f.
Proof.
  intros [[new Hs] Hm Hu] Hf. assert (forall d, d ∈ objects (first_service_ r) -> d ∈ objects (first_service_ r')) as Hin.
  { intros d Hd. rewrite Hs. unfold objects in *. rewrite fmap_app. apply elem_of_app. by right. }
  destruct f as [k|k used|k o|k o res|k o|k]; cbn [frame_ok] in *; [done| | | | |done].
  - destruct Hf. split; [done|]. auto.
  - destruct Hf as (? & ? & ?). split_and!; auto.
  - destruct Hf. split; [done|]. rewrite Hs. apply elem_of_app. by right.
  - destruct Hf as (? & ? & ?). split_and!; auto.
Qed.

Lemma grows_frames r r' t l : grows r r' -> stacks r' = <[t := l]> (stacks r) -> Forall (frame_ok r') l ->
  (forall t', Forall (frame_ok r) (calls_of t' r)) -> forall t', Forall (frame_ok r') (calls_of t' r').
Proof.
  intros Hg Hs Hl Hr t'. unfold calls_of. rewrite Hs. destruct (Z.eq_dec t' t) as [->|Hne]; [by rewrite lookup_total_insert_eq|].
  rewrite lookup_total_insert_ne by done. eapply Forall_impl; [apply Hr|]. intros f. by apply grows_frame.
Qed.

Lemma pending_insert r t l : mcat all_pending (<[t := l]> (stacks r)) ++ all_pending (calls_of t r) ≡ₚ mcat all_pending (stacks r) ++ all_pending l.
Proof. by apply mcat_insert. Qed.

(** One thread takes a step: [pre] is added to the services, [nm] is made, [us] used, and so on. *)
Record change t l pre nm us ds rf ret r r' : Prop := {
  cg_stacks : stacks r' = <[t := l]> (stacks r);
  cg_services : first_service_ r' = pre ++ first_service_ r;
  cg_made : made r' = made r ++ nm;
  cg_uses : uses r' = uses r ++ us;
  cg_destroyed : destroyed r' = destroyed r ++ ds;
  cg_refused : refused r' = refused r ++ rf;
  cg_returned : returned r' = returned r ++ ret;
  cg_pre : pre = [] \/ exists k o, pre = [Svc k o] /\ good_key k /\ k ∉ (key_ <$> first_service_ r) /\ o ∈ made r /\
    forall d, (o, d) ∈ uses r -> d ∈ objects (first_service_ r);
  cg_new : NoDup (made r ++ nm);
  cg_fresh o d : (o, d) ∈ us -> o ∈ nm;
  cg_ret k o : (k, o) ∈ ret -> Svc k o ∈ first_service_ r';
  cg_frames : grows r r' -> Forall (frame_ok r') l;
  cg_places : nm ++ all_pending (calls_of t r) ≡ₚ objects pre ++ all_pending l ++ ds ++ rf
}.

Lemma change_ok t l pre nm us ds rf ret r r' : change t l pre nm us ds rf ret r r' -> registry_ok r -> registry_ok r'.
Proof.
  intros [Cs Cv Cm Cu Cd Cf Cr Hpre Hnew Hfresh Hret Hfr Hpl] [Rg Rk Rf Rr Rp Rm Ru Ro].
  assert (grows r r') as Hg.
  { split; [by exists pre|by intros o Ho; rewrite Cm; apply elem_of_app; left|]. intros o d Ho. rewrite Cu.
    intros [?|Hu]%elem_of_app; [done|]. apply Hfresh in Hu. apply NoDup_app in Hnew as (_ & Hd & _). by destruct (Hd o Ho). }
  assert (forall o, o ∈ objects (first_service_ r) -> o ∈ made r) as Hin by (intros o Ho; rewrite Rp; apply elem_of_app; by left).
  split.
  - rewrite Cv. apply Forall_app. split; [|done]. destruct Hpre as [->|(k & o & -> & Hk & _)]; [by apply Forall_nil_2|by apply Forall_singleton].
  - rewrite Cv. destruct Hpre as [->|(k & o & -> & _ & Hk & _)]; [done|]. by apply NoDup_cons.
  - by eapply grows_frames; [|exact Cs|apply Hfr|].
  - intros k o. rewrite Cr. intros [Hin'|Hin']%elem_of_app; [|by apply Hret]. rewrite Cv. apply elem_of_app. right. by apply Rr.
  - rewrite Cm, Cd, Cf, Cv, Cs, Rp. unfold objects. rewrite fmap_app. fold (objects pre) (objects (first_service_ r)).
    apply (Permutation_app_inv_r (all_pending (calls_of t r))). pose proof (pending_insert r t l) as Hi.
    transitivity (objects (first_service_ r) ++ mcat all_pending (stacks r) ++ destroyed r ++ refused r ++ (nm ++ all_pending (calls_of t r))); [solve_Permutation|].
    rewrite Hpl. transitivity (objects (first_service_ r) ++ (mcat all_pending (stacks r) ++ all_pending l) ++ destroyed r ++ refused r ++ objects pre ++ ds ++ rf); [solve_Permutation|].
    rewrite <- Hi. solve_Permutation.
  - by rewrite Cm.
  - intros o d. rewrite Cu, Cm. intros [Hu|Hu]%elem_of_app; apply elem_of_app; [left; by eapply Ru|right; by eapply Hfresh].
  - intros l1 x l2 d E Hu. rewrite Cv in E. destruct Hpre as [->|(k & o & -> & _ & _ & Ho & Hd)].
    + cbn [app] in E. eapply Ro; [exact E|]. eapply gr_uses; [done| |done]. apply Hin. unfold objects. rewrite E. apply list_elem_of_fmap_2, elem_of_app. right; left.
    + destruct l1 as [|y l1]; cbn [app] in E; injection E as <- E.
      * rewrite <- E. apply Hd. by eapply gr_uses.
      * eapply Ro; [exact E|]. eapply gr_uses; [done| |done]. apply Hin. unfold objects. rewrite E. apply list_elem_of_fmap_2, elem_of_app. right; left.
Qed.

(** What returns to the frame below: a constructor, if it asked, has used the result. *)
Definition below (o : Z) (l : list frame) : list frame := match l with FMake k used :: l' => FMake k (used ++ [o]) :: l' | _ => l end.

Lemma below_pending o l : all_pending (below o l) = all_pending l.
Proof. by destruct l as [|[] l]. Qed.

Lemma below_ok r o l : Forall (frame_ok r) l -> o ∈ objects (first_service_ r) -> Forall (frame_ok r) (below o l).
Proof.
  destruct l as [|[] l]; try done. intros [[Hk Hd] Hl]%Forall_cons Ho. apply Forall_cons. split; [|done]. split; [done|].
  intros d [Hin| ->%list_elem_of_singleton]%elem_of_app; auto.
Qed.

Lemma service_object k o l : Svc k o ∈ l -> o ∈ objects l.
Proof. intros Hin. by apply (list_elem_of_fmap_2 object) in Hin. Qed.

Lemma frames_tail r r' t f l : grows r r' -> (forall t, Forall (frame_ok r) (calls_of t r)) -> calls_of t r = f :: l ->
  frame_ok r' f /\ Forall (frame_ok r') l.
Proof.
  intros Hg Hf E. specialize (Hf t). rewrite E in Hf. apply Forall_cons in Hf as [Hf Hl]. split; [by eapply grows_frame|].
  eapply Forall_impl; [exact Hl|]. intros g. by apply grows_frame.
Qed.

Lemma grows_refl r r' : first_service_ r' = first_service_ r -> made r' = made r -> uses r' = uses r -> grows r r'.
Proof. intros E1 E2 E3. split; [by exists []|by rewrite E2|by rewrite E3]. Qed.

(** The parts of a [change] that are about nothing *)
Ltac change_parts := split; cbn; rewrite ?app_nil_r; try done; try (by left); try (by intros ? ? ?%elem_of_nil).
Ltac one_result := by intros ? ? [= -> ->]%list_elem_of_singleton.

Lemma locked_ok t r r' : registry_ok r -> locked_section t r = Some r' -> registry_ok r'.
Proof.
  intros Hok E. pose proof Hok as [Rg Rk Rf Rr Rp Rm Ru Ro]. unfold locked_section in E.
  destruct (calls_of t r) as [|[k|k used|k o|k o res|k o|k] l] eqn:Ec; try done;
    destruct (frames_tail r r t _ _ (grows_refl r r eq_refl eq_refl eq_refl) Rf Ec) as [Hk Hl]; cbn in Hk.
  - injection E as <-. unfold use_section. destruct (find_service k (first_service_ r)) as [o|] eqn:Ef.
    + pose proof (find_service_some k _ o Hk Rg Ef) as Hin.
      eapply (change_ok t (below o l) [] [] [] [] [] [(k, o)]); [|done]. change_parts; [one_result| |by rewrite below_pending, Ec].
      intros _. apply below_ok; [done|]. by eapply service_object.
    + eapply (change_ok t (FMake k [] :: l) [] [] [] [] [] []); [|done]. change_parts; [|by rewrite Ec].
      intros _. apply Forall_cons. split; [|done]. split; [done|]. by intros d ?%elem_of_nil.
  - injection E as <-. unfold check_section. destruct Hk as (Hk & Ho & Hd). destruct (find_service k (first_service_ r)) as [o'|] eqn:Ef.
    + pose proof (find_service_some k _ o' Hk Rg Ef) as Hin.
      eapply (change_ok t (FLoser k o o' :: l) [] [] [] [] [] []); [|done]. change_parts; [|by rewrite Ec]. intros _. by apply Forall_cons.
    + eapply (change_ok t (below o l) [Svc k o] [] [] [] [] [(k, o)]); [|done]. change_parts.
      * right. exists k, o. split_and!; try done. by apply find_service_none.
      * intros ? ? [= -> ->]%list_elem_of_singleton. by left.
      * intros Hg. apply below_ok; [by apply (frames_tail r _ t _ _ Hg Rf Ec)|]. by left.
      * by rewrite below_pending, Ec.
  - injection E as <-. unfold add_section. destruct Hk as (Hk & Ho & Hd). destruct (find_service k (first_service_ r)) as [o'|] eqn:Ef.
    + eapply (change_ok t l [] [] [] [] [o] []); [|done]. change_parts. rewrite Ec. cbn. solve_Permutation.
    + eapply (change_ok t l [Svc k o] [] [] [] [] []); [|done]. change_parts.
      * right. exists k, o. split_and!; try done. by apply find_service_none.
      * intros Hg. by apply (frames_tail r _ t _ _ Hg Rf Ec).
      * by rewrite Ec.
  - injection E as <-. eapply (change_ok t l [] [] [] [] [] []); [|done]. change_parts. by rewrite Ec.
Qed.

(** The program uses the keys that the registry makes. *)
Definition good_action (a : action) : Prop :=
  match a with AUse _ k | AHas _ k | AAdd _ k _ _ => good_key k | _ => True end.

Lemma new_object r o : registry_ok r -> o ∉ made r -> NoDup (made r ++ [o]).
Proof. intros Hok Ho. apply NoDup_app. split_and!; [apply Hok| |apply NoDup_singleton]. by intros x Hx ->%list_elem_of_singleton. Qed.

Lemma registry_act_ok a r r' : registry_ok r -> good_action a -> act a r = Some r' -> registry_ok r'.
Proof.
  intros Hok Ha E. pose proof Hok as [Rg Rk Rf Rr Rp Rm Ru Ro]. destruct a as [t k|t k|t k o owned|t o|t|t|t]; cbn [act] in E.
  - destruct (in_user_code _); [|done]. injection E as <-.
    eapply (change_ok t (FUse k :: calls_of t r) [] [] [] [] [] []); [|done]. change_parts. intros _. by apply Forall_cons.
  - destruct (in_user_code _); [|done]. injection E as <-.
    eapply (change_ok t (FHas k :: calls_of t r) [] [] [] [] [] []); [|done]. change_parts. intros _. by apply Forall_cons.
  - destruct (in_user_code _); [|done]. cbn [andb] in E. case_bool_decide as Ho; [|done]. injection E as <-. destruct owned.
    + eapply (change_ok t (FAdd k o :: calls_of t r) [] [o] [] [] [] []); [|done]. change_parts; [by apply new_object|].
      intros Hg. apply Forall_cons. split.
      * split_and!; [done|cbn; apply elem_of_app; right; left|]. cbn. intros d Hd. rewrite app_nil_r in Hd. by apply Ru in Hd.
      * eapply Forall_impl; [apply Rf|]. intros f. by apply grows_frame.
    + eapply (change_ok t (calls_of t r) [] [o] [] [] [o] []); [|done]. change_parts; [by apply new_object| |apply Permutation_cons_append].
      intros Hg. eapply Forall_impl; [apply Rf|]. intros f. by apply grows_frame.
  - destruct (calls_of t r) as [|[k|k used|k o1|k o1 res|k o1|k] l] eqn:Ec; try done. case_bool_decide as Ho; [|done]. injection E as <-.
    eapply (change_ok t (FCheck k o :: l) [] [o] ((fun d => (o, d)) <$> used) [] [] []); [|done].
    change_parts; [by apply new_object| | |by rewrite Ec].
    + intros o1 d (d' & [= -> ->] & _)%list_elem_of_fmap. by apply list_elem_of_singleton.
    + intros Hg. destruct (frames_tail r _ t _ _ Hg Rf Ec) as [[Hk Hu] Hl]. apply Forall_cons. split; [|done]. cbn in *.
      split_and!; [done|apply elem_of_app; right; left|]. intros d [Hd|(d' & [= ->] & Hd)%list_elem_of_fmap]%elem_of_app; [by apply Ru in Hd|by apply Hu].
  - destruct (calls_of t r) as [|[k|k used|k o1|k o1 res|k o1|k] l] eqn:Ec; try done. injection E as <-.
    eapply (change_ok t l [] [] [] [] [] []); [|done]. change_parts; [|by rewrite Ec]. intros Hg. by apply (frames_tail r _ t _ _ Hg Rf Ec).
  - destruct (calls_of t r) as [|[k|k used|k o1|k o res|k o1|k] l] eqn:Ec; try done. injection E as <-.
    destruct (frames_tail r r t _ _ (grows_refl r r eq_refl eq_refl eq_refl) Rf Ec) as [[Hk Hin] _].
    eapply (change_ok t (below res l) [] [] [] [o] [] [(k, res)]); [|done]. change_parts.
    + one_result.
    + intros Hg. apply below_ok; [by apply (frames_tail r _ t _ _ Hg Rf Ec)|]. by eapply service_object.
    + rewrite below_pending, Ec. cbn. solve_Permutation.
  - destruct (locked r); [done|]. by eapply locked_ok.
Qed.

Lemma registry_acts_ok l : forall r r', registry_ok r -> Forall good_action l -> acts l r = Some r' -> registry_ok r'.
Proof.
  induction l as [|a l IH]; intros r r' Hok Hl E; cbn [acts] in E; [by injection E as <-|]. apply Forall_cons in Hl as [Ha Hl].
  destruct (act a r) as [r1|] eqn:E1; [|done]. eapply IH; [by eapply registry_act_ok|done|done].
Qed.

Lemma registry_new_ok k o : good_key k -> registry_ok (registry_new k o).
Proof.
  intros Hk. split; cbn; [by apply Forall_singleton|apply NoDup_singleton| | | |apply NoDup_singleton| |].
  - intros t. unfold calls_of. cbn. rewrite lookup_total_alt, lookup_empty. apply Forall_nil_2.
  - by intros ? ? ?%elem_of_nil.
  - by rewrite mcat_empty.
  - by intros ? ? ?%elem_of_nil.
  - by intros ? ? ? ? _ ?%elem_of_nil.
Qed.

(** No thread is in a constructor or a destructor, and the mutex is locked: nobody will
    unlock it. *)
Definition stuck r : Prop := locked r = true /\
  forall t, match calls_of t r with FMake _ _ :: _ | FLoser _ _ _ :: _ => False | _ => True end.

Lemma stuck_set t f r r' : stuck r -> locked r' = locked r -> stacks r' = <[t := f :: calls_of t r]> (stacks r) ->
  match f with FMake _ _ | FLoser _ _ _ => False | _ => True end -> stuck r'.
Proof.
  intros [Hl Hs] E1 E2 Hf. split; [by rewrite E1|]. intros t'. unfold calls_of in *. rewrite E2.
  destruct (Z.eq_dec t' t) as [->|Hne]; [rewrite lookup_total_insert_eq; by destruct f|]. rewrite lookup_total_insert_ne by done. apply Hs.
Qed.

Lemma stuck_act a r r' : stuck r -> act a r = Some r' -> stuck r'.
Proof.
  intros Hst E. pose proof Hst as [Hl Hs]. destruct a as [t k|t k|t k o owned|t o|t|t|t]; cbn [act] in E; try specialize (Hs t).
  - destruct (in_user_code _); [|done]. injection E as <-. by eapply stuck_set.
  - destruct (in_user_code _); [|done]. injection E as <-. by eapply stuck_set.
  - destruct (_ && _); [|done]. injection E as <-. destruct owned; [by eapply (stuck_set t (FAdd k o))|].
    split; [done|]. intros t'. destruct Hst as [_ Hs']. specialize (Hs' t'). unfold calls_of in *. cbn.
    destruct (Z.eq_dec t' t) as [->|Hne]; [by rewrite lookup_total_insert_eq|]. by rewrite lookup_total_insert_ne.
  - by destruct (calls_of t r) as [|[] l].
  - by destruct (calls_of t r) as [|[] l].
  - by destruct (calls_of t r) as [|[] l].
  - by rewrite Hl in E.
Qed.

Lemma stuck_acts l : forall r r', stuck r -> acts l r = Some r' -> stuck r'.
Proof.
  induction l as [|a l IH]; intros r r' Hst E; cbn [acts] in E; [by injection E as <-|].
  destruct (act a r) as [r1|] eqn:E1; [|done]. eapply IH; [by eapply stuck_act|done].
Qed.
End Invariant.

(** ** Lemmas: the order of destruction and of fork events *)
Lemma shutdown_list l : shutdown_all l = Shutdown <$> objects l.
Proof. induction l as [|s l IH]; [done|]. cbn [shutdown_all]. by rewrite IH. Qed.

Lemma destroy_list l : destroy_all l = Destroy <$> objects l.
Proof. induction l as [|s l IH]; [done|]. cbn [destroy_all]. by rewrite IH. Qed.

Lemma fork_up_spec l pre : fork_up (length l) (vlen pre) (pre ++ l) = Ok (Fork <$> objects l).
Proof.
  revert pre. induction l as [|s l IH]; intros pre; [done|]. cbn [length fork_up].
  rewrite (proj2 (vget_Ok (pre ++ s :: l) (vlen pre) s)).
  - cbn [mbind outcome_bind]. specialize (IH (pre ++ [s])). rewrite vlen_app, <- app_assoc in IH. change (vlen [s]) with 1 in IH.
    cbn [app] in IH. by rewrite IH.
  - split; [apply vlen_nonneg|]. unfold vlen. by rewrite Nat2Z.id, list_lookup_middle.
Qed.

Lemma fork_down_spec l post : fork_down (length l) (l ++ post) = Ok (Fork <$> reverse (objects l)).
Proof.
  revert post. induction l as [|s l IH] using rev_ind; intros post; [done|]. rewrite length_app, Nat.add_comm. cbn [length Nat.add fork_down].
  rewrite <- app_assoc. rewrite (proj2 (vget_Ok (l ++ [s] ++ post) _ s)).
  - cbn [mbind outcome_bind]. rewrite IH. unfold objects. by rewrite fmap_app, reverse_app.
  - split; [lia|]. replace (Z.to_nat _) with (length l) by lia. cbn [app]. by rewrite list_lookup_middle.
Qed.

(** ** Properties *)

(** C30. One service of each kind: for every interleaving of threads that use, test and
    add services, also in the constructors and destructors of services, the registry
    never has two services with the same key; do_use_service returns to all callers the
    one with their key, which stays registered; and every object that was made is in one
    place only: registered, with a call that is about to register or destroy it,
    destroyed, or left to the caller of add_service. *)
Theorem services_unique k0 o0 l r : good_key k0 -> Forall good_action l -> acts l (registry_new k0 o0) = Some r ->
  NoDup (key_ <$> first_service_ r) /\
  (forall k o, (k, o) ∈ returned r -> Svc k o ∈ first_service_ r /\ do_has_service k (first_service_ r) = true) /\
  (forall k o o', (k, o) ∈ returned r -> (k, o') ∈ returned r -> o = o') /\
  made r ≡ₚ objects (first_service_ r) ++ mcat all_pending (stacks r) ++ destroyed r ++ refused r /\ NoDup (made r).
Proof.
  intros Hk Hl E. pose proof (registry_acts_ok l _ _ (registry_new_ok k0 o0 Hk) Hl E) as [Rg Rk Rf Rr Rp Rm Ru Ro]. split_and!; try done.
  { intros k o H1%Rr. split; [done|]. unfold do_has_service. destruct (find_service k _) eqn:Ef; [done|].
    rewrite Forall_forall in Rg. apply find_service_none in Ef; [|by apply (Rg _ H1)|by apply Forall_forall]. exfalso. apply Ef.
    by apply (list_elem_of_fmap_2 key_) in H1. }
  intros k o o' H1%Rr H2%Rr. apply list_elem_of_lookup in H1 as [i Hi]. apply list_elem_of_lookup in H2 as [j Hj].
  assert (i = j) as ->; [|by rewrite Hi in Hj; injection Hj].
  eapply (NoDup_lookup _ _ _ k Rk); rewrite list_lookup_fmap; [by rewrite Hi|by rewrite Hj].
Qed.

(** C31. The end of an io_service: ~service_registry shuts every service down before it
    destroys any of them, destroys each once, and destroys a service before the services
    that its constructor used, however threads created them; a fork event reaches every
    service once, in that order before the fork and in the other after it. *)
Theorem teardown_order k0 o0 l r : good_key k0 -> Forall good_action l -> acts l (registry_new k0 o0) = Some r ->
  registry_delete (first_service_ r) = (Shutdown <$> objects (first_service_ r)) ++ (Destroy <$> objects (first_service_ r)) /\
  NoDup (objects (first_service_ r)) /\
  (forall o d, o ∈ objects (first_service_ r) -> (o, d) ∈ uses r ->
     exists a b c, registry_delete (first_service_ r) = a ++ Destroy o :: b ++ Destroy d :: c) /\
  notify_fork true (first_service_ r) = Ok (Fork <$> objects (first_service_ r)) /\
  notify_fork false (first_service_ r) = Ok (Fork <$> reverse (objects (first_service_ r))).
Proof.
  intros Hk Hl E. pose proof (registry_acts_ok l _ _ (registry_new_ok k0 o0 Hk) Hl E) as [Rg Rk Rf Rr Rp Rm Ru Ro].
  assert (registry_delete (first_service_ r) = (Shutdown <$> objects (first_service_ r)) ++ (Destroy <$> objects (first_service_ r))) as Hd
    by (unfold registry_delete; by rewrite shutdown_list, destroy_list).
  split_and!; [done|rewrite Rp in Rm; by apply NoDup_app in Rm as [? _]| | |].
  - intros o d (s & -> & Hs)%list_elem_of_fmap Hu. apply list_elem_of_split in Hs as (l1 & l2 & Es).
    pose proof (Ro _ _ _ _ Es Hu) as (s' & -> & Hs')%list_elem_of_fmap. apply list_elem_of_split in Hs' as (l3 & l4 & ->).
    rewrite Hd, Es. unfold objects. rewrite !fmap_app, !fmap_cons, fmap_app, fmap_cons.
    exists ((Shutdown <$> (object <$> l1 ++ s :: l3 ++ s' :: l4)) ++ (Destroy <$> (object <$> l1))), (Destroy <$> (object <$> l3)), (Destroy <$> (object <$> l4)).
    rewrite !fmap_app, !fmap_cons, !fmap_app, !fmap_cons, <- !app_assoc. done.
  - apply (fork_up_spec (first_service_ r) []).
  - unfold notify_fork. pose proof (fork_down_spec (first_service_ r) []) as Hf. by rewrite app_nil_r in Hf.
Qed.

(** Two threads use the same service for the first time, and the destructor of the object
    that comes too late uses another service. *)
Definition loser_trace : list action :=
  [AUse 1 (init_key_type 5); AStep 1; AUse 2 (init_key_type 5); AStep 2; AMade 1 101; AStep 1; AMade 2 102; AStep 2; AUse 2 (init_key_type 6)].

(** C32. A deadlock: do_use_service destroys the object that comes too late with the
    mutex locked.  If its destructor calls the registry, the thread waits for a mutex that
    it holds, and from then on no call of the registry, in any thread, ever goes on. *)
Theorem loser_deadlocks : exists r, acts loser_trace (registry_new (init_key 0) 100) = Some r /\
  forall l r', acts l r = Some r' -> forall t o, act (AStep t) r' = None /\ act (ADestructed t) r' = None /\ act (AMade t o) r' = None.
Proof.
  eexists. split; [vm_compute; reflexivity|]. set (r := Registry _ _ _ _ _ _ _ _). assert (stuck r) as Hst.
  { split; [done|]. intros t. unfold calls_of.
    assert (stacks r = <[1 := []]> (<[2 := [FUse (init_key_type 6); FLoser (init_key_type 5) 102 101]]> ∅)) as -> by (vm_compute; reflexivity).
    destruct (Z.eq_dec t 1) as [->|H1]; [by rewrite lookup_total_insert_eq|]. rewrite lookup_total_insert_ne by done.
    destruct (Z.eq_dec t 2) as [->|H2]; [by rewrite lookup_total_insert_eq|]. rewrite lookup_total_insert_ne by done.
    by rewrite lookup_total_alt, lookup_empty. }
  intros l r' E t o. destruct (stuck_acts l r r' Hst E) as [Hlk Hs]. specialize (Hs t). cbn [act]. rewrite Hlk.
  by destruct (calls_of t r') as [|[] ls].
Qed.

(** A constructor that uses another service, which a second thread also uses *)
Definition nested_trace : list action :=
  [AUse 1 (init_key_type 5); AStep 1; AUse 1 (init_key 7); AStep 1; AUse 2 (init_key 7); AStep 2; AMade 1 101; AStep 1; AMade 2 102;
   AMade 1 103; AStep 1; AStep 2; ADestructed 2].

Ltac good_trace :=
  repeat (apply Forall_cons; split; [cbn; first [exact I|left; eexists; reflexivity|right; eexists; reflexivity]|]); apply Forall_nil_2.

Lemma services_unique_witness : exists r, acts nested_trace (registry_new (init_key 0) 100) = Some r /\
  returned r = [(init_key 7, 101); (init_key_type 5, 103); (init_key 7, 101)] /\ NoDup (key_ <$> first_service_ r) /\ destroyed r = [102].
Proof.
  eexists. split; [vm_compute; reflexivity|]. split; [reflexivity|]. split; [|reflexivity].
  eapply (services_unique (init_key 0) 100 nested_trace).
  - left. by exists 0.
  - good_trace.
  - vm_compute. reflexivity.
Defined.

Lemma teardown_order_witness : exists r, acts nested_trace (registry_new (init_key 0) 100) = Some r /\ uses r = [(103, 101)] /\
  registry_delete (first_service_ r) = [Shutdown 103; Shutdown 101; Shutdown 100; Destroy 103; Destroy 101; Destroy 100].
Proof.
  eexists. split; [vm_compute; reflexivity|]. split; [reflexivity|].
  edestruct (teardown_order (init_key 0) 100 nested_trace) as [E _]; [left; by exists 0| |vm_compute; reflexivity|rewrite E; reflexivity].
  good_trace.
Defined.
